(* ===== verification/_CoqProject ===== *)
-Q . S2P
Prelude.v
Wp.v
Rounds.v
StdMap.v
Types.v
Protocol.v
Engine.v
EngineInv.v
EngineSpec.v
EngineBook.v
EngineProps.v
Outbox.v
Utf8.v
Bytes.v
Preflight.v
JsonGrammar.v
PreflightSound.v
PreflightComplete.v
PreflightProps.v
Codec.v
JsonTokens.v
CodecProps.v
CodecRoundtrip.v
CodecText.v
CodecTuned.v
EngineText.v
Feed.v
FeedProps.v
BenchRecorder.v
TelemetryRing.v
Telemetry.v
WriterThread.v
TelemetryProps.v
ShmRing.v
ShmSpsc.v
CachedHead.v
ShmHandle.v
SimdPricing.v
PricingProps.v
ShmClient.v
Clock.v
Percentile.v
StrategyNative.v
Decomp.v
RttProbe.v
NativeProbe.v
TsanProbe.v
Affinity.v
EngineOwners.v
World.v
MakeCodec.v
Shutdown.v
Keeps.v
Session.v
Server.v
Wire.v
SessionInv.v
SessionOps.v
SessionWrite.v
SessionRead.v
ShutdownInv.v
ServerInv.v
ServerSteps.v
ServerLoop.v
ServerDoor.v
ServerRun.v
ServerDispatch.v
Startup.v
ServerProps.v
ServerLive.v
ServerDemo.v
ServerClaims.v
WireClaims.v
ServerDrain.v
Main.v
