(* ===== verification/Prelude.v ===== *)
(** * mm_engine: a verification library for the market-making engine

    The program under [src/cpp] is a mock exchange for one instrument: market
    makers connect over WebSocket, a scenario file drives the top of the book,
    and one owner thread runs every handler.  This library models it function by
    function and proves what each part promises.  This file is the root: it holds
    the machine integers, the effect monad, the strict orders of the ordered
    containers and the tactics the other files share.

    ** How C++ is rendered

    Every integer is a [Z]; an unsigned operation that can wrap is written
    [u64] (or [u32]), a signed one that can overflow is checked and undefined
    past its range.  Code with effects is a computation [M S A]: it returns its
    final state on every outcome, [Ret], [Throw] or [UB].  A statement that may
    allocate consumes one boolean of an oracle and throws [bad_alloc] when it is
    [true], so the theorems about handlers hold for every pattern of allocation
    failures.  [UB] is a dangling iterator, an access out of bounds or a violated
    assertion.  Setters [set_x f] are assignments to a member.

    ** Parts, files and what is proved

    - Domain ([include/mm/types.hpp], [protocol.hpp]): [Types], [Protocol].  The
      instrument, the reject codes, [validate_order], the wire messages.
    - Order engine ([include/mm/engine.hpp], [src/engine.cpp]): [StdMap] is
      [std::map] as a sorted list, [Engine] the entry points statement by
      statement.  [EngineInv] has the invariant that ties orders, live indexes and
      counters together; [EngineSpec] a specification with one collection of orders
      and no index, which every entry point refines atomically ([EngineBook] for
      the sweep); [EngineProps] the theorems; [EngineOwners] the engine as the
      server uses it; [EngineText] that what it reports can be sent.
    - Outbox ([include/mm/outbox.hpp]): [Outbox].  Reports are never dropped or
      reordered, ticks conflate to the newest, the high-water latch stays.
    - Frame preflight ([src/frame_preflight.cpp]): [Utf8] and [Preflight] are the
      scanner; [JsonGrammar] is RFC 8259 as an inductive grammar; [PreflightSound],
      [PreflightComplete] and [PreflightProps] show it accepts exactly the
      documents of that grammar within the stated limits.
    - Codecs ([src/codec_nlohmann.cpp], [src/codec_glaze.cpp]): [Codec] is both
      arms' [decode] and the portable [encode], [CodecTuned] glaze's [encode] with
      its metadata tables, [MakeCodec] the factory.  The two libraries are
      parameters; what the code relies on are the hypotheses [nlohmann_ok],
      [glaze_ok] and [glaze_writes], gathered in [libraries_ok].  [JsonTokens],
      [CodecProps], [CodecRoundtrip] and [CodecText] show the arms decode alike,
      that what either encodes reads back, and that decoded text is text.
    - Scenario loader ([include/mm/feed.hpp], [src/feed.cpp]): [Feed], [FeedProps].
    - Bench recorder ([include/mm/bench_recorder.hpp]): [BenchRecorder], [Bytes].
    - Telemetry ([include/mm/telemetry_ring.hpp], [telemetry.hpp]): [TelemetryRing]
      is the two ends of the ring as atomic steps with stale acquire loads, for
      records of any type; [Telemetry] the writer's passes and the lines it formats
      into the stream, which are not the bytes that reach the disk, with their
      theorems in [TelemetryProps]; [WriterThread] the writer's and the owner's
      threads around them, with the mutex and the condition variable, shown to stop
      without a lost wake-up and to run only such passes; it relies on the owner
      that stops the writer being the producer.
    - Shared-memory ring ([include/mm/shm_ring.hpp]): [ShmRing] is the segment, the
      slots' bytes and the operations, which refine a bounded queue; [ShmSpsc] two
      processes sharing a segment, access by access; [ShmHandle] the ring objects
      with their descriptors and mappings over a table of the kernel's, and who
      releases them; [ShmClient] what a program reads from a popped slot.
      [CachedHead] is the ring variant of [bench/probes/ring_push_probe.cpp].
    - Native strategy ([include/mm/strategy_native.hpp], [simd_pricing.hpp]):
      [SimdPricing] is the pricing over binary64 in its three builds, the vector
      ones by lane, which [PricingProps] shows to price alike; [StrategyNative] the
      handlers, the one-quote automaton they refine, three behaviours it does not
      exclude and one that its premises do.
    - Probes ([bench/probes]): [Decomp] ([one_way_decomp_probe.cpp]), [RttProbe]
      ([shm_rtt_probe.cpp]) and [NativeProbe] ([native_mm_probe.cpp]) are their
      threads over the rings, a ring operation being one atomic turn, with the
      happens-before order of the vectors [native_mm_probe] shares, the clock of [Clock] ([clock_calibration.hpp]) and the order statistics of
      [Percentile].  [Rounds] is the argument they and [WriterThread] share: when
      one thread's turn always makes progress, fair rounds reach the end.
      [TsanProbe] ([tsan_struct_copy_probe.cpp]) races exactly when it says so.
    - Server ([include/mm/server.hpp], [src/server_impl.hpp], [server.cpp],
      [server_accept.cpp], [session.cpp], [session_close.cpp]): [World] is the state
      of [ServerImpl] with every [Session] object by its epoch; [Shutdown],
      [Session], [Server] and [Startup] are the member functions.  An asynchronous
      operation is a field of the state that its initiating function arms; a run is
      a list of completions, each allowed only while its operation is outstanding
      ([enabled]), dispatched to its handler ([dispatch], [io_run]).  The codec is
      the class [ICodec], the environment (clock, telemetry ring as the producer
      sees it, output files) the class [Env], the operating system at startup [Os].
    - Command line ([src/main.cpp]): [Main].  Thread affinity and page locking
      ([include/mm/affinity.hpp]): [Affinity].

    ** The server's proofs

    [Wp] is a weakest-precondition calculus over the monad: a handler must not
    reach [UB], and must leave [sess_dom] behind when it throws; its section [Ends]
    is the partial version the smaller programs use.  [SessionInv] has
    the invariant [core] of one session and [placed], the frame condition of an
    operation on it; [SessionOps], [SessionWrite] and [SessionRead] specify every
    member function of a session against them, [ShutdownInv] the shutdown path.
    [ServerInv] lifts this to the map ([base]), [ServerDoor] to admission ([door])
    and the timers ([ticking]); [ServerSteps], [ServerLoop], [ServerRun] and
    [ServerDispatch] show every event preserves the whole invariant, [ServerProps]
    every run from a booted server, [ServerLive] that failing completions empty a
    stopping server, [ServerDrain] that the completed writes of a closing session
    send what its close owes, and its close frame.  [Keeps] is a walk through a handler with an
    invariant; with it [Wire] shows everything queued to be sendable.
    [ServerClaims] and [WireClaims] state the theorems over reachable states: runs
    never go wrong; no orphan orders; a close is final; shutdown converges; no
    session is stranded; streams are numbered and encoded and read back; admission
    is bounded.  [ServerDemo] is a concrete server the witnesses run.

    ** Fuel and bounds

    Recursion that is not structural carries fuel, and a theorem says it is
    enough: the preflight loop, the feed scanner, [pump_loop] (one turn per queued
    message and one more), [wait_for_room] and [offer_fault] (the environment's
    bound on clock readings).  Server theorems are stated for fewer than 2^64
    events, so that epochs do not wrap.  The threads take as many turns as a
    schedule gives them; fair rounds suffice: nine for each round trip of the
    decomposition probe and two, six and six for the round-trip probe, and for the
    telemetry writer two capacities, three for each call and seven once it is told
    to stop.  Until then nothing bounds the owner's wait for the mutex, which the
    language does not promise to be fair.

    ** Not modelled

    The bodies of the third-party libraries (asio, Beast, nlohmann, glaze), which
    are parameters; the bytes of HTTP responses, socket options and the text of
    stderr lines; the compiler's freedom to contract or vectorise the scalar
    pricing loop, or to contract the arithmetic all builds share after it; the
    allocations inside the codecs and asio's initiating functions, at startup, and
    of growing sample vectors, which do not fail in the model; the timing modes of [ring_push_probe.cpp] and
    [simd_pricing_probe.cpp], which measure and decide nothing; the measurement
    harness, the Python client, tests, scripts and build files. *)

From Stdlib Require Import ZArith Ascii String Lia.
From stdpp Require Export base tactics list option strings gmap sorting.

#[export] Set Default Goal Selector "!".

Declare Scope mm_scope.
Delimit Scope mm_scope with mm.
Open Scope mm_scope.
Open Scope Z_scope.

(** ** Machine integers

    Every integer of the C++ code is a [Z]; the two 64-bit types carry their
    range as a predicate and the unsigned one its wrap-around as a function. *)

Definition two64 : Z := 18446744073709551616.
Definition two63 : Z := 9223372036854775808.

(** [std::uint64_t] arithmetic is modulo 2^64. *)
Definition u64 (z : Z) : Z := z mod two64.

Definition is_u64 (z : Z) : Prop := 0 <= z < two64.
Definition is_i64 (z : Z) : Prop := - two63 <= z < two63.

#[export] Instance is_u64_dec z : Decision (is_u64 z).
Proof. unfold is_u64. apply _. Defined.
#[export] Instance is_i64_dec z : Decision (is_i64 z).
Proof. unfold is_i64. apply _. Defined.

Lemma u64_range z : is_u64 (u64 z).
Proof. unfold u64, is_u64. apply Z.mod_pos_bound. reflexivity. Qed.

Lemma u64_small z : is_u64 z -> u64 z = z.
Proof. apply Z.mod_small. Qed.

Lemma u64_add_l x y : u64 (u64 x + y) = u64 (x + y).
Proof. unfold u64. by rewrite Zplus_mod_idemp_l. Qed.

(** The wrapped difference of two counts is their distance. *)
Lemma u64_diff a b : 0 <= a - b < two64 -> u64 (u64 a - u64 b) = a - b.
Proof.
  intros H. unfold u64. rewrite <- Zminus_mod. by apply Z.mod_small.
Qed.

(** Masking a wrapped count with a power of two less one reduces the count. *)
Lemma u64_mask n k : 0 <= k <= 64 -> Z.land (u64 n) (2 ^ k - 1) = n mod 2 ^ k.
Proof.
  intros Hk. replace (2 ^ k - 1) with (Z.ones k) by (rewrite Z.ones_equiv; lia).
  rewrite Z.land_ones by lia. unfold u64. change two64 with (2 ^ 64).
  rewrite <- (Z.mod_mod_divide n (2 ^ 64) (2 ^ k)); [done|].
  exists (2 ^ (64 - k)). rewrite <- Z.pow_add_r by lia. f_equal. lia.
Qed.

(** ** Effects

    C++ code that throws leaves behind every mutation made before the throw, so
    a computation of type [M S A] returns its final state on every outcome.
    [UB] marks a step the language leaves undefined (an iterator to a freed
    node): no theorem may rely on what follows it.

    Allocation failure is an input of the model: an oracle of booleans, one
    consumed by each statement that may allocate, [true] meaning that this
    statement throws [std::bad_alloc] before it has any effect.  The empty
    oracle is the run in which every allocation succeeds. *)

Inductive exn : Type :=
| bad_alloc
| invalid_argument (what : string)
| runtime_error (what : string).

Inductive outcome (A : Type) : Type :=
| Ret (a : A)
| Throw (e : exn)
| UB.
Arguments Ret {A} a.
Arguments Throw {A} e.
Arguments UB {A}.

#[export] Instance exn_eq_dec : EqDecision exn.
Proof. solve_decision. Defined.

Definition oracle : Type := list bool.

Definition M (S A : Type) : Type := S -> oracle -> outcome A * S * oracle.

#[export] Instance M_ret S : MRet (M S) := fun A a s o => (Ret a, s, o).

#[export] Instance M_bind S : MBind (M S) := fun A B k m s o =>
  match m s o with
  | (Ret a, s', o') => k a s' o'
  | (Throw e, s', o') => (Throw e, s', o')
  | (UB, s', o') => (UB, s', o')
  end.

Section Effects.
Context {S : Type}.

Definition get : M S S := fun s o => (Ret s, s, o).
Definition put (s : S) : M S unit := fun _ o => (Ret tt, s, o).
Definition modify (f : S -> S) : M S unit := fun s o => (Ret tt, f s, o).
Definition throw {A} (e : exn) : M S A := fun s o => (Throw e, s, o).
Definition ub {A} : M S A := fun s o => (UB, s, o).

(** One statement that may allocate. *)
Definition may_alloc : M S unit := fun s o =>
  match o with
  | true :: o' => (Throw bad_alloc, s, o')
  | false :: o' => (Ret tt, s, o')
  | [] => (Ret tt, s, o)
  end.

(** [try { m } catch (...) { cleanup; throw; }] *)
Definition on_throw {A} (m : M S A) (cleanup : M S unit) : M S A := fun s o =>
  match m s o with
  | (Throw e, s', o') =>
      match cleanup s' o' with
      | (Ret _, s'', o'') => (Throw e, s'', o'')
      | (Throw e', s'', o'') => (Throw e', s'', o'')
      | (UB, s'', o'') => (UB, s'', o'')
      end
  | r => r
  end.

(** A dereference: [None] is a dangling iterator. *)
Definition deref {A} (x : option A) : M S A :=
  match x with Some a => mret a | None => ub end.

(** A range-based [for] over a container. *)
Fixpoint foldM {A B} (f : B -> A -> M S B) (b : B) (l : list A) : M S B :=
  match l with
  | [] => mret b
  | a :: l' => b' ← f b a; foldM f b' l'
  end.

(** A computation on one member of a larger state. *)
Definition within {T A} (lens : T -> S) (put : S -> T -> T) (m : M S A) : M T A := fun t o =>
  match m (lens t) o with (r, s, o') => (r, put s t, o') end.

(** The run in which no allocation fails. *)
Definition run {A} (m : M S A) (s : S) : outcome A * S :=
  match m s [] with (r, s', _) => (r, s') end.
End Effects.

(** Monad laws, pointwise. *)
Lemma M_bind_ret {S A B} (a : A) (k : A -> M S B) s o :
  (mret a ≫= k) s o = k a s o.
Proof. reflexivity. Qed.

Lemma M_bind_assoc {S A B C} (m : M S A) (f : A -> M S B) (g : B -> M S C) s o :
  ((m ≫= f) ≫= g) s o = (m ≫= (fun a => f a ≫= g)) s o.
Proof. unfold mbind, M_bind. destruct (m s o) as [[[] ?] ?]; reflexivity. Qed.

(** ** Strict orders given by a boolean comparison: the [Compare] of [std::map] *)

Class StrictOrd (K : Type) := {
  ltb : K -> K -> bool;
  ltb_irrefl : forall x, ltb x x = false;
  ltb_trans : forall x y z, ltb x y = true -> ltb y z = true -> ltb x z = true;
  ltb_total : forall x y, ltb x y = false -> ltb y x = false -> x = y;
}.

#[export] Program Instance Z_strict : StrictOrd Z := {| ltb := Z.ltb |}.
Next Obligation. intros; apply Z.ltb_irrefl. Qed.
Next Obligation. intros x y z ?%Z.ltb_lt ?%Z.ltb_lt. apply Z.ltb_lt. lia. Qed.
Next Obligation. intros x y ?%Z.ltb_ge ?%Z.ltb_ge. lia. Qed.

Lemma string_ltb_trans (x y z : string) :
  String.ltb x y = true -> String.ltb y z = true -> String.ltb x z = true.
Proof.
  unfold String.ltb. revert y z.
  induction x as [|a x IH]; intros [|b y] [|c z]; simpl; try done.
  unfold Ascii.compare. intros H1 H2.
  destruct (N.compare_spec (N_of_ascii a) (N_of_ascii b)) as [Hab|Hab|Hab];
    destruct (N.compare_spec (N_of_ascii b) (N_of_ascii c)) as [Hbc|Hbc|Hbc];
    destruct (N.compare_spec (N_of_ascii a) (N_of_ascii c)) as [Hac|Hac|Hac];
    try done; try lia.
  exact (IH y z H1 H2).
Qed.

#[export] Program Instance string_strict : StrictOrd string := {| ltb := String.ltb |}.
Next Obligation.
  intros x. unfold String.ltb. induction x as [|a x IH]; simpl; [done|].
  unfold Ascii.compare. by rewrite N.compare_refl.
Qed.
Next Obligation. exact string_ltb_trans. Qed.
Next Obligation.
  intros x y. unfold String.ltb. rewrite (String.compare_antisym y x).
  destruct (String.compare x y) eqn:E; simpl; try done.
  intros _ _. by apply String.compare_eq_iff.
Qed.

(** [KeyLess]: first components first, then the second ones. *)
#[export] Program Instance pair_strict {A B} `{StrictOrd A, StrictOrd B, EqDecision A} :
  StrictOrd (A * B) :=
  {| ltb := fun a b => if bool_decide (a.1 = b.1) then ltb a.2 b.2 else ltb a.1 b.1 |}.
Next Obligation.
  intros A B ??? [x y]; simpl. rewrite bool_decide_true by done. apply ltb_irrefl.
Qed.
Next Obligation.
  intros A B HA HB ? [x1 x2] [y1 y2] [z1 z2]; simpl.
  repeat case_bool_decide; subst; eauto using ltb_trans; try done.
  intros H1 H2. pose proof (ltb_trans _ _ _ H1 H2) as Hc. by rewrite ltb_irrefl in Hc.
Qed.
Next Obligation.
  intros A B HA HB ? [x1 x2] [y1 y2]; simpl.
  repeat case_bool_decide; subst; intros H1 H2; try done.
  - f_equal. by apply ltb_total.
  - by destruct (ltb_total x1 y1 H1 H2).
Qed.

#[global] Arguments ltb : simpl never.

Lemma ltb_pair {A B} `{StrictOrd A, StrictOrd B, EqDecision A} (a b : A * B) :
  ltb a b = if bool_decide (a.1 = b.1) then ltb a.2 b.2 else ltb a.1 b.1.
Proof. reflexivity. Qed.

Lemma ltb_asym {K} `{StrictOrd K} (x y : K) : ltb x y = true -> ltb y x = false.
Proof.
  intros H1. destruct (ltb y x) eqn:H2; [|done].
  pose proof (ltb_trans _ _ _ H1 H2) as Hc. by rewrite ltb_irrefl in Hc.
Qed.

Lemma ltb_neq {K} `{StrictOrd K} (x y : K) : ltb x y = true -> x <> y.
Proof. intros H1 ->. by rewrite ltb_irrefl in H1. Qed.

(** ** Automation *)

Create HintDb mm discriminated.
Create Rewrite HintDb mm_rew.
#[export] Hint Resolve ltb_trans ltb_asym ltb_neq : mm.
#[export] Hint Resolve u64_range : mm.

(** Case analysis on every [match]/[if] of the goal or the hypotheses, with the
    contradictions closed: the workhorse for straight-line handlers. *)
Ltac mcase :=
  repeat (case_match; simplify_eq/=; try done).

(** Turn boolean comparisons of the context into propositions. *)
Ltac zbool :=
  repeat match goal with
  | H : (_ <? _) = true |- _ => apply Z.ltb_lt in H
  | H : (_ <? _) = false |- _ => apply Z.ltb_ge in H
  | H : (_ <=? _) = true |- _ => apply Z.leb_le in H
  | H : (_ <=? _) = false |- _ => apply Z.leb_gt in H
  | H : (_ =? _) = true |- _ => apply Z.eqb_eq in H
  | H : (_ =? _) = false |- _ => apply Z.eqb_neq in H
  | H : _ || _ = true |- _ => apply orb_true_iff in H
  | H : _ || _ = false |- _ => apply orb_false_iff in H; destruct H
  | H : _ && _ = true |- _ => apply andb_true_iff in H; destruct H
  | H : _ && _ = false |- _ => apply andb_false_iff in H
  | H : negb _ = true |- _ => apply negb_true_iff in H
  | H : negb _ = false |- _ => apply negb_false_iff in H
  end.

Lemma bool_decide_ext_if {A} (P Q : Prop) `{Decision P, Decision Q} (x y : A) :
  (P <-> Q) -> (if bool_decide P then x else y) = (if bool_decide Q then x else y).
Proof. intros HPQ. by rewrite (bool_decide_ext P Q HPQ). Qed.

(** ** Lists *)

Section Lists.
Context {A : Type}.

(** Iteration with an early exit, as the [while] walk of a range. *)
Fixpoint take_while (p : A -> bool) (l : list A) : list A :=
  match l with
  | [] => []
  | x :: l' => if p x then x :: take_while p l' else []
  end.
Fixpoint drop_while (p : A -> bool) (l : list A) : list A :=
  match l with
  | [] => []
  | x :: l' => if p x then drop_while p l' else l
  end.

Lemma take_drop_while p l : take_while p l ++ drop_while p l = l.
Proof. induction l as [|x l IH]; simpl; [done|]. destruct (p x); simpl; by f_equal. Qed.

Lemma take_while_all p l : Forall (fun x => p x = true) (take_while p l).
Proof. induction l as [|x l IH]; simpl; [done|]. destruct (p x) eqn:E; by constructor. Qed.

Lemma length_drop_while p l : (length (drop_while p l) <= length l)%nat.
Proof. induction l as [|x l IH]; simpl; [lia|]. destruct (p x); simpl; lia. Qed.
End Lists.

(** ** Atomic computations: the strong exception guarantee

    [atomic s0 m s a s']: run from [s], [m] either returns [a] in state [s'], or
    throws [bad_alloc] and leaves the state [s0]; with no failing allocation it
    returns.  [total m s a s'] is the special case of a step that cannot throw.
    An entry point has the strong guarantee when it is [atomic s m s a s']. *)

Section Atomic.
Context {S : Type}.
Implicit Types s : S.

Definition atomic {A} (s0 : S) (m : M S A) (s : S) (a : A) (s' : S) : Prop :=
  forall o, exists o',
    (m s o = (Ret a, s', o') /\ (o = [] -> o' = [])) \/
    (m s o = (Throw bad_alloc, s0, o') /\ o <> []).

Definition total {A} (m : M S A) (s : S) (a : A) (s' : S) : Prop :=
  forall o, m s o = (Ret a, s', o).

Lemma total_atomic {A} s0 (m : M S A) s a s' : total m s a s' -> atomic s0 m s a s'.
Proof. intros Hm o. exists o. left. by rewrite Hm. Qed.

Lemma total_ret {A} (a : A) s : total (mret a) s a s.
Proof. done. Qed.
Lemma total_get s : total get s s s.
Proof. done. Qed.
Lemma total_modify f s : total (modify f) s tt (f s).
Proof. done. Qed.
Lemma total_deref {A} (x : option A) a s : x = Some a -> total (deref x) s a s.
Proof. by intros ->. Qed.
Lemma total_bind {A B} (m : M S A) (k : A -> M S B) s a s1 b s2 :
  total m s a s1 -> total (k a) s1 b s2 -> total (m ≫= k) s b s2.
Proof. intros Hm Hk o. unfold mbind, M_bind. by rewrite Hm, Hk. Qed.

Lemma atomic_bind {A B} s0 (m : M S A) (k : A -> M S B) s a s1 b s2 :
  atomic s0 m s a s1 -> atomic s0 (k a) s1 b s2 -> atomic s0 (m ≫= k) s b s2.
Proof.
  intros Hm Hk o. unfold mbind, M_bind.
  destruct (Hm o) as [o1 [[E1 N1]|[E1 N1]]]; rewrite E1; [|by eauto].
  destruct (Hk o1) as [o2 [[E2 N2]|[E2 N2]]]; rewrite E2; exists o2; [left|right]; auto.
Qed.

Lemma atomic_alloc s : atomic s may_alloc s tt s.
Proof. intros [|[] o]; [exists []; left | exists o; right | exists o; left]; by split. Qed.

Lemma atomic_on_throw {A} s0 s1 (m : M S A) (cleanup : M S unit) s a s' :
  atomic s1 m s a s' -> total cleanup s1 tt s0 -> atomic s0 (on_throw m cleanup) s a s'.
Proof.
  intros Hm Hc o. unfold on_throw.
  destruct (Hm o) as [o1 [[E1 N1]|[E1 N1]]]; rewrite E1; [by eauto|].
  rewrite Hc. eauto.
Qed.

Lemma atomic_det {A} s0 (m : M S A) s a s' b s'' :
  atomic s0 m s a s' -> run m s = (Ret b, s'') -> b = a /\ s'' = s'.
Proof.
  intros Hm. unfold run. destruct (Hm []) as [o' [[E _]|[E N]]]; [|done].
  rewrite E. by intros [= -> ->].
Qed.

Lemma atomic_run {A} s0 (m : M S A) s a s' : atomic s0 m s a s' -> run m s = (Ret a, s').
Proof.
  intros Hm. unfold run. destruct (Hm []) as [o' [[E _]|[E N]]]; [|done]. by rewrite E.
Qed.

(** A loop whose body leaves the state alone computes a fold. *)
Lemma atomic_foldM {A B} (f : B -> A -> M S B) (g : B -> A -> B) s l b :
  (forall b x, x ∈ l -> atomic s (f b x) s (g b x) s) ->
  atomic s (foldM f b l) s (fold_left g l b) s.
Proof.
  revert b. induction l as [|x l IH]; intros b Hf; simpl.
  - apply total_atomic, total_ret.
  - eapply atomic_bind; [apply Hf; left|]. apply IH. intros; apply Hf; by right.
Qed.
End Atomic.

#[export] Hint Resolve total_ret total_get total_modify total_deref total_atomic atomic_alloc : mm.

(** Step through a straight-line computation. *)
Ltac atomic_step :=
  first [ eapply atomic_bind; [solve [eauto with mm]|] | eapply total_bind; [solve [eauto with mm]|] ];
  cbv beta.
