(* ===== verification/Wp.v ===== *)
(** * Reasoning about effects

    [wp E m Q w]: whatever allocations fail, running [m] from [w] either returns
    in a state that satisfies [Q], or throws in one that satisfies [E]; it never
    reaches undefined behaviour.  [keeps I m R]: run from a state of [I], [m]
    ends in one, by a return of a value of [R] or by a throw. *)

From Stdlib Require Import ZArith List Lia.
From stdpp Require Import base tactics list option.
From S2P Require Import Prelude.

Section Wp.
Context {S : Type}.
Implicit Types (E : S -> Prop) (w : S).

Definition wp {A} E (m : M S A) (Q : A -> S -> Prop) w : Prop :=
  forall o, match m w o with
            | (Ret a, w', _) => Q a w'
            | (Throw _, w', _) => E w'
            | (UB, _, _) => False
            end.

Lemma wp_ret {A} E (a : A) (Q : A -> S -> Prop) w : Q a w -> wp E (mret a) Q w.
Proof. intros HQ o. exact HQ. Qed.
Lemma wp_get E Q w : Q w w -> wp E get Q w.
Proof. intros HQ o. exact HQ. Qed.
Lemma wp_modify E f Q w : Q tt (f w) -> wp E (modify f) Q w.
Proof. intros HQ o. exact HQ. Qed.
Lemma wp_throw {A} E e (Q : A -> S -> Prop) w : E w -> wp E (throw e) Q w.
Proof. intros HE o. exact HE. Qed.
Lemma wp_alloc E Q w : E w -> Q tt w -> wp E may_alloc Q w.
Proof. intros HE HQ [|[] o]; done. Qed.
Lemma wp_deref {A} E (x : option A) a Q w : x = Some a -> Q a w -> wp E (deref x) Q w.
Proof. intros -> HQ o. exact HQ. Qed.

Lemma wp_bind {A B} E (m : M S A) (k : A -> M S B) Q w :
  wp E m (fun a w' => wp E (k a) Q w') w -> wp E (m ≫= k) Q w.
Proof.
  intros Hm o. specialize (Hm o). unfold mbind, M_bind.
  destruct (m w o) as [[[a|e|] w'] o']; [apply Hm|done..].
Qed.

Lemma wp_mono {A} E (m : M S A) (Q Q' : A -> S -> Prop) w :
  wp E m Q w -> (forall a w', Q a w' -> Q' a w') -> wp E m Q' w.
Proof. intros Hm HQ o. specialize (Hm o). destruct (m w o) as [[[] ?] ?]; auto. Qed.

(** Sequencing through a lemma about the first computation. *)
Lemma wp_seq {A B} E (m : M S A) (k : A -> M S B) (Q0 : A -> S -> Prop) Q w :
  wp E m Q0 w -> (forall a w', Q0 a w' -> wp E (k a) Q w') -> wp E (m ≫= k) Q w.
Proof. intros Hm Hk. apply wp_bind. by eapply wp_mono. Qed.

Lemma wp_foldM {A B} E (f : B -> A -> M S B) (I : B -> S -> Prop) b l w :
  I b w -> (forall b x w', x ∈ l -> I b w' -> wp E (f b x) I w') -> wp E (foldM f b l) I w.
Proof.
  revert b w. induction l as [|x l IH]; intros b w HI Hf; cbn [foldM].
  - by apply wp_ret.
  - eapply wp_seq; [apply Hf; [left|exact HI]|]. intros b' w' HI'. apply IH; [done|].
    intros. apply Hf; [by right|done].
Qed.

Lemma wp_atomic {A} E (m : M S A) w a w' Q : atomic w m w a w' -> E w -> Q a w' -> wp E m Q w.
Proof. intros Hm HE HQ o. destruct (Hm o) as [o' [[-> _]|[-> _]]]; done. Qed.

Lemma wp_if {A} E (b : bool) (m1 m2 : M S A) Q w :
  (b = true -> wp E m1 Q w) -> (b = false -> wp E m2 Q w) -> wp E (if b then m1 else m2) Q w.
Proof. destruct b; auto. Qed.
End Wp.

(** One primitive step of a computation. *)
Ltac wstep :=
  lazymatch goal with
  | |- wp _ (mbind _ _) _ _ => apply wp_bind
  | |- wp _ (mret _) _ _ => apply wp_ret
  | |- wp _ get _ _ => apply wp_get
  | |- wp _ (modify _) _ _ => apply wp_modify
  end; cbv beta.

(** ** Invariants of whole computations *)

Section Keeps.
Context {S : Type} (I : S -> Prop).

Definition keeps {A} (m : M S A) (R : A -> Prop) : Prop :=
  forall w o, I w -> match m w o with
                     | (Ret a, w', _) => I w' /\ R a
                     | (Throw _, w', _) => I w'
                     | (UB, _, _) => True
                     end.

Lemma keeps_ret {A} (a : A) (R : A -> Prop) : R a -> keeps (mret a) R.
Proof. by intros HR w o HI. Qed.
Lemma keeps_get : keeps get I.
Proof. by intros w o HI. Qed.
Lemma keeps_modify f : (forall w, I w -> I (f w)) -> keeps (modify f) (fun _ => True).
Proof. intros Hf w o HI. split; [by apply Hf|done]. Qed.
Lemma keeps_throw {A} e (R : A -> Prop) : keeps (throw e) R.
Proof. by intros w o HI. Qed.
Lemma keeps_ub {A} (R : A -> Prop) : keeps ub R.
Proof. by intros w o HI. Qed.
Lemma keeps_alloc : keeps may_alloc (fun _ => True).
Proof. by intros w [|[] o] HI. Qed.
Lemma keeps_deref {A} (x : option A) (R : A -> Prop) : (forall a, x = Some a -> R a) -> keeps (deref x) R.
Proof. intros Hx w o HI. destruct x; [|done]. split; [done|by apply Hx]. Qed.

Lemma keeps_bind {A B} (m : M S A) (k : A -> M S B) R R' :
  keeps m R -> (forall a, R a -> keeps (k a) R') -> keeps (m ≫= k) R'.
Proof.
  intros Hm Hk w o HI. specialize (Hm w o HI). unfold mbind, M_bind.
  destruct (m w o) as [[[a|e|] w'] o']; [|done..]. destruct Hm as [HI' Ha]. exact (Hk a Ha w' o' HI').
Qed.

Lemma keeps_mono {A} (m : M S A) (R R' : A -> Prop) : keeps m R -> (forall a, R a -> R' a) -> keeps m R'.
Proof. intros Hm HR w o HI. specialize (Hm w o HI). destruct (m w o) as [[[a|e|] w'] o']; [|done..]. naive_solver. Qed.
Lemma keeps_any {A} (m : M S A) R : keeps m R -> keeps m (fun _ => True).
Proof. intros Hm. by eapply keeps_mono. Qed.

Lemma keeps_foldM {A B} (f : B -> A -> M S B) (R : B -> Prop) b l :
  R b -> (forall b x, x ∈ l -> R b -> keeps (f b x) R) -> keeps (foldM f b l) R.
Proof.
  revert b. induction l as [|x l IH]; intros b Hb Hf; cbn [foldM]; [by apply keeps_ret|].
  eapply keeps_bind; [apply Hf; [left|done]|]. intros b' Hb'. apply IH; [done|]. intros ? y Hy. apply Hf. by right.
Qed.

(** A component the computation runs on. *)
Lemma keeps_within {T A} (lens : S -> T) (put : T -> S -> S) (m : M T A) (R : A -> Prop) :
  (forall w, I w -> exists a t, atomic (lens w) m (lens w) a t /\ I (put (lens w) w) /\ I (put t w) /\ R a) ->
  keeps (within lens put m) R.
Proof.
  intros Hm w o HI. destruct (Hm w HI) as (a & t & Ha & H1 & H2 & HR). unfold within.
  destruct (Ha o) as [o' [[-> _]|[-> _]]]; done.
Qed.
End Keeps.

(** ** Partial correctness

    For a computation whose steps depend on the state it starts in. *)

Section Triple.
Context {S : Type}.

Definition triple {A} (P : S -> Prop) (m : M S A) (Q : A -> S -> Prop) : Prop :=
  forall w o, P w -> match m w o with (Ret a, w', _) => Q a w' | _ => True end.

Lemma triple_bind {A B} P (m : M S A) (k : A -> M S B) R Q :
  triple P m R -> (forall a, triple (R a) (k a) Q) -> triple P (m ≫= k) Q.
Proof.
  intros Hm Hk w o HP. specialize (Hm w o HP). unfold mbind, M_bind.
  destruct (m w o) as [[[a|e|] w'] o']; [by apply Hk|done..].
Qed.

Lemma triple_ret {A} (P : S -> Prop) (a : A) (Q : A -> S -> Prop) : (forall w, P w -> Q a w) -> triple P (mret a) Q.
Proof. intros HQ w o HP. by apply HQ. Qed.

Lemma triple_pre {A} (P P' : S -> Prop) (m : M S A) Q : (forall w, P w -> P' w) -> triple P' m Q -> triple P m Q.
Proof. intros HP Hm w o Hw. by apply Hm, HP. Qed.

Lemma triple_keeps {A} (I : S -> Prop) (m : M S A) R : keeps I m R -> triple I m (fun _ => I).
Proof. intros Hm w o HI. specialize (Hm w o HI). destruct (m w o) as [[[a|e|] w'] o']; [apply Hm|done..]. Qed.
End Triple.

(** ** Every outcome of a computation

    [ends m Q s]: whatever allocations fail, [m] run from [s] ends with an outcome
    and a state of [Q]. *)

Section Ends.
Context {S : Type}.

Definition ends {A} (m : M S A) (Q : outcome A -> S -> Prop) (s : S) : Prop :=
  forall o, let '(r, s', _) := m s o in Q r s'.

Lemma ends_ret {A} (a : A) (Q : outcome A -> S -> Prop) s : Q (Ret a) s -> ends (mret a) Q s.
Proof. by intros HQ o. Qed.
Lemma ends_get (Q : outcome S -> S -> Prop) s : Q (Ret s) s -> ends get Q s.
Proof. by intros HQ o. Qed.
Lemma ends_modify f (Q : outcome unit -> S -> Prop) s : Q (Ret tt) (f s) -> ends (modify f) Q s.
Proof. by intros HQ o. Qed.
Lemma ends_throw {A} e (Q : outcome A -> S -> Prop) s : Q (Throw e) s -> ends (throw e) Q s.
Proof. by intros HQ o. Qed.
Lemma ends_alloc (Q : outcome unit -> S -> Prop) s : Q (Throw bad_alloc) s -> Q (Ret tt) s -> ends may_alloc Q s.
Proof. by intros HE HQ [|[] o]. Qed.
Lemma ends_deref {A} (x : option A) a (Q : outcome A -> S -> Prop) s : x = Some a -> Q (Ret a) s -> ends (deref x) Q s.
Proof. by intros -> HQ o. Qed.

Lemma ends_bind {A B} (m : M S A) (k : A -> M S B) (Q : outcome B -> S -> Prop) s :
  ends m (fun r s' => match r with Ret a => ends (k a) Q s' | Throw e => Q (Throw e) s' | UB => Q UB s' end) s ->
  ends (m ≫= k) Q s.
Proof.
  intros Hm o. specialize (Hm o). unfold mbind, M_bind. destruct (m s o) as [[[a|e|] s'] o']; [apply Hm|done..].
Qed.

Lemma ends_mono {A} (m : M S A) (Q Q' : outcome A -> S -> Prop) s :
  ends m Q s -> (forall r s', Q r s' -> Q' r s') -> ends m Q' s.
Proof. intros Hm HQ o. specialize (Hm o). destruct (m s o) as [[r s'] o']. auto. Qed.
End Ends.

(** One primitive step of a computation. *)
Ltac estep :=
  lazymatch goal with
  | |- ends (mbind _ _) _ _ => apply ends_bind
  | |- ends (mret _) _ _ => apply ends_ret
  | |- ends get _ _ => apply ends_get
  | |- ends (modify _) _ _ => apply ends_modify
  | |- ends (throw _) _ _ => apply ends_throw
  end; cbv beta iota.
