(* ===== verification/Rounds.v ===== *)
(** * Threads that take turns on one clock

    The probes are a few threads, a schedule of their turns and the clock reading
    each turn is given.  When at every moment one thread's turn makes progress, and
    the others' turns leave that thread in charge, any schedule in fair rounds
    brings the system to its end. *)

From Stdlib Require Import ZArith List Lia.
From stdpp Require Import base tactics list.
From S2P Require Import Prelude.

Section Turns.
Context {S Th : Type} (step : Th * Z -> M S unit).

Fixpoint run_turns (turns : list (Th * Z)) : M S unit :=
  match turns with [] => mret tt | t :: ts => step t;; run_turns ts end.

Lemma run_turns_app ts ts' s o : run_turns (ts ++ ts') s o = (run_turns ts;; run_turns ts') s o.
Proof.
  revert s o. induction ts as [|t ts IH]; intros s o; [done|]. cbn [app run_turns]. unfold mbind, M_bind.
  destruct (step t s o) as [[[] s1] o1]; [|done..]. rewrite IH. done.
Qed.

(** The readings of one monotonic clock, in the order of the turns. *)
Fixpoint clocked (now : Z) (turns : list (Th * Z)) : Prop :=
  match turns with [] => True | t :: ts => now <= t.2 < two63 /\ clocked t.2 ts end.

Lemma clocked_app now ts ts' : clocked now (ts ++ ts') -> clocked now ts.
Proof. revert now. induction ts as [|t ts IH]; intros now; [done|]. intros [? ?]. split; [done|by apply IH]. Qed.

Fixpoint clockedb (now : Z) (turns : list (Th * Z)) : bool :=
  match turns with [] => true | t :: ts => (now <=? t.2) && (t.2 <? two63) && clockedb t.2 ts end.

Lemma clockedb_ok now turns : clockedb now turns = true -> clocked now turns.
Proof.
  revert now. induction turns as [|t ts IH]; intros now; cbn [clockedb clocked]; [done|].
  intros [[?%Z.leb_le ?%Z.ltb_lt]%andb_true_iff ?]%andb_true_iff. auto.
Qed.

(** A round gives every thread of [players] a turn. *)
Definition fair (players : list Th) (block : list (Th * Z)) : Prop := Forall (fun th => th ∈ map fst block) players.

(** [I now l s]: the invariant at the reading [now], with [l] what the threads are
    at; [left]: the turns that still matter; [mover]: whose turn matters next. *)
Context {L : Type} (I : Z -> L -> S -> Prop) (left : L -> S -> nat) (mover : L -> S -> Th) (players : list Th).
Context `{!EqDecision Th} (mover_plays : forall l s, mover l s ∈ players).
Context (turn_ok : forall now l s t o, I now l s -> now <= t.2 < two63 ->
  exists l' s', step t s o = (Ret tt, s', o) /\ I t.2 l' s' /\ (left l' s' <= left l s)%nat /\
    (t.1 = mover l s -> left l' s' <= pred (left l s))%nat /\ (t.1 <> mover l s -> mover l' s' = mover l s)).

(** Turns are defined whatever their order. *)
Lemma turns_ok turns now l s o :
  I now l s -> clocked now turns ->
  exists now' l' s', run_turns turns s o = (Ret tt, s', o) /\ I now' l' s' /\ (left l' s' <= left l s)%nat /\
    (mover l s ∈ map fst turns -> left l' s' <= pred (left l s))%nat /\
    forall more, clocked now (turns ++ more) -> clocked now' more.
Proof.
  revert now l s. induction turns as [|t ts IH]; intros now l s Hi Hc.
  { exists now, l, s. split_and!; try done. by intros ?%not_elem_of_nil. }
  destruct Hc as [Ht Hc]. destruct (turn_ok now l s t o Hi Ht) as (l1 & s1 & E1 & I1 & Hle & Hm & Hs).
  destruct (IH t.2 l1 s1 I1 Hc) as (now' & l' & s' & E2 & I2 & Hle2 & Hm2 & Hmore). exists now', l', s'. cbn [run_turns].
  unfold mbind, M_bind. rewrite E1. split_and!; [done|done|lia| |intros more [_ H]; by apply Hmore].
  cbn [map]. intros [Em|Hin]%elem_of_cons; [specialize (Hm (eq_sym Em)); lia|].
  destruct (decide (t.1 = mover l s)) as [Ed|Ed]; [specialize (Hm Ed); lia|]. rewrite <- (Hs Ed) in Hin. specialize (Hm2 Hin). lia.
Qed.

(** As many fair rounds as turns are left bring it to the end. *)
Lemma rounds_finish blocks now l s o :
  I now l s -> clocked now (concat blocks) -> Forall (fair players) blocks -> (left l s <= length blocks)%nat ->
  exists now' l' s', run_turns (concat blocks) s o = (Ret tt, s', o) /\ I now' l' s' /\ left l' s' = 0%nat /\
    forall more, clocked now (concat blocks ++ more) -> clocked now' more.
Proof.
  revert now l s. induction blocks as [|b bs IH]; intros now l s Hi Hc Hf Hl.
  - exists now, l, s. split_and!; try done. cbn [length] in Hl. lia.
  - apply Forall_cons in Hf as [Hb Hf]. cbn [concat] in *.
    destruct (turns_ok b now l s o Hi (clocked_app _ _ _ Hc)) as (now1 & l1 & s1 & E1 & I1 & _ & Hm & Hmore).
    assert (mover l s ∈ map fst b) as Hin by (eapply (proj1 (Forall_forall _ _) Hb), mover_plays).
    destruct (IH now1 l1 s1 I1 (Hmore _ Hc) Hf) as (now' & l' & s' & E2 & I2 & Hd & Hmore2).
    { specialize (Hm Hin). cbn [length] in Hl. lia. }
    exists now', l', s'. split_and!; [|done|done|intros more Hm'; rewrite <- app_assoc in Hm'; by apply Hmore2, Hmore].
    rewrite run_turns_app. unfold mbind, M_bind. by rewrite E1.
Qed.
End Turns.

(** ** Turns that carry their inputs

    The same, for threads whose turns are total functions of what the environment
    hands them; a turn of another thread may also advance the system itself. *)
Section Inputs.
Context {S T Th : Type} (step : T -> S -> S) (who : T -> Th).

Definition drive (turns : list T) (s : S) : S := fold_left (fun s t => step t s) turns s.

Lemma drive_app ts ts' s : drive (ts ++ ts') s = drive ts' (drive ts s).
Proof. apply fold_left_app. Qed.

Lemma drive_keeps (I : S -> Prop) turns s : (forall t s, I s -> I (step t s)) -> I s -> I (drive turns s).
Proof. intros Hs. revert s. induction turns as [|t ts IH]; intros s Hi; [done|]. apply IH, Hs, Hi. Qed.

Definition served (players : list Th) (block : list T) : Prop := Forall (fun th => th ∈ map who block) players.

Context `{!EqDecision Th} (I : S -> Prop) (left : S -> nat) (mover : S -> Th) (players : list Th).
Context (mover_plays : forall s, mover s ∈ players).
Context (turn_ok : forall t s, I s -> I (step t s) /\ (left (step t s) <= left s)%nat /\
  (who t = mover s -> left (step t s) <= pred (left s))%nat /\
  (who t <> mover s -> (left (step t s) < left s)%nat \/ mover (step t s) = mover s)).

Lemma drive_ok turns s :
  I s -> I (drive turns s) /\ (left (drive turns s) <= left s)%nat /\
  (mover s ∈ map who turns -> left (drive turns s) <= pred (left s))%nat.
Proof.
  revert s. induction turns as [|t ts IH]; intros s Hi; cbn [drive fold_left map].
  { split_and!; [done|done|]. by intros ?%not_elem_of_nil. }
  destruct (turn_ok t s Hi) as (I1 & Hle & Hm & Ho). destruct (IH _ I1) as (I2 & Hle2 & Hm2).
  unfold drive in *. split_and!; [done|lia|]. intros [E|Hin]%elem_of_cons; [specialize (Hm (eq_sym E)); lia|].
  destruct (decide (who t = mover s)) as [E|E]; [specialize (Hm E); lia|].
  destruct (Ho E) as [?|Es]; [lia|]. rewrite <- Es in Hin. specialize (Hm2 Hin). lia.
Qed.

Lemma drive_finishes blocks s :
  I s -> Forall (served players) blocks -> (left s <= length blocks)%nat ->
  I (drive (concat blocks) s) /\ left (drive (concat blocks) s) = 0%nat.
Proof.
  revert s. induction blocks as [|b bs IH]; intros s Hi Hf Hl; cbn [concat length] in *; [split; [done|cbn; lia]|].
  apply Forall_cons in Hf as [Hb Hf]. rewrite drive_app. destruct (drive_ok b s Hi) as (I1 & _ & Hm).
  apply IH; [done|done|]. specialize (Hm (proj1 (Forall_forall _ _) Hb _ (mover_plays s))). lia.
Qed.
End Inputs.
