(* ===== verification/StdMap.v ===== *)
(** * Ordered associative containers

    [std::map] and [std::set] as the engine uses them: association lists kept
    strictly increasing in the key.  An iterator is modelled by the key of the
    element it designates (iterators of these containers stay valid until their
    own element is erased), and [lower_bound] by the suffix that starts at the
    element it returns.  [sorted_map] is the representation invariant; under it
    two maps with the same lookups are equal ([find_ext]). *)

From Stdlib Require Import ZArith String List Lia.
From stdpp Require Import base tactics list option gmap sorting.
From S2P Require Import Prelude.

Section StdMap.
Context {K V : Type} `{StrictOrd K} `{EqDecision K}.
Implicit Types (k : K) (v : V) (m : list (K * V)).

Definition key_lt (a b : K * V) : Prop := ltb a.1 b.1 = true.
Definition sorted_map m : Prop := StronglySorted key_lt m.

(** [map::find] *)
Fixpoint find k m : option V :=
  match m with
  | [] => None
  | (k', v) :: m' => if bool_decide (k = k') then Some v else find k m'
  end.

(** [map::lower_bound]: the suffix from the first element not before [k]. *)
Definition lower_bound k m : list (K * V) := drop_while (fun e => ltb e.1 k) m.

(** [map::emplace]/[emplace_hint]: in front of the first greater key; an
    existing key is left alone. *)
Fixpoint emplace k v m : list (K * V) :=
  match m with
  | [] => [(k, v)]
  | (k', v') :: m' =>
      if bool_decide (k = k') then m
      else if ltb k k' then (k, v) :: m
      else (k', v') :: emplace k v m'
  end.

(** Assignment through an iterator to the element of key [k]. *)
Definition assign k v m : list (K * V) :=
  map (fun e => if bool_decide (e.1 = k) then (e.1, v) else e) m.

(** [map::erase] of one element, and of the elements of a range. *)
Definition erase k m : list (K * V) := List.filter (fun e => negb (bool_decide (e.1 = k))) m.

(** ** Lookups *)

Lemma find_In k v m : find k m = Some v -> (k, v) ∈ m.
Proof.
  induction m as [|[k' v'] m IH]; simpl; [done|].
  case_bool_decide; intros; simplify_eq; [left|right; auto].
Qed.

Lemma sorted_cons e m :
  sorted_map (e :: m) <-> sorted_map m /\ Forall (key_lt e) m.
Proof.
  split; [intros Hs; inversion Hs; auto|].
  intros [? ?]. by constructor.
Qed.

Lemma sorted_find_In k v m : sorted_map m -> (k, v) ∈ m -> find k m = Some v.
Proof.
  induction m as [|[k' v'] m IH]; simpl; [intros _ Hin; by apply elem_of_nil in Hin|].
  intros [Hs Hall]%sorted_cons [Heq|Hin]%elem_of_cons; simplify_eq.
  - by rewrite bool_decide_true.
  - case_bool_decide; subst; [|by apply IH].
    rewrite Forall_forall in Hall. specialize (Hall _ Hin).
    unfold key_lt in Hall; simpl in Hall. by rewrite ltb_irrefl in Hall.
Qed.

Lemma find_In_iff k v m : sorted_map m -> find k m = Some v <-> (k, v) ∈ m.
Proof. split; [apply find_In | by apply sorted_find_In]. Qed.

Lemma find_None_lt k m : Forall (fun e => ltb k e.1 = true) m -> find k m = None.
Proof.
  induction 1 as [|[k' v'] m Hlt _ IH]; simpl in *; [done|].
  rewrite bool_decide_false; [done|]. by apply ltb_neq.
Qed.

Lemma find_ext m1 m2 :
  sorted_map m1 -> sorted_map m2 -> (forall k, find k m1 = find k m2) -> m1 = m2.
Proof.
  revert m2. induction m1 as [|[k1 v1] m1 IH]; intros [|[k2 v2] m2] Hs1 Hs2 Hf; try done.
  - specialize (Hf k2). simpl in Hf. by rewrite bool_decide_true in Hf.
  - specialize (Hf k1). simpl in Hf. by rewrite bool_decide_true in Hf.
  - apply sorted_cons in Hs1 as [Hs1 Ha1], Hs2 as [Hs2 Ha2].
    assert (k1 = k2) as <-.
    { destruct (ltb k1 k2) eqn:E12; [|destruct (ltb k2 k1) eqn:E21].
      - exfalso. pose proof (Hf k1) as Hk. simpl in Hk.
        rewrite bool_decide_true, bool_decide_false in Hk by eauto with mm.
        rewrite find_None_lt in Hk; [done|].
        eapply Forall_impl; [exact Ha2|]. unfold key_lt; simpl; eauto with mm.
      - exfalso. pose proof (Hf k2) as Hk. simpl in Hk.
        rewrite bool_decide_false, bool_decide_true in Hk by eauto with mm.
        rewrite find_None_lt in Hk; [done|].
        eapply Forall_impl; [exact Ha1|]. unfold key_lt; simpl; eauto with mm.
      - by apply ltb_total. }
    pose proof (Hf k1) as Hk. simpl in Hk. rewrite !bool_decide_true in Hk by done.
    simplify_eq. f_equal. apply IH; [done..|]. intros k.
    specialize (Hf k). simpl in Hf. case_bool_decide; [|done]. subst.
    rewrite !find_None_lt; [done| |]; [exact Ha2 | exact Ha1].
Qed.

(** ** [lower_bound] *)

(** The duplicate test of the code: [lower_bound(k)] designates [k] itself. *)
Lemma lower_bound_find k m :
  sorted_map m ->
  find k m = match lower_bound k m with
             | (k', v) :: _ => if bool_decide (k' = k) then Some v else None
             | [] => None
             end.
Proof.
  unfold lower_bound. induction m as [|[k' v'] m IH]; simpl; [done|].
  intros [Hs Hall]%sorted_cons. destruct (ltb k' k) eqn:E.
  - rewrite bool_decide_false by (apply not_eq_sym; eauto with mm). by apply IH.
  - destruct (decide (k = k')) as [->|Hne].
    + by rewrite !bool_decide_true.
    + rewrite !bool_decide_false by done. apply find_None_lt.
      assert (ltb k k' = true) as Hk.
      { destruct (ltb k k') eqn:E'; [done|]. by destruct Hne; apply ltb_total. }
      eapply Forall_impl; [exact Hall|]. unfold key_lt; simpl; eauto with mm.
Qed.

(** ** Insertion *)

Lemma emplace_keys k v m e : e ∈ emplace k v m -> e = (k, v) \/ e ∈ m.
Proof.
  induction m as [|[k' v'] m IH]; simpl.
  - rewrite list_elem_of_singleton. auto.
  - case_bool_decide; [auto|]. destruct (ltb k k').
    + rewrite elem_of_cons. tauto.
    + rewrite !elem_of_cons. intros [?|?%IH]; tauto.
Qed.

Lemma emplace_sorted k v m : sorted_map m -> sorted_map (emplace k v m).
Proof.
  induction m as [|[k' v'] m IH]; simpl; [repeat constructor|].
  intros Hs. case_bool_decide as Hkk; [done|]. destruct (ltb k k') eqn:E.
  - apply sorted_cons. split; [done|]. apply sorted_cons in Hs as [_ Ha].
    constructor; [done|]. eapply Forall_impl; [exact Ha|]. unfold key_lt; simpl; eauto with mm.
  - apply sorted_cons in Hs as [Hs Ha]. apply sorted_cons. split; [by apply IH|].
    apply Forall_forall. intros e [->|He]%emplace_keys.
    + unfold key_lt; simpl. destruct (ltb k' k) eqn:E'; [done|].
      by destruct Hkk; apply ltb_total.
    + rewrite Forall_forall in Ha. auto.
Qed.

Lemma find_emplace k v m k' :
  find k m = None ->
  find k' (emplace k v m) = if bool_decide (k' = k) then Some v else find k' m.
Proof.
  induction m as [|[k1 v1] m IH]; simpl; [done|].
  destruct (bool_decide_reflect (k = k1)) as [|Hk1]; [done|]. intros Hf.
  destruct (ltb k k1); simpl.
  - repeat case_bool_decide; congruence.
  - rewrite IH by done. repeat case_bool_decide; congruence.
Qed.

Lemma length_emplace k v m : find k m = None -> length (emplace k v m) = S (length m).
Proof.
  induction m as [|[k1 v1] m IH]; simpl; [done|].
  case_bool_decide; [done|]. intros Hf. destruct (ltb k k1); simpl; auto.
Qed.

(** [emplace] of a present key changes nothing. *)
Lemma emplace_present k v m v0 : sorted_map m -> find k m = Some v0 -> emplace k v m = m.
Proof.
  induction m as [|[k1 v1] m IH]; cbn [find emplace]; [done|]. intros [Hs Ha]%sorted_cons.
  case_bool_decide; [done|]. intros Hf. destruct (ltb k k1) eqn:E.
  - rewrite find_None_lt in Hf; [done|].
    eapply Forall_impl; [exact Ha|]. unfold key_lt; simpl; eauto with mm.
  - f_equal. by apply IH.
Qed.

(** ** Assignment *)

Lemma assign_keys k v m : (assign k v m).*1 = m.*1.
Proof.
  induction m as [|[k' v'] m IH]; [done|].
  cbn. case_bool_decide; cbn; f_equal; exact IH.
Qed.

Lemma sorted_keys_iff m :
  sorted_map m <-> StronglySorted (fun a b : K => ltb a b = true) m.*1.
Proof.
  induction m as [|e m IH]; simpl; [split; constructor|].
  rewrite sorted_cons, IH. split.
  - intros [Hs Ha]. constructor; [done|]. apply Forall_fmap. exact Ha.
  - inversion 1; subst. split; [done|]. by apply Forall_fmap in H4.
Qed.

Lemma assign_sorted k v m : sorted_map m -> sorted_map (assign k v m).
Proof. rewrite !sorted_keys_iff. by rewrite assign_keys. Qed.

Lemma find_assign k v m k' :
  find k' (assign k v m) =
    if bool_decide (k' = k) then (fun _ => v) <$> find k' m else find k' m.
Proof.
  unfold assign. induction m as [|[k1 v1] m IH]; simpl; [by case_bool_decide|].
  rewrite IH. repeat case_bool_decide; simpl in *; simplify_eq; try done; by case_bool_decide.
Qed.

(** ** Erasure *)

Lemma filter_sorted (p : K * V -> bool) m : sorted_map m -> sorted_map (List.filter p m).
Proof.
  induction m as [|e m IH]; simpl; [done|]. intros [Hs Ha]%sorted_cons.
  destruct (p e); [|by apply IH]. apply sorted_cons. split; [by apply IH|].
  rewrite Forall_forall in *. intros x Hx. apply Ha.
  apply list_elem_of_In in Hx. apply filter_In in Hx as [Hx _]. by apply list_elem_of_In.
Qed.

Lemma find_filter (p : K * V -> bool) m k :
  sorted_map m ->
  find k (List.filter p m) =
    match find k m with Some v => if p (k, v) then Some v else None | None => None end.
Proof.
  induction m as [|[k' v'] m IH]; simpl; [done|]. intros [Hs Ha]%sorted_cons.
  case_bool_decide as Hk; subst.
  - destruct (p (k', v')) eqn:E; simpl; [by rewrite bool_decide_true|].
    rewrite IH by done. rewrite (find_None_lt k' m); [done|]. exact Ha.
  - destruct (p (k', v')); simpl; [rewrite bool_decide_false by done|]; by apply IH.
Qed.

Lemma erase_sorted k m : sorted_map m -> sorted_map (erase k m).
Proof. apply filter_sorted. Qed.

Lemma find_erase k m k' :
  sorted_map m ->
  find k' (erase k m) = if bool_decide (k' = k) then None else find k' m.
Proof.
  intros Hs. unfold erase. rewrite find_filter by done. simpl.
  destruct (find k' m); by case_bool_decide.
Qed.

(** Inserting and erasing the same fresh key restores the map: the rollback
    of a failed insertion. *)
Lemma erase_emplace k v m : sorted_map m -> find k m = None -> erase k (emplace k v m) = m.
Proof.
  intros Hs Hf. apply find_ext; [by apply erase_sorted, emplace_sorted|done|].
  intros k'. rewrite find_erase by (by apply emplace_sorted).
  rewrite find_emplace by done. case_bool_decide; congruence.
Qed.
End StdMap.

#[export] Hint Resolve emplace_sorted assign_sorted erase_sorted filter_sorted : mm.
