(* ===== verification/Types.v ===== *)
(** * Domain types and order validation ([cpp/include/mm/types.hpp]) *)

From Stdlib Require Import ZArith String List Lia.
From stdpp Require Import base tactics list option strings.
From S2P Require Import Prelude.

(** [v = price / tick_size]; the strong type is a record, so a raw price cannot
    be used for it. *)
Record Ticks := mkTicks { ticks_v : Z }.

Inductive Side := Bid | Ask.

#[export] Instance Ticks_eq_dec : EqDecision Ticks.
Proof. solve_decision. Defined.
#[export] Instance Side_eq_dec : EqDecision Side.
Proof. solve_decision. Defined.

Record Instrument := mkInstrument {
  symbol : string;
  tick_size : Z;
  lot_size : Z;
  min_price : Z;
  max_price : Z;
  max_order_qty : Z;
  max_live_orders : Z;
}.

(** The default member initialisers. *)
Definition default_instrument (sym : string) : Instrument :=
  {| symbol := sym; tick_size := 5; lot_size := 10; min_price := 1;
     max_price := 10000000; max_order_qty := 10000; max_live_orders := 2 |}.

Inductive RejectCode :=
| UnsupportedVersion
| UnknownType
| Malformed
| MsgTooLarge
| UnknownSymbol
| BadSide
| TickSize
| LotSize
| QtyLimit
| PriceRange
| DupClOrdId
| PostOnlyCross
| MaxLiveOrders
| UnknownClOrdId
| AlreadyTerminal
| StaleEpoch.

#[export] Instance RejectCode_eq_dec : EqDecision RejectCode.
Proof. solve_decision. Defined.

(** The enumerators in order: the ordinal of a code is its position. *)
Definition all_codes : list RejectCode :=
  [UnsupportedVersion; UnknownType; Malformed; MsgTooLarge; UnknownSymbol; BadSide; TickSize;
   LotSize; QtyLimit; PriceRange; DupClOrdId; PostOnlyCross; MaxLiveOrders; UnknownClOrdId;
   AlreadyTerminal; StaleEpoch].

Definition ordinal (c : RejectCode) : Z :=
  match c with
  | UnsupportedVersion => 0 | UnknownType => 1 | Malformed => 2 | MsgTooLarge => 3
  | UnknownSymbol => 4 | BadSide => 5 | TickSize => 6 | LotSize => 7 | QtyLimit => 8
  | PriceRange => 9 | DupClOrdId => 10 | PostOnlyCross => 11 | MaxLiveOrders => 12
  | UnknownClOrdId => 13 | AlreadyTerminal => 14 | StaleEpoch => 15
  end.

(** The wire spellings. *)
Definition to_string (code : RejectCode) : string :=
  match code with
  | UnsupportedVersion => "UNSUPPORTED_VERSION"
  | UnknownType => "UNKNOWN_TYPE"
  | Malformed => "MALFORMED"
  | MsgTooLarge => "MSG_TOO_LARGE"
  | UnknownSymbol => "UNKNOWN_SYMBOL"
  | BadSide => "BAD_SIDE"
  | TickSize => "TICK_SIZE"
  | LotSize => "LOT_SIZE"
  | QtyLimit => "QTY_LIMIT"
  | PriceRange => "PRICE_RANGE"
  | DupClOrdId => "DUP_CLORDID"
  | PostOnlyCross => "POST_ONLY_CROSS"
  | MaxLiveOrders => "MAX_LIVE_ORDERS"
  | UnknownClOrdId => "UNKNOWN_CLORDID"
  | AlreadyTerminal => "ALREADY_TERMINAL"
  | StaleEpoch => "STALE_EPOCH"
  end.

(** C++ [%] truncates towards zero: [Z.rem]. *)
Definition validate_order (inst : Instrument) (sym side : string) (px qty : Z)
  : option RejectCode :=
  if negb (String.eqb sym (symbol inst)) then Some UnknownSymbol
  else if negb (String.eqb side "B") && negb (String.eqb side "S") then Some BadSide
  else if (tick_size inst <=? 0) || negb (Z.rem px (tick_size inst) =? 0) then Some TickSize
  else if (lot_size inst <=? 0) || negb (Z.rem qty (lot_size inst) =? 0) then Some LotSize
  else if (qty <=? 0) || (max_order_qty inst <? qty) then Some QtyLimit
  else if (px <? min_price inst) || (max_price inst <? px) then Some PriceRange
  else None.

(** ** Facts *)

Lemma to_string_inj c1 c2 : to_string c1 = to_string c2 -> c1 = c2.
Proof. by destruct c1, c2. Qed.

Lemma ordinal_lookup c : all_codes !! Z.to_nat (ordinal c) = Some c.
Proof. by destruct c. Qed.

Lemma ordinal_bound c : 0 <= ordinal c < 16.
Proof. destruct c; simpl; lia. Qed.

(** What an accepted order is: the conjunction of the six rules. *)
Definition valid_order (inst : Instrument) (sym side : string) (px qty : Z) : Prop :=
  sym = symbol inst /\ (side = "B" \/ side = "S")%string /\
  0 < tick_size inst /\ Z.rem px (tick_size inst) = 0 /\
  0 < lot_size inst /\ Z.rem qty (lot_size inst) = 0 /\
  0 < qty <= max_order_qty inst /\ min_price inst <= px <= max_price inst.

Lemma validate_order_None inst sym side px qty :
  validate_order inst sym side px qty = None <-> valid_order inst sym side px qty.
Proof.
  unfold validate_order, valid_order. split.
  - intros Hv. repeat (case_match; [done|]). zbool.
    match goal with H : _ \/ _ |- _ => rename H into Hs end.
    repeat match goal with H : String.eqb _ _ = true |- _ => apply String.eqb_eq in H end.
    subst. split_and!; try lia; try done.
    destruct Hs as [Hs|Hs]; zbool; apply String.eqb_eq in Hs; auto.
  - intros (-> & Hs & ? & Hp & ? & Hq & ? & ?).
    rewrite String.eqb_refl. simpl.
    replace (negb (side =? "B")%string && negb (side =? "S")%string) with false
      by (destruct Hs as [-> | ->]; reflexivity).
    rewrite Hp, Hq. repeat (case_match; zbool; try lia; try done).
    all: repeat match goal with H : _ \/ _ |- _ => destruct H; zbool; try lia end.
Qed.

(** The codes [validate_order] can return: its closed set. *)
Lemma validate_order_codes inst sym side px qty c :
  validate_order inst sym side px qty = Some c ->
  c ∈ [UnknownSymbol; BadSide; TickSize; LotSize; QtyLimit; PriceRange].
Proof. unfold validate_order. intros Hv. repeat case_match; simplify_eq; set_solver. Qed.

(** The multiplier of the price/tick boundary is exact on a tick multiple. *)
Lemma rem_quot_exact a b : 0 < b -> Z.rem a b = 0 -> Z.quot a b * b = a.
Proof. intros Hb Hr. pose proof (Z.quot_rem a b). lia. Qed.
