(* ===== verification/Protocol.v ===== *)
(** * Wire messages ([cpp/include/mm/protocol.hpp])

    Member order is the wire key order.  Every message carries the envelope
    [v], [seq], [epoch]; the tag is the variant's constructor. *)

From Stdlib Require Import ZArith String.
From stdpp Require Import base tactics strings.
From S2P Require Import Prelude.

Record Tob := mkTob {
  tob_v : Z; tob_seq : Z; tob_epoch : Z; tob_md_seq : Z; tob_symbol : string;
  tob_bid_px : Z; tob_bid_qty : Z; tob_ask_px : Z; tob_ask_qty : Z }.
Record NewOrder := mkNewOrder {
  no_v : Z; no_seq : Z; no_epoch : Z; no_md_seq : Z; no_cl_id : string;
  no_symbol : string; no_side : string; no_px : Z; no_qty : Z; no_post_only : bool }.
Record CancelOrder := mkCancelOrder {
  co_v : Z; co_seq : Z; co_epoch : Z; co_cl_id : string }.
Record OrderAck := mkOrderAck {
  oa_v : Z; oa_seq : Z; oa_epoch : Z; oa_cl_id : string; oa_eng_id : Z;
  oa_status : string; oa_svc_ns : Z }.
Record CancelAck := mkCancelAck {
  ca_v : Z; ca_seq : Z; ca_epoch : Z; ca_cl_id : string; ca_eng_id : Z;
  ca_status : string }.
Record Reject := mkReject {
  rj_v : Z; rj_seq : Z; rj_epoch : Z; rj_cl_id : string;
  rj_code : string; rj_reason : string }.
Record Fill := mkFill {
  fl_v : Z; fl_seq : Z; fl_epoch : Z; fl_cl_id : string; fl_eng_id : Z;
  fl_px : Z; fl_qty : Z; fl_leaves : Z; fl_exec_id : Z }.

(** [std::variant<NewOrder, CancelOrder>] *)
Inductive InMsg := InNew (o : NewOrder) | InCancel (c : CancelOrder).
(** [std::variant<Tob, OrderAck, CancelAck, Reject, Fill>] *)
Inductive OutMsg :=
| OutTob (m : Tob) | OutAck (m : OrderAck) | OutCancelAck (m : CancelAck)
| OutReject (m : Reject) | OutFill (m : Fill).

Definition kTagTob : string := "top_of_book".
Definition kTagNewOrder : string := "new_order".
Definition kTagCancelOrder : string := "cancel_order".
Definition kTagOrderAck : string := "order_ack".
Definition kTagCancelAck : string := "cancel_ack".
Definition kTagReject : string := "reject".
Definition kTagFill : string := "fill".

#[export] Instance Tob_eq_dec : EqDecision Tob. Proof. solve_decision. Defined.
#[export] Instance NewOrder_eq_dec : EqDecision NewOrder. Proof. solve_decision. Defined.
#[export] Instance CancelOrder_eq_dec : EqDecision CancelOrder. Proof. solve_decision. Defined.
#[export] Instance OrderAck_eq_dec : EqDecision OrderAck. Proof. solve_decision. Defined.
#[export] Instance CancelAck_eq_dec : EqDecision CancelAck. Proof. solve_decision. Defined.
#[export] Instance Reject_eq_dec : EqDecision Reject. Proof. solve_decision. Defined.
#[export] Instance Fill_eq_dec : EqDecision Fill. Proof. solve_decision. Defined.
#[export] Instance InMsg_eq_dec : EqDecision InMsg. Proof. solve_decision. Defined.
#[export] Instance OutMsg_eq_dec : EqDecision OutMsg. Proof. solve_decision. Defined.

(** The envelope of a command, read through the variant. *)
Definition in_seq (m : InMsg) : Z :=
  match m with InNew o => no_seq o | InCancel c => co_seq c end.
Definition in_epoch (m : InMsg) : Z :=
  match m with InNew o => no_epoch o | InCancel c => co_epoch c end.
Definition in_cl_id (m : InMsg) : string :=
  match m with InNew o => no_cl_id o | InCancel c => co_cl_id c end.

(** [m.seq = seq; m.epoch = epoch] through the variant. *)
Definition stamp (seq epoch : Z) (m : OutMsg) : OutMsg :=
  match m with
  | OutTob (mkTob v _ _ md sy bp bq ap aq) => OutTob (mkTob v seq epoch md sy bp bq ap aq)
  | OutAck (mkOrderAck v _ _ c e st ns) => OutAck (mkOrderAck v seq epoch c e st ns)
  | OutCancelAck (mkCancelAck v _ _ c e st) => OutCancelAck (mkCancelAck v seq epoch c e st)
  | OutReject (mkReject v _ _ c cd r) => OutReject (mkReject v seq epoch c cd r)
  | OutFill (mkFill v _ _ c e p q l x) => OutFill (mkFill v seq epoch c e p q l x)
  end.

Definition out_seq (m : OutMsg) : Z :=
  match m with
  | OutTob m => tob_seq m | OutAck m => oa_seq m | OutCancelAck m => ca_seq m
  | OutReject m => rj_seq m | OutFill m => fl_seq m
  end.
Definition out_epoch (m : OutMsg) : Z :=
  match m with
  | OutTob m => tob_epoch m | OutAck m => oa_epoch m | OutCancelAck m => ca_epoch m
  | OutReject m => rj_epoch m | OutFill m => fl_epoch m
  end.
Definition is_tob (m : OutMsg) : bool := match m with OutTob _ => true | _ => false end.
Definition is_ack (m : OutMsg) : bool := match m with OutAck _ => true | _ => false end.
Definition is_fill (m : OutMsg) : bool := match m with OutFill _ => true | _ => false end.

Lemma out_seq_stamp s e m : out_seq (stamp s e m) = s.
Proof. by destruct m as [[]|[]|[]|[]|[]]. Qed.
Lemma out_epoch_stamp s e m : out_epoch (stamp s e m) = e.
Proof. by destruct m as [[]|[]|[]|[]|[]]. Qed.
Lemma is_tob_stamp s e m : is_tob (stamp s e m) = is_tob m.
Proof. by destruct m as [[]|[]|[]|[]|[]]. Qed.
#[export] Hint Rewrite out_seq_stamp out_epoch_stamp is_tob_stamp : mm_rew.
