(* ===== verification/Engine.v ===== *)
(** * The order engine ([cpp/include/mm/engine.hpp], [cpp/src/engine.cpp])

    State and entry points of [OrderEngine], statement by statement: the whole
    result batch is built first (every statement that may allocate is a
    [may_alloc]), then the commit sequence runs.  Orders are a [StdMap] keyed
    by (session, cl_id); the live indexes are sets of iterators into it, i.e.
    sets of keys, and every comparison made by [LiveLess] dereferences them, so
    an index holding a freed iterator is [UB]. *)

From Stdlib Require Import ZArith String List Lia.
From stdpp Require Import base tactics list option strings gmap.
From S2P Require Import Prelude StdMap Types Protocol.

Inductive OrdState := Live | Filled | Cancelled | Rejected.
#[export] Instance OrdState_eq_dec : EqDecision OrdState.
Proof. solve_decision. Defined.

Record Order := mkOrder { eng_id : Z; o_side : Side; o_px : Ticks; leaves : Z; st : OrdState }.

Record Book := mkBook { bid_px : Z; bid_qty : Z; ask_px : Z; ask_qty : Z; md_seq : Z }.

(** A report and the session that owns it. *)
Record Routed := mkRouted { r_session : Z; r_msg : OutMsg }.

#[export] Instance Order_eq_dec : EqDecision Order. Proof. solve_decision. Defined.
#[export] Instance Book_eq_dec : EqDecision Book. Proof. solve_decision. Defined.

(** [OrderKey]: session and cl_id; [KeyLess] is [pair_strict]. *)
Abbreviation OrderKey := (Z * string)%type.
Abbreviation OrdersMap := (list (OrderKey * Order)).
Abbreviation LiveIndex := (list (OrderKey * unit)).

Record OrderEngine := mkEngine {
  inst : Instrument;
  book : Book;
  book_seen : bool;
  next_eng_id : Z;
  next_exec_id : Z;
  stale_books_ignored : Z;
  max_session_entries : Z;
  orders : OrdersMap;
  live_bids : LiveIndex;
  live_asks : LiveIndex;
  entries_by_session : list (Z * Z);
}.

Definition kDefaultMaxSessionEntries : Z := 1048576.

Definition set_orders f e := mkEngine (inst e) (book e) (book_seen e) (next_eng_id e)
  (next_exec_id e) (stale_books_ignored e) (max_session_entries e) (f (orders e))
  (live_bids e) (live_asks e) (entries_by_session e).
Definition set_entries f e := mkEngine (inst e) (book e) (book_seen e) (next_eng_id e)
  (next_exec_id e) (stale_books_ignored e) (max_session_entries e) (orders e)
  (live_bids e) (live_asks e) (f (entries_by_session e)).
Definition set_next_eng_id f e := mkEngine (inst e) (book e) (book_seen e) (f (next_eng_id e))
  (next_exec_id e) (stale_books_ignored e) (max_session_entries e) (orders e)
  (live_bids e) (live_asks e) (entries_by_session e).
Definition set_stale f e := mkEngine (inst e) (book e) (book_seen e) (next_eng_id e)
  (next_exec_id e) (f (stale_books_ignored e)) (max_session_entries e) (orders e)
  (live_bids e) (live_asks e) (entries_by_session e).
Definition install_book b x e := mkEngine (inst e) b true (next_eng_id e)
  x (stale_books_ignored e) (max_session_entries e) (orders e)
  (live_bids e) (live_asks e) (entries_by_session e).

Definition live_index (side : Side) (e : OrderEngine) : LiveIndex :=
  match side with Bid => live_bids e | Ask => live_asks e end.
Definition set_live_index (side : Side) f e :=
  match side with
  | Bid => mkEngine (inst e) (book e) (book_seen e) (next_eng_id e) (next_exec_id e)
      (stale_books_ignored e) (max_session_entries e) (orders e) (f (live_bids e))
      (live_asks e) (entries_by_session e)
  | Ask => mkEngine (inst e) (book e) (book_seen e) (next_eng_id e) (next_exec_id e)
      (stale_books_ignored e) (max_session_entries e) (orders e) (live_bids e)
      (f (live_asks e)) (entries_by_session e)
  end.

(** ** Construction *)

Definition new_engine (i : Instrument) (cap : Z) : outcome OrderEngine :=
  if (tick_size i <=? 0) || (lot_size i <=? 0) then
    Throw (invalid_argument "OrderEngine: Instrument tick_size and lot_size must be > 0")
  else if max_live_orders i <? 0 then
    Throw (invalid_argument "OrderEngine: Instrument max_live_orders must be >= 0")
  else if max_order_qty i <=? 0 then
    Throw (invalid_argument "OrderEngine: Instrument max_order_qty must be > 0")
  else if max_price i <? min_price i then
    Throw (invalid_argument "OrderEngine: Instrument min_price must be <= max_price")
  else if cap =? 0 then
    Throw (invalid_argument "OrderEngine: max_session_entries must be > 0")
  else Ret (mkEngine i (mkBook 0 0 0 0 0) false 1 1 0 cap [] [] [] []).

(** ** Helpers *)

Definition side_from_wire (side : string) : option Side :=
  if String.eqb side "B" then Some Bid
  else if String.eqb side "S" then Some Ask
  else None.

Definition to_ticks (i : Instrument) (raw_px : Z) : Ticks := mkTicks (Z.quot raw_px (tick_size i)).
Definition to_raw_px (i : Instrument) (px : Ticks) : Z := ticks_v px * tick_size i.

Definition make_reject (cl_id : string) (code : RejectCode) (reason : string) : Reject :=
  mkReject 1 0 0 cl_id (to_string code) reason.

(** A double quote inside a Rocq string would have to be doubled; the reason
    text is assembled from its bytes instead. *)
Definition dquote : string := String (Ascii.ascii_of_nat 34) EmptyString.

Definition validation_reason (code : RejectCode) (order : NewOrder) : string :=
  match code with
  | UnknownSymbol => "unknown symbol"
  | BadSide => "side must be " ++ dquote ++ "B" ++ dquote ++ " or " ++ dquote ++ "S" ++ dquote
  | TickSize => "px is not a multiple of tick_size"
  | LotSize => "qty is not a multiple of lot_size"
  | QtyLimit => if no_qty order <=? 0 then "qty must be positive" else "qty exceeds max_order_qty"
  | PriceRange => "px outside [min_price, max_price]"
  | _ => to_string code
  end.

(** First possible key of a session: the empty cl_id sorts before every other. *)
Definition session_floor (session : Z) : OrderKey := (session, EmptyString).

(** [lo, hi) of a session: [lower_bound] and a forward walk. *)
Definition session_range {V} (m : list (OrderKey * V)) (session : Z) : list (OrderKey * V) :=
  take_while (fun e => e.1.1 =? session) (lower_bound (session_floor session) m).

(** [erase(lo, hi)] of that range. *)
Definition erase_session_range {V} (m : list (OrderKey * V)) (session : Z) : list (OrderKey * V) :=
  take_while (fun e => ltb e.1 (session_floor session)) m ++
  drop_while (fun e => e.1.1 =? session) (lower_bound (session_floor session) m).

(** Every iterator of an index still designates a node of [orders_]. *)
Definition derefs (om : OrdersMap) (idx : LiveIndex) : bool :=
  forallb (fun e => bool_decide (is_Some (find e.1 om))) idx.

(** [live_index(side).insert(it)]: compares, hence dereferences, the iterators. *)
Definition live_insert (side : Side) (key : OrderKey) : M OrderEngine unit :=
  e ← get;
  if derefs (orders e) (live_index side e) && bool_decide (is_Some (find key (orders e)))
  then modify (set_live_index side (emplace key tt))
  else ub.

(** [session_range(live, session)] and [live.erase(first, last)]. *)
Definition live_erase_session (side : Side) (session : Z) : M OrderEngine unit :=
  e ← get;
  if derefs (orders e) (live_index side e)
  then modify (set_live_index side (fun idx => erase_session_range idx session))
  else ub.

Definition live_count (e : OrderEngine) (session : Z) : Z :=
  Z.of_nat (length (session_range (live_bids e) session)) +
  Z.of_nat (length (session_range (live_asks e) session)).

Definition entry_count (e : OrderEngine) (session : Z) : Z :=
  match find session (entries_by_session e) with Some n => n | None => 0 end.

Definition entry_cap_breached (e : OrderEngine) (session : Z) : bool :=
  max_session_entries e <=? entry_count e session.

(** ** [on_new] *)

(** A side is absent when its quantity or its price is not positive. *)
Definition crosses (b : Book) (side : Side) (px : Z) : bool :=
  match side with
  | Bid => (0 <? ask_qty b) && (0 <? ask_px b) && (ask_px b <=? px)
  | Ask => (0 <? bid_qty b) && (0 <? bid_px b) && (px <=? bid_px b)
  end.

(** [Order{.st = OrdState::Rejected}] *)
Definition tombstone : Order := mkOrder 0 Bid (mkTicks 0) 0 Rejected.

(** [++counter->second] *)
Definition bump_counter (session : Z) : M OrderEngine unit :=
  e ← get;
  n ← deref (find session (entries_by_session e));
  modify (set_entries (assign session (n + 1))).

(** The [reject] lambda: report first, tombstone second, counter last; a throw
    from the first two undoes the counter node. *)
Definition on_new_reject (session : Z) (order : NewOrder) (undo_counter : M OrderEngine unit)
    (code : RejectCode) (reason : string) : M OrderEngine (list OutMsg) :=
  out ← on_throw
    (may_alloc;;
     may_alloc;;
     modify (set_orders (emplace (session, no_cl_id order) tombstone));;
     mret [OutReject (make_reject (no_cl_id order) code reason)])
    undo_counter;
  bump_counter session;;
  mret out.

(** The accept's commit: ack, map node, index node.  [it != end()] in the
    handler holds exactly when the map insertion succeeded, i.e. when the throw
    comes from the index insertion. *)
Definition on_new_accept (session : Z) (order : NewOrder) (undo_counter : M OrderEngine unit)
    (side : Side) : M OrderEngine (list OutMsg) :=
  e ← get;
  let key := (session, no_cl_id order) in
  let ord := mkOrder (next_eng_id e) side (to_ticks (inst e) (no_px order)) (no_qty order) Live in
  out ← on_throw
    (may_alloc;;
     may_alloc;;
     modify (set_orders (emplace key ord));;
     on_throw (may_alloc;; live_insert side key) (modify (set_orders (erase key)));;
     mret [OutAck (mkOrderAck 1 0 0 (no_cl_id order) (eng_id ord) "live" 0)])
    undo_counter;
  bump_counter session;;
  modify (set_next_eng_id (fun n => u64 (n + 1)));;
  mret out.

(** The checks after the duplicate test. *)
Definition on_new_checked (session : Z) (order : NewOrder) (undo_counter : M OrderEngine unit)
    : M OrderEngine (list OutMsg) :=
  e ← get;
  let reject := on_new_reject session order undo_counter in
  match validate_order (inst e) (no_symbol order) (no_side order) (no_px order) (no_qty order) with
  | Some code => reject code (validation_reason code order)
  | None =>
      if max_live_orders (inst e) <=? live_count e session then
        reject MaxLiveOrders "session already holds max_live_orders live orders"
      else
        side ← deref (side_from_wire (no_side order));
        if no_post_only order && crosses (book e) side (no_px order) then
          reject PostOnlyCross "post-only order would cross the book"
        else on_new_accept session order undo_counter side
  end.

(** The session's entry-counter node, reserved up front: [try_emplace]. *)
Definition reserve_counter (session : Z) : M OrderEngine (M OrderEngine unit) :=
  e ← get;
  may_alloc;;
  modify (set_entries (emplace session 0));;
  mret (if bool_decide (find session (entries_by_session e) = None)
        then modify (set_entries (erase session)) else mret tt).

Definition on_new (session : Z) (order : NewOrder) : M OrderEngine (list OutMsg) :=
  e ← get;
  let key := (session, no_cl_id order) in
  let is_dup := match lower_bound key (orders e) with
                | (k, _) :: _ => bool_decide (k = key)
                | [] => false
                end in
  if is_dup then
    may_alloc;;
    mret [OutReject (make_reject (no_cl_id order) DupClOrdId "cl_id already used on this session")]
  else
    undo_counter ← reserve_counter session;
    on_new_checked session order undo_counter.

(** ** [on_cancel] *)

Definition on_cancel (session : Z) (cancel : CancelOrder) : M OrderEngine (list OutMsg) :=
  e ← get;
  let key := (session, co_cl_id cancel) in
  match find key (orders e) with
  | None =>
      may_alloc;;
      mret [OutReject (make_reject (co_cl_id cancel) UnknownClOrdId
                         "unknown cl_id on this session")]
  | Some ord =>
      if bool_decide (st ord <> Live) then
        may_alloc;;
        mret [OutReject (make_reject (co_cl_id cancel) AlreadyTerminal
                           "order is already terminal")]
      else
        may_alloc;;
        let ack := mkCancelAck 1 0 0 (co_cl_id cancel) (eng_id ord) "cancelled" in
        modify (set_orders (assign key
          (mkOrder (eng_id ord) (o_side ord) (o_px ord) (leaves ord) Cancelled)));;
        modify (set_live_index (o_side ord) (erase key));;
        mret [OutCancelAck ack]
  end.

(** ** [on_book] *)

Record StagedFill := mkStaged { sf_key : OrderKey; sf_side : Side; sf_leaves_after : Z }.

(** The batch under construction: next exec_id, staged fills, routed reports. *)
Record Sweep := mkSweep { sw_exec : Z; sw_staged : list StagedFill; sw_out : list Routed }.

Definition opp_px (side : Side) (b : Book) : Z :=
  match side with Bid => ask_px b | Ask => bid_px b end.
Definition opp_qty (side : Side) (b : Book) : Z :=
  match side with Bid => ask_qty b | Ask => bid_qty b end.

Definition crossed (side : Side) (b : Book) (px_raw : Z) : bool :=
  match side with Bid => opp_px side b <=? px_raw | Ask => px_raw <=? opp_px side b end.

(** One element of the walk: nothing is applied, the order is only read. *)
Definition sweep_one (b : Book) (side : Side) (sw : Sweep) (elt : OrderKey * unit)
    : M OrderEngine Sweep :=
  e ← get;
  let key := elt.1 in
  ord ← deref (find key (orders e));
  let px_raw := to_raw_px (inst e) (o_px ord) in
  if negb (crossed side b px_raw) then mret sw
  else
    let fill_qty := Z.min (leaves ord) (opp_qty side b) in
    let left := leaves ord - fill_qty in
    may_alloc;;
    let fill := mkFill 1 0 0 key.2 (eng_id ord) px_raw fill_qty left (sw_exec sw) in
    mret (mkSweep (u64 (sw_exec sw + 1))
                  (sw_staged sw ++ [mkStaged key side left])
                  (sw_out sw ++ [mkRouted key.1 (OutFill fill)])).

Definition sweep_side (b : Book) (sw : Sweep) (side : Side) : M OrderEngine Sweep :=
  if (opp_qty side b <=? 0) || (opp_px side b <=? 0) then mret sw
  else
    e ← get;
    foldM (sweep_one b side) sw (live_index side e).

(** One step of the commit loop. *)
Definition commit_fill (s : StagedFill) : M OrderEngine unit :=
  e ← get;
  ord ← deref (find (sf_key s) (orders e));
  let done := sf_leaves_after s =? 0 in
  modify (set_orders (assign (sf_key s)
    (mkOrder (eng_id ord) (o_side ord) (o_px ord) (sf_leaves_after s)
             (if done then Filled else st ord))));;
  if done then modify (set_live_index (sf_side s) (erase (sf_key s))) else mret tt.

Definition on_book (b : Book) : M OrderEngine (list Routed) :=
  e ← get;
  if book_seen e && (md_seq b <=? md_seq (book e)) then
    modify (set_stale (fun n => u64 (n + 1)));;
    mret []
  else
    sw ← foldM (sweep_side b) (mkSweep (next_exec_id e) [] []) [Bid; Ask];
    modify (install_book b (sw_exec sw));;
    foldM (fun _ s => commit_fill s) tt (sw_staged sw);;
    mret (sw_out sw).

(** ** [end_session] *)

Definition end_session (session : Z) : M OrderEngine (list OutMsg) :=
  e ← get;
  out ← foldM (fun out (entry : OrderKey * Order) =>
           if bool_decide (st entry.2 = Live) then
             may_alloc;;
             mret (out ++ [OutCancelAck (mkCancelAck 1 0 0 entry.1.2 (eng_id entry.2) "cancelled")])
           else mret out)
         [] (session_range (orders e) session);
  live_erase_session Bid session;;
  live_erase_session Ask session;;
  modify (set_orders (fun m => erase_session_range m session));;
  modify (set_entries (erase session));;
  mret out.
