(* ===== verification/EngineInv.v ===== *)
(** * Engine invariant and the facts every entry point needs

    [engine_inv] is the representation invariant of [OrderEngine]: the maps are
    ordered, the live indexes hold exactly the live orders of their side (so
    every iterator they hold designates a node), the entry counters count the
    retained entries, the live cap holds, and every order is well formed. *)

From Stdlib Require Import ZArith String List Lia.
From stdpp Require Import base tactics list option strings gmap sorting.
From S2P Require Import Prelude StdMap Types Protocol Engine.

(** ** Session ranges are filters *)

Section Ranges.
Context {V : Type}.
Implicit Types m : list (OrderKey * V).

Definition of_session (s : Z) (e : OrderKey * V) : bool := e.1.1 =? s.

Lemma ltb_floor (k : OrderKey) s : ltb k (session_floor s) = (k.1 <? s).
Proof.
  rewrite ltb_pair. unfold session_floor. simpl. case_bool_decide as Hk; [|done].
  rewrite Hk, Z.ltb_irrefl. by destruct k.2.
Qed.

Lemma key_lt_session (a b : OrderKey * V) : key_lt a b -> a.1.1 <= b.1.1.
Proof. unfold key_lt. rewrite ltb_pair. case_bool_decide as Hk; [lia|]. intros ?%Z.ltb_lt. lia. Qed.

Lemma sorted_cons_session e m :
  sorted_map (e :: m) -> sorted_map m /\ Forall (fun x => e.1.1 <= x.1.1) m.
Proof.
  intros [Hs Ha]%sorted_cons. split; [done|].
  eapply Forall_impl; [exact Ha|]. apply key_lt_session.
Qed.

Lemma filter_session_none s m :
  Forall (fun x => s < x.1.1) m -> List.filter (of_session s) m = [].
Proof.
  induction 1 as [|x m Hx _ IH]; simpl; [done|].
  by assert (of_session s x = false) as -> by (unfold of_session; lia).
Qed.

Lemma filter_session_all s m :
  Forall (fun x => s < x.1.1) m -> List.filter (fun e => negb (of_session s e)) m = m.
Proof.
  induction 1 as [|x m Hx _ IH]; simpl; [done|].
  assert (of_session s x = false) as -> by (unfold of_session; lia). simpl. by f_equal.
Qed.

Lemma walk_ge s m :
  sorted_map m -> Forall (fun x => s <= x.1.1) m ->
  take_while (of_session s) m = List.filter (of_session s) m /\
  drop_while (of_session s) m = List.filter (fun e => negb (of_session s e)) m.
Proof.
  induction m as [|e m IH]; simpl; [done|]. intros [Hs Ha]%sorted_cons_session Hge.
  inversion Hge as [|? ? Hhd Htl]; subst.
  destruct (of_session s e) eqn:E; simpl.
  - destruct (IH Hs Htl) as [IH1 IH2]. split; [by rewrite IH1 | exact IH2].
  - unfold of_session in E. zbool. assert (Forall (fun x : OrderKey * V => s < x.1.1) m).
    { eapply Forall_impl; [exact Ha|]. simpl. lia. }
    by rewrite filter_session_none, filter_session_all.
Qed.

Lemma ranges_filter s m :
  sorted_map m ->
  session_range m s = List.filter (of_session s) m /\
  erase_session_range m s = List.filter (fun e => negb (of_session s e)) m.
Proof.
  unfold session_range, erase_session_range, lower_bound.
  induction m as [|e m IH]; [done|]. intros Hsm.
  pose proof Hsm as [Hs Ha]%sorted_cons_session. cbn [drop_while take_while].
  rewrite ltb_floor. destruct (Z.ltb_spec e.1.1 s) as [Hlt|Hge].
  - destruct (IH Hs) as [IH1 IH2]. cbn [List.filter].
    assert (of_session s e = false) as -> by (unfold of_session; lia).
    cbn [negb app]. split; [exact IH1 | f_equal; exact IH2].
  - apply (walk_ge s (e :: m)); [done|]. constructor; [lia|].
    eapply Forall_impl; [exact Ha|]. simpl. lia.
Qed.
End Ranges.

(** ** Counting and indexing *)

Definition count {A} (p : A -> bool) (l : list A) : Z := Z.of_nat (length (List.filter p l)).

Lemma count_nonneg {A} (p : A -> bool) l : 0 <= count p l.
Proof. unfold count. lia. Qed.

Lemma count_emplace {V} (p : OrderKey * V -> bool) k v m :
  find k m = None -> count p (emplace k v m) = count p m + (if p (k, v) then 1 else 0).
Proof.
  unfold count. induction m as [|[k1 v1] m IH]; cbn [emplace find].
  - intros _. simpl. destruct (p (k, v)); simpl; lia.
  - destruct (bool_decide_reflect (k = k1)) as [|Hne]; [done|]. intros Hf.
    destruct (ltb k k1); simpl.
    + destruct (p (k, v)), (p (k1, v1)); simpl; lia.
    + specialize (IH Hf). destruct (p (k1, v1)); simpl; lia.
Qed.

Lemma count_assign {V} (p : OrderKey * V -> bool) k v v0 m :
  sorted_map m -> find k m = Some v0 ->
  count p (assign k v m) =
    count p m - (if p (k, v0) then 1 else 0) + (if p (k, v) then 1 else 0).
Proof.
  unfold count, assign. induction m as [|[k1 v1] m IH]; cbn [find map List.filter]; [done|].
  intros [Hs Ha]%sorted_cons.
  destruct (bool_decide_reflect (k = k1)) as [->|Hne].
  - intros [= ->]. cbn [fst snd]. rewrite bool_decide_true by done.
    assert (map (fun e : OrderKey * V => if bool_decide (e.1 = k1) then (e.1, v) else e) m = m) as ->.
    { clear IH Hs. induction Ha as [|x m Hx _ IH]; [done|]. cbn [map].
      rewrite bool_decide_false by (apply not_eq_sym, ltb_neq; exact Hx). by f_equal. }
    destruct (p (k1, v0)), (p (k1, v)); simpl; lia.
  - intros Hf. cbn [fst snd]. rewrite bool_decide_false by congruence.
    specialize (IH Hs Hf). destruct (p (k1, v1)); simpl; lia.
Qed.

Definition is_live (e : OrderKey * Order) : bool := bool_decide (st e.2 = Live).
Definition is_live_on (side : Side) (e : OrderKey * Order) : bool :=
  is_live e && bool_decide (o_side e.2 = side).

(** The live orders of one side, in key order: what the index must hold. *)
Definition index_of (side : Side) (m : OrdersMap) : LiveIndex :=
  map (fun e => (e.1, tt)) (List.filter (is_live_on side) m).

Lemma find_map_unit {V} k (m : list (OrderKey * V)) :
  find k (map (fun e => (e.1, tt)) m) = (fun _ => tt) <$> find k m.
Proof.
  induction m as [|[k1 v1] m IH]; cbn [find map fst]; [done|]. by case_bool_decide.
Qed.

Lemma map_unit_sorted {V} (m : list (OrderKey * V)) :
  sorted_map m -> sorted_map (map (fun e => (e.1, tt)) m).
Proof.
  induction m as [|e m IH]; cbn [map]; [constructor|]. intros [Hs Ha]%sorted_cons.
  apply sorted_cons. split; [by apply IH|]. apply Forall_fmap. exact Ha.
Qed.

Lemma index_of_sorted side m : sorted_map m -> sorted_map (index_of side m).
Proof. intros. by apply map_unit_sorted, filter_sorted. Qed.

Lemma find_index_of side m k :
  sorted_map m ->
  find k (index_of side m) =
    match find k m with Some o => if is_live_on side (k, o) then Some tt else None | None => None end.
Proof.
  intros Hs. unfold index_of. rewrite find_map_unit, find_filter by done.
  destruct (find k m) as [o|]; [|done]. by destruct (is_live_on side (k, o)).
Qed.

#[export] Hint Resolve index_of_sorted : mm.

(** How the required index changes with the orders. *)
Lemma index_of_emplace side m k o :
  sorted_map m -> find k m = None ->
  index_of side (emplace k o m) =
    if is_live_on side (k, o) then emplace k tt (index_of side m) else index_of side m.
Proof.
  intros Hs Hf.
  assert (find k (index_of side m) = None) as Hi by (by rewrite find_index_of, Hf).
  apply find_ext; [eauto with mm | destruct is_live_on; eauto with mm |].
  intros k'. rewrite find_index_of, find_emplace by eauto with mm.
  destruct (is_live_on side (k, o)) eqn:E.
  - rewrite find_emplace by done. rewrite find_index_of by done.
    case_bool_decide; [subst; by rewrite E|done].
  - rewrite find_index_of by done. case_bool_decide; [subst; by rewrite E, Hf|done].
Qed.

Lemma index_of_assign side m k o o' :
  sorted_map m -> find k m = Some o -> is_live_on side (k, o) = is_live_on side (k, o') ->
  index_of side (assign k o' m) = index_of side m.
Proof.
  intros Hs Hf E. apply find_ext; [eauto with mm..|].
  intros k'. rewrite !find_index_of, find_assign by eauto with mm.
  case_bool_decide; [|done]. subst. rewrite Hf. simpl. by rewrite E.
Qed.

Lemma index_of_retire side m k o' :
  sorted_map m -> is_live (k, o') = false ->
  index_of side (assign k o' m) = erase k (index_of side m).
Proof.
  intros Hs E. apply find_ext; [eauto with mm..|].
  intros k'. rewrite find_erase, !find_index_of, find_assign by eauto with mm.
  case_bool_decide; [|done]. subst. destruct (find k m); [|done].
  cbn. unfold is_live_on. by rewrite E.
Qed.

Lemma index_of_filter side (p : OrderKey -> bool) m :
  sorted_map m ->
  index_of side (List.filter (fun e => p e.1) m) = List.filter (fun e => p e.1) (index_of side m).
Proof.
  intros Hs. apply find_ext; [eauto with mm..|].
  intros k'. rewrite find_filter, !find_index_of, find_filter by eauto with mm. cbn.
  destruct (find k' m) as [o|]; [|done].
  by destruct (p k'), (is_live_on side (k', o)).
Qed.

Lemma derefs_index_of side m : sorted_map m -> derefs m (index_of side m) = true.
Proof.
  intros Hs. unfold derefs. apply forallb_forall. intros [k []] Hin.
  apply bool_decide_eq_true. apply list_elem_of_In in Hin.
  apply sorted_find_In in Hin; [|eauto with mm]. rewrite find_index_of in Hin by done.
  cbn [fst]. destruct (find k m); [by eexists | done].
Qed.

(** ** The invariant *)

Definition inst_ok (i : Instrument) : Prop :=
  0 < tick_size i /\ 0 < lot_size i /\ 0 <= max_live_orders i /\ 0 < max_order_qty i /\
  min_price i <= max_price i.

Definition order_ok (i : Instrument) (o : Order) : Prop :=
  match st o with
  | Live => 0 < leaves o <= max_order_qty i /\
            min_price i <= to_raw_px i (o_px o) <= max_price i
  | Filled => leaves o = 0
  | Cancelled => 0 < leaves o <= max_order_qty i
  | Rejected => o = tombstone
  end.

Definition session_live (s : Z) (e : OrderKey * Order) : bool := of_session s e && is_live e.

Definition empty_book : Book := mkBook 0 0 0 0 0.

Record engine_inv (e : OrderEngine) : Prop := {
  inv_inst : inst_ok (inst e) /\ max_session_entries e <> 0;
  inv_sorted : sorted_map (orders e);
  inv_index : forall side, live_index side e = index_of side (orders e);
  inv_entries_sorted : sorted_map (entries_by_session e);
  inv_entries : forall s, find s (entries_by_session e) =
    let n := count (of_session s) (orders e) in if n =? 0 then None else Some n;
  inv_orders : forall k o, find k (orders e) = Some o -> order_ok (inst e) o;
  inv_live_cap : forall s,
    count (session_live s) (orders e) <= max_live_orders (inst e);
  inv_book : book_seen e = false -> book e = empty_book;
  inv_ids : is_u64 (next_eng_id e) /\ is_u64 (next_exec_id e);
}.

Lemma engine_inv_init i cap e : new_engine i cap = Ret e -> engine_inv e.
Proof.
  unfold new_engine. intros Hn. repeat (case_match; [done|]). simplify_eq. zbool.
  split; simpl; try done; try constructor; unfold inst_ok, count; simpl; try lia.
  by intros [].
Qed.

Lemma find_entries_count e s :
  engine_inv e -> entry_count e s = count (of_session s) (orders e).
Proof.
  intros He. unfold entry_count. rewrite (inv_entries _ He). simpl.
  destruct (Z.eqb_spec (count (of_session s) (orders e)) 0); lia.
Qed.

(** Every live order is reached through the index, and only those. *)
Lemma length_filter_map_unit {V} (p : OrderKey -> bool) (m : list (OrderKey * V)) :
  length (List.filter (fun e => p e.1) (map (fun e => (e.1, tt)) m)) =
  length (List.filter (fun e => p e.1) m).
Proof.
  induction m as [|[k v] m IH]; cbn [map List.filter fst]; [done|].
  destruct (p k); simpl; by rewrite IH.
Qed.

Lemma count_sides s (m : OrdersMap) :
  count (session_live s) m =
  Z.of_nat (length (List.filter (of_session s) (List.filter (is_live_on Bid) m))) +
  Z.of_nat (length (List.filter (of_session s) (List.filter (is_live_on Ask) m))).
Proof.
  unfold count. induction m as [|[k o] m IH]; cbn [List.filter]; [done|].
  unfold session_live, is_live_on in *. cbn [snd].
  destruct (is_live (k, o)), (o_side o), (of_session s (k, o)) eqn:E; simpl; rewrite ?E; simpl; lia.
Qed.

Lemma live_count_spec e s : engine_inv e -> live_count e s = count (session_live s) (orders e).
Proof.
  intros He. unfold live_count.
  change (live_bids e) with (live_index Bid e). change (live_asks e) with (live_index Ask e).
  rewrite !(inv_index _ He). pose proof (inv_sorted _ He).
  rewrite !(proj1 (ranges_filter s _ (index_of_sorted _ _ H))).
  rewrite count_sides. unfold index_of, of_session.
  by rewrite !(length_filter_map_unit (fun k => k.1 =? s)).
Qed.
