(* ===== verification/EngineSpec.v ===== *)
(** * Abstract specification of the engine and its refinement

    [EngineSpec] keeps one ordered collection of orders: no live index, no
    entry counters, no staging, no failing allocation.  Each [spec_*] operation
    is a pure function.  The [*_refines] lemmas show that every entry point of
    [Engine], from a state satisfying [engine_inv], is atomic (it commits
    entirely or throws and changes nothing), keeps the invariant, and computes
    exactly the specified reports and the specified state. *)

From Stdlib Require Import ZArith String List Lia.
From stdpp Require Import base tactics list option strings gmap.
From S2P Require Import Prelude StdMap Types Protocol Engine EngineInv.

Record EngineSpec := mkSpec {
  s_inst : Instrument;
  s_cap : Z;
  s_book : option Book;
  s_next_eng : Z;
  s_next_exec : Z;
  s_stale : Z;
  s_orders : OrdersMap;
}.

Definition abs (e : OrderEngine) : EngineSpec :=
  mkSpec (inst e) (max_session_entries e) (if book_seen e then Some (book e) else None)
    (next_eng_id e) (next_exec_id e) (stale_books_ignored e) (orders e).

Definition spec_set_orders f s :=
  mkSpec (s_inst s) (s_cap s) (s_book s) (s_next_eng s) (s_next_exec s) (s_stale s)
    (f (s_orders s)).
Definition spec_burn_eng s :=
  mkSpec (s_inst s) (s_cap s) (s_book s) (u64 (s_next_eng s + 1)) (s_next_exec s) (s_stale s)
    (s_orders s).

Definition spec_crosses (s : EngineSpec) (side : Side) (px : Z) : bool :=
  match s_book s with Some b => crosses b side px | None => false end.

(** The verdict on a fresh cl_id: a rejection or the side it rests on. *)
Definition spec_verdict (session : Z) (o : NewOrder) (s : EngineSpec)
    : (RejectCode * string) + Side :=
  match validate_order (s_inst s) (no_symbol o) (no_side o) (no_px o) (no_qty o) with
  | Some code => inl (code, validation_reason code o)
  | None =>
      let side := if String.eqb (no_side o) "B" then Bid else Ask in
      if max_live_orders (s_inst s) <=? count (session_live session) (s_orders s) then
        inl (MaxLiveOrders, "session already holds max_live_orders live orders"%string)
      else if no_post_only o && spec_crosses s side (no_px o) then
        inl (PostOnlyCross, "post-only order would cross the book"%string)
      else inr side
  end.

Definition resting (s : EngineSpec) (o : NewOrder) (side : Side) : Order :=
  mkOrder (s_next_eng s) side (to_ticks (s_inst s) (no_px o)) (no_qty o) Live.

Definition spec_new (session : Z) (o : NewOrder) (s : EngineSpec) : list OutMsg * EngineSpec :=
  let key := (session, no_cl_id o) in
  match find key (s_orders s) with
  | Some _ =>
      ([OutReject (make_reject (no_cl_id o) DupClOrdId "cl_id already used on this session")], s)
  | None =>
      match spec_verdict session o s with
      | inl (code, reason) =>
          ([OutReject (make_reject (no_cl_id o) code reason)],
           spec_set_orders (emplace key tombstone) s)
      | inr side =>
          ([OutAck (mkOrderAck 1 0 0 (no_cl_id o) (s_next_eng s) "live" 0)],
           spec_burn_eng (spec_set_orders (emplace key (resting s o side)) s))
      end
  end.

Definition with_state (o : Order) (l : Z) (s : OrdState) : Order :=
  mkOrder (eng_id o) (o_side o) (o_px o) l s.

Definition spec_cancel (session : Z) (c : CancelOrder) (s : EngineSpec)
    : list OutMsg * EngineSpec :=
  let key := (session, co_cl_id c) in
  match find key (s_orders s) with
  | None =>
      ([OutReject (make_reject (co_cl_id c) UnknownClOrdId "unknown cl_id on this session")], s)
  | Some o =>
      match st o with
      | Live => ([OutCancelAck (mkCancelAck 1 0 0 (co_cl_id c) (eng_id o) "cancelled")],
                 spec_set_orders (assign key (with_state o (leaves o) Cancelled)) s)
      | _ => ([OutReject (make_reject (co_cl_id c) AlreadyTerminal
                            "order is already terminal")], s)
      end
  end.

(** The fill rule, on one order. *)
Definition present (side : Side) (b : Book) : bool :=
  (0 <? opp_qty side b) && (0 <? opp_px side b).

Definition hit (i : Instrument) (b : Book) (side : Side) (e : OrderKey * Order) : bool :=
  is_live_on side e && present side b && crossed side b (to_raw_px i (o_px e.2)).

Definition fill_qty_of (b : Book) (o : Order) : Z := Z.min (leaves o) (opp_qty (o_side o) b).

Definition fill_order (b : Book) (o : Order) : Order :=
  let left := leaves o - fill_qty_of b o in
  with_state o left (if left =? 0 then Filled else st o).

Definition fill_report (i : Instrument) (b : Book) (exec : Z) (e : OrderKey * Order) : Routed :=
  mkRouted e.1.1 (OutFill (mkFill 1 0 0 e.1.2 (eng_id e.2) (to_raw_px i (o_px e.2))
    (fill_qty_of b e.2) (leaves e.2 - fill_qty_of b e.2) exec)).

(** The exec_ids of a batch: consecutive, modulo 2^64. *)
Fixpoint number (i : Instrument) (b : Book) (exec : Z) (l : list (OrderKey * Order)) : list Routed :=
  match l with
  | [] => []
  | e :: l' => fill_report i b exec e :: number i b (u64 (exec + 1)) l'
  end.

Fixpoint iter_exec (n : nat) (exec : Z) : Z :=
  match n with O => exec | S n' => iter_exec n' (u64 (exec + 1)) end.

(** The orders a book fills: a full scan of the collection, bids first. *)
Definition hits (i : Instrument) (b : Book) (m : OrdersMap) : list (OrderKey * Order) :=
  List.filter (hit i b Bid) m ++ List.filter (hit i b Ask) m.

Definition apply_fills (i : Instrument) (b : Book) (m : OrdersMap) : OrdersMap :=
  map (fun e => if hit i b (o_side e.2) e then (e.1, fill_order b e.2) else e) m.

Definition spec_book_stale (b : Book) (s : EngineSpec) : bool :=
  match s_book s with Some b' => md_seq b <=? md_seq b' | None => false end.

Definition spec_on_book (b : Book) (s : EngineSpec) : list Routed * EngineSpec :=
  if spec_book_stale b s then
    ([], mkSpec (s_inst s) (s_cap s) (s_book s) (s_next_eng s) (s_next_exec s)
           (u64 (s_stale s + 1)) (s_orders s))
  else
    let l := hits (s_inst s) b (s_orders s) in
    (number (s_inst s) b (s_next_exec s) l,
     mkSpec (s_inst s) (s_cap s) (Some b) (s_next_eng s) (iter_exec (length l) (s_next_exec s))
       (s_stale s) (apply_fills (s_inst s) b (s_orders s))).

Definition cancel_ack_of (e : OrderKey * Order) : OutMsg :=
  OutCancelAck (mkCancelAck 1 0 0 e.1.2 (eng_id e.2) "cancelled").

Definition spec_end_session (session : Z) (s : EngineSpec) : list OutMsg * EngineSpec :=
  (map cancel_ack_of (List.filter (session_live session) (s_orders s)),
   spec_set_orders (List.filter (fun e => negb (of_session session e))) s).

(** ** Entry counters *)

Definition incr (session : Z) (m : list (Z * Z)) : list (Z * Z) :=
  match find session m with
  | Some n => assign session (n + 1) m
  | None => emplace session 1 m
  end.

Lemma find_incr session (m : list (Z * Z)) s :
  find s (incr session m) =
    if bool_decide (s = session) then Some (default 0 (find session m) + 1) else find s m.
Proof.
  unfold incr. destruct (find session m) eqn:E; cbn [default].
  - rewrite find_assign. case_bool_decide; [|done]. by subst; rewrite E.
  - rewrite find_emplace by done. by case_bool_decide.
Qed.

Lemma incr_sorted session (m : list (Z * Z)) : sorted_map m -> sorted_map (incr session m).
Proof. unfold incr. case_match; eauto with mm. Qed.
#[export] Hint Resolve incr_sorted : mm.

Lemma find_reserved session (m : list (Z * Z)) :
  sorted_map m -> find session (emplace session 0 m) = Some (default 0 (find session m)).
Proof.
  intros Hs. destruct (find session m) eqn:E; cbn [default].
  - by rewrite (emplace_present _ _ _ _ Hs E).
  - rewrite find_emplace by done. by rewrite bool_decide_true.
Qed.

Lemma incr_reserved session (m : list (Z * Z)) n :
  sorted_map m -> find session (emplace session 0 m) = Some n ->
  assign session (n + 1) (emplace session 0 m) = incr session m.
Proof.
  intros Hs. rewrite find_reserved by done. intros [= <-].
  apply find_ext; [eauto with mm..|]. intros s.
  rewrite find_assign, find_incr. case_bool_decide; subst.
  - by rewrite find_reserved.
  - destruct (find session m) eqn:E; [by rewrite (emplace_present _ _ _ _ Hs E)|].
    rewrite find_emplace by done. by rewrite bool_decide_false.
Qed.

(** ** Inserting a fresh entry *)

Definition with_entry (key : OrderKey) (o : Order) (e : OrderEngine) : OrderEngine :=
  set_entries (incr key.1)
    (set_orders (emplace key o)
       (if is_live (key, o) then set_live_index (o_side o) (emplace key tt) e else e)).

Lemma with_entry_fields key o e :
  inst (with_entry key o e) = inst e /\ book (with_entry key o e) = book e /\
  book_seen (with_entry key o e) = book_seen e /\
  max_session_entries (with_entry key o e) = max_session_entries e /\
  next_eng_id (with_entry key o e) = next_eng_id e /\
  next_exec_id (with_entry key o e) = next_exec_id e /\
  stale_books_ignored (with_entry key o e) = stale_books_ignored e /\
  orders (with_entry key o e) = emplace key o (orders e) /\
  entries_by_session (with_entry key o e) = incr key.1 (entries_by_session e) /\
  forall side, live_index side (with_entry key o e) =
    if is_live_on side (key, o) then emplace key tt (live_index side e) else live_index side e.
Proof.
  unfold with_entry, is_live_on. destruct (is_live (key, o)); simpl; [|by intuition].
  destruct (o_side o); simpl; split_and!; try done; by intros [].
Qed.

Lemma with_entry_inv key o e :
  engine_inv e -> find key (orders e) = None -> order_ok (inst e) o ->
  (is_live (key, o) = true ->
   count (session_live key.1) (orders e) < max_live_orders (inst e)) ->
  engine_inv (with_entry key o e).
Proof.
  intros He Hf Hok Hcap.
  destruct (with_entry_fields key o e) as (E1&E2&E3&E4&E5&E6&E7&E8&E9&E10).
  pose proof (inv_sorted _ He) as Hs.
  split; rewrite ?E1, ?E2, ?E3, ?E4, ?E5, ?E6, ?E7, ?E8, ?E9.
  - apply He.
  - eauto with mm.
  - intros side. by rewrite E10, (inv_index _ He), index_of_emplace.
  - apply incr_sorted, He.
  - intros s. rewrite find_incr, !(inv_entries _ He), count_emplace by done. simpl.
    pose proof (count_nonneg (of_session key.1) (orders e)).
    assert (of_session s (key, o) = (key.1 =? s)) as -> by done.
    case_bool_decide as Hk.
    + subst. rewrite Z.eqb_refl. rewrite (proj2 (Z.eqb_neq (_ + 1) 0)) by lia.
      by case_match; zbool; simpl; f_equal; lia.
    + rewrite (proj2 (Z.eqb_neq key.1 s)) by congruence. by rewrite Z.add_0_r.
  - intros k o'. rewrite find_emplace by done. case_bool_decide; [by intros [= <-]|].
    apply (inv_orders _ He).
  - intros s. rewrite count_emplace by done. pose proof (inv_live_cap _ He s).
    destruct (session_live s (key, o)) eqn:Esl; [|lia]. unfold session_live, of_session in Esl.
    cbn [fst] in Esl. zbool. subst. specialize (Hcap ltac:(done)). lia.
  - apply (inv_book _ He).
  - apply (inv_ids _ He).
Qed.

(** ** [on_new] *)

(** The state between the counter's reservation and the commit. *)
Definition reserved (session : Z) (e : OrderEngine) : OrderEngine :=
  set_entries (emplace session 0) e.

Lemma reserve_counter_atomic session e :
  engine_inv e ->
  exists undo, atomic e (reserve_counter session) e undo (reserved session e) /\
    total undo (reserved session e) tt e.
Proof.
  intros He.
  exists (if bool_decide (find session (entries_by_session e) = None)
          then modify (set_entries (erase session)) else mret tt).
  split.
  - unfold reserve_counter. do 3 atomic_step. eauto with mm.
  - assert (forall l, l = entries_by_session e -> set_entries (fun _ => l) e = e) as Hid.
    { intros l ->. by destruct e. }
    pose proof (inv_entries_sorted _ He) as Hs. case_bool_decide as Hf; intros o.
    + assert (set_entries (erase session) (reserved session e) = e) as E.
      { rewrite <- (Hid _ (erase_emplace session 0 _ Hs Hf)) at 2. by destruct e. }
      unfold modify. by rewrite E.
    + unfold mret, M_ret. destruct (find session (entries_by_session e)) as [n|] eqn:E; [|done].
      pose proof (Hid _ (emplace_present session 0 _ n Hs E)) as E'.
      unfold reserved. assert (set_entries (emplace session 0) e = e) as ->; [|done].
      rewrite <- E' at 2. by destruct e.
Qed.

Lemma bump_counter_total session e0 e :
  engine_inv e0 -> entries_by_session e = emplace session 0 (entries_by_session e0) ->
  total (bump_counter session) e tt (set_entries (fun _ => incr session (entries_by_session e0)) e).
Proof.
  intros He E. pose proof (inv_entries_sorted _ He) as Hs. unfold bump_counter.
  eapply total_bind; [apply total_get|].
  eapply total_bind; [apply total_deref; rewrite E; by apply find_reserved|].
  intros o. unfold modify. do 2 f_equal. unfold set_entries. rewrite E.
  rewrite (incr_reserved session _ (default 0 (find session (entries_by_session e0))) Hs);
    [done|by apply find_reserved].
Qed.

Lemma on_new_reject_atomic session o code reason e undo :
  engine_inv e -> total undo (reserved session e) tt e ->
  atomic e (on_new_reject session o undo code reason) (reserved session e)
    [OutReject (make_reject (no_cl_id o) code reason)]
    (with_entry (session, no_cl_id o) tombstone e).
Proof.
  intros He Hu. unfold on_new_reject. eapply atomic_bind.
  - eapply atomic_on_throw; [|exact Hu]. do 3 atomic_step. eauto with mm.
  - eapply atomic_bind; [apply total_atomic, (bump_counter_total session e); [done|reflexivity]|].
    assert (forall a b, a = b -> atomic e (mret [OutReject (make_reject (no_cl_id o) code reason)])
              a [OutReject (make_reject (no_cl_id o) code reason)] b) as Hr.
    { intros a b ->. eauto with mm. }
    apply Hr. by destruct e.
Qed.

(** An accept's full effect. *)
Definition accepted (session : Z) (o : NewOrder) (side : Side) (e : OrderEngine) : OrderEngine :=
  set_next_eng_id (fun n => u64 (n + 1))
    (with_entry (session, no_cl_id o)
       (mkOrder (next_eng_id e) side (to_ticks (inst e) (no_px o)) (no_qty o) Live) e).

Lemma live_insert_atomic side key s0 e0 e :
  derefs (orders e) (live_index side e) = true -> is_Some (find key (orders e)) ->
  e0 = set_live_index side (emplace key tt) e ->
  total (live_insert side key) e tt e0 /\ atomic s0 (live_insert side key) e tt e0.
Proof.
  intros Hd Hk ->.
  assert (total (live_insert side key) e tt (set_live_index side (emplace key tt) e)) as Ht.
  { eapply total_bind; [apply total_get|]. rewrite Hd, bool_decide_true by done. apply total_modify. }
  eauto with mm.
Qed.

(** Inserting a node keeps every iterator valid. *)
Lemma derefs_emplace m key o idx :
  derefs m idx = true -> find key m = None -> derefs (emplace key o m) idx = true.
Proof.
  unfold derefs. rewrite !forallb_forall. intros Hd Hf x Hx. specialize (Hd x Hx).
  apply bool_decide_eq_true in Hd. apply bool_decide_eq_true.
  rewrite find_emplace by done. case_bool_decide; [by eexists|done].
Qed.

Lemma set_orders_rollback key o e :
  sorted_map (orders e) -> find key (orders e) = None ->
  set_orders (erase key) (set_orders (emplace key o) e) = e.
Proof.
  intros Hs Hf. pose proof (erase_emplace key o _ Hs Hf) as E.
  destruct e; unfold set_orders in *; simpl in *. by rewrite E.
Qed.

Lemma on_new_accept_atomic session o side e undo :
  engine_inv e -> total undo (reserved session e) tt e ->
  find (session, no_cl_id o) (orders e) = None ->
  atomic e (on_new_accept session o undo side) (reserved session e)
    [OutAck (mkOrderAck 1 0 0 (no_cl_id o) (next_eng_id e) "live" 0)]
    (accepted session o side e).
Proof.
  intros He Hu Hf. pose proof (inv_sorted _ He) as Hs. unfold on_new_accept.
  eapply atomic_bind; [eauto with mm|]. cbv beta zeta.
  set (ord := mkOrder _ _ _ _ _). set (key := (session, no_cl_id o)) in *.
  eapply atomic_bind.
  - eapply atomic_on_throw; [|exact Hu]. do 3 atomic_step. eapply atomic_bind.
    + eapply atomic_on_throw.
      * eapply atomic_bind; [apply atomic_alloc|]. apply live_insert_atomic; [|simpl|reflexivity].
        -- replace (live_index side _) with (live_index side e) by by destruct side.
           cbn [orders set_orders reserved set_entries]. apply derefs_emplace; [|done].
           rewrite (inv_index _ He). by apply derefs_index_of.
        -- rewrite find_emplace by done. rewrite bool_decide_true by done. by eexists.
      * intros orc. unfold modify. by rewrite set_orders_rollback.
    + eauto with mm.
  - eapply atomic_bind.
    { apply total_atomic, (bump_counter_total session e); [done|by destruct side]. }
    eapply atomic_bind; [eauto with mm|].
    apply total_atomic. intros orc. unfold mret, M_ret. do 2 f_equal.
    destruct e, side; reflexivity.
Qed.

(** The verdict of the code is the specified one. *)
Lemma side_from_wire_valid i o :
  validate_order i (no_symbol o) (no_side o) (no_px o) (no_qty o) = None ->
  side_from_wire (no_side o) = Some (if String.eqb (no_side o) "B" then Bid else Ask).
Proof. rewrite validate_order_None. by intros (_ & [-> | ->] & _). Qed.

Lemma spec_crosses_abs e side px :
  engine_inv e -> spec_crosses (abs e) side px = crosses (book e) side px.
Proof.
  intros He. unfold spec_crosses. simpl. destruct (book_seen e) eqn:E; [done|].
  rewrite (inv_book _ He E). by destruct side.
Qed.

Lemma resting_ok e o side :
  engine_inv e ->
  validate_order (inst e) (no_symbol o) (no_side o) (no_px o) (no_qty o) = None ->
  order_ok (inst e) (resting (abs e) o side) /\
  to_raw_px (inst e) (o_px (resting (abs e) o side)) = no_px o.
Proof.
  intros He. rewrite validate_order_None. intros (_ & _ & Ht & Hr & _ & _ & Hq & Hp).
  assert (to_raw_px (inst e) (to_ticks (inst e) (no_px o)) = no_px o) as E.
  { unfold to_raw_px, to_ticks. simpl. by apply rem_quot_exact. }
  unfold order_ok. simpl. by rewrite E.
Qed.

(** The duplicate test by [lower_bound] is a lookup. *)
Lemma is_dup_find (key : OrderKey) (m : OrdersMap) :
  sorted_map m ->
  match lower_bound key m with (k, _) :: _ => bool_decide (k = key) | [] => false end =
  bool_decide (is_Some (find key m)).
Proof.
  intros Hs. rewrite (lower_bound_find key m Hs).
  destruct (lower_bound key m) as [|[k v] lb]; [by rewrite bool_decide_false by (by intros [])|].
  case_bool_decide; [by rewrite bool_decide_true by eauto|].
  by rewrite bool_decide_false by (by intros []).
Qed.

Lemma spec_reject_abs key e :
  spec_set_orders (emplace key tombstone) (abs e) = abs (with_entry key tombstone e).
Proof. by destruct e. Qed.

(** From the reservation on: the verdict of the specification is carried out. *)
Lemma on_new_checked_atomic session o e undo :
  engine_inv e -> total undo (reserved session e) tt e ->
  find (session, no_cl_id o) (orders e) = None ->
  match spec_verdict session o (abs e) with
  | inl (code, reason) =>
      atomic e (on_new_checked session o undo) (reserved session e)
        [OutReject (make_reject (no_cl_id o) code reason)]
        (with_entry (session, no_cl_id o) tombstone e)
  | inr side =>
      atomic e (on_new_checked session o undo) (reserved session e)
        [OutAck (mkOrderAck 1 0 0 (no_cl_id o) (next_eng_id e) "live" 0)]
        (accepted session o side e)
  end.
Proof.
  intros He Hu Hf.
  assert (live_count (reserved session e) session =
          count (session_live session) (s_orders (abs e))) as Hlc
    by (by apply (live_count_spec e session)).
  unfold spec_verdict, on_new_checked. cbn [abs s_inst].
  destruct (validate_order _ _ _ _ _) as [code|] eqn:Hv.
  { eapply atomic_bind; [eauto with mm|]. cbv beta zeta. cbn [reserved set_entries inst].
    rewrite Hv. by apply on_new_reject_atomic. }
  set (side := if (no_side o =? "B")%string then Bid else Ask).
  rewrite spec_crosses_abs by done. rewrite <- Hlc.
  destruct (_ <=? _) eqn:Hcap; [|destruct (no_post_only o && _) eqn:Hx].
  all: eapply atomic_bind; [eauto with mm|]; cbv beta zeta;
    cbn [reserved set_entries inst book] in *; rewrite Hv, Hcap;
    try (by apply on_new_reject_atomic).
  all: rewrite (side_from_wire_valid _ _ Hv); eapply atomic_bind; [eauto with mm|]; cbv beta;
    fold side; rewrite Hx.
  - by apply on_new_reject_atomic.
  - by apply on_new_accept_atomic.
Qed.

Lemma accepted_inv session o e :
  engine_inv e -> find (session, no_cl_id o) (orders e) = None ->
  forall side, spec_verdict session o (abs e) = inr side -> engine_inv (accepted session o side e).
Proof.
  intros He Hf side. unfold spec_verdict. cbn [abs s_inst s_orders].
  destruct (validate_order _ _ _ _ _) eqn:Hv; [done|].
  destruct (_ <=? _) eqn:Hcap; [done|]. destruct (no_post_only o && _); [done|].
  intros [= <-]. set (side := if (no_side o =? "B")%string then Bid else Ask).
  assert (engine_inv (with_entry (session, no_cl_id o) (resting (abs e) o side) e)) as Hw.
  { apply with_entry_inv; [done..|by eapply resting_ok|]. intros _. simpl. zbool. lia. }
  split; try apply Hw. split; [apply u64_range|apply (inv_ids _ Hw)].
Qed.

Lemma on_new_refines e session o :
  engine_inv e ->
  exists out e', atomic e (on_new session o) e out e' /\ engine_inv e' /\ spec_new session o (abs e) = (out, abs e').
Proof.
  intros He. pose proof (inv_sorted _ He) as Hs.
  assert (forall out e', (forall undo, total undo (reserved session e) tt e ->
      atomic e (on_new_checked session o undo) (reserved session e) out e') ->
    find (session, no_cl_id o) (orders e) = None -> atomic e (on_new session o) e out e') as Hgo.
  { intros out e' Hc Hf. destruct (reserve_counter_atomic session e He) as (undo & Hres & Hundo).
    eapply atomic_bind; [eauto with mm|]. cbv beta zeta.
    rewrite is_dup_find, Hf, bool_decide_false by (done || by intros []).
    eapply atomic_bind; [exact Hres|auto]. }
  unfold spec_new. cbn [abs s_orders].
  destruct (find (session, no_cl_id o) (orders e)) as [ord|] eqn:Hf.
  - do 2 eexists. split_and!; [|exact He|done].
    eapply atomic_bind; [eauto with mm|]. cbv beta zeta.
    rewrite is_dup_find, Hf, bool_decide_true by (done || by eexists).
    atomic_step. eauto with mm.
  - pose proof (fun undo Hu => on_new_checked_atomic session o e undo He Hu Hf) as Hck.
    pose proof (accepted_inv session o e He Hf) as Hacc.
    destruct (spec_verdict session o (abs e)) as [[code reason]|side].
    + do 2 eexists. split_and!; [by apply Hgo| |by rewrite spec_reject_abs].
      by apply with_entry_inv.
    + do 2 eexists. split_and!; [by apply Hgo|by apply Hacc|]. f_equal. by destruct e, side.
Qed.

(** ** [on_cancel] *)

(** An order leaving [Live] through [assign]: the index drops it, nothing else
    moves. *)
Definition retired (key : OrderKey) (o o' : Order) (e : OrderEngine) : OrderEngine :=
  set_live_index (o_side o) (erase key) (set_orders (assign key o') e).

Lemma count_session_assign (m : OrdersMap) key o o' s :
  sorted_map m -> find key m = Some o -> count (of_session s) (assign key o' m) = count (of_session s) m.
Proof. intros Hs Hf. rewrite (count_assign _ _ _ _ _ Hs Hf). unfold of_session. simpl. lia. Qed.

(** Replacing an order by one that is not live on more sides keeps the
    invariant, if the index of its side is updated to match. *)
Lemma assign_inv e e' key o o' :
  engine_inv e -> find key (orders e) = Some o ->
  order_ok (inst e) o' -> (is_live (key, o') = true -> is_live (key, o) = true) ->
  orders e' = assign key o' (orders e) ->
  (forall side, live_index side e' = index_of side (assign key o' (orders e))) ->
  inst e' = inst e -> entries_by_session e' = entries_by_session e ->
  max_session_entries e' = max_session_entries e ->
  (book_seen e' = false -> book e' = empty_book) ->
  is_u64 (next_eng_id e') /\ is_u64 (next_exec_id e') ->
  engine_inv e'.
Proof.
  intros He Hf Hok Hl E1 E2 E3 E4 E5 E6 E7. pose proof (inv_sorted _ He) as Hs.
  split; rewrite ?E1, ?E3, ?E4, ?E5; try done; try apply He.
  - eauto with mm.
  - intros s. rewrite (count_session_assign _ _ _ _ _ Hs Hf). apply (inv_entries _ He).
  - intros k o0. rewrite find_assign. case_bool_decide; [|apply (inv_orders _ He)].
    subst. rewrite Hf. by intros [= <-].
  - intros s. rewrite (count_assign _ _ _ _ _ Hs Hf). pose proof (inv_live_cap _ He s).
    unfold session_live, of_session in *. cbn [fst] in *.
    destruct (key.1 =? s); simpl; [|lia].
    destruct (is_live (key, o')); [rewrite Hl by done|]; repeat case_match; lia.
Qed.

Lemma retired_inv e key o o' :
  engine_inv e -> find key (orders e) = Some o -> o_side o' = o_side o ->
  order_ok (inst e) o' -> is_live (key, o') = false -> engine_inv (retired key o o' e).
Proof.
  intros He Hf Hside Hok Hl. pose proof (inv_sorted _ He) as Hs.
  unfold retired. eapply (assign_inv e); try done; try (by destruct e, (o_side o)).
  - congruence.
  - intros side. rewrite index_of_retire by done.
    assert (side <> o_side o -> erase key (index_of side (orders e)) = index_of side (orders e)) as Hother.
    { intros Hne. apply find_ext; [eauto with mm..|]. intros k. rewrite find_erase by eauto with mm.
      case_bool_decide; [|done]. subst. rewrite find_index_of, Hf by done.
      unfold is_live_on. rewrite (bool_decide_false (o_side _ = _)) by (simpl; congruence).
      by rewrite andb_false_r. }
    pose proof (inv_index _ He side) as Hi.
    destruct side, (o_side o); simpl in *; rewrite Hi; try done; by rewrite Hother.
  - pose proof (inv_book _ He). by destruct e, (o_side o).
  - pose proof (inv_ids _ He). by destruct e, (o_side o).
Qed.

Lemma on_cancel_refines e session c :
  engine_inv e ->
  exists out e', atomic e (on_cancel session c) e out e' /\ engine_inv e' /\
    spec_cancel session c (abs e) = (out, abs e').
Proof.
  intros He. unfold spec_cancel. cbn [abs s_orders].
  set (key := (session, co_cl_id c)).
  destruct (find key (orders e)) as [o|] eqn:Hf.
  - destruct (st o) eqn:Hst.
    1: exists [OutCancelAck (mkCancelAck 1 0 0 (co_cl_id c) (eng_id o) "cancelled")],
         (retired key o (with_state o (leaves o) Cancelled) e).
    2-4: do 2 eexists; split_and!; [|exact He|done].
    all: try (eapply atomic_bind; [eauto with mm|]; cbv beta zeta; fold key; rewrite Hf, Hst;
      rewrite bool_decide_true by done; atomic_step; eauto with mm).
    split_and!.
    + eapply atomic_bind; [eauto with mm|]; cbv beta zeta; fold key; rewrite Hf, Hst.
      rewrite bool_decide_false by congruence. do 3 atomic_step. eauto with mm.
    + apply retired_inv; try done.
      pose proof (inv_orders _ He _ _ Hf) as Hok. unfold order_ok in *. rewrite Hst in Hok.
      simpl. tauto.
    + f_equal. unfold retired. by destruct e, (o_side o).
  - do 2 eexists. split_and!; [|exact He|done].
    eapply atomic_bind; [eauto with mm|]; cbv beta zeta; fold key; rewrite Hf.
    atomic_step. eauto with mm.
Qed.

(** ** [on_book]: the staging pass computes the specified batch *)

Definition stage (b : Book) (e : OrderKey * Order) : StagedFill :=
  mkStaged e.1 (o_side e.2) (leaves e.2 - fill_qty_of b e.2).

(** The batch after the orders [h] have been hit. *)
Definition extend (i : Instrument) (b : Book) (sw : Sweep) (h : list (OrderKey * Order)) : Sweep :=
  mkSweep (iter_exec (length h) (sw_exec sw)) (sw_staged sw ++ map (stage b) h)
    (sw_out sw ++ number i b (sw_exec sw) h).

Lemma number_app i b x l1 l2 :
  number i b x (l1 ++ l2) = number i b x l1 ++ number i b (iter_exec (length l1) x) l2.
Proof. revert x. induction l1 as [|e l1 IH]; intros x; cbn; [done|]. by rewrite IH. Qed.

Lemma iter_exec_add n1 n2 x : iter_exec (n1 + n2) x = iter_exec n2 (iter_exec n1 x).
Proof. revert x. induction n1 as [|n1 IH]; intros x; cbn; [done|]. apply IH. Qed.

Lemma iter_exec_u64 n x : is_u64 x -> is_u64 (iter_exec n x).
Proof. revert x. induction n as [|n IH]; intros x Hx; cbn; [done|]. apply IH, u64_range. Qed.

Lemma extend_app i b sw h1 h2 : extend i b (extend i b sw h1) h2 = extend i b sw (h1 ++ h2).
Proof.
  unfold extend. cbn. rewrite number_app, map_app, length_app, iter_exec_add. by rewrite !app_assoc.
Qed.

Lemma extend_nil i b sw : extend i b sw [] = sw.
Proof. unfold extend. cbn. rewrite !app_nil_r. by destruct sw. Qed.

Lemma sweep_one_atomic b side sw e k o :
  find k (orders e) = Some o -> o_side o = side ->
  atomic e (sweep_one b side sw (k, tt)) e
    (extend (inst e) b sw (if crossed side b (to_raw_px (inst e) (o_px o)) then [(k, o)] else [])) e.
Proof.
  intros Hf <-. unfold sweep_one. do 2 atomic_step. cbn [fst].
  destruct (crossed _ _ _); cbn [negb].
  - atomic_step. eauto with mm.
  - rewrite extend_nil. eauto with mm.
Qed.

Lemma sweep_list_atomic b side e (l : list (OrderKey * Order)) sw :
  (forall x, x ∈ l -> find x.1 (orders e) = Some x.2 /\ o_side x.2 = side) ->
  atomic e (foldM (sweep_one b side) sw (map (fun x => (x.1, tt)) l)) e
    (extend (inst e) b sw
       (List.filter (fun x => crossed side b (to_raw_px (inst e) (o_px x.2))) l)) e.
Proof.
  revert sw. induction l as [|[k o] l IH]; intros sw Hl.
  - rewrite extend_nil. apply total_atomic, total_ret.
  - destruct (Hl (k, o)) as [Hf Hs]; [by left|]. cbn [map foldM fst].
    eapply atomic_bind; [by apply sweep_one_atomic|].
    assert (forall x, x ∈ l -> find x.1 (orders e) = Some x.2 /\ o_side x.2 = side) as Hl'
      by (intros; apply Hl; by right).
    pose proof (IH (extend (inst e) b sw (if crossed side b (to_raw_px (inst e) (o_px o))
      then [(k, o)] else [])) Hl') as IH'. rewrite extend_app in IH'.
    cbn [List.filter snd]. by destruct (crossed _ _ _).
Qed.

Lemma filter_elem {A} (p : A -> bool) l x : x ∈ List.filter p l <-> x ∈ l /\ p x = true.
Proof. rewrite !list_elem_of_In. apply filter_In. Qed.

Lemma filter_filter {A} (p q : A -> bool) l :
  List.filter q (List.filter p l) = List.filter (fun x => p x && q x) l.
Proof.
  induction l as [|x l IH]; cbn; [done|].
  destruct (p x); cbn; [destruct (q x); by rewrite IH|done].
Qed.

Lemma filter_false {A} (l : list A) : List.filter (fun _ => false) l = [].
Proof. by induction l. Qed.

Lemma hit_filter i b side m :
  List.filter (hit i b side) m =
    if present side b then
      List.filter (fun x => crossed side b (to_raw_px i (o_px x.2))) (List.filter (is_live_on side) m)
    else [].
Proof.
  unfold hit. destruct (present side b) eqn:E.
  - rewrite filter_filter. apply filter_ext. intros x. by rewrite andb_true_r.
  - rewrite (filter_ext _ (fun _ => false)); [by rewrite filter_false|].
    intros x. by rewrite andb_false_r.
Qed.

Lemma sweep_side_atomic b side sw e :
  engine_inv e ->
  atomic e (sweep_side b sw side) e
    (extend (inst e) b sw (List.filter (hit (inst e) b side) (orders e))) e.
Proof.
  intros He. pose proof (inv_sorted _ He) as Hs. unfold sweep_side. rewrite hit_filter.
  assert (present side b = negb ((opp_qty side b <=? 0) || (opp_px side b <=? 0))) as ->.
  { unfold present. rewrite negb_orb. f_equal; by rewrite Z.ltb_antisym. }
  destruct (_ || _); cbn [negb].
  - rewrite extend_nil. eauto with mm.
  - atomic_step. rewrite (inv_index _ He). apply sweep_list_atomic.
    intros [k o] [Hin Hl]%filter_elem. split; [by apply sorted_find_In|].
    unfold is_live_on in Hl. zbool. by case_bool_decide.
Qed.

(** ** The commit loop *)

Definition commit_state (b : Book) (e : OrderEngine) (x : OrderKey * Order) : OrderEngine :=
  let o' := fill_order b x.2 in
  if leaves o' =? 0 then retired x.1 x.2 o' e else set_orders (assign x.1 o') e.

Lemma commit_fill_total b e k o :
  find k (orders e) = Some o ->
  total (commit_fill (stage b (k, o))) e tt (commit_state b e (k, o)).
Proof.
  intros Hf. unfold commit_fill, commit_state, stage, fill_order. cbn.
  eapply total_bind; [eauto with mm|]. eapply total_bind; [eauto with mm|]. cbv beta.
  destruct (leaves o - fill_qty_of b o =? 0) eqn:E; (eapply total_bind; [eauto with mm|]).
  - intros orc. by unfold retired.
  - apply total_ret.
Qed.

Lemma commit_state_orders b e x :
  orders (commit_state b e x) = assign x.1 (fill_order b x.2) (orders e).
Proof. unfold commit_state, retired. case_match; by destruct e, (o_side x.2). Qed.

Lemma commit_list_total b l e :
  NoDup l.*1 -> (forall x, x ∈ l -> find x.1 (orders e) = Some x.2) ->
  total (foldM (fun _ s => commit_fill s) tt (map (stage b) l)) e tt
    (fold_left (commit_state b) l e).
Proof.
  revert e. induction l as [|[k o] l IH]; intros e Hnd Hl; cbn.
  - apply total_ret.
  - apply NoDup_cons in Hnd as [Hni Hnd].
    eapply total_bind; [apply commit_fill_total, (Hl (k, o)); by left|]. apply IH; [done|].
    intros x Hx. rewrite commit_state_orders, find_assign. cbn.
    rewrite bool_decide_false; [apply Hl; by right|].
    intros Heq. apply Hni. by apply (list_elem_of_fmap_2' fst l x).
Qed.

Lemma fill_order_ok i b o side :
  order_ok i o -> st o = Live -> o_side o = side -> present side b = true ->
  order_ok i (fill_order b o) /\ ((leaves (fill_order b o) =? 0) = false -> st (fill_order b o) = Live)
  /\ ((leaves (fill_order b o) =? 0) = true -> st (fill_order b o) = Filled).
Proof.
  unfold order_ok, fill_order, fill_qty_of, present. intros Hok Hst <- Hp. rewrite Hst in Hok.
  zbool. cbn. destruct (_ =? 0) eqn:E; zbool; cbn; [split_and!; try done; lia|].
  rewrite Hst. split_and!; try done; lia.
Qed.

Lemma commit_state_inv b e k o :
  engine_inv e -> find k (orders e) = Some o -> st o = Live -> present (o_side o) b = true ->
  engine_inv (commit_state b e (k, o)).
Proof.
  intros He Hf Hl Hp. pose proof (inv_orders _ He _ _ Hf) as Hok.
  destruct (fill_order_ok _ _ _ _ Hok Hl eq_refl Hp) as (Hok' & Hlive & Hfill).
  unfold commit_state. cbn [fst snd]. destruct (leaves (fill_order b o) =? 0) eqn:E.
  - apply retired_inv; try done. unfold is_live. cbn [snd]. by rewrite Hfill.
  - eapply (assign_inv e); try done; try apply He.
    + intros _. unfold is_live. by rewrite bool_decide_true.
    + intros side. rewrite (index_of_assign side (orders e) k o); [|apply He|done|].
      * apply (inv_index _ He side).
      * unfold is_live_on, is_live. cbn [snd]. by rewrite Hl, Hlive.
Qed.

Lemma commit_list_inv b l e :
  engine_inv e -> NoDup l.*1 ->
  (forall x, x ∈ l -> find x.1 (orders e) = Some x.2 /\ st x.2 = Live /\ present (o_side x.2) b = true) ->
  engine_inv (fold_left (commit_state b) l e).
Proof.
  revert e. induction l as [|[k o] l IH]; intros e He Hnd Hl; cbn; [done|].
  apply NoDup_cons in Hnd as [Hni Hnd].
  destruct (Hl (k, o)) as (Hf & Hst & Hp); [by left|]. apply IH; [by apply commit_state_inv|done|].
  intros x Hx. destruct (Hl x) as (Hf' & Hst' & Hp'); [by right|]. split_and!; try done.
  rewrite commit_state_orders, find_assign. cbn. rewrite bool_decide_false; [done|].
  intros Heq. apply Hni. by apply (list_elem_of_fmap_2' fst l x).
Qed.

(** The commit applies each fill once, to the order it was computed for. *)
Lemma commit_list_find b l e k :
  NoDup l.*1 -> (forall x, x ∈ l -> find x.1 (orders e) = Some x.2) ->
  find k (orders (fold_left (commit_state b) l e)) =
    (fun o => if bool_decide (k ∈ l.*1) then fill_order b o else o) <$> find k (orders e).
Proof.
  revert e. induction l as [|[k1 o1] l IH]; intros e Hnd Hl; cbn [fold_left].
  - rewrite bool_decide_false by (by intros ?%elem_of_nil). by destruct (find k (orders e)).
  - apply NoDup_cons in Hnd as [Hni Hnd]. rewrite IH; [|done|].
    + rewrite commit_state_orders, find_assign. cbn [fst snd].
      pose proof (Hl (k1, o1) ltac:(by left)) as Hf1. cbn [fst snd] in Hf1.
      destruct (decide (k = k1)) as [->|Hne].
      * rewrite (bool_decide_true (k1 = k1)) by done. rewrite Hf1. cbn [fmap option_fmap option_map].
        rewrite (bool_decide_false (k1 ∈ l.*1)) by done.
        rewrite bool_decide_true; [done|]. rewrite fmap_cons. left.
      * rewrite (bool_decide_false (k = k1)) by done. destruct (find k (orders e)); [|done].
        cbn [fmap option_fmap option_map]. f_equal. apply bool_decide_ext_if.
        rewrite fmap_cons, elem_of_cons. naive_solver.
    + intros x Hx. rewrite commit_state_orders, find_assign. cbn [fst snd].
      rewrite bool_decide_false; [apply Hl; by right|].
      intros Heq. apply Hni. by apply (list_elem_of_fmap_2' fst l x).
Qed.

Lemma commit_list_rest b l e :
  let e' := fold_left (commit_state b) l e in
  inst e' = inst e /\ book e' = book e /\ book_seen e' = book_seen e /\
  max_session_entries e' = max_session_entries e /\ next_eng_id e' = next_eng_id e /\
  next_exec_id e' = next_exec_id e /\ stale_books_ignored e' = stale_books_ignored e.
Proof.
  revert e. induction l as [|[k o] l IH]; intros e; cbn; [by split_and!|].
  destruct (IH (commit_state b e (k, o))) as (E1 & E2 & E3 & E4 & E5 & E6 & E7).
  rewrite E1, E2, E3, E4, E5, E6, E7. unfold commit_state, retired. cbn.
  case_match; by destruct e, (o_side o).
Qed.
