(* ===== verification/EngineBook.v ===== *)
(** * Refinement of [on_book] and [end_session]

    The sweep over the two live indexes computes the batch that a full scan of
    the orders computes, the commit loop applies it, and the end of a session
    removes exactly that session's entries. *)

From Stdlib Require Import ZArith String List Lia.
From stdpp Require Import base tactics list option strings gmap sorting.
From S2P Require Import Prelude StdMap Types Protocol Engine EngineInv EngineSpec.

(** ** The batch *)

Lemma elem_of_hits i b m x :
  x ∈ hits i b m <-> x ∈ m /\ hit i b (o_side x.2) x = true.
Proof.
  unfold hits. rewrite elem_of_app, !filter_elem.
  assert (forall side, hit i b side x = true -> o_side x.2 = side) as Hside.
  { intros side. unfold hit, is_live_on. intros. zbool. by case_bool_decide. }
  split.
  - intros [[? H]|[? H]]; (split; [done|]); by rewrite (Hside _ H).
  - intros [? H]. destruct (o_side x.2); [left|right]; done.
Qed.

Lemma hit_facts i b x :
  hit i b (o_side x.2) x = true -> st x.2 = Live /\ present (o_side x.2) b = true.
Proof. unfold hit, is_live_on, is_live. intros. zbool. by repeat case_bool_decide. Qed.

Lemma sorted_NoDup_keys {V} (m : list (OrderKey * V)) : sorted_map m -> NoDup m.*1.
Proof.
  induction m as [|e m IH]; [constructor|]. intros [Hs Ha]%sorted_cons.
  rewrite fmap_cons. constructor; [|by apply IH].
  intros (x & Heq & Hx)%list_elem_of_fmap. rewrite Forall_forall in Ha.
  specialize (Ha _ Hx). unfold key_lt in Ha. rewrite Heq, ltb_irrefl in Ha. done.
Qed.

Lemma NoDup_hits i b m : sorted_map m -> NoDup (hits i b m).*1.
Proof.
  intros Hs. unfold hits. rewrite fmap_app. apply NoDup_app. split_and!.
  - by apply sorted_NoDup_keys, filter_sorted.
  - intros k (x & -> & [Hx H]%filter_elem)%list_elem_of_fmap (y & E & [Hy H']%filter_elem)%list_elem_of_fmap.
    assert (x = y) as <-.
    { destruct x as [k o], y as [k' o']. cbn in E. subst k'.
      apply sorted_find_In in Hx, Hy; [|done..]. congruence. }
    unfold hit, is_live_on in H, H'. zbool. repeat case_bool_decide; congruence.
  - by apply sorted_NoDup_keys, filter_sorted.
Qed.

Lemma apply_fills_keys i b m : (apply_fills i b m).*1 = m.*1.
Proof. unfold apply_fills. induction m as [|e m IH]; cbn; [done|]. by f_equal; [case_match|]. Qed.

Lemma apply_fills_sorted i b m : sorted_map m -> sorted_map (apply_fills i b m).
Proof. rewrite !sorted_keys_iff. by rewrite apply_fills_keys. Qed.

Lemma find_apply_fills i b m k :
  find k (apply_fills i b m) =
    (fun o => if hit i b (o_side o) (k, o) then fill_order b o else o) <$> find k m.
Proof.
  unfold apply_fills. induction m as [|[k' o] m IH]; cbn [find map fst snd]; [done|].
  destruct (hit i b (o_side o) (k', o)) eqn:E; cbn [find fst snd];
    (case_bool_decide; [subst; cbn; by rewrite E|done]).
Qed.

(** ** [on_book] *)

Lemma staging_atomic b e :
  engine_inv e ->
  atomic e (foldM (sweep_side b) (mkSweep (next_exec_id e) [] []) [Bid; Ask]) e
    (extend (inst e) b (mkSweep (next_exec_id e) [] []) (hits (inst e) b (orders e))) e.
Proof.
  intros He. cbn [foldM]. unfold hits.
  eapply atomic_bind; [by apply sweep_side_atomic|].
  eapply atomic_bind; [by apply sweep_side_atomic|]. cbv beta. rewrite extend_app. eauto with mm.
Qed.

Lemma install_book_inv b x e : engine_inv e -> is_u64 x -> engine_inv (install_book b x e).
Proof. intros He Hx. by destruct He as [? ? ? ? ? ? ? ? [? _]]. Qed.

(** The state after the commit loop. *)
Definition booked (b : Book) (e : OrderEngine) : OrderEngine :=
  let l := hits (inst e) b (orders e) in
  fold_left (commit_state b) l (install_book b (iter_exec (length l) (next_exec_id e)) e).

Lemma hits_found b e :
  engine_inv e -> forall x, x ∈ hits (inst e) b (orders e) ->
  find x.1 (orders e) = Some x.2 /\ st x.2 = Live /\ present (o_side x.2) b = true.
Proof.
  intros He [k o] [Hin Hh]%elem_of_hits. apply hit_facts in Hh as [? ?].
  split; [|done]. apply sorted_find_In; [apply He|done].
Qed.

Lemma booked_inv b e : engine_inv e -> engine_inv (booked b e).
Proof.
  intros He. unfold booked. apply commit_list_inv.
  - apply install_book_inv; [done|]. apply iter_exec_u64, He.
  - apply NoDup_hits, He.
  - exact (hits_found b e He).
Qed.

Lemma booked_orders b e : engine_inv e -> orders (booked b e) = apply_fills (inst e) b (orders e).
Proof.
  intros He. pose proof (inv_sorted _ He) as Hs. pose proof (hits_found b e He) as Hf.
  apply find_ext; [apply (inv_sorted _ (booked_inv b e He))|by apply apply_fills_sorted|].
  intros k. unfold booked. rewrite commit_list_find; [|by apply NoDup_hits|intros x Hx; apply (Hf x Hx)].
  rewrite find_apply_fills. cbn [install_book orders].
  destruct (find k (orders e)) as [o|] eqn:E; [|done]. cbn [fmap option_fmap option_map]. f_equal.
  assert (k ∈ (hits (inst e) b (orders e)).*1 <-> hit (inst e) b (o_side o) (k, o) = true) as Hk.
  { split.
    - intros ([k' o'] & -> & Hx)%list_elem_of_fmap. destruct (Hf _ Hx) as [E' _]. cbn in *.
      rewrite E in E'. simplify_eq. by apply elem_of_hits in Hx as [_ Hx].
    - intros Hh. apply (list_elem_of_fmap_2' fst _ (k, o)); [|done].
      apply elem_of_hits. split; [by apply find_In|done]. }
  destruct (hit _ _ _ _) eqn:Eh.
  - rewrite bool_decide_true; [done|]. by apply Hk.
  - rewrite bool_decide_false; [done|]. intros Hin. by apply Hk in Hin.
Qed.

Lemma on_book_refines e b :
  engine_inv e ->
  exists out e', atomic e (on_book b) e out e' /\ engine_inv e' /\
    spec_on_book b (abs e) = (out, abs e').
Proof.
  intros He. unfold spec_on_book, on_book.
  assert (spec_book_stale b (abs e) = book_seen e && (md_seq b <=? md_seq (book e))) as ->
    by (unfold spec_book_stale; cbn; by destruct (book_seen e)).
  destruct (book_seen e && (md_seq b <=? md_seq (book e))) eqn:Hst.
  - exists [], (set_stale (fun n => u64 (n + 1)) e). split_and!; [| |by destruct e].
    + atomic_step. rewrite Hst. atomic_step. eauto with mm.
    + by destruct He; split.
  - set (l := hits (inst e) b (orders e)).
    exists (number (inst e) b (next_exec_id e) l), (booked b e). split_and!; [|by apply booked_inv|].
    + atomic_step. rewrite Hst. eapply atomic_bind; [by apply staging_atomic|].
      unfold extend. cbn [sw_exec sw_staged sw_out app].
      atomic_step. eapply atomic_bind; [|eauto with mm].
      apply total_atomic, commit_list_total; [apply NoDup_hits, He|].
      intros x Hx; exact (proj1 (hits_found b e He x Hx)).
    + pose proof (booked_orders b e He) as Ho.
      destruct (commit_list_rest b l (install_book b (iter_exec (length l) (next_exec_id e)) e))
        as (E1 & E2 & E3 & E4 & E5 & E6 & E7).
      unfold abs. unfold booked in *. fold l in Ho |- *.
      rewrite E1, E2, E3, E4, E5, E6, E7, Ho. done.
Qed.

(** ** [end_session] *)

Definition ended (session : Z) (e : OrderEngine) : OrderEngine :=
  let out {V} (m : list (OrderKey * V)) := List.filter (fun x => negb (of_session session x)) m in
  mkEngine (inst e) (book e) (book_seen e) (next_eng_id e) (next_exec_id e)
    (stale_books_ignored e) (max_session_entries e) (out (orders e)) (out (live_bids e))
    (out (live_asks e)) (erase session (entries_by_session e)).

Lemma count_filter_out {A} (p q : A -> bool) l :
  count p (List.filter q l) = count (fun x => p x && q x) l.
Proof.
  unfold count. f_equal. induction l as [|x l IH]; cbn; [done|].
  destruct (q x), (p x) eqn:E; cbn; rewrite ?E; cbn; lia.
Qed.

Lemma count_ext_in {A} (p q : A -> bool) l :
  (forall x, p x = q x) -> count p l = count q l.
Proof. intros Hpq. unfold count. by rewrite (filter_ext _ _ Hpq). Qed.

Lemma count_false {A} (p : A -> bool) (l : list A) : (forall x, p x = false) -> count p l = 0.
Proof. intros Hp. unfold count. rewrite (filter_ext _ _ Hp). by rewrite filter_false. Qed.

Lemma count_filter_le {A} (p q : A -> bool) l : count p (List.filter q l) <= count p l.
Proof.
  unfold count. induction l as [|x l IH]; cbn; [done|].
  destruct (q x); cbn; destruct (p x) eqn:E; cbn; lia.
Qed.

Lemma ended_inv session e : engine_inv e -> engine_inv (ended session e).
Proof.
  intros He. pose proof (inv_sorted _ He) as Hs.
  split; cbn [ended inst max_session_entries orders entries_by_session book_seen book
              next_eng_id next_exec_id]; try apply He.
  - by apply filter_sorted.
  - intros side. unfold of_session.
    rewrite (index_of_filter side (fun k => negb (k.1 =? session))) by done.
    rewrite <- (inv_index _ He). by destruct side.
  - apply erase_sorted, He.
  - intros s. rewrite find_erase by apply He. rewrite count_filter_out. cbn zeta.
    case_bool_decide.
    + rewrite count_false; [done|]. intros x. subst. by destruct (of_session session x).
    + rewrite (count_ext_in _ (of_session s)).
      * apply (inv_entries _ He).
      * intros x. unfold of_session. destruct (Z.eqb_spec x.1.1 s), (Z.eqb_spec x.1.1 session);
          cbn; congruence.
  - intros k o Hf. rewrite find_filter in Hf by done.
    destruct (find k (orders e)) as [o'|] eqn:E; [|done]. case_match; simplify_eq.
    by apply (inv_orders _ He k).
  - intros s. pose proof (inv_live_cap _ He s).
    pose proof (count_filter_le (session_live s) (fun x => negb (of_session session x)) (orders e)).
    lia.
Qed.

(** The acknowledgement pass: a fold that appends on every live order. *)
Lemma acks_fold (l : list (OrderKey * Order)) out :
  fold_left (fun out x => if is_live x then out ++ [cancel_ack_of x] else out) l out =
  out ++ map cancel_ack_of (List.filter is_live l).
Proof.
  revert out. induction l as [|x l IH]; intros out; cbn; [by rewrite app_nil_r|].
  rewrite IH. destruct (is_live x); cbn; [by rewrite <- app_assoc|done].
Qed.

Lemma live_erase_total side session e :
  sorted_map (orders e) -> live_index side e = index_of side (orders e) ->
  total (live_erase_session side session) e tt
    (set_live_index side (List.filter (fun x => negb (of_session session x))) e).
Proof.
  intros Hs Hi o. unfold live_erase_session, mbind, M_bind, get. rewrite Hi.
  rewrite derefs_index_of by done. unfold modify. do 2 f_equal.
  pose proof (proj2 (ranges_filter session _ (index_of_sorted side _ Hs))) as Hr.
  rewrite <- Hi in Hr. unfold set_live_index. destruct side; cbn [live_index] in Hr; by rewrite Hr.
Qed.

Lemma end_session_refines e session :
  engine_inv e ->
  exists out e', atomic e (end_session session) e out e' /\ engine_inv e' /\
    spec_end_session session (abs e) = (out, abs e').
Proof.
  intros He. pose proof (inv_sorted _ He) as Hs.
  exists (map cancel_ack_of (List.filter (session_live session) (orders e))), (ended session e).
  split_and!; [|by apply ended_inv|done]. unfold end_session. atomic_step.
  eapply atomic_bind.
  { eapply (atomic_foldM _ (fun out x => if is_live x then out ++ [cancel_ack_of x] else out)).
    intros out x _. unfold is_live. case_bool_decide; [atomic_step|]; eauto with mm. }
  cbv beta. rewrite acks_fold, (proj1 (ranges_filter session _ Hs)), filter_filter.
  eapply atomic_bind; [apply total_atomic, live_erase_total; [done|apply (inv_index _ He Bid)]|].
  eapply atomic_bind; [apply total_atomic, live_erase_total; [done|apply (inv_index _ He Ask)]|].
  do 2 atomic_step.
  assert (forall a b (c : list OutMsg), a = b -> atomic e (mret c) a c b) as Hr
    by (intros ? ? ? ->; eauto with mm).
  apply Hr. unfold set_orders, set_entries, set_live_index, ended. cbn -[erase_session_range].
  by rewrite (proj2 (ranges_filter session _ Hs)).
Qed.
