(* ===== verification/EngineProps.v ===== *)
(** * What the engine guarantees over a run

    A run is any sequence of commands, each with its own allocation-failure
    oracle.  The first theorems relate whole runs to the abstract
    specification; the others are the rules a client of the engine relies on:
    acceptance, order lifecycle, conservation of quantity, identifiers, session
    termination and stale books. *)

From Stdlib Require Import ZArith String List Lia.
From stdpp Require Import base tactics list option strings gmap sorting.
From S2P Require Import Prelude StdMap Types Protocol Engine EngineInv EngineSpec EngineBook.

Inductive Cmd :=
| CNew (session : Z) (o : NewOrder)
| CCancel (session : Z) (c : CancelOrder)
| CBook (b : Book)
| CEnd (session : Z).

Definition route (session : Z) : list OutMsg -> list Routed := map (mkRouted session).

Definition exec (c : Cmd) : M OrderEngine (list Routed) :=
  match c with
  | CNew s o => out ← on_new s o; mret (route s out)
  | CCancel s c => out ← on_cancel s c; mret (route s out)
  | CBook b => on_book b
  | CEnd s => out ← end_session s; mret (route s out)
  end.

Definition spec_exec (c : Cmd) (s : EngineSpec) : list Routed * EngineSpec :=
  match c with
  | CNew x o => let (out, s') := spec_new x o s in (route x out, s')
  | CCancel x c => let (out, s') := spec_cancel x c s in (route x out, s')
  | CBook b => spec_on_book b s
  | CEnd x => let (out, s') := spec_end_session x s in (route x out, s')
  end.

(** A run of the engine: every command's outcome, and the last state. *)
Fixpoint run_trace (l : list (Cmd * oracle)) (e : OrderEngine)
    : list (outcome (list Routed)) * OrderEngine :=
  match l with
  | [] => ([], e)
  | (c, orc) :: l' =>
      let '(r, e1, _) := exec c e orc in
      let '(rs, e2) := run_trace l' e1 in (r :: rs, e2)
  end.

Fixpoint spec_run (l : list Cmd) (s : EngineSpec) : list (list Routed) * EngineSpec :=
  match l with
  | [] => ([], s)
  | c :: l' =>
      let '(out, s1) := spec_exec c s in
      let '(outs, s2) := spec_run l' s1 in (out :: outs, s2)
  end.

(** The commands of a run that returned, and what they returned. *)
Fixpoint committed (l : list (Cmd * oracle)) (rs : list (outcome (list Routed))) : list Cmd :=
  match l, rs with
  | (c, _) :: l', Ret _ :: rs' => c :: committed l' rs'
  | _ :: l', _ :: rs' => committed l' rs'
  | _, _ => []
  end.
Definition returned (rs : list (outcome (list Routed))) : list (list Routed) :=
  omap (fun r => match r with Ret out => Some out | _ => None end) rs.

Lemma exec_refines e c :
  engine_inv e ->
  exists out e', atomic e (exec c) e out e' /\ engine_inv e' /\ spec_exec c (abs e) = (out, abs e').
Proof.
  intros He.
  assert (forall s (m : M OrderEngine (list OutMsg)) (sp : EngineSpec -> list OutMsg * EngineSpec),
    (exists out e', atomic e m e out e' /\ engine_inv e' /\ sp (abs e) = (out, abs e')) ->
    exists out e', atomic e (out ← m; mret (route s out)) e out e' /\ engine_inv e' /\
      (let (out, s') := sp (abs e) in (route s out, s')) = (out, abs e')) as Hr.
  { intros s m sp (out & e' & Ha & Hi & Hs). exists (route s out), e'. split_and!; [|done|by rewrite Hs].
    eapply atomic_bind; [exact Ha|eauto with mm]. }
  destruct c as [s o|s c|b|s]; cbn [exec spec_exec].
  - by apply Hr, on_new_refines.
  - by apply Hr, on_cancel_refines.
  - by apply on_book_refines.
  - by apply Hr, end_session_refines.
Qed.

(** One command under one oracle: committed as specified, or undone. *)
Lemma exec_cases e c orc :
  engine_inv e ->
  exists orc',
    (exists out e', exec c e orc = (Ret out, e', orc') /\ engine_inv e' /\
       spec_exec c (abs e) = (out, abs e')) \/
    (exec c e orc = (Throw bad_alloc, e, orc') /\ orc <> []).
Proof.
  intros He. destruct (exec_refines e c He) as (out & e' & Ha & Hi & Hs).
  destruct (Ha orc) as [orc' [[E _]|[E N]]]; exists orc'; [left|right]; naive_solver.
Qed.

(** Induction over runs: a relation that holds initially and is preserved by
    every committed command holds at the end; failed commands change nothing. *)
Lemma run_trace_ind (P : list Cmd -> list (list Routed) -> OrderEngine -> OrderEngine -> Prop) :
  (forall e, engine_inv e -> P [] [] e e) ->
  (forall c out e e1 cs outs e2, engine_inv e -> engine_inv e1 ->
     spec_exec c (abs e) = (out, abs e1) -> P cs outs e1 e2 -> P (c :: cs) (out :: outs) e e2) ->
  forall l e rs e', engine_inv e -> run_trace l e = (rs, e') ->
    P (committed l rs) (returned rs) e e'.
Proof.
  intros H0 HS. induction l as [|[c orc] l IH]; intros e rs e' He; cbn [run_trace].
  - intros [= <- <-]. by apply H0.
  - destruct (exec_cases e c orc He) as [orc' [(out & e1 & -> & Hi & Hs)|[-> _]]].
    + destruct (run_trace l e1) as [rs1 e2] eqn:E. intros [= <- <-]. cbn.
      eapply HS; [done|exact Hi|done|]. by apply IH.
    + destruct (run_trace l e) as [rs1 e2] eqn:E. intros [= <- <-]. cbn. by apply IH.
Qed.

Lemma run_trace_inv l e rs e' : engine_inv e -> run_trace l e = (rs, e') -> engine_inv e'.
Proof. apply (run_trace_ind (fun _ _ _ e' => engine_inv e')); auto. Qed.

(** ** Refinement and invariant *)

(** C1 Any run of the engine, under any pattern of allocation failures, is a
    run of the abstract engine over the commands that returned: the same
    reports in the same order and the same observable state, with no undefined
    behaviour, [bad_alloc] the only exception and no effect of a command that
    threw. *)
Theorem engine_run_refines i cap e0 l rs e :
  new_engine i cap = Ret e0 -> run_trace l e0 = (rs, e) ->
  spec_run (committed l rs) (abs e0) = (returned rs, abs e) /\
  length rs = length l /\
  Forall (fun r => r = Throw bad_alloc \/ exists out, r = Ret out) rs /\
  (Forall (fun x => x.2 = []) l -> committed l rs = l.*1).
Proof.
  intros He%engine_inv_init Hrun. split_and!.
  - revert He Hrun.
    apply (run_trace_ind (fun cs outs e e' => spec_run cs (abs e) = (outs, abs e'))); [done|].
    intros c out e1 e2 cs outs e3 _ _ Hc Hr. cbn. by rewrite Hc, Hr.
  - clear He. revert e0 rs e Hrun. induction l as [|[c orc] l IH]; intros e0 rs e; cbn.
    + by intros [= <- <-].
    + destruct (exec c e0 orc) as [[r e1] o1]. destruct (run_trace l e1) eqn:E. intros [= <- <-].
      cbn. f_equal. by eapply IH.
  - revert e0 rs e He Hrun. induction l as [|[c orc] l IH]; intros e0 rs e He; cbn [run_trace].
    + intros [= <- <-]. constructor.
    + destruct (exec_cases e0 c orc He) as [orc' [(out & e1 & -> & Hi & Hs)|[-> _]]];
        destruct (run_trace l _) eqn:E; intros [= <- <-]; constructor; eauto.
  - intros Hall. revert e0 rs e He Hrun.
    induction Hall as [|[c orc] l Ho Hall IH]; intros e0 rs e He; cbn [run_trace].
    + intros [= <- <-]. done.
    + cbn in Ho. destruct (exec_cases e0 c orc He) as [orc' [(out & e1 & -> & Hi & Hs)|[_ ?]]]; [|done].
      destruct (run_trace l e1) eqn:E. intros [= <- <-]. cbn. f_equal. by eapply IH.
Qed.

(** C2 In every state a run reaches, the representation invariant holds: the
    indexes hold exactly the live orders of their side, the entry counters are
    exact, no session holds more live orders than the cap, and every order is
    well formed for its state. *)
Theorem engine_reachable_inv i cap e0 l rs e :
  new_engine i cap = Ret e0 -> run_trace l e0 = (rs, e) ->
  engine_inv e /\
  forall s, live_count e s = count (session_live s) (orders e) /\
    live_count e s <= max_live_orders (inst e) /\
    entry_count e s = count (of_session s) (orders e).
Proof.
  intros He%engine_inv_init Hrun. apply run_trace_inv in Hrun; [|done]. split; [done|].
  intros s. rewrite live_count_spec, find_entries_count by done.
  split_and!; [done| |done]. by apply (inv_live_cap _ Hrun).
Qed.

(** ** Acceptance *)

(** A state some run reaches. *)
Definition reachable (e : OrderEngine) : Prop :=
  exists i cap e0 l rs, new_engine i cap = Ret e0 /\ run_trace l e0 = (rs, e).

Lemma reachable_inv e : reachable e -> engine_inv e.
Proof. intros (i & cap & e0 & l & rs & Hn%engine_inv_init & Hr). by eapply run_trace_inv. Qed.

Lemma run_on_new e s o :
  engine_inv e -> exists e', run (on_new s o) e = (Ret (spec_new s o (abs e)).1, e') /\
    engine_inv e' /\ (spec_new s o (abs e)).2 = abs e'.
Proof.
  intros He. destruct (on_new_refines e s o He) as (out & e' & Ha & Hi & Hs).
  exists e'. rewrite Hs. split; [by eapply atomic_run|done].
Qed.

Lemma run_on_cancel e s c :
  engine_inv e -> exists e', run (on_cancel s c) e = (Ret (spec_cancel s c (abs e)).1, e') /\
    engine_inv e' /\ (spec_cancel s c (abs e)).2 = abs e'.
Proof.
  intros He. destruct (on_cancel_refines e s c He) as (out & e' & Ha & Hi & Hs).
  exists e'. rewrite Hs. split; [by eapply atomic_run|done].
Qed.

Lemma run_on_book e b :
  engine_inv e -> exists e', run (on_book b) e = (Ret (spec_on_book b (abs e)).1, e') /\
    engine_inv e' /\ (spec_on_book b (abs e)).2 = abs e'.
Proof.
  intros He. destruct (on_book_refines e b He) as (out & e' & Ha & Hi & Hs).
  exists e'. rewrite Hs. split; [by eapply atomic_run|done].
Qed.

Lemma run_end_session e s :
  engine_inv e -> exists e', run (end_session s) e = (Ret (spec_end_session s (abs e)).1, e') /\
    engine_inv e' /\ (spec_end_session s (abs e)).2 = abs e'.
Proof.
  intros He. destruct (end_session_refines e s He) as (out & e' & Ha & Hi & Hs).
  exists e'. rewrite Hs. split; [by eapply atomic_run|done].
Qed.

(** The rules a fresh order is checked against, each with its code; the first that
    fails decides.  The order of the instrument rules is the contract stated at
    [validate_order]: symbol, side, tick, lot, quantity limit, price range. *)
Definition new_order_rules (e : OrderEngine) (s : Z) (o : NewOrder) : list (bool * RejectCode) :=
  let i := inst e in
  [ (bool_decide (is_Some (find (s, no_cl_id o) (orders e))), DupClOrdId);
    (negb (bool_decide (no_symbol o = symbol i)), UnknownSymbol);
    (negb (bool_decide (no_side o ∈ ["B"; "S"]%string)), BadSide);
    (negb (bool_decide (Z.rem (no_px o) (tick_size i) = 0)), TickSize);
    (negb (bool_decide (Z.rem (no_qty o) (lot_size i) = 0)), LotSize);
    (negb (bool_decide (0 < no_qty o <= max_order_qty i)), QtyLimit);
    (negb (bool_decide (min_price i <= no_px o <= max_price i)), PriceRange);
    (bool_decide (max_live_orders i <= count (session_live s) (orders e)), MaxLiveOrders);
    (no_post_only o && crosses (book e) (if String.eqb (no_side o) "B" then Bid else Ask) (no_px o),
     PostOnlyCross) ].

Fixpoint first_failing (rules : list (bool * RejectCode)) : option RejectCode :=
  match rules with
  | [] => None
  | (true, c) :: _ => Some c
  | (false, _) :: l => first_failing l
  end.

Lemma eqb_decide (x y : string) : String.eqb x y = bool_decide (x = y).
Proof. destruct (String.eqb_spec x y); [by rewrite bool_decide_true|by rewrite bool_decide_false]. Qed.

Lemma validate_order_rules (i : Instrument) o :
  inst_ok i ->
  validate_order i (no_symbol o) (no_side o) (no_px o) (no_qty o) = first_failing
    [ (negb (bool_decide (no_symbol o = symbol i)), UnknownSymbol);
      (negb (bool_decide (no_side o ∈ ["B"; "S"]%string)), BadSide);
      (negb (bool_decide (Z.rem (no_px o) (tick_size i) = 0)), TickSize);
      (negb (bool_decide (Z.rem (no_qty o) (lot_size i) = 0)), LotSize);
      (negb (bool_decide (0 < no_qty o <= max_order_qty i)), QtyLimit);
      (negb (bool_decide (min_price i <= no_px o <= max_price i)), PriceRange) ].
Proof.
  intros (Ht & Hl & _ & _ & _). unfold validate_order. cbn [first_failing].
  rewrite !eqb_decide. rewrite (proj2 (Z.leb_gt _ _) Ht), (proj2 (Z.leb_gt _ _) Hl). cbn [orb].
  assert (negb (bool_decide (no_side o = "B"%string)) && negb (bool_decide (no_side o = "S"%string))
    = negb (bool_decide (no_side o ∈ ["B"; "S"]%string))) as ->.
  { rewrite <- negb_orb, <- bool_decide_or. do 2 f_equal. apply bool_decide_ext.
    rewrite !elem_of_cons, elem_of_nil. tauto. }
  assert (forall a b, (a =? b) = bool_decide (a = b)) as Heq.
  { intros. destruct (Z.eqb_spec a b); [by rewrite bool_decide_true|by rewrite bool_decide_false]. }
  rewrite !Heq.
  assert (forall q hi lo, (q <? lo) || (hi <? q) = negb (bool_decide (lo <= q <= hi))) as Hr.
  { intros. destruct (Z.ltb_spec q lo), (Z.ltb_spec hi q); symmetry; case_bool_decide; done || lia. }
  assert (((no_qty o <=? 0) || (max_order_qty i <? no_qty o)) =
    negb (bool_decide (0 < no_qty o <= max_order_qty i))) as ->.
  { destruct (Z.leb_spec (no_qty o) 0), (Z.ltb_spec (max_order_qty i) (no_qty o));
      symmetry; case_bool_decide; done || lia. }
  rewrite Hr. by repeat (case_match; try done).
Qed.

Lemma first_failing_app l1 l2 :
  first_failing (l1 ++ l2) =
    match first_failing l1 with Some c => Some c | None => first_failing l2 end.
Proof. induction l1 as [|[[] c] l1 IH]; cbn; done. Qed.

(** C3 [on_new] answers with exactly one message: the rejection of the first rule
    that fails, or an acknowledgement that carries the next engine id when none
    does.  The rules come in the order the source fixes: duplicate id; symbol,
    side, tick, lot, quantity limit and price range, as [validate_order] is
    commented; live cap; post-only.  So a quantity that is a multiple of the lot
    without being positive draws QTY_LIMIT, and such a price PRICE_RANGE where
    the instrument admits positive prices only, not the LOT_SIZE and TICK_SIZE
    that PROTOCOL sections 3.1 and 4 announce. *)
Theorem on_new_first_failing_rule e s o :
  reachable e ->
  exists e' m, run (on_new s o) e = (Ret [m], e') /\
    match first_failing (new_order_rules e s o) with
    | Some c => exists reason, m = OutReject (make_reject (no_cl_id o) c reason)
    | None => m = OutAck (mkOrderAck 1 0 0 (no_cl_id o) (next_eng_id e) "live" 0)
    end.
Proof.
  intros He%reachable_inv. destruct (run_on_new e s o He) as (e' & Hr & _). exists e'. rewrite Hr.
  unfold new_order_rules. cbv zeta.
  match goal with |- context [first_failing [?a; ?b; ?c; ?d; ?x; ?f; ?g; ?h; ?k]] =>
    change [a; b; c; d; x; f; g; h; k] with ([a] ++ ([b; c; d; x; f; g] ++ [h; k])) end.
  rewrite !first_failing_app, <- validate_order_rules by apply He. unfold spec_new. cbn [abs s_orders].
  destruct (find (s, no_cl_id o) (orders e)) as [o'|] eqn:Hf; cbn [first_failing].
  - rewrite bool_decide_true by (by eexists). cbn. eauto.
  - rewrite bool_decide_false by (by intros []). unfold spec_verdict. cbn [abs s_inst s_orders].
    destruct (validate_order _ _ _ _ _) as [c|]; [cbn; eauto|].
    rewrite spec_crosses_abs by done.
    destruct (Z.leb_spec (max_live_orders (inst e)) (count (session_live s) (orders e))).
    + rewrite bool_decide_true by done. cbn. eauto.
    + rewrite bool_decide_false by lia. destruct (_ && _); cbn; eauto.
Qed.

(** C4 An order is acknowledged exactly when its cl_id is fresh on the session,
    it satisfies the instrument's rules, the session is below its live cap and
    it is not a post-only order that would cross; it then rests with its whole
    quantity, at its own tick, under a fresh engine id. *)
Theorem on_new_accepts_iff e s o :
  reachable e ->
  let side := if String.eqb (no_side o) "B" then Bid else Ask in
  exists e' out, run (on_new s o) e = (Ret out, e') /\
    ((exists a, out = [OutAck a]) <->
      find (s, no_cl_id o) (orders e) = None /\
      valid_order (inst e) (no_symbol o) (no_side o) (no_px o) (no_qty o) /\
      live_count e s < max_live_orders (inst e) /\
      (no_post_only o = true -> crosses (book e) side (no_px o) = false)) /\
    ((exists a, out = [OutAck a]) ->
      exists tick, tick * tick_size (inst e) = no_px o /\
        orders e' = emplace (s, no_cl_id o)
          (mkOrder (next_eng_id e) side (mkTicks tick) (no_qty o) Live) (orders e) /\
        next_eng_id e' = u64 (next_eng_id e + 1)).
Proof.
  intros He%reachable_inv side. destruct (run_on_new e s o He) as (e' & Hr & _ & Hs).
  exists e', (spec_new s o (abs e)).1. split; [done|]. revert Hs. unfold spec_new.
  rewrite live_count_spec, <- validate_order_None by done. cbn [abs s_orders].
  destruct (find (s, no_cl_id o) (orders e)) as [o'|] eqn:Hf.
  { intros _. cbn. split; [split; [by intros []|naive_solver]|by intros []]. }
  unfold spec_verdict. cbn [abs s_inst s_orders]. rewrite spec_crosses_abs by done. fold side.
  destruct (validate_order _ _ _ _ _) as [c|] eqn:Hv.
  { intros _. cbn. split; [split; [by intros []|naive_solver]|by intros []]. }
  destruct (Z.leb_spec (max_live_orders (inst e)) (count (session_live s) (orders e))).
  { intros _. cbn. split; [split; [by intros []|intros (_ & _ & ? & _); lia]|by intros []]. }
  destruct (no_post_only o) eqn:Hp, (crosses (book e) side (no_px o)) eqn:Hc; cbn.
  { intros _. split; [split; [by intros []|naive_solver]|by intros []]. }
  all: intros Hs; split; [split; [naive_solver|by eauto]|intros _].
  all: apply validate_order_None in Hv as (_ & _ & ? & Hm & _).
  all: exists (Z.quot (no_px o) (tick_size (inst e))); split; [by apply rem_quot_exact|].
  all: split; [by apply (f_equal s_orders) in Hs|by apply (f_equal s_next_eng) in Hs].
Qed.

(** ** Lifecycle and conservation *)

(** The quantity a report fills of the order of key [k]. *)
Definition fill_to (k : OrderKey) (r : Routed) : Z :=
  match r_msg r with
  | OutFill f => if bool_decide ((r_session r, fl_cl_id f) = k) then fl_qty f else 0
  | _ => 0
  end.
Definition filled (k : OrderKey) (l : list Routed) : Z := foldr (fun r n => fill_to k r + n) 0 l.

Lemma filled_app k l1 l2 : filled k (l1 ++ l2) = filled k l1 + filled k l2.
Proof. unfold filled. induction l1 as [|r l1 IH]; cbn; [done|]. rewrite IH. lia. Qed.

Lemma filled_cons k r l : filled k (r :: l) = fill_to k r + filled k l.
Proof. done. Qed.
#[local] Arguments filled : simpl never.

Lemma filled_not_in i b x k l : k ∉ l.*1 -> filled k (number i b x l) = 0.
Proof.
  revert x. induction l as [|[k' o] l IH]; intros x; cbn; [done|].
  rewrite not_elem_of_cons. intros [Hne Hni]. rewrite filled_cons, IH by done. unfold fill_to. cbn.
  rewrite bool_decide_false; [done|]. intros E. apply Hne. by destruct k'.
Qed.

Lemma filled_in i b x k o l :
  NoDup l.*1 -> (k, o) ∈ l -> filled k (number i b x l) = fill_qty_of b o.
Proof.
  revert x. induction l as [|[k' o'] l IH]; intros x; cbn; [by intros _ ?%elem_of_nil|].
  intros [Hni Hnd]%NoDup_cons [E|Hin]%elem_of_cons.
  - simplify_eq. rewrite filled_cons, filled_not_in by done. unfold fill_to. cbn.
    rewrite bool_decide_true by (by destruct k'). lia.
  - rewrite filled_cons, IH by done. unfold fill_to. cbn. rewrite bool_decide_false; [done|].
    intros E. apply Hni. apply (list_elem_of_fmap_2' fst l (k, o)); [done|]. cbn. by destruct k'.
Qed.

Lemma filled_hits i b x m k o :
  sorted_map m -> find k m = Some o ->
  filled k (number i b x (hits i b m)) = if hit i b (o_side o) (k, o) then fill_qty_of b o else 0.
Proof.
  intros Hs Hf. destruct (hit _ _ _ _) eqn:E.
  - apply filled_in; [by apply NoDup_hits|]. apply elem_of_hits. split; [by apply find_In|done].
  - apply filled_not_in. intros ([k' o'] & -> & [Hin Hh]%elem_of_hits)%list_elem_of_fmap.
    apply sorted_find_In in Hin; [|done]. cbn in *. rewrite Hf in Hin. simplify_eq. congruence.
Qed.

(** What a later command may do to an order: identity, side and price are
    fixed, the remaining quantity only falls, a terminal order is never touched
    again and no live order becomes a rejection tombstone. *)
Definition evolves (o o' : Order) : Prop :=
  eng_id o' = eng_id o /\ o_side o' = o_side o /\ o_px o' = o_px o /\
  0 <= leaves o' <= leaves o /\ (st o <> Live -> o' = o) /\ (st o = Live -> st o' <> Rejected).

Lemma order_leaves_nonneg i o : order_ok i o -> 0 <= leaves o.
Proof. unfold order_ok. destruct (st o); [lia|lia|lia|]. by intros ->. Qed.

Lemma evolves_refl i o : order_ok i o -> evolves o o.
Proof. intros Ho%order_leaves_nonneg. unfold evolves. split_and!; try done. by intros ->. Qed.

Lemma evolves_trans o1 o2 o3 : evolves o1 o2 -> evolves o2 o3 -> evolves o1 o3.
Proof.
  intros (A1&A2&A3&A4&A5&A6) (B1&B2&B3&B4&B5&B6). unfold evolves. split_and!; try congruence; try lia.
  - intros H. rewrite B5; [by apply A5|]. by rewrite A5.
  - intros H. specialize (A6 H). destruct (decide (st o2 = Live)) as [E|E]; [by apply B6|].
    by rewrite B5.
Qed.

Lemma fill_order_evolves i b o k :
  order_ok i o -> hit i b (o_side o) (k, o) = true ->
  evolves o (fill_order b o) /\ 0 < fill_qty_of b o.
Proof.
  intros Hok [Hl Hp]%(hit_facts i b (k, o)). cbn in *. unfold order_ok in Hok. rewrite Hl in Hok.
  unfold present in Hp. zbool. unfold evolves, fill_order, fill_qty_of. cbn.
  split; [split_and!; try done; try lia|lia]. rewrite Hl. by case_match.
Qed.

Definition ends (session : Z) (c : Cmd) : bool :=
  match c with CEnd s => s =? session | _ => false end.

Lemma filled_route_single k s m : is_fill m = false -> filled k (route s [m]) = 0.
Proof. by destruct m. Qed.

Lemma filled_acks k s l : filled k (route s (map cancel_ack_of l)) = 0.
Proof. induction l as [|x l IH]; cbn; [done|]. by rewrite filled_cons, IH. Qed.

(** One committed command, seen from one order. *)
Lemma exec_order c out e e1 k o :
  engine_inv e -> spec_exec c (abs e) = (out, abs e1) -> ends k.1 c = false ->
  find k (orders e) = Some o ->
  exists o', find k (orders e1) = Some o' /\ evolves o o' /\ leaves o = leaves o' + filled k out.
Proof.
  intros He Hs Hc Hf. pose proof (inv_orders _ He _ _ Hf) as Hok.
  pose proof (evolves_refl _ _ Hok) as Hrefl. pose proof (inv_sorted _ He) as Hso.
  apply (f_equal (fun p => (p.1, s_orders p.2))) in Hs. cbn [abs s_orders fst snd] in Hs.
  destruct c as [s no|s co|b|s]; cbn [spec_exec] in Hs.
  - unfold spec_new in Hs. cbn [abs s_orders] in Hs. exists o.
    destruct (find (s, no_cl_id no) (orders e)) as [o0|] eqn:E.
    + injection Hs as <- <-. split_and!; [done..|]. unfold filled. cbn. lia.
    + assert (forall v, find k (emplace (s, no_cl_id no) v (orders e)) = Some o) as Hk.
      { intros v. rewrite find_emplace by done. rewrite bool_decide_false; congruence. }
      destruct (spec_verdict _ _ _) as [[code reason]|side]; injection Hs as <- <-;
        (split_and!; [by apply Hk|done|unfold filled; cbn; lia]).
  - unfold spec_cancel in Hs. cbn [abs s_orders] in Hs.
    destruct (find (s, co_cl_id co) (orders e)) as [o0|] eqn:E.
    2: { injection Hs as <- <-. exists o. split_and!; [done..|]. unfold filled. cbn. lia. }
    destruct (st o0) eqn:Hst; injection Hs as <- <-.
    2-4: exists o; split_and!; [done..|]; unfold filled; cbn; lia.
    cbn. rewrite find_assign. case_bool_decide as Hk; [|exists o; split_and!; [done..|unfold filled; cbn; lia]].
    subst. rewrite E in Hf. simplify_eq. rewrite E. eexists. split; [done|].
    split; [|unfold filled; cbn; lia]. unfold evolves. cbn. destruct Hrefl as (_&_&_&?&_&_).
    split_and!; try done; try lia; congruence.
  - unfold spec_on_book in Hs. destruct (spec_book_stale b (abs e)); injection Hs as <- <-.
    + exists o. split_and!; [done..|]. unfold filled. cbn. lia.
    + cbn [abs s_orders s_inst s_next_exec]. rewrite find_apply_fills, Hf.
      rewrite (filled_hits _ _ _ _ _ _ Hso Hf). eexists. split; [done|].
      destruct (hit _ _ _ _) eqn:Eh; [|split; [done|lia]].
      split; [by eapply fill_order_evolves|]. cbn. lia.
  - injection Hs as <- <-. cbn. exists o. cbn in Hc.
    rewrite find_filter, Hf by done. unfold of_session. cbn [fst].
    rewrite Z.eqb_sym, Hc. split_and!; [done..|]. rewrite filled_acks. lia.
Qed.

Lemma committed_Forall (P : Cmd -> Prop) l rs : Forall (fun x => P x.1) l -> Forall P (committed l rs).
Proof.
  intros Hl. revert rs. induction Hl as [|[c orc] l Hc _ IH]; intros [|[] rs]; cbn;
    try constructor; auto.
Qed.

(** C5 Over any run that does not end the order's session, an order keeps its
    engine id, side and price; its quantity only falls, by exactly the sum of
    the fills reported to its owner; once filled, cancelled or rejected it never
    changes again. *)
Theorem order_lifecycle e l rs e' k o :
  reachable e -> run_trace l e = (rs, e') -> Forall (fun x => ends k.1 x.1 = false) l ->
  find k (orders e) = Some o ->
  exists o', find k (orders e') = Some o' /\ evolves o o' /\
    leaves o = leaves o' + filled k (concat (returned rs)).
Proof.
  intros He%reachable_inv Hr Hl Hf.
  pose proof (committed_Forall (fun c => ends k.1 c = false) l rs Hl) as Hc.
  refine (run_trace_ind (fun cs outs e e' => Forall (fun c => ends k.1 c = false) cs ->
    forall o, find k (orders e) = Some o -> exists o', find k (orders e') = Some o' /\
      evolves o o' /\ leaves o = leaves o' + filled k (concat outs)) _ _ l e rs e' He Hr Hc o Hf);
    clear.
  - intros e0 He _ o Hf. exists o. unfold filled. cbn. split_and!; [done| |lia].
    by eapply evolves_refl, (inv_orders _ He).
  - intros c out e0 e1 cs outs e2 He He1 Hs IH [Hc Hcs]%Forall_cons o Hf.
    destruct (exec_order _ _ _ _ _ _ He Hs Hc Hf) as (o1 & Hf1 & Hev1 & Hl1).
    destruct (IH Hcs o1 Hf1) as (o2 & Hf2 & Hev2 & Hl2). exists o2.
    split_and!; [done|by eapply evolves_trans|]. cbn. rewrite filled_app. lia.
Qed.

(** C6 A cl_id is consumed for the lifetime of its session by any submission
    that returned, accepted or rejected: every later submission of the same id
    is refused with [DUP_CLORDID] and changes nothing. *)
Theorem cl_id_consumed e s o orc out e1 orc' l rs e2 o2 :
  reachable e -> on_new s o e orc = (Ret out, e1, orc') ->
  run_trace l e1 = (rs, e2) -> Forall (fun x => ends s x.1 = false) l ->
  no_cl_id o2 = no_cl_id o ->
  run (on_new s o2) e2 =
    (Ret [OutReject (make_reject (no_cl_id o) DupClOrdId "cl_id already used on this session")], e2).
Proof.
  intros He%reachable_inv Hn Hr Hl Hid.
  destruct (on_new_refines e s o He) as (out' & e1' & Ha & Hi & Hs).
  destruct (Ha orc) as [o' [[E _]|[E _]]]; rewrite E in Hn; simplify_eq.
  assert (exists v, find (s, no_cl_id o) (orders e1) = Some v) as [v Hv].
  { apply (f_equal (fun p => s_orders p.2)) in Hs. cbn in Hs. rewrite <- Hs. unfold spec_new.
    cbn [abs s_orders]. destruct (find (s, no_cl_id o) (orders e)) as [v|] eqn:Ef; [by exists v|].
    destruct (spec_verdict _ _ _) as [[code reason]|side]; cbn;
      rewrite find_emplace by done; rewrite bool_decide_true by done; eauto. }
  assert (exists v', find (s, no_cl_id o) (orders e2) = Some v') as [v' Hv'].
  { clear - Hi Hr Hl Hv. revert rs e1 v Hi Hr Hv.
    induction Hl as [|[c orc] l Hc _ IH]; intros rs e1 v Hi; cbn [run_trace].
    - intros [= <- <-]. eauto.
    - destruct (exec_cases e1 c orc Hi) as [orc' [(out & e3 & -> & Hi3 & Hs)|[-> _]]];
        destruct (run_trace l _) eqn:E; intros [= <- <-] Hv; [|by eauto].
      destruct (exec_order c out e1 e3 (s, no_cl_id o) v Hi Hs Hc Hv) as (v' & Hv' & _). eauto. }
  pose proof (run_trace_inv _ _ _ _ Hi Hr) as Hi2.
  destruct (on_new_refines e2 s o2 Hi2) as (out2 & e3 & Ha2 & _ & Hs2).
  unfold on_new, run, mbind, M_bind, get, may_alloc, mret, M_ret.
  rewrite is_dup_find, Hid, Hv' by apply Hi2. rewrite bool_decide_true by (by eexists). done.
Qed.

(** ** The fill rule *)

Lemma crosses_present b side px : crosses b side px = present side b && crossed side b px.
Proof. unfold crosses, present, crossed. by destruct side. Qed.

Lemma hit_crosses i b k o :
  hit i b (o_side o) (k, o) =
    bool_decide (st o = Live) && crosses b (o_side o) (to_raw_px i (o_px o)).
Proof.
  unfold hit, is_live_on, is_live. cbn [snd]. rewrite crosses_present, (bool_decide_true (o_side o = _)) by done.
  by rewrite andb_true_r, andb_assoc.
Qed.

Lemma number_elem i b x l r :
  r ∈ number i b x l -> exists e n, e ∈ l /\ r = fill_report i b n e.
Proof.
  revert x. induction l as [|e l IH]; intros x; cbn; [by intros ?%elem_of_nil|].
  intros [->|(e' & n & Hin & ->)%IH]%elem_of_cons; [exists e, x|exists e', n]; (split; [|done]);
    rewrite elem_of_cons; auto.
Qed.

Definition owner (r : Routed) : OrderKey :=
  (r_session r, match r_msg r with OutFill f => fl_cl_id f | _ => EmptyString end).

Lemma number_owners i b x l : map owner (number i b x l) = l.*1.
Proof. revert x. induction l as [|[[s c] o] l IH]; intros x; cbn; [done|]. by rewrite IH. Qed.

(** C7 A fresh book fills exactly the live orders it crosses, each once, at the
    order's own limit, for the smaller of its remaining quantity and the
    displayed opposite quantity, and every report carries the remainder. *)
Theorem on_book_fill_rule e b :
  reachable e -> (book_seen e = true -> md_seq (book e) < md_seq b) ->
  exists out e', run (on_book b) e = (Ret out, e') /\ NoDup (map owner out) /\
    (forall r, r ∈ out -> exists o f, r_msg r = OutFill f /\
       find (r_session r, fl_cl_id f) (orders e) = Some o /\ st o = Live /\
       fl_px f = to_raw_px (inst e) (o_px o) /\ crosses b (o_side o) (fl_px f) = true /\
       fl_qty f = Z.min (leaves o) (opp_qty (o_side o) b) /\ 0 < fl_qty f /\
       fl_leaves f = leaves o - fl_qty f /\ fl_eng_id f = eng_id o) /\
    (forall k o, find k (orders e) = Some o ->
       filled k out =
         if bool_decide (st o = Live) && crosses b (o_side o) (to_raw_px (inst e) (o_px o))
         then Z.min (leaves o) (opp_qty (o_side o) b) else 0).
Proof.
  intros He%reachable_inv Hb. destruct (run_on_book e b He) as (e' & Hr & _).
  pose proof (inv_sorted _ He) as Hs. revert Hr. unfold spec_on_book.
  assert (spec_book_stale b (abs e) = false) as ->.
  { unfold spec_book_stale. cbn. destruct (book_seen e); [|done]. apply Z.leb_gt. auto. }
  intros Hr. do 2 eexists. split; [exact Hr|]. cbn [fst abs s_inst s_next_exec s_orders]. split_and!.
  - rewrite number_owners. by apply NoDup_hits.
  - intros r ([k o] & n & [Hin Hh]%elem_of_hits & ->)%number_elem. cbn [snd] in Hh.
    apply sorted_find_In in Hin; [|done]. pose proof (inv_orders _ He _ _ Hin) as Hok.
    destruct (fill_order_evolves _ _ _ _ Hok Hh) as [_ Hq]. rewrite hit_crosses in Hh. zbool.
    exists o. eexists. split; [done|]. cbn. case_bool_decide; [|done].
    split_and!; try done. by destruct k.
  - intros k o Hf. rewrite (filled_hits _ _ _ _ _ _ Hs Hf), hit_crosses. done.
Qed.

Lemma on_book_stale_run b e orc :
  book_seen e = true -> md_seq b <= md_seq (book e) ->
  on_book b e orc = (Ret [], set_stale (fun n => u64 (n + 1)) e, orc).
Proof.
  intros Hs Hle. unfold on_book, mbind, M_bind, get. by rewrite Hs, (proj2 (Z.leb_le _ _) Hle).
Qed.

(** A book whose sequence number does not advance is ignored, under every
    allocation pattern: no fill, and nothing but the stale counter moves.  A
    book that returned is never older than the installed one, so the same book
    applied again fills nothing. *)
Theorem stale_book_ignored e b orc out e1 orc1 :
  reachable e -> on_book b e orc = (Ret out, e1, orc1) ->
  (book_seen e = true -> md_seq b <= md_seq (book e) ->
     out = [] /\ e1 = set_stale (fun n => u64 (n + 1)) e) /\
  book_seen e1 = true /\ md_seq b <= md_seq (book e1) /\
  forall b2 orc2, md_seq b2 <= md_seq b ->
    on_book b2 e1 orc2 = (Ret [], set_stale (fun n => u64 (n + 1)) e1, orc2).
Proof.
  intros He%reachable_inv Hb.
  assert (book_seen e1 = true /\ md_seq b <= md_seq (book e1)) as [Hs1 Hle1].
  { destruct (on_book_refines e b He) as (out' & e1' & Ha & _ & Hs).
    destruct (Ha orc) as [o' [[E _]|[E _]]]; rewrite E in Hb; simplify_eq.
    apply (f_equal (fun p => s_book p.2)) in Hs. unfold spec_on_book, spec_book_stale in Hs.
    cbn in Hs. destruct (book_seen e), (md_seq b <=? md_seq (book e)) eqn:El, (book_seen e1);
      cbn in Hs; simplify_eq; zbool; (split; [done|]); try lia; by rewrite <- Hs. }
  split_and!; [|done|done|].
  - intros Hs Hle. rewrite on_book_stale_run in Hb by done. by simplify_eq.
  - intros b2 orc2 Hle. apply on_book_stale_run; [done|lia].
Qed.

(** ** Identifiers *)

Definition exec_ids : list Routed -> list Z :=
  omap (fun r => match r_msg r with OutFill f => Some (fl_exec_id f) | _ => None end).
Definition acked_ids : list Routed -> list Z :=
  omap (fun r => match r_msg r with OutAck a => Some (oa_eng_id a) | _ => None end).

(** [n] consecutive 64-bit counters from [x]. *)
Definition consec (x : Z) (n : nat) : list Z := map (fun j => u64 (x + Z.of_nat j)) (seq 0 n).

Lemma consec_S x n : is_u64 x -> consec x (S n) = x :: consec (u64 (x + 1)) n.
Proof.
  intros Hx. unfold consec. cbn [seq map]. f_equal; [by rewrite Z.add_0_r, u64_small|].
  rewrite <- seq_shift, map_map. apply map_ext. intros j. rewrite u64_add_l. f_equal. lia.
Qed.

Lemma consec_app x n m : consec x (n + m) = consec x n ++ consec (u64 (x + Z.of_nat n)) m.
Proof.
  unfold consec. rewrite seq_app, map_app. f_equal.
  assert (seq (0 + n) m = map (Nat.add n) (seq 0 m)) as ->.
  { change (map (Nat.add n) (seq 0 m)) with (Nat.add n <$> seq 0 m). rewrite fmap_add_seq. f_equal. lia. }
  rewrite map_map. apply map_ext. intros j. rewrite u64_add_l. f_equal. lia.
Qed.

#[local] Arguments consec : simpl never.

Lemma number_ids i b x l :
  is_u64 x -> exec_ids (number i b x l) = consec x (length l) /\
    iter_exec (length l) x = u64 (x + Z.of_nat (length l)) /\ acked_ids (number i b x l) = [].
Proof.
  revert x. induction l as [|e l IH]; intros x Hx.
  - split_and!; [done| |done]. cbn. by rewrite Z.add_0_r, u64_small.
  - destruct (IH (u64 (x + 1)) (u64_range _)) as (IH1 & IH2 & IH3).
    cbn [number length iter_exec]. split_and!; [|rewrite IH2, u64_add_l; f_equal; lia|exact IH3].
    rewrite consec_S by done. cbn. f_equal. exact IH1.
Qed.

Lemma exec_ids_route s l : Forall (fun m => is_fill m = false) l -> exec_ids (route s l) = [].
Proof. induction 1 as [|m l Hm _ IH]; [done|]. by destruct m. Qed.
Lemma acked_ids_cancels s l : acked_ids (route s (map cancel_ack_of l)) = [].
Proof. by induction l. Qed.
Lemma exec_ids_cancels s l : exec_ids (route s (map cancel_ack_of l)) = [].
Proof. by induction l. Qed.

(** One committed command: the identifiers it reports are the next ones. *)
Lemma exec_report_ids c out e e1 :
  engine_inv e -> spec_exec c (abs e) = (out, abs e1) ->
  exec_ids out = consec (next_exec_id e) (length (exec_ids out)) /\
  next_exec_id e1 = u64 (next_exec_id e + Z.of_nat (length (exec_ids out))) /\
  acked_ids out = consec (next_eng_id e) (length (acked_ids out)) /\
  next_eng_id e1 = u64 (next_eng_id e + Z.of_nat (length (acked_ids out))).
Proof.
  intros He Hs. destruct (inv_ids _ He) as [Hg Hx].
  apply (f_equal (fun p => (p.1, s_next_eng p.2, s_next_exec p.2))) in Hs.
  cbn [abs s_next_eng s_next_exec fst snd] in Hs.
  assert (forall x, is_u64 x -> x = u64 (x + Z.of_nat (length (@nil Z)))) as H0.
  { intros x ?. cbn. by rewrite Z.add_0_r, u64_small. }
  destruct c as [s no|s co|b|s]; cbn [spec_exec] in Hs.
  - revert Hs. unfold spec_new. cbn [abs s_orders].
    destruct (find _ (orders e)); [|destruct (spec_verdict _ _ _) as [[]|]];
      intros [= <- <- <-]; cbn; rewrite ?u64_small by done; split_and!; try done; try by apply H0.
    rewrite consec_S by done. done.
  - revert Hs. unfold spec_cancel. cbn [abs s_orders].
    destruct (find _ (orders e)) as [o|]; [destruct (st o)|];
      intros [= <- <- <-]; cbn; split_and!; try done; by apply H0.
  - revert Hs. unfold spec_on_book. destruct (spec_book_stale _ _).
    + intros [= <- <- <-]. cbn. split_and!; try done; by apply H0.
    + intros [= <- <- <-]. cbn [abs s_next_exec s_inst s_orders].
      destruct (number_ids (inst e) b (next_exec_id e) (hits (inst e) b (orders e)) Hx) as (E1 & E2 & E3).
      rewrite E3, E1. assert (forall x n, length (consec x n) = n) as Hlen
        by (intros; unfold consec; by rewrite length_map, length_seq).
      rewrite Hlen. split_and!; try done. by apply H0.
  - injection Hs as <- <- <-. rewrite acked_ids_cancels, exec_ids_cancels. cbn.
    split_and!; try done; by apply H0.
Qed.

(** Over a whole run the exec_ids of the fills reported, and the engine ids
    of the acknowledgements, count up from 1 without gap or repetition (modulo
    2^64), whatever commands failed in between. *)
Theorem report_ids_consecutive i cap e0 l rs e :
  new_engine i cap = Ret e0 -> run_trace l e0 = (rs, e) ->
  let out := concat (returned rs) in
  exec_ids out = consec 1 (length (exec_ids out)) /\
  acked_ids out = consec 1 (length (acked_ids out)).
Proof.
  intros Hn Hr. pose proof (engine_inv_init _ _ _ Hn) as He.
  assert (next_exec_id e0 = 1 /\ next_eng_id e0 = 1) as [E1 E2].
  { revert Hn. unfold new_engine. intros Hn. repeat (case_match; [done|]). by simplify_eq. }
  enough (forall out, out = concat (returned rs) ->
    exec_ids out = consec (next_exec_id e0) (length (exec_ids out)) /\
    acked_ids out = consec (next_eng_id e0) (length (acked_ids out))) as H.
  { rewrite E1, E2 in H. by apply H. }
  clear E1 E2 Hn. intros out ->. revert He Hr.
  apply (run_trace_ind (fun cs outs e e' =>
    exec_ids (concat outs) = consec (next_exec_id e) (length (exec_ids (concat outs))) /\
    acked_ids (concat outs) = consec (next_eng_id e) (length (acked_ids (concat outs))))); [done|].
  clear. intros c out e e1 cs outs e2 He He1 Hs [IH1 IH2].
  destruct (exec_report_ids _ _ _ _ He Hs) as (A1 & A2 & A3 & A4).
  unfold exec_ids, acked_ids in *. cbn [concat]. rewrite !omap_app, !length_app, !consec_app.
  rewrite <- A2, <- A4, <- A1, <- A3, <- IH1, <- IH2. done.
Qed.

(** ** End of a session *)

Lemma find_filter_session {V} s (m : list (OrderKey * V)) k :
  sorted_map m ->
  find k (List.filter (fun x => negb (of_session s x)) m) = if k.1 =? s then None else find k m.
Proof.
  intros Hs. rewrite find_filter by done. unfold of_session. cbn [fst].
  by destruct (find k m), (k.1 =? s).
Qed.

(** C8 Ending a session acknowledges the cancellation of exactly its live
    orders, in cl_id order, forgets every entry and counter of that session,
    and leaves every other session, the book and the counters untouched. *)
Theorem end_session_exact e s :
  reachable e ->
  exists e', run (end_session s) e =
      (Ret (map cancel_ack_of (List.filter (session_live s) (orders e))), e') /\
    (forall k, find k (orders e') = if k.1 =? s then None else find k (orders e)) /\
    (forall side k, find k (live_index side e') = if k.1 =? s then None else find k (live_index side e)) /\
    (forall x, entry_count e' x = if x =? s then 0 else entry_count e x) /\
    (forall x, live_count e' x = if x =? s then 0 else live_count e x) /\
    inst e' = inst e /\ book e' = book e /\ next_eng_id e' = next_eng_id e /\
    next_exec_id e' = next_exec_id e.
Proof.
  intros He%reachable_inv. pose proof (inv_sorted _ He) as Hs.
  destruct (run_end_session e s He) as (e' & Hr & He' & Ha). exists e'.
  assert (orders e' = List.filter (fun x => negb (of_session s x)) (orders e)) as Ho
    by exact (eq_sym (f_equal s_orders Ha)).
  split; [exact Hr|]. split_and!.
  - intros k. rewrite Ho. by apply find_filter_session.
  - intros side k. rewrite !inv_index, Ho by done. unfold of_session.
    rewrite (index_of_filter side (fun k => negb (k.1 =? s))) by done.
    apply (find_filter_session s). eauto with mm.
  - intros x. rewrite !find_entries_count, Ho, count_filter_out by done.
    destruct (Z.eqb_spec x s) as [->|Hne].
    + apply count_false. intros y. by destruct (of_session s y).
    + apply count_ext_in. intros y. unfold of_session. destruct (Z.eqb_spec y.1.1 x), (Z.eqb_spec y.1.1 s);
        cbn; congruence.
  - intros x. rewrite !live_count_spec, Ho, count_filter_out by done.
    destruct (Z.eqb_spec x s) as [->|Hne].
    + apply count_false. intros y. unfold session_live. by destruct (of_session s y), (is_live y).
    + apply count_ext_in. intros y. unfold session_live, of_session.
      destruct (Z.eqb_spec y.1.1 x), (Z.eqb_spec y.1.1 s), (is_live y); cbn; congruence.
  - exact (eq_sym (f_equal s_inst Ha)).
  - pose proof (f_equal s_book Ha) as Hb. cbn in Hb.
    destruct (book_seen e) eqn:E1, (book_seen e') eqn:E2; simplify_eq; try done.
    by rewrite !inv_book.
  - exact (eq_sym (f_equal s_next_eng Ha)).
  - exact (eq_sym (f_equal s_next_exec Ha)).
Qed.

(** ** Concrete runs

    One bid and one ask rest, a book crosses the bid, the ask is cancelled, a
    post-only order is refused, one allocation fails, a session ends. *)

Definition demo_inst : Instrument := default_instrument "ES".
Definition demo_new (id side : string) (px qty : Z) (post : bool) : NewOrder :=
  mkNewOrder 1 1 1 1 id "ES" side px qty post.
Definition demo_e0 : OrderEngine := mkEngine demo_inst empty_book false 1 1 0 100 [] [] [] [].
Definition demo_cmds : list (Cmd * oracle) :=
  [ (CNew 1 (demo_new "a" "B" 100 50 false), []);
    (CNew 2 (demo_new "a" "S" 120 30 true), []);
    (CNew 1 (demo_new "b" "B" 90 20 false), [false; true]);
    (CBook (mkBook 90 10 95 20 7), []);
    (CNew 2 (demo_new "b" "B" 100 10 true), []);
    (CCancel 2 (mkCancelOrder 1 1 1 "a"), []) ].
Definition demo_e1 : OrderEngine := (run_trace demo_cmds demo_e0).2.

Lemma demo_reachable : reachable demo_e1.
Proof.
  exists demo_inst, 100, demo_e0, demo_cmds, (run_trace demo_cmds demo_e0).1.
  split; vm_compute; reflexivity.
Defined.

Lemma engine_run_refines_witness :
  let '(rs, e) := run_trace demo_cmds demo_e0 in
  spec_run (committed demo_cmds rs) (abs demo_e0) = (returned rs, abs e) /\
  nth 2 rs UB = Throw bad_alloc /\ length (concat (returned rs)) = 5%nat.
Proof.
  destruct (run_trace demo_cmds demo_e0) as [rs e] eqn:E. split.
  - apply (engine_run_refines demo_inst 100 demo_e0 demo_cmds rs e); [reflexivity|exact E].
  - vm_compute in E. injection E as <- _. vm_compute. split; reflexivity.
Defined.

Lemma engine_reachable_inv_witness :
  engine_inv demo_e1 /\ live_count demo_e1 1 = 1.
Proof.
  split; [|vm_compute; reflexivity].
  apply (engine_reachable_inv demo_inst 100 demo_e0 demo_cmds (run_trace demo_cmds demo_e0).1);
    vm_compute; reflexivity.
Defined.

Lemma on_new_first_failing_rule_witness :
  exists e' m reason, run (on_new 1 (demo_new "c" "B" 95 10 true)) demo_e1 = (Ret [m], e') /\
    m = OutReject (make_reject "c" PostOnlyCross reason).
Proof.
  destruct (on_new_first_failing_rule demo_e1 1 (demo_new "c" "B" 95 10 true) demo_reachable)
    as (e' & m & Hr & Hm).
  assert (first_failing (new_order_rules demo_e1 1 (demo_new "c" "B" 95 10 true)) = Some PostOnlyCross)
    as E by (vm_compute; reflexivity).
  rewrite E in Hm. destruct Hm as [reason ->]. exists e', (OutReject (make_reject "c" PostOnlyCross reason)), reason.
  split; [exact Hr|reflexivity].
Defined.

Lemma on_new_accepts_iff_witness :
  exists e' out, run (on_new 1 (demo_new "c" "B" 90 10 true)) demo_e1 = (Ret out, e') /\
    (exists a, out = [OutAck a]) /\ next_eng_id e' = 4.
Proof.
  destruct (on_new_accepts_iff demo_e1 1 (demo_new "c" "B" 90 10 true) demo_reachable)
    as (e' & out & Hr & Hiff & Hst).
  exists e', out. split; [exact Hr|].
  vm_compute in Hr. injection Hr as <- <-. split; [eexists; reflexivity|reflexivity].
Defined.

Lemma order_lifecycle_witness :
  exists o', find (1, "a"%string) (orders demo_e1) = Some o' /\ leaves o' = 30 /\
    evolves (mkOrder 1 Bid (mkTicks 20) 50 Live) o'.
Proof.
  destruct (order_lifecycle (run_trace (take 1 demo_cmds) demo_e0).2 (drop 1 demo_cmds)
    (run_trace (drop 1 demo_cmds) (run_trace (take 1 demo_cmds) demo_e0).2).1 demo_e1
    (1, "a"%string) (mkOrder 1 Bid (mkTicks 20) 50 Live)) as (o' & Hf & He & Hl).
  - exists demo_inst, 100, demo_e0, (take 1 demo_cmds), (run_trace (take 1 demo_cmds) demo_e0).1.
    split; vm_compute; reflexivity.
  - vm_compute; reflexivity.
  - repeat constructor.
  - vm_compute; reflexivity.
  - exists o'. split; [exact Hf|]. split; [|exact He]. vm_compute in Hf. injection Hf as <-. reflexivity.
Defined.

Lemma cl_id_consumed_witness :
  run (on_new 1 (demo_new "z" "B" 100 10 false)) (run_trace demo_cmds
     (run (on_new 1 (demo_new "z" "B" 7 10 false)) demo_e1).2).2 =
  (Ret [OutReject (make_reject "z" DupClOrdId "cl_id already used on this session")],
   (run_trace demo_cmds (run (on_new 1 (demo_new "z" "B" 7 10 false)) demo_e1).2).2).
Proof.
  apply (cl_id_consumed demo_e1 1 (demo_new "z" "B" 7 10 false) []
    [OutReject (make_reject "z" TickSize "px is not a multiple of tick_size")]
    (run (on_new 1 (demo_new "z" "B" 7 10 false)) demo_e1).2 [] demo_cmds
    (run_trace demo_cmds (run (on_new 1 (demo_new "z" "B" 7 10 false)) demo_e1).2).1).
  - exact demo_reachable.
  - vm_compute; reflexivity.
  - vm_compute; reflexivity.
  - repeat constructor.
  - reflexivity.
Defined.

Lemma on_book_fill_rule_witness :
  exists out e', run (on_book (mkBook 0 0 100 10 8)) demo_e1 = (Ret out, e') /\
    filled (1, "a"%string) out = 10.
Proof.
  destruct (on_book_fill_rule demo_e1 (mkBook 0 0 100 10 8) demo_reachable) as (out & e' & Hr & _ & _ & Hf).
  - intros _. vm_compute; reflexivity.
  - exists out, e'. split; [exact Hr|].
    rewrite (Hf _ (mkOrder 1 Bid (mkTicks 20) 30 Live)); vm_compute; reflexivity.
Defined.

Lemma stale_book_ignored_witness :
  let b := mkBook 90 10 100 20 8 in
  length (match (run (on_book b) demo_e1).1 with Ret out => out | _ => [] end) = 1%nat /\
  forall orc, on_book b (run (on_book b) demo_e1).2 orc =
    (Ret [], set_stale (fun n => u64 (n + 1)) (run (on_book b) demo_e1).2, orc).
Proof.
  intros b. split; [vm_compute; reflexivity|]. intros orc.
  destruct (on_book b demo_e1 []) as [[r e1] orc1] eqn:E.
  assert (exists out, r = Ret out) as [out ->].
  { vm_compute in E. injection E as <- _ _. eexists. reflexivity. }
  assert ((run (on_book b) demo_e1).2 = e1) as -> by (unfold run; rewrite E; reflexivity).
  destruct (stale_book_ignored demo_e1 b [] out e1 orc1 demo_reachable E) as (_ & _ & _ & H).
  apply H. lia.
Defined.

Lemma report_ids_consecutive_witness :
  exec_ids (concat (returned (run_trace demo_cmds demo_e0).1)) = [1] /\
  acked_ids (concat (returned (run_trace demo_cmds demo_e0).1)) = [1; 2].
Proof.
  destruct (report_ids_consecutive demo_inst 100 demo_e0 demo_cmds (run_trace demo_cmds demo_e0).1
    (run_trace demo_cmds demo_e0).2) as [Hx Ha]; [vm_compute; reflexivity..|].
  rewrite Hx, Ha. split; vm_compute; reflexivity.
Defined.

Lemma end_session_exact_witness :
  exists e' a, run (end_session 1) demo_e1 = (Ret [OutCancelAck a], e') /\
    ca_cl_id a = "a"%string /\ entry_count e' 1 = 0 /\ entry_count e' 2 = 2.
Proof.
  destruct (end_session_exact demo_e1 1 demo_reachable) as (e' & Hr & _ & _ & He & _).
  assert (entry_count e' 1 = 0 /\ entry_count e' 2 = 2) as Hc by (rewrite !He; split; vm_compute; reflexivity).
  exists e', (mkCancelAck 1 0 0 "a" 1 "cancelled"). split; [|split; [reflexivity|exact Hc]].
  rewrite Hr. vm_compute. reflexivity.
Defined.
