(* ===== verification/Outbox.v ===== *)
(** * The per-session outbound queue ([cpp/include/mm/outbox.hpp])

    Reports queue without loss, the top of book is conflated to depth one, and
    reports drain first.  A message that is [valueless_by_exception] is [None];
    reserving a slot of the deque is the one step that may fail to allocate. *)

From Stdlib Require Import ZArith String List Lia.
From stdpp Require Import base tactics list option strings.
From S2P Require Import Prelude Protocol.

Record Outbox := mkOutbox {
  report_hwm : Z;
  report_hwm_breached : bool;
  conflated : Z;
  reports_ : list OutMsg;
  tob_ : option Tob;
}.

Definition kDefaultReportHwm : Z := 1024.

Definition new_outbox (hwm : Z) : outcome Outbox :=
  if hwm =? 0 then Throw (invalid_argument "Outbox: report_hwm must be > 0")
  else Ret (mkOutbox hwm false 0 [] None).

Definition push_report (msg : option OutMsg) : M Outbox unit :=
  match msg with
  | None => throw (invalid_argument
      "Outbox::push_report: message is valueless_by_exception (no report to queue)")
  | Some (OutTob _) => throw (invalid_argument
      "Outbox::push_report: top of book must go through push_tob (it is conflated)")
  | Some m =>
      may_alloc;;
      modify (fun b =>
        let q := reports_ b ++ [m] in
        mkOutbox (report_hwm b)
          (if report_hwm b <? Z.of_nat (length q) then true else report_hwm_breached b)
          (conflated b) q (tob_ b))
  end.

Definition push_tob (msg : Tob) (b : Outbox) : Outbox :=
  mkOutbox (report_hwm b) (report_hwm_breached b)
    (match tob_ b with Some _ => u64 (conflated b + 1) | None => conflated b end)
    (reports_ b) (Some msg).

Definition pop (b : Outbox) : option OutMsg * Outbox :=
  match reports_ b with
  | m :: q => (Some m, mkOutbox (report_hwm b) (report_hwm_breached b) (conflated b) q (tob_ b))
  | [] =>
      match tob_ b with
      | Some t => (Some (OutTob t),
                   mkOutbox (report_hwm b) (report_hwm_breached b) (conflated b) [] None)
      | None => (None, b)
      end
  end.

Definition depth (b : Outbox) : Z :=
  Z.of_nat (length (reports_ b)) + (match tob_ b with Some _ => 1 | None => 0 end).

(** ** Runs *)

Inductive Op := OpReport (m : option OutMsg) (orc : oracle) | OpTob (t : Tob) | OpPop.
Inductive Ev := EvReport (r : outcome unit) | EvTob | EvPop (m : option OutMsg).

Definition exec_op (op : Op) (b : Outbox) : Ev * Outbox :=
  match op with
  | OpReport m orc => let '(r, b', _) := push_report m b orc in (EvReport r, b')
  | OpTob t => (EvTob, push_tob t b)
  | OpPop => let (m, b') := pop b in (EvPop m, b')
  end.

Fixpoint run_ops (ops : list Op) (b : Outbox) : list Ev * Outbox :=
  match ops with
  | [] => ([], b)
  | op :: ops' =>
      let (ev, b1) := exec_op op b in
      let (evs, b2) := run_ops ops' b1 in (ev :: evs, b2)
  end.

(** The reports a run accepted, and what it delivered. *)
Fixpoint pushed (ops : list Op) (evs : list Ev) : list OutMsg :=
  match ops, evs with
  | OpReport (Some m) _ :: ops', EvReport (Ret _) :: evs' => m :: pushed ops' evs'
  | _ :: ops', _ :: evs' => pushed ops' evs'
  | _, _ => []
  end.
Definition ticks (ops : list Op) : list Tob :=
  omap (fun op => match op with OpTob t => Some t | _ => None end) ops.
Definition popped (evs : list Ev) : list OutMsg :=
  omap (fun ev => match ev with EvPop m => m | _ => None end) evs.
Definition popped_reports (evs : list Ev) : list OutMsg :=
  List.filter (fun m => negb (is_tob m)) (popped evs).
Definition popped_ticks (evs : list Ev) : list Tob :=
  omap (fun m => match m with OutTob t => Some t | _ => None end) (popped evs).

(** Reports hold no tick: [push_report] refuses them. *)
Definition outbox_inv (b : Outbox) : Prop :=
  Forall (fun m => is_tob m = false) (reports_ b) /\ is_u64 (conflated b) /\
  (report_hwm b < Z.of_nat (length (reports_ b)) -> report_hwm_breached b = true).

Lemma new_outbox_inv hwm b : is_u64 hwm -> new_outbox hwm = Ret b -> outbox_inv b.
Proof.
  unfold new_outbox, is_u64. case_match; intros; simplify_eq. unfold outbox_inv. cbn.
  split_and!; [constructor|done|lia].
Qed.

(** [push_report] either throws and changes nothing, or appends. *)
Lemma push_report_cases m b orc :
  (exists x e orc', m = Some x /\ is_tob x = false /\ push_report m b orc = (Ret tt, e, orc') /\
     e = mkOutbox (report_hwm b)
           (report_hwm_breached b || (report_hwm b <? Z.of_nat (length (reports_ b ++ [x]))))
           (conflated b) (reports_ b ++ [x]) (tob_ b)) \/
  (exists ex orc', push_report m b orc = (Throw ex, b, orc') /\
     (ex = bad_alloc \/ match m with Some x => is_tob x = true | None => True end)).
Proof.
  unfold push_report. destruct m as [x|]; [|right; do 2 eexists; split; [done|by right]].
  destruct (is_tob x) eqn:Ex.
  - right. destruct x; try done. do 2 eexists. split; [done|by right].
  - assert (forall A (k f : A), match x with OutTob _ => k | _ => f end = f) as Hm by (by destruct x).
    rewrite Hm. destruct orc as [|[] orc]; [left|right|left].
    2: { do 2 eexists. split; [done|by left]. }
    all: do 3 eexists; split_and!; [done|done|done|].
    all: cbv zeta; f_equal; destruct (report_hwm b <? _), (report_hwm_breached b); done.
Qed.

Lemma exec_op_inv op b : outbox_inv b -> outbox_inv (exec_op op b).2.
Proof.
  intros (Hr & Hc & Hb). destruct op as [m orc|t|]; cbn.
  - destruct (push_report_cases m b orc) as [(x & e & orc' & -> & Hx & -> & ->)|(ex & orc' & -> & _)];
      cbn; [|done]. unfold outbox_inv. cbn. split_and!; [|done|].
    + apply Forall_app. split; [done|by constructor].
    + intros Hlt. apply Z.ltb_lt in Hlt. by rewrite Hlt, orb_true_r.
  - unfold outbox_inv, push_tob. cbn. split_and!; [done| |done]. case_match; [apply u64_range|done].
  - destruct b as [h br c [|m q] t]; cbn in *.
    + by destruct t.
    + inversion Hr; subst. unfold outbox_inv. cbn. split_and!; [done..|]. intros. apply Hb. lia.
Qed.

(** ** Never dropped, in order *)

Lemma exec_op_fifo op b ev b' :
  outbox_inv b -> exec_op op b = (ev, b') ->
  popped_reports [ev] ++ reports_ b' = reports_ b ++ pushed [op] [ev].
Proof.
  intros (Hr & _). destruct op as [m orc|t|]; cbn.
  - destruct (push_report_cases m b orc) as [(x & e & orc' & -> & Hx & -> & ->)|(ex & orc' & -> & _)];
      intros [= <- <-]; cbn; [done|]. by destruct m; rewrite app_nil_r.
  - intros [= <- <-]. cbn. by rewrite app_nil_r.
  - destruct b as [h br c [|m q] t]; cbn in *.
    + by destruct t; intros [= <- <-].
    + intros [= <- <-]. cbn. inversion Hr as [|? ? Hm]; subst. rewrite Hm. cbn. by rewrite app_nil_r.
Qed.

Lemma popped_reports_cons ev evs : popped_reports (ev :: evs) = popped_reports [ev] ++ popped_reports evs.
Proof.
  unfold popped_reports, popped. destruct ev as [| |[m|]]; cbn; try done.
  by destruct (is_tob m).
Qed.
Lemma pushed_cons op ops ev evs : pushed (op :: ops) (ev :: evs) = pushed [op] [ev] ++ pushed ops evs.
Proof. by destruct op as [[]| |], ev as [[]| |]. Qed.

Lemma run_ops_fifo ops b evs b' :
  outbox_inv b -> run_ops ops b = (evs, b') ->
  outbox_inv b' /\ popped_reports evs ++ reports_ b' = reports_ b ++ pushed ops evs.
Proof.
  revert b evs. induction ops as [|op ops IH]; intros b evs Hb; cbn [run_ops].
  - intros [= <- <-]. split; [done|]. cbn. by rewrite app_nil_r.
  - destruct (exec_op op b) as [ev b1] eqn:E. destruct (run_ops ops b1) as [evs1 b2] eqn:E2.
    intros [= <- <-]. pose proof (exec_op_inv op b Hb) as Hb1. rewrite E in Hb1. cbn in Hb1.
    destruct (IH _ _ Hb1 E2) as [Hi IH']. split; [done|].
    rewrite popped_reports_cons, pushed_cons, <- app_assoc, IH'.
    rewrite app_assoc, (exec_op_fifo _ _ _ _ Hb E). by rewrite <- app_assoc.
Qed.

(** [n] successive pops. *)
Fixpoint pops (n : nat) (b : Outbox) : list (option OutMsg) * Outbox :=
  match n with
  | O => ([], b)
  | S n' => let (m, b1) := pop b in let (l, b2) := pops n' b1 in (m :: l, b2)
  end.

Lemma pops_all b :
  (pops (Z.to_nat (depth b)) b).1 =
    map Some (reports_ b ++ match tob_ b with Some t => [OutTob t] | None => [] end) /\
  depth (pops (Z.to_nat (depth b)) b).2 = 0.
Proof.
  destruct b as [h br c q t]. unfold depth. cbn [reports_ tob_]. induction q as [|m q IH].
  - destruct t; done.
  - replace (Z.to_nat (Z.of_nat (length (m :: q)) + match t with Some _ => 1 | None => 0 end))
      with (S (Z.to_nat (Z.of_nat (length q) + match t with Some _ => 1 | None => 0 end)))
      by (cbn [length]; destruct t; lia).
    cbn [pops pop reports_ report_hwm report_hwm_breached conflated tob_].
    destruct (pops _ _) as [l b2] eqn:E.
    destruct IH as [IH1 IH2]. cbn [fst snd] in *. split; [by rewrite IH1|exact IH2].
Qed.

(** C18 Over any run, with any failed enqueues, the reports delivered followed by
    those still queued are exactly the reports accepted, in order: none is
    lost, duplicated or reordered.  From any state, [depth] pops deliver every
    queued report, then the pending tick, and leave the queue empty. *)
Theorem reports_never_dropped hwm b0 ops evs b :
  is_u64 hwm -> new_outbox hwm = Ret b0 -> run_ops ops b0 = (evs, b) ->
  popped_reports evs ++ reports_ b = pushed ops evs /\
  (pops (Z.to_nat (depth b)) b).1 =
    map Some (reports_ b ++ match tob_ b with Some t => [OutTob t] | None => [] end) /\
  depth (pops (Z.to_nat (depth b)) b).2 = 0.
Proof.
  intros Hh Hn Hr. pose proof (new_outbox_inv _ _ Hh Hn) as Hi.
  destruct (run_ops_fifo _ _ _ _ Hi Hr) as [_ Hf]. split; [|apply pops_all]. rewrite Hf.
  revert Hn. unfold new_outbox. case_match; [done|]. by intros [= <-].
Qed.

(** ** Conflation *)

(** What a run owes about ticks, from the state it started in. *)
Definition tick_account (b : Outbox) (ops : list Op) (evs : list Ev) (b' : Outbox) : Prop :=
  let all := option_list (tob_ b) ++ ticks ops in
  let kept := popped_ticks evs ++ option_list (tob_ b') in
  kept `sublist_of` all /\
  (forall t, tob_ b' = Some t -> last all = Some t) /\
  conflated b' = u64 (conflated b + (Z.of_nat (length all) - Z.of_nat (length kept))).

Lemma popped_ticks_reports evs q :
  Forall (fun m => is_tob m = false) q -> popped_ticks (map (fun m => EvPop (Some m)) q ++ evs) = popped_ticks evs.
Proof. induction 1 as [|m q Hm _ IH]; [done|]. cbn. by destruct m. Qed.

Lemma exec_op_ticks op b ev b1 :
  outbox_inv b -> exec_op op b = (ev, b1) -> tick_account b [op] [ev] b1.
Proof.
  intros (Hr & Hc & _). unfold tick_account. destruct op as [m orc|t|].
  - cbn [exec_op]. destruct (push_report_cases m b orc)
      as [(x & e & orc' & -> & Hx & -> & ->)|(ex & orc' & -> & _)]; intros [= <- <-]; cbn;
      rewrite app_nil_r, Z.sub_diag, Z.add_0_r, u64_small by done; split_and!; try done; by intros t ->.
  - intros [= <- <-]. cbn. destruct (tob_ b) as [t0|]; cbn; split_and!; try done.
    + by apply sublist_cons.
    + by rewrite Z.add_0_r, u64_small.
  - destruct b as [h br c [|m q] t]; cbn in *.
    + destruct t as [t|]; intros [= <- <-]; cbn; rewrite Z.add_0_r, u64_small by done;
        split_and!; try done; by intros ? [= ->].
    + intros [= <- <-]. inversion Hr as [|? ? Hm]; subst.
      destruct m; try done; cbn; rewrite app_nil_r, Z.sub_diag, Z.add_0_r, u64_small by done;
        split_and!; try done; by intros ? ->.
Qed.

Lemma popped_ticks_cons ev evs : popped_ticks (ev :: evs) = popped_ticks [ev] ++ popped_ticks evs.
Proof. unfold popped_ticks, popped. destruct ev as [| |[m|]]; cbn; try done. by destruct m. Qed.
Lemma ticks_cons op ops : ticks (op :: ops) = ticks [op] ++ ticks ops.
Proof. by destruct op. Qed.

Lemma last_app_some {A} (l1 l2 : list A) x : last l2 = Some x -> last (l1 ++ l2) = Some x.
Proof. intros H. by rewrite last_app, H. Qed.

Lemma run_ops_ticks ops b evs b' :
  outbox_inv b -> run_ops ops b = (evs, b') -> tick_account b ops evs b'.
Proof.
  revert b evs. induction ops as [|op ops IH]; intros b evs Hb; cbn [run_ops].
  - intros [= <- <-]. destruct Hb as (_ & Hc & _). unfold tick_account. cbn.
    rewrite app_nil_r, Z.sub_diag, Z.add_0_r, u64_small by done. split_and!; try done. by intros t ->.
  - destruct (exec_op op b) as [ev b1] eqn:E. destruct (run_ops ops b1) as [evs1 b2] eqn:E2.
    intros [= <- <-]. pose proof (exec_op_inv op b Hb) as Hb1. rewrite E in Hb1. cbn [snd] in Hb1.
    destruct (exec_op_ticks _ _ _ _ Hb E) as (A1 & A2 & A3).
    destruct (IH _ _ Hb1 E2) as (B1 & B2 & B3). unfold tick_account. cbv zeta.
    rewrite popped_ticks_cons, ticks_cons. split_and!.
    + rewrite <- app_assoc. etrans; [apply sublist_app; [reflexivity|exact B1]|].
      rewrite !app_assoc. by apply sublist_app.
    + intros t Ht. specialize (B2 t Ht). destruct (ticks ops) as [|t1 l] eqn:Et.
      * rewrite app_nil_r in B2 |- *. destruct (tob_ b1) as [t1|] eqn:E1; [|done].
        cbn in B2. simplify_eq. by apply A2.
      * rewrite app_assoc. apply last_app_some. rewrite last_app in B2.
        destruct (last (t1 :: l)) eqn:El; [done|]. by apply last_None in El.
    + rewrite B3, A3, u64_add_l. f_equal. rewrite !length_app in *. cbn [length] in *. lia.
Qed.

(** Market data is conflated to the newest tick and every drop is counted:
    over any run, the ticks delivered and the one pending are a subsequence of
    those pushed, the pending tick is the newest pushed, and [conflated] counts
    (modulo 2^64) exactly the ticks that were superseded. *)
Theorem ticks_conflated hwm b0 ops evs b :
  is_u64 hwm -> new_outbox hwm = Ret b0 -> run_ops ops b0 = (evs, b) ->
  popped_ticks evs ++ option_list (tob_ b) `sublist_of` ticks ops /\
  (forall t, tob_ b = Some t -> last (ticks ops) = Some t) /\
  conflated b = u64 (Z.of_nat (length (ticks ops)) -
                     Z.of_nat (length (popped_ticks evs ++ option_list (tob_ b)))).
Proof.
  intros Hh Hn Hr. pose proof (new_outbox_inv _ _ Hh Hn) as Hi.
  pose proof (run_ops_ticks _ _ _ _ Hi Hr) as Ht. revert Hn. unfold new_outbox.
  case_match; [done|]. intros [= <-]. exact Ht.
Qed.

(** ** The breach latch *)

(** The states a run passes through, the first included. *)
Fixpoint states (ops : list Op) (b : Outbox) : list Outbox :=
  b :: match ops with [] => [] | op :: ops' => states ops' (exec_op op b).2 end.

Definition over (b : Outbox) : bool := report_hwm b <? Z.of_nat (length (reports_ b)).

Lemma exec_op_latch op b :
  report_hwm (exec_op op b).2 = report_hwm b /\
  (over b = false \/ report_hwm_breached b = true ->
   report_hwm_breached (exec_op op b).2 = report_hwm_breached b || over (exec_op op b).2).
Proof.
  destruct op as [m orc|t|]; cbn [exec_op].
  - destruct (push_report_cases m b orc) as [(x & e & orc' & -> & Hx & -> & ->)|(ex & orc' & -> & _)];
      cbn; (split; [done|]); [done|]. intros [-> | ->]; by rewrite ?orb_false_r.
  - cbn. split; [done|]. change (over (push_tob t b)) with (over b).
    intros [-> | ->]; by rewrite ?orb_false_r.
  - destruct b as [h br c [|m q] t]; cbn; [destruct t; cbn; (split; [done|])|split; [done|]].
    1,2: unfold over; cbn; intros [-> | ->]; by rewrite ?orb_false_r.
    unfold over. cbn [report_hwm reports_ report_hwm_breached length].
    intros [Ho | ->]; [|done].
    assert ((h <? Z.of_nat (length q)) = false) as -> by (zbool; lia). by rewrite orb_false_r.
Qed.

Lemma latch_run ops b evs b' :
  over b = false \/ report_hwm_breached b = true -> run_ops ops b = (evs, b') ->
  report_hwm_breached b' = report_hwm_breached b || existsb over (states ops b).
Proof.
  revert b evs. induction ops as [|op ops IH]; intros b evs Hb; cbn [run_ops states existsb].
  - intros [= <- <-]. destruct Hb as [-> | ->]; by rewrite ?orb_false_r.
  - destruct (exec_op_latch op b) as [_ Hl]. specialize (Hl Hb).
    destruct (exec_op op b) as [ev b1]. cbn [snd] in *.
    destruct (run_ops ops b1) as [evs1 b2] eqn:E2. intros [= <- <-].
    assert (over b1 = false \/ report_hwm_breached b1 = true) as Hb1.
    { destruct (over b1); [right; by rewrite Hl, orb_true_r|by left]. }
    rewrite (IH _ _ Hb1 E2), Hl.
    assert (existsb over (states ops b1) = over b1 || existsb over (states ops b1)) as Hs.
    { destruct ops; cbn; by destruct (over b1). }
    rewrite Hs. destruct Hb as [-> | ->]; [|done].
    by destruct (report_hwm_breached b), (over b1), (existsb over (states ops b1)).
Qed.

(** The close verdict is raised exactly when the pending reports exceeded
    the mark at some moment of the run, and no later drain takes it back. *)
Theorem breach_latched hwm b0 ops evs b :
  is_u64 hwm -> new_outbox hwm = Ret b0 -> run_ops ops b0 = (evs, b) ->
  report_hwm_breached b = existsb over (states ops b0) /\
  (forall ops' evs' b', report_hwm_breached b = true -> run_ops ops' b = (evs', b') ->
     report_hwm_breached b' = true).
Proof.
  intros Hh Hn Hr. assert (over b0 = false /\ report_hwm_breached b0 = false) as [Ho Hf].
  { revert Hn. unfold new_outbox. case_match; [done|]. intros [= <-]. split; [|done].
    unfold over. cbn. apply Z.ltb_ge. apply Hh. }
  split.
  - rewrite (latch_run _ _ _ _ (or_introl Ho) Hr). by rewrite Hf.
  - intros ops' evs' b' Hb Hr'. rewrite (latch_run _ _ _ _ (or_intror Hb) Hr'). by rewrite Hb.
Qed.

(** ** A concrete run: two reports past a mark of one, a failed enqueue, three
    ticks of which one is conflated. *)

Definition demo_report (id : string) : OutMsg := OutReject (mkReject 1 0 0 id "DUP_CLORDID" "r").
Definition demo_tick (n : Z) : Tob := mkTob 1 0 0 n "ES" 1 2 3 4.
Definition demo_outbox : Outbox := mkOutbox 1 false 0 [] None.
Definition demo_ops : list Op :=
  [ OpReport (Some (demo_report "a")) []; OpTob (demo_tick 1); OpReport (Some (demo_report "b")) [true];
    OpTob (demo_tick 2); OpReport (Some (demo_report "c")) []; OpReport None []; OpPop; OpPop; OpPop;
    OpTob (demo_tick 3) ].

Lemma reports_never_dropped_witness :
  popped_reports (run_ops demo_ops demo_outbox).1 = [demo_report "a"; demo_report "c"].
Proof.
  destruct (reports_never_dropped 1 demo_outbox demo_ops (run_ops demo_ops demo_outbox).1
    (run_ops demo_ops demo_outbox).2) as [H _]; [split; reflexivity || discriminate|reflexivity..|].
  change (reports_ (run_ops demo_ops demo_outbox).2) with (@nil OutMsg) in H.
  rewrite app_nil_r in H. rewrite H. reflexivity.
Defined.

Lemma ticks_conflated_witness :
  conflated (run_ops demo_ops demo_outbox).2 = 1 /\
  popped_ticks (run_ops demo_ops demo_outbox).1 = [demo_tick 2].
Proof.
  destruct (ticks_conflated 1 demo_outbox demo_ops (run_ops demo_ops demo_outbox).1
    (run_ops demo_ops demo_outbox).2) as (_ & _ & H); [split; reflexivity || discriminate|reflexivity..|].
  split; [rewrite H; vm_compute; reflexivity|reflexivity].
Defined.

Lemma breach_latched_witness :
  report_hwm_breached (run_ops demo_ops demo_outbox).2 = true /\
  reports_ (run_ops demo_ops demo_outbox).2 = [].
Proof.
  destruct (breach_latched 1 demo_outbox demo_ops (run_ops demo_ops demo_outbox).1
    (run_ops demo_ops demo_outbox).2) as [H _]; [split; reflexivity || discriminate|reflexivity..|].
  split; [rewrite H; vm_compute; reflexivity|reflexivity].
Defined.
