(* ===== verification/Utf8.v ===== *)
(** * Bytes and strict UTF-8 ([utf8_valid] of [cpp/src/frame_preflight.cpp])

    A frame is a list of bytes.  The byte validator of the preflight is shown
    to accept exactly the concatenations of the RFC 3629 encodings of Unicode
    scalar values: no overlong form, no surrogate, nothing past U+10FFFF. *)

From Stdlib Require Import ZArith Ascii String List Lia.
From stdpp Require Import base tactics list option strings.
From S2P Require Import Prelude.

Abbreviation bytes := (list ascii).

(** The value of a byte, and the byte of a value. *)
Definition ord (c : ascii) : Z := Z.of_N (N_of_ascii c).
Definition chr (z : Z) : ascii := ascii_of_N (Z.to_N z).

Lemma ord_range c : 0 <= ord c < 256.
Proof. unfold ord. pose proof (N_ascii_bounded c). lia. Qed.
Lemma chr_ord c : chr (ord c) = c.
Proof. unfold chr, ord. by rewrite N2Z.id, ascii_N_embedding. Qed.
Lemma ord_chr z : 0 <= z < 256 -> ord (chr z) = z.
Proof. intros. unfold ord, chr. rewrite N_ascii_embedding by lia. lia. Qed.
Lemma ord_inj c1 c2 : ord c1 = ord c2 -> c1 = c2.
Proof. intros H. by rewrite <- (chr_ord c1), H, chr_ord. Qed.
Lemma chr_eq z c : z = ord c -> chr z = c.
Proof. intros ->. apply chr_ord. Qed.

Definition in_range (lo hi : Z) (c : ascii) : bool := (lo <=? ord c) && (ord c <=? hi).

Lemma in_range_iff lo hi c : in_range lo hi c = true <-> lo <= ord c <= hi.
Proof. unfold in_range. rewrite andb_true_iff, !Z.leb_le. lia. Qed.

Lemma in_range_cases lo hi c :
  in_range lo hi c = true /\ lo <= ord c <= hi \/ in_range lo hi c = false /\ (ord c < lo \/ hi < ord c).
Proof. unfold in_range. destruct (Z.leb_spec lo (ord c)), (Z.leb_spec (ord c) hi); cbn; lia. Qed.

(** ** Decimal printing: [std::to_string], [std::to_chars] *)

(** The digits of [z >= 0] in front of [acc]; one unit of fuel per digit. *)
Fixpoint dec_digits (fuel : nat) (z : Z) (acc : bytes) : bytes :=
  match fuel with
  | O => acc
  | S fuel' =>
      let acc := chr (48 + z mod 10) :: acc in
      if z <? 10 then acc else dec_digits fuel' (z / 10) acc
  end.

Definition dec_bytes (z : Z) : bytes :=
  let digits n := dec_digits (S (Z.to_nat (Z.log2 n))) n [] in
  if z <? 0 then "-"%char :: digits (- z) else digits z.

Definition dec_string (z : Z) : string := string_of_list_ascii (dec_bytes z).

Example dec_string_neg : dec_string (-120) = "-120"%string.
Proof. reflexivity. Qed.
Example dec_string_zero : dec_string 0 = "0"%string.
Proof. reflexivity. Qed.
Example dec_string_max : dec_string 18446744073709551615 = "18446744073709551615"%string.
Proof. reflexivity. Qed.

(** ** UTF-8 *)

(** Length of the sequence a lead byte announces, with the bounds of its first
    continuation byte. *)
Definition utf8_lead (c : ascii) : option (nat * Z * Z) :=
  if in_range 0xC2 0xDF c then Some (2%nat, 0x80, 0xBF)
  else if in_range 0xE0 0xE0 c then Some (3%nat, 0xA0, 0xBF)
  else if in_range 0xE1 0xEC c || in_range 0xEE 0xEE c || in_range 0xEF 0xEF c
    then Some (3%nat, 0x80, 0xBF)
  else if in_range 0xED 0xED c then Some (3%nat, 0x80, 0x9F)
  else if in_range 0xF0 0xF0 c then Some (4%nat, 0x90, 0xBF)
  else if in_range 0xF1 0xF3 c then Some (4%nat, 0x80, 0xBF)
  else if in_range 0xF4 0xF4 c then Some (4%nat, 0x80, 0x8F)
  else None.

Fixpoint utf8_valid (s : bytes) : bool :=
  match s with
  | [] => true
  | c :: s1 =>
      if ord c <? 0x80 then utf8_valid s1
      else
        match utf8_lead c, s1 with
        | Some (2%nat, lo, hi), p1 :: s2 => in_range lo hi p1 && utf8_valid s2
        | Some (3%nat, lo, hi), p1 :: p2 :: s3 =>
            in_range lo hi p1 && in_range 0x80 0xBF p2 && utf8_valid s3
        | Some (4%nat, lo, hi), p1 :: p2 :: p3 :: s4 =>
            in_range lo hi p1 && in_range 0x80 0xBF p2 && in_range 0x80 0xBF p3 && utf8_valid s4
        | _, _ => false
        end
  end.

(** ** RFC 3629 *)

Definition scalar (cp : Z) : Prop := 0 <= cp < 0xD800 \/ 0xE000 <= cp <= 0x10FFFF.

Definition utf8_encode (cp : Z) : bytes :=
  if cp <? 0x80 then [chr cp]
  else if cp <? 0x800 then [chr (0xC0 + cp / 64); chr (0x80 + cp mod 64)]
  else if cp <? 0x10000 then
    [chr (0xE0 + cp / 4096); chr (0x80 + cp / 64 mod 64); chr (0x80 + cp mod 64)]
  else [chr (0xF0 + cp / 262144); chr (0x80 + cp / 4096 mod 64); chr (0x80 + cp / 64 mod 64);
        chr (0x80 + cp mod 64)].

(** What a lead byte announces, as arithmetic. *)
Lemma utf8_lead_spec c :
  match utf8_lead c with
  | Some (2%nat, lo, hi) => lo = 0x80 /\ hi = 0xBF /\ 0xC2 <= ord c <= 0xDF
  | Some (3%nat, lo, hi) => 0xE0 <= ord c <= 0xEF /\
      lo = (if ord c =? 0xE0 then 0xA0 else 0x80) /\ hi = (if ord c =? 0xED then 0x9F else 0xBF)
  | Some (4%nat, lo, hi) => 0xF0 <= ord c <= 0xF4 /\
      lo = (if ord c =? 0xF0 then 0x90 else 0x80) /\ hi = (if ord c =? 0xF4 then 0x8F else 0xBF)
  | Some _ => False
  | None => ord c < 0xC2 \/ 0xF4 < ord c
  end.
Proof.
  unfold utf8_lead.
  destruct (in_range_cases 0xC2 0xDF c) as [[-> ?]|[-> ?]]; [lia|].
  destruct (in_range_cases 0xE0 0xE0 c) as [[-> ?]|[-> ?]];
    [assert (ord c = 0xE0) as -> by lia; cbn; lia|].
  destruct (in_range_cases 0xE1 0xEC c) as [[-> ?]|[-> ?]]; cbn [orb];
    [rewrite !(proj2 (Z.eqb_neq _ _)) by lia; lia|].
  destruct (in_range_cases 0xEE 0xEE c) as [[-> ?]|[-> ?]]; cbn [orb];
    [rewrite !(proj2 (Z.eqb_neq _ _)) by lia; lia|].
  destruct (in_range_cases 0xEF 0xEF c) as [[-> ?]|[-> ?]];
    [rewrite !(proj2 (Z.eqb_neq _ _)) by lia; lia|].
  destruct (in_range_cases 0xED 0xED c) as [[-> ?]|[-> ?]];
    [assert (ord c = 0xED) as -> by lia; cbn; lia|].
  destruct (in_range_cases 0xF0 0xF0 c) as [[-> ?]|[-> ?]];
    [assert (ord c = 0xF0) as -> by lia; cbn; lia|].
  destruct (in_range_cases 0xF1 0xF3 c) as [[-> ?]|[-> ?]];
    [rewrite !(proj2 (Z.eqb_neq _ _)) by lia; lia|].
  destruct (in_range_cases 0xF4 0xF4 c) as [[-> ?]|[-> ?]];
    [assert (ord c = 0xF4) as -> by lia; cbn; lia|]. lia.
Qed.

(** Division by the powers of 64 that lay out the payload bits. *)
Ltac div64 := Z.to_euclidean_division_equations; lia.

Lemma encode_two c p :
  0xC2 <= ord c <= 0xDF -> 0x80 <= ord p <= 0xBF ->
  let cp := (ord c - 0xC0) * 64 + (ord p - 0x80) in scalar cp /\ utf8_encode cp = [c; p].
Proof.
  intros Hc Hp cp. assert (0x80 <= cp < 0x800) by lia. split; [unfold scalar; lia|].
  unfold utf8_encode. rewrite (proj2 (Z.ltb_ge cp _)), (proj2 (Z.ltb_lt cp _)) by lia.
  repeat f_equal; apply chr_eq; unfold cp; div64.
Qed.

Lemma encode_three c p q :
  0xE0 <= ord c <= 0xEF -> (if ord c =? 0xE0 then 0xA0 else 0x80) <= ord p ->
  ord p <= (if ord c =? 0xED then 0x9F else 0xBF) -> 0x80 <= ord q <= 0xBF ->
  let cp := (ord c - 0xE0) * 4096 + (ord p - 0x80) * 64 + (ord q - 0x80) in
  scalar cp /\ utf8_encode cp = [c; p; q].
Proof.
  intros Hc Hp1 Hp2 Hq cp. assert (0x800 <= cp < 0x10000 /\ (cp < 0xD800 \/ 0xE000 <= cp)) as [? ?].
  { destruct (Z.eqb_spec (ord c) 0xE0), (Z.eqb_spec (ord c) 0xED); lia. }
  split; [unfold scalar; lia|]. unfold utf8_encode.
  rewrite !(proj2 (Z.ltb_ge cp _)), (proj2 (Z.ltb_lt cp _)) by lia.
  assert (0x80 <= ord p <= 0xBF) by (destruct (ord c =? 0xE0), (ord c =? 0xED); lia).
  repeat f_equal; apply chr_eq; unfold cp; div64.
Qed.

Lemma encode_four c p q r :
  0xF0 <= ord c <= 0xF4 -> (if ord c =? 0xF0 then 0x90 else 0x80) <= ord p ->
  ord p <= (if ord c =? 0xF4 then 0x8F else 0xBF) -> 0x80 <= ord q <= 0xBF ->
  0x80 <= ord r <= 0xBF ->
  let cp := (ord c - 0xF0) * 262144 + (ord p - 0x80) * 4096 + (ord q - 0x80) * 64 + (ord r - 0x80) in
  scalar cp /\ utf8_encode cp = [c; p; q; r].
Proof.
  intros Hc Hp1 Hp2 Hq Hr cp. assert (0x10000 <= cp <= 0x10FFFF).
  { destruct (Z.eqb_spec (ord c) 0xF0), (Z.eqb_spec (ord c) 0xF4); lia. }
  split; [unfold scalar; lia|]. unfold utf8_encode.
  rewrite !(proj2 (Z.ltb_ge cp _)) by lia.
  assert (0x80 <= ord p <= 0xBF) by (destruct (ord c =? 0xF0), (ord c =? 0xF4); lia).
  repeat f_equal; apply chr_eq; unfold cp; div64.
Qed.

(** One accepted sequence is the encoding of one scalar value. *)
Lemma utf8_valid_inv c s :
  utf8_valid (c :: s) = true ->
  exists cp s', scalar cp /\ c :: s = utf8_encode cp ++ s' /\ utf8_valid s' = true.
Proof.
  cbn [utf8_valid]. destruct (Z.ltb_spec (ord c) 0x80) as [Hc|Hc].
  - intros Hs. exists (ord c), s. split_and!; [|unfold utf8_encode|done].
    + unfold scalar. pose proof (ord_range c). lia.
    + rewrite (proj2 (Z.ltb_lt _ _)) by lia. by rewrite chr_ord.
  - pose proof (utf8_lead_spec c) as Hl. destruct (utf8_lead c) as [[[n lo] hi]|]; [|done].
    destruct n as [|[|[|[|[|n]]]]]; try done.
    + destruct s as [|p s]; [done|]. intros [Hp Hs]%andb_true_iff. apply in_range_iff in Hp.
      destruct Hl as (-> & -> & Hl). destruct (encode_two c p Hl Hp) as [Hsc He].
      eexists _, s. split_and!; [exact Hsc|by rewrite He|done].
    + destruct s as [|p [|q s]]; try done. intros H. zbool. rewrite !in_range_iff in *.
      destruct Hl as (Hl & -> & ->).
      destruct (encode_three c p q) as [Hsc He]; [lia..|].
      eexists _, s. split_and!; [exact Hsc|by rewrite He|done].
    + destruct s as [|p [|q [|r s]]]; try done. intros H. zbool. rewrite !in_range_iff in *.
      destruct Hl as (Hl & -> & ->).
      destruct (encode_four c p q r) as [Hsc He]; [lia..|].
      eexists _, s. split_and!; [exact Hsc|by rewrite He|done].
Qed.

Lemma utf8_lead_two c :
  0xC2 <= ord c <= 0xDF -> utf8_lead c = Some (2%nat, 0x80, 0xBF).
Proof. intros. unfold utf8_lead. by rewrite (proj2 (in_range_iff _ _ _)). Qed.

Lemma utf8_lead_three c :
  0xE0 <= ord c <= 0xEF -> exists lo hi, utf8_lead c = Some (3%nat, lo, hi) /\
    lo = (if ord c =? 0xE0 then 0xA0 else 0x80) /\ hi = (if ord c =? 0xED then 0x9F else 0xBF).
Proof.
  intros. pose proof (utf8_lead_spec c) as Hl. destruct (utf8_lead c) as [[[n lo] hi]|]; [|lia].
  destruct n as [|[|[|[|[|n]]]]]; try done; try lia. naive_solver.
Qed.

Lemma utf8_lead_four c :
  0xF0 <= ord c <= 0xF4 -> exists lo hi, utf8_lead c = Some (4%nat, lo, hi) /\
    lo = (if ord c =? 0xF0 then 0x90 else 0x80) /\ hi = (if ord c =? 0xF4 then 0x8F else 0xBF).
Proof.
  intros. pose proof (utf8_lead_spec c) as Hl. destruct (utf8_lead c) as [[[n lo] hi]|]; [|lia].
  destruct n as [|[|[|[|[|n]]]]]; try done; try lia. naive_solver.
Qed.

Lemma in_range_chr lo hi z : 0 <= z < 256 -> lo <= z <= hi -> in_range lo hi (chr z) = true.
Proof. intros. apply in_range_iff. by rewrite ord_chr. Qed.

Lemma utf8_valid_encode cp s : scalar cp -> utf8_valid (utf8_encode cp ++ s) = utf8_valid s.
Proof.
  intros Hsc. unfold utf8_encode, scalar in *.
  destruct (Z.ltb_spec cp 0x80); [|destruct (Z.ltb_spec cp 0x800); [|destruct (Z.ltb_spec cp 0x10000)]].
  - cbn. rewrite ord_chr by lia. by rewrite (proj2 (Z.ltb_lt _ _)) by lia.
  - assert (0xC2 <= 0xC0 + cp / 64 <= 0xDF /\ 0 <= cp mod 64 < 64) as [? ?] by (split; div64).
    cbn [app utf8_valid]. rewrite ord_chr by lia. rewrite (proj2 (Z.ltb_ge _ _)) by lia.
    rewrite utf8_lead_two by (rewrite ord_chr; lia). by rewrite in_range_chr by lia.
  - assert (0xE0 <= 0xE0 + cp / 4096 <= 0xEF /\ 0 <= cp / 64 mod 64 < 64 /\ 0 <= cp mod 64 < 64 /\
      (cp / 4096 = 0 -> 0x20 <= cp / 64 mod 64) /\ (cp / 4096 = 13 -> cp / 64 mod 64 < 0x20))
      as (? & ? & ? & ? & ?) by (split_and!; div64).
    cbn [app utf8_valid]. rewrite ord_chr by lia. rewrite (proj2 (Z.ltb_ge _ _)) by lia.
    destruct (utf8_lead_three (chr (0xE0 + cp / 4096))) as (lo & hi & -> & Hlo & Hhi);
      [rewrite ord_chr; lia|]. rewrite ord_chr in Hlo, Hhi by lia.
    rewrite !in_range_chr; [done|lia|lia|lia|].
    destruct (Z.eqb_spec (0xE0 + cp / 4096) 0xE0), (Z.eqb_spec (0xE0 + cp / 4096) 0xED); lia.
  - assert (0xF0 <= 0xF0 + cp / 262144 <= 0xF4 /\ 0 <= cp / 4096 mod 64 < 64 /\
      0 <= cp / 64 mod 64 < 64 /\ 0 <= cp mod 64 < 64 /\
      (cp / 262144 = 0 -> 0x10 <= cp / 4096 mod 64) /\ (cp / 262144 = 4 -> cp / 4096 mod 64 < 0x10))
      as (? & ? & ? & ? & ? & ?) by (split_and!; div64).
    cbn [app utf8_valid]. rewrite ord_chr by lia. rewrite (proj2 (Z.ltb_ge _ _)) by lia.
    destruct (utf8_lead_four (chr (0xF0 + cp / 262144))) as (lo & hi & -> & Hlo & Hhi);
      [rewrite ord_chr; lia|]. rewrite ord_chr in Hlo, Hhi by lia.
    rewrite !in_range_chr; [done|lia|lia|lia|lia|lia|].
    destruct (Z.eqb_spec (0xF0 + cp / 262144) 0xF0), (Z.eqb_spec (0xF0 + cp / 262144) 0xF4); lia.
Qed.

Definition utf8_text (s : bytes) : Prop :=
  exists cps, Forall scalar cps /\ s = concat (map utf8_encode cps).

Lemma utf8_valid_spec s : utf8_valid s = true <-> utf8_text s.
Proof.
  split.
  - remember (length s) as n eqn:Hn. revert s Hn. induction n as [n IH] using lt_wf_ind.
    intros [|c s] -> Hv; [exists []; by split|].
    destruct (utf8_valid_inv c s Hv) as (cp & s' & Hsc & He & Hv').
    destruct (IH (length s')) with (s := s') as (cps & Hall & ->); [|done|done|].
    + rewrite He, length_app. unfold utf8_encode. repeat case_match; cbn; lia.
    + exists (cp :: cps). split; [by constructor|]. exact He.
  - intros (cps & Hall & ->). induction Hall as [|cp cps Hsc _ IH]; [done|].
    cbn [map concat]. by rewrite utf8_valid_encode.
Qed.

(** The byte validator accepts exactly the strict RFC 3629 texts: the
    concatenations of encodings of Unicode scalar values. *)
Theorem utf8_valid_iff s : utf8_valid s = true <-> utf8_text s.
Proof. apply utf8_valid_spec. Qed.
