(* ===== verification/Bytes.v ===== *)
(** * Little-endian words

    The byte images of fixed-width integers, as the sample dump and the shared
    memory slots lay them out. *)

From Stdlib Require Import ZArith Ascii List Lia.
From stdpp Require Import base tactics list option.
From S2P Require Import Prelude Utf8.

Fixpoint le_bytes (n : nat) (z : Z) : bytes :=
  match n with O => [] | S n' => chr (z mod 256) :: le_bytes n' (z / 256) end.
Fixpoint le_value (bs : bytes) : Z := match bs with [] => 0 | c :: bs' => ord c + 256 * le_value bs' end.

Lemma length_le_bytes n z : length (le_bytes n z) = n.
Proof. revert z. induction n; intros; cbn; [done|]. by rewrite IHn. Qed.

Lemma le_value_bytes n z : le_value (le_bytes n z) = z mod 256 ^ Z.of_nat n.
Proof.
  revert z. induction n as [|n IH]; intros z; [by rewrite Z.mod_1_r|]. cbn [le_bytes le_value].
  rewrite IH, ord_chr by (apply Z.mod_pos_bound; lia).
  rewrite Nat2Z.inj_succ, Z.pow_succ_r by lia. rewrite Z.rem_mul_r by (try apply Z.pow_pos_nonneg; lia). reflexivity.
Qed.

