(* ===== verification/Preflight.v ===== *)
(** * The shared frame preflight ([cpp/src/frame_preflight.cpp])

    The iterative RFC 8259 scanner, the byte and key policies, and the helpers
    both codecs share.  A cursor is the offset [i_] together with the bytes of
    the frame from that offset on; container kinds live in a 64-bit mask as in
    the code.  The loop runs on fuel and returns [None] only when the fuel is
    exhausted, which [PreflightSound] shows cannot happen. *)

From Stdlib Require Import ZArith Ascii String List Lia.
From stdpp Require Import base tactics list option strings.
From S2P Require Import Prelude Types Protocol Utf8.

Record DecodeError := mkDecodeError { de_code : RejectCode; de_detail : string }.
#[export] Instance DecodeError_eq_dec : EqDecision DecodeError.
Proof. solve_decision. Defined.

Definition kMaxNestingDepth : Z := 32.
Definition kMaxTopLevelKeys : nat := 32.
Definition kMaxClIdLen : nat := 64.
Definition kMaxSymbolLen : nat := 32.
Definition kMaxSideLen : nat := 8.
Definition kMaxTagDetailBytes : nat := 32.

(** The root object's fields as spans; the array's used prefix is the list. *)
Definition TopLevelField : Type := bytes * bytes.
Definition FrameScan : Type := list TopLevelField.

Definition find_field (key : bytes) (scan : FrameScan) : bytes :=
  match List.find (fun f => bool_decide (f.1 = key)) scan with Some f => f.2 | None => [] end.

(** ** Characters *)

Definition c_dquote : ascii := chr 34.
Definition c_bslash : ascii := chr 92.

Definition is_dec_digit (c : ascii) : bool := in_range 48 57 c.
Definition is_ws (c : ascii) : bool :=
  (ord c =? 32) || (ord c =? 9) || (ord c =? 10) || (ord c =? 13).
Definition is_raw_control (c : ascii) : bool := ord c <? 0x20.

(** ** Cursors *)

Definition Cursor : Type := nat * bytes.
Definition at_char (cu : Cursor) (c : ascii) : bool :=
  match cu.2 with x :: _ => Ascii.eqb x c | [] => false end.
Definition at_digit (cu : Cursor) : bool :=
  match cu.2 with x :: _ => is_dec_digit x | [] => false end.
Definition next (cu : Cursor) : Cursor := (S cu.1, tail cu.2).
Definition skip_while (p : ascii -> bool) (cu : Cursor) : Cursor :=
  ((cu.1 + length (take_while p cu.2))%nat, drop_while p cu.2).

Definition skip_ws : Cursor -> Cursor := skip_while is_ws.

(** ** [scan_number] *)

Definition scan_frac (cu : Cursor) : bool * Cursor :=
  if at_char cu "." then
    let cu := next cu in
    if at_digit cu then (true, skip_while is_dec_digit cu) else (false, cu)
  else (true, cu).

Definition scan_exp (cu : Cursor) : bool * Cursor :=
  if at_char cu "e" || at_char cu "E" then
    let cu := next cu in
    let cu := if at_char cu "+" || at_char cu "-" then next cu else cu in
    if at_digit cu then (true, skip_while is_dec_digit cu) else (false, cu)
  else (true, cu).

Definition scan_number (cu : Cursor) : bool * Cursor :=
  let cu := if at_char cu "-" then next cu else cu in
  if negb (at_digit cu) then (false, cu)
  else
    let cu := if at_char cu "0" then next cu else skip_while is_dec_digit cu in
    let (ok, cu) := scan_frac cu in
    if ok then scan_exp cu else (false, cu).

(** ** [scan_string] *)

Inductive Tok := TokOk | TokBad | TokRawControl | TokUnpairedSurrogate.

Definition hex_digit (c : ascii) : option Z :=
  if in_range 48 57 c then Some (ord c - 48)
  else if in_range 97 102 c then Some (ord c - 97 + 10)
  else if in_range 65 70 c then Some (ord c - 65 + 10)
  else None.

(** [scan_hex4] on four bytes: the code unit, or the index of the bad digit
    (where [i_] is left). *)
Definition scan_hex4 (a b c d : ascii) : nat + Z :=
  match hex_digit a with
  | None => inl 0%nat
  | Some x0 =>
      match hex_digit b with
      | None => inl 1%nat
      | Some x1 =>
          match hex_digit c with
          | None => inl 2%nat
          | Some x2 =>
              match hex_digit d with
              | None => inl 3%nat
              | Some x3 => inr (Z.lor (Z.shiftl (Z.lor (Z.shiftl (Z.lor (Z.shiftl x0 4) x1) 4) x2) 4) x3)
              end
          end
      end
  end.

Definition is_simple_escape (c : ascii) : bool :=
  existsb (Ascii.eqb c) [c_dquote; c_bslash; "/"%char; "b"%char; "f"%char; "n"%char; "r"%char; "t"%char].

Definition is_low_surrogate (cu : Z) : bool := (0xDC00 <=? cu) && (cu <=? 0xDFFF).
Definition is_high_surrogate (cu : Z) : bool := (0xD800 <=? cu) && (cu <=? 0xDBFF).

(** From the byte after the opening quote; on [TokOk] the cursor is past the
    closing one. *)
Fixpoint scan_string_from (i : nat) (s : bytes) : Tok * Cursor :=
  match s with
  | [] => (TokBad, (i, s))
  | c :: s1 =>
      if Ascii.eqb c c_dquote then (TokOk, (S i, s1))
      else if is_raw_control c then (TokRawControl, (i, s))
      else if negb (Ascii.eqb c c_bslash) then scan_string_from (S i) s1
      else
        match s1 with
        | [] => (TokBad, (S i, s1))
        | e :: s2 =>
            if is_simple_escape e then scan_string_from (S (S i)) s2
            else if Ascii.eqb e "u" then
              match s2 with
              | h0 :: h1 :: h2 :: h3 :: s6 =>
                  match scan_hex4 h0 h1 h2 h3 with
                  | inl k => (TokBad, ((i + 2 + k)%nat, drop k s2))
                  | inr cu =>
                      if is_low_surrogate cu then (TokUnpairedSurrogate, ((i + 6)%nat, s6))
                      else if is_high_surrogate cu then
                        match s6 with
                        | x :: y :: s8 =>
                            if Ascii.eqb x c_bslash && Ascii.eqb y "u" then
                              match s8 with
                              | l0 :: l1 :: l2 :: l3 :: s12 =>
                                  match scan_hex4 l0 l1 l2 l3 with
                                  | inl k => (TokBad, ((i + 8 + k)%nat, drop k s8))
                                  | inr lo =>
                                      if is_low_surrogate lo then scan_string_from (i + 12)%nat s12
                                      else (TokUnpairedSurrogate, ((i + 12)%nat, s12))
                                  end
                              | _ => (TokBad, ((i + 8)%nat, s8))
                              end
                            else (TokUnpairedSurrogate, ((i + 6)%nat, s6))
                        | _ => (TokUnpairedSurrogate, ((i + 6)%nat, s6))
                        end
                      else scan_string_from (i + 6)%nat s6
                  end
              | _ => (TokBad, ((i + 2)%nat, s2))
              end
            else (TokBad, (S i, s1))
        end
  end.

Definition scan_string (cu : Cursor) : Tok * Cursor :=
  let cu := next cu in scan_string_from cu.1 cu.2.

(** ** The state machine *)

Inductive St := Value | ArrValueOrClose | ObjKeyOrClose | ObjKey | ObjColon | AfterValue.

Record FrameScanner := mkScanner {
  f_ : bytes;
  out_ : FrameScan;
  cur_ : Cursor;
  depth_ : Z;
  object_mask_ : Z;
  pending_key_ : bytes;
  have_pending_key_ : bool;
  value_start_ : nat;
  root_is_object_ : bool;
  done_ : bool;
  st_ : St;
}.

Definition i_ (s : FrameScanner) : nat := (cur_ s).1.

Definition set_cur cu s := mkScanner (f_ s) (out_ s) cu (depth_ s) (object_mask_ s) (pending_key_ s)
  (have_pending_key_ s) (value_start_ s) (root_is_object_ s) (done_ s) (st_ s).
Definition set_st x s := mkScanner (f_ s) (out_ s) (cur_ s) (depth_ s) (object_mask_ s) (pending_key_ s)
  (have_pending_key_ s) (value_start_ s) (root_is_object_ s) (done_ s) x.
Definition set_done s := mkScanner (f_ s) (out_ s) (cur_ s) (depth_ s) (object_mask_ s) (pending_key_ s)
  (have_pending_key_ s) (value_start_ s) (root_is_object_ s) true (st_ s).
Definition set_depth d s := mkScanner (f_ s) (out_ s) (cur_ s) d (object_mask_ s) (pending_key_ s)
  (have_pending_key_ s) (value_start_ s) (root_is_object_ s) (done_ s) (st_ s).
Definition set_mask m s := mkScanner (f_ s) (out_ s) (cur_ s) (depth_ s) m (pending_key_ s)
  (have_pending_key_ s) (value_start_ s) (root_is_object_ s) (done_ s) (st_ s).
Definition set_pending k s := mkScanner (f_ s) (out_ s) (cur_ s) (depth_ s) (object_mask_ s) k
  true (value_start_ s) (root_is_object_ s) (done_ s) (st_ s).
Definition set_value_start i s := mkScanner (f_ s) (out_ s) (cur_ s) (depth_ s) (object_mask_ s)
  (pending_key_ s) (have_pending_key_ s) i (root_is_object_ s) (done_ s) (st_ s).
Definition record_field fl s := mkScanner (f_ s) (out_ s ++ [fl]) (cur_ s) (depth_ s) (object_mask_ s)
  (pending_key_ s) false (value_start_ s) (root_is_object_ s) (done_ s) (st_ s).

Definition substr (s : bytes) (pos len : nat) : bytes := take len (drop pos s).

Inductive StepRes := Next (s : FrameScanner) | Fail (e : DecodeError).

Definition reject_at (i : nat) (what : string) : DecodeError :=
  mkDecodeError Malformed (what ++ " (byte " ++ dec_string (Z.of_nat i) ++ ")").
Definition reject (s : FrameScanner) (what : string) : DecodeError := reject_at (i_ s) what.

Definition string_error (s : FrameScanner) (t : Tok) : DecodeError :=
  reject s match t with
           | TokRawControl => "raw control byte inside a string"
           | TokUnpairedSurrogate => "unpaired surrogate escape in a string"
           | _ => "invalid string escape or unterminated string"
           end.

Definition value_done (s : FrameScanner) : StepRes :=
  let finish s := Next (if depth_ s =? 0 then set_done s else set_st AfterValue s) in
  if (depth_ s =? 1) && have_pending_key_ s then
    if (length (out_ s) =? kMaxTopLevelKeys)%nat then Fail (reject s "too many top-level keys")
    else finish (record_field (pending_key_ s,
                   substr (f_ s) (value_start_ s) (i_ s - value_start_ s)) s)
  else finish s.

(** A closing bracket: [++i_; --depth_; value_done()]. *)
Definition close_container (s : FrameScanner) : StepRes :=
  value_done (set_depth (depth_ s - 1) (set_cur (next (cur_ s)) s)).

Definition step_key (c : ascii) (s : FrameScanner) : StepRes :=
  if negb (Ascii.eqb c c_dquote) then Fail (reject s "expected a string key")
  else
    let key_start := S (i_ s) in
    let (t, cu) := scan_string (cur_ s) in
    let s := set_cur cu s in
    match t with
    | TokOk =>
        let s := if (depth_ s =? 1) && root_is_object_ s
                 then set_pending (substr (f_ s) key_start (i_ s - 1 - key_start)) s else s in
        Next (set_st ObjColon s)
    | _ => Fail (string_error s t)
    end.

Definition literal_of (c : ascii) : bytes :=
  if Ascii.eqb c "t" then list_ascii_of_string "true"
  else if Ascii.eqb c "f" then list_ascii_of_string "false"
  else list_ascii_of_string "null".

Definition open_container (c : ascii) (s : FrameScanner) : StepRes :=
  if depth_ s =? kMaxNestingDepth then Fail (reject s "nesting depth exceeds the limit")
  else
    let bit := Z.shiftl 1 (depth_ s) in
    let m := if Ascii.eqb c "{" then Z.lor (object_mask_ s) bit
             else Z.land (object_mask_ s) (u64 (Z.lnot bit)) in
    Next (set_st (if Ascii.eqb c "{" then ObjKeyOrClose else ArrValueOrClose)
           (set_cur (next (cur_ s)) (set_depth (depth_ s + 1) (set_mask m s)))).

Definition step_value (c : ascii) (s : FrameScanner) : StepRes :=
  let s := if (depth_ s =? 1) && root_is_object_ s then set_value_start (i_ s) s else s in
  if Ascii.eqb c "{" || Ascii.eqb c "[" then open_container c s
  else if Ascii.eqb c c_dquote then
    let (t, cu) := scan_string (cur_ s) in
    let s := set_cur cu s in
    match t with TokOk => value_done s | _ => Fail (string_error s t) end
  else if Ascii.eqb c "t" || Ascii.eqb c "f" || Ascii.eqb c "n" then
    let lit := literal_of c in
    if bool_decide (take (length lit) (cur_ s).2 = lit)
    then value_done (set_cur ((i_ s + length lit)%nat, drop (length lit) (cur_ s).2) s)
    else Fail (reject s "invalid literal")
  else if negb (Ascii.eqb c "-") && negb (is_dec_digit c) then
    Fail (reject s "invalid number token")
  else
    let (ok, cu) := scan_number (cur_ s) in
    let s := set_cur cu s in
    if ok then value_done s else Fail (reject s "invalid number token").

Definition step_after (c : ascii) (s : FrameScanner) : StepRes :=
  let in_object := Z.testbit (object_mask_ s) (depth_ s - 1) in
  if Ascii.eqb c "," then
    Next (set_st (if in_object then ObjKey else Value) (set_cur (next (cur_ s)) s))
  else if Ascii.eqb c (if in_object then "}" else "]") then close_container s
  else Fail (reject s "expected ',' or a matching close bracket").

(** The [switch] of one iteration, at the first byte past the whitespace. *)
Definition dispatch (c : ascii) (s : FrameScanner) : StepRes :=
  match st_ s with
  | ObjKeyOrClose => if Ascii.eqb c "}" then close_container s else step_key c s
  | ObjKey => step_key c s
  | ObjColon =>
      if Ascii.eqb c ":" then Next (set_st Value (set_cur (next (cur_ s)) s))
      else Fail (reject s "expected ':'")
  | ArrValueOrClose => if Ascii.eqb c "]" then close_container s else step_value c s
  | Value => step_value c s
  | AfterValue => step_after c s
  end.

(** One iteration of [while (!done_)]. *)
Definition step (s : FrameScanner) : StepRes :=
  let s := set_cur (skip_ws (cur_ s)) s in
  match (cur_ s).2 with
  | [] => Fail (reject s "truncated frame")
  | c :: _ =>
      if is_raw_control c then Fail (reject s "raw control byte outside a string")
      else dispatch c s
  end.

Fixpoint loop (fuel : nat) (s : FrameScanner) : option StepRes :=
  if done_ s then Some (Next s)
  else
    match fuel with
    | O => None
    | S fuel' => match step s with Next s' => loop fuel' s' | Fail e => Some (Fail e) end
    end.

Definition initial (frame : bytes) (root : bool) (cu : Cursor) : FrameScanner :=
  mkScanner frame [] cu 0 0 [] false 0 root false Value.

(** What follows the top-level value. *)
Definition finish (s : FrameScanner) : DecodeError + FrameScan :=
  let s := set_cur (skip_ws (cur_ s)) s in
  match (cur_ s).2 with
  | c :: _ => inl (reject s (if is_raw_control c then "raw control byte outside a string"
                             else "trailing content after the frame"))
  | [] => if root_is_object_ s then inr (out_ s) else inl (reject s "root is not an object")
  end.

Definition scan_frame (frame : bytes) : option (DecodeError + FrameScan) :=
  let cu := skip_ws (0%nat, frame) in
  match cu.2 with
  | [] => Some (inl (reject_at cu.1 "empty frame"))
  | c :: _ =>
      match loop (S (length frame)) (initial frame (Ascii.eqb c "{") cu) with
      | Some (Next s) => Some (finish s)
      | Some (Fail e) => Some (inl e)
      | None => None
      end
  end.

(** ** [frame_preflight] *)

Definition bom : bytes := [chr 0xEF; chr 0xBB; chr 0xBF].

Definition has_escape (f : TopLevelField) : bool := existsb (Ascii.eqb c_bslash) f.1.

(** Each key against the keys recorded before it. *)
Fixpoint has_duplicate (seen : list bytes) (l : FrameScan) : bool :=
  match l with
  | [] => false
  | f :: l' => existsb (fun k => bool_decide (f.1 = k)) seen || has_duplicate (seen ++ [f.1]) l'
  end.

Definition frame_preflight (frame : bytes) : option (DecodeError + FrameScan) :=
  if bool_decide (take 3 frame = bom) then Some (inl (mkDecodeError Malformed "UTF-8 BOM"))
  else if negb (utf8_valid frame) then Some (inl (mkDecodeError Malformed "invalid UTF-8"))
  else
    match scan_frame frame with
    | None => None
    | Some (inl e) => Some (inl e)
    | Some (inr scan) =>
        if existsb has_escape scan then
          Some (inl (mkDecodeError Malformed "escape sequence in a top-level key"))
        else if has_duplicate [] scan then
          Some (inl (mkDecodeError Malformed "duplicate top-level key"))
        else Some (inr scan)
    end.

(** ** Shared helpers *)

Definition is_unsigned_integer_token (raw : bytes) : bool :=
  negb (bool_decide (raw = [])) && forallb is_dec_digit raw.

Definition is_integer_token (raw : bytes) : bool :=
  is_unsigned_integer_token
    match raw with x :: raw' => if Ascii.eqb x "-" then raw' else raw | [] => raw end.

Definition is_control_byte (c : ascii) : bool := (ord c <? 0x20) || (ord c =? 0x7F).
Definition is_continuation (c : ascii) : bool := Z.land (ord c) 0xC0 =? 0x80.

(** [while (take > 0 && take < tag.size() && continuation(tag[take])) --take] *)
Fixpoint back_up (tag : bytes) (n : nat) : nat :=
  match n with
  | O => O
  | S n' => match tag !! n with
            | Some c => if is_continuation c then back_up tag n' else n
            | None => n
            end
  end.

Definition ellipsis : bytes := [chr 0xE2; chr 0x80; chr 0xA6].

Definition sanitized_tag (tag : bytes) : bytes :=
  let n := back_up tag (if (length tag <=? kMaxTagDetailBytes)%nat then length tag
                        else kMaxTagDetailBytes) in
  map (fun c => if is_control_byte c then "?"%char else c) (take n tag) ++
  (if (n <? length tag)%nat then ellipsis else []).

Definition check_identifier (value name : string) (cap : nat) : option DecodeError :=
  if (cap <? length (list_ascii_of_string value))%nat then
    Some (mkDecodeError Malformed (name ++ " exceeds the length cap"))
  else if existsb is_control_byte (list_ascii_of_string value) then
    Some (mkDecodeError Malformed ("control byte in " ++ name))
  else None.

Definition check_inbound_strings (m : InMsg) : option DecodeError :=
  match m with
  | InNew o =>
      match check_identifier (no_cl_id o) "cl_id" kMaxClIdLen with
      | Some e => Some e
      | None =>
          match check_identifier (no_symbol o) "symbol" kMaxSymbolLen with
          | Some e => Some e
          | None => check_identifier (no_side o) "side" kMaxSideLen
          end
      end
  | InCancel c => check_identifier (co_cl_id c) "cl_id" kMaxClIdLen
  end.

Example preflight_new_order :
  frame_preflight (list_ascii_of_string " { } ") = Some (inr []).
Proof. vm_compute. reflexivity. Qed.
Example preflight_nested :
  frame_preflight (list_ascii_of_string "[1,[]x")
  = Some (inl (mkDecodeError Malformed "expected ',' or a matching close bracket (byte 5)")).
Proof. vm_compute. reflexivity. Qed.
