(* ===== verification/JsonGrammar.v ===== *)
(** * The RFC 8259 grammar, and the token scanners against it

    A declarative grammar of JSON texts over bytes (nesting depth as an index,
    an object with the list of its key and value texts), and the proofs that
    [scan_string] and [scan_number] recognise exactly its tokens. *)

From Stdlib Require Import ZArith Ascii String List Lia.
From stdpp Require Import base tactics list option strings.
From S2P Require Import Prelude Types Protocol Utf8 Preflight.

Definition ws (s : bytes) : Prop := Forall (fun c => is_ws c = true) s.

(** ** Strings: what may stand between the quotes *)

Definition hex4 (a b c d : ascii) (cu : Z) : Prop :=
  exists x y z t, hex_digit a = Some x /\ hex_digit b = Some y /\ hex_digit c = Some z /\
    hex_digit d = Some t /\ cu = x * 4096 + y * 256 + z * 16 + t.

Definition high_surrogate (cu : Z) : Prop := 0xD800 <= cu <= 0xDBFF.
Definition low_surrogate (cu : Z) : Prop := 0xDC00 <= cu <= 0xDFFF.

Inductive str_body : bytes -> Prop :=
| SB_nil : str_body []
| SB_char c s : 0x20 <= ord c -> c <> c_dquote -> c <> c_bslash -> str_body s -> str_body (c :: s)
| SB_escape e s : is_simple_escape e = true -> str_body s -> str_body (c_bslash :: e :: s)
| SB_unicode a b c d cu s :
    hex4 a b c d cu -> ~ high_surrogate cu -> ~ low_surrogate cu -> str_body s ->
    str_body (c_bslash :: "u"%char :: a :: b :: c :: d :: s)
| SB_pair a b c d hi a' b' c' d' lo s :
    hex4 a b c d hi -> high_surrogate hi -> hex4 a' b' c' d' lo -> low_surrogate lo -> str_body s ->
    str_body (c_bslash :: "u"%char :: a :: b :: c :: d ::
              c_bslash :: "u"%char :: a' :: b' :: c' :: d' :: s).

Definition quoted (k : bytes) : bytes := c_dquote :: k ++ [c_dquote].

(** ** Numbers, lexically *)

Definition digits (s : bytes) : Prop := Forall (fun c => is_dec_digit c = true) s.
Definition digits1 (s : bytes) : Prop := s <> [] /\ digits s.
Definition int_part (s : bytes) : Prop :=
  s = ["0"%char] \/ (exists c s', s = c :: s' /\ c <> "0"%char /\ digits s).
Definition frac_part (s : bytes) : Prop := s = [] \/ exists d, s = "."%char :: d /\ digits1 d.
Definition exp_part (s : bytes) : Prop :=
  s = [] \/ exists e sg d, s = e :: sg ++ d /\ (e = "e"%char \/ e = "E"%char) /\
    (sg = [] \/ sg = ["+"%char] \/ sg = ["-"%char]) /\ digits1 d.
Definition number (s : bytes) : Prop :=
  exists m i f x, s = m ++ i ++ f ++ x /\ (m = [] \/ m = ["-"%char]) /\
    int_part i /\ frac_part f /\ exp_part x.

Definition literal (s : bytes) : Prop :=
  s = list_ascii_of_string "true" \/ s = list_ascii_of_string "false" \/
  s = list_ascii_of_string "null".

(** ** Values, at most [n] levels of nesting *)

Inductive json : nat -> bytes -> Prop :=
| J_string n k : str_body k -> json n (quoted k)
| J_literal n s : literal s -> json n s
| J_number n s : number s -> json n s
| J_object n l kvs : obj_body n l kvs -> json (S n) ("{"%char :: l ++ ["}"%char])
| J_array n l : arr_body n l -> json (S n) ("["%char :: l ++ ["]"%char])
(** Between the braces: whitespace, or members. *)
with obj_body : nat -> bytes -> FrameScan -> Prop :=
| OB_empty n w : ws w -> obj_body n w []
| OB_members n l kvs : members n l kvs -> obj_body n l kvs
with members : nat -> bytes -> FrameScan -> Prop :=
| M_intro n pre kvs w1 k w2 w3 v w4 :
    member_pre n pre kvs -> ws w1 -> str_body k -> ws w2 -> ws w3 -> json n v -> ws w4 ->
    members n (pre ++ w1 ++ quoted k ++ w2 ++ ":"%char :: w3 ++ v ++ w4) (kvs ++ [(k, v)])
(** What precedes a key: nothing, or members and a comma. *)
with member_pre : nat -> bytes -> FrameScan -> Prop :=
| MP_first n : member_pre n [] []
| MP_next n l kvs : members n l kvs -> member_pre n (l ++ [","%char]) kvs
with arr_body : nat -> bytes -> Prop :=
| AB_empty n w : ws w -> arr_body n w
| AB_elements n l : elements n l -> arr_body n l
with elements : nat -> bytes -> Prop :=
| E_intro n pre w1 v w2 :
    element_pre n pre -> ws w1 -> json n v -> ws w2 -> elements n (pre ++ w1 ++ v ++ w2)
with element_pre : nat -> bytes -> Prop :=
| EP_first n : element_pre n []
| EP_next n l : elements n l -> element_pre n (l ++ [","%char]).

(** A JSON text whose root is an object with these top-level fields, nested at
    most [S n] deep. *)
Definition object_text (n : nat) (frame : bytes) (kvs : FrameScan) : Prop :=
  exists w1 body w2, frame = w1 ++ "{"%char :: body ++ "}"%char :: w2 /\
    ws w1 /\ ws w2 /\ obj_body n body kvs.

(** Right-associated appends. *)
Ltac app_norm :=
  repeat first [rewrite <- app_assoc | rewrite <- app_comm_cons | rewrite app_nil_r | rewrite app_nil_l];
  try reflexivity.

Lemma ws_app a b : ws (a ++ b) <-> ws a /\ ws b.
Proof. apply Forall_app. Qed.
Lemma ws_nil : ws [].
Proof. constructor. Qed.
#[export] Hint Resolve ws_nil : mm.

Lemma obj_body_ws n l kvs w : obj_body n l kvs -> ws w -> obj_body n (l ++ w) kvs.
Proof.
  intros Hl Hw. inversion Hl as [? ? Hw0|? ? ? Hm]; subst.
  - constructor. by apply ws_app.
  - apply OB_members. inversion Hm; subst.
    replace ((pre ++ w1 ++ quoted k ++ w2 ++ ":"%char :: w3 ++ v ++ w4) ++ w)
      with (pre ++ w1 ++ quoted k ++ w2 ++ ":"%char :: w3 ++ v ++ (w4 ++ w))
      by app_norm.
    constructor; try done. by apply ws_app.
Qed.

(** ** [scan_string] *)

Lemma hex_digit_range c x : hex_digit c = Some x -> 0 <= x < 16.
Proof.
  unfold hex_digit.
  destruct (in_range_cases 48 57 c) as [[-> ?]|[-> ?]]; [intros; simplify_eq; lia|].
  destruct (in_range_cases 97 102 c) as [[-> ?]|[-> ?]]; [intros; simplify_eq; lia|].
  destruct (in_range_cases 65 70 c) as [[-> ?]|[-> ?]]; [intros; simplify_eq; lia|done].
Qed.

Lemma lor_shift4 x y : 0 <= x -> 0 <= y < 16 -> Z.lor (Z.shiftl x 4) y = x * 16 + y.
Proof.
  intros Hx Hy. assert (Z.land (Z.shiftl x 4) y = 0) as Hl.
  { apply Z.bits_inj'. intros i Hi. rewrite Z.land_spec, Z.bits_0.
    destruct (Z.ltb_spec i 4).
    - by rewrite Z.shiftl_spec_low.
    - rewrite (Z.bits_above_log2 y i), andb_false_r; [done|lia|].
      destruct (decide (y = 0)) as [->|]; [cbn; lia|]. apply Z.log2_lt_pow2; [lia|].
      pose proof (Z.pow_le_mono_r 2 4 i ltac:(lia) ltac:(lia)). lia. }
  pose proof (Z.add_lor_land (Z.shiftl x 4) y) as E. rewrite Hl, Z.add_0_r in E. rewrite E.
  rewrite Z.shiftl_mul_pow2 by lia. reflexivity.
Qed.

Lemma scan_hex4_spec a b c d cu : scan_hex4 a b c d = inr cu <-> hex4 a b c d cu.
Proof.
  unfold scan_hex4, hex4.
  destruct (hex_digit a) as [x|] eqn:Ea; [|naive_solver].
  destruct (hex_digit b) as [y|] eqn:Eb; [|naive_solver].
  destruct (hex_digit c) as [z|] eqn:Ec; [|naive_solver].
  destruct (hex_digit d) as [t|] eqn:Ed; [|naive_solver].
  apply hex_digit_range in Ea, Eb, Ec, Ed.
  rewrite (lor_shift4 x y), (lor_shift4 _ z), (lor_shift4 _ t) by lia.
  assert (((x * 16 + y) * 16 + z) * 16 + t = x * 4096 + y * 256 + z * 16 + t) as -> by lia.
  naive_solver.
Qed.

Lemma is_high_iff cu : is_high_surrogate cu = true <-> high_surrogate cu.
Proof. unfold is_high_surrogate, high_surrogate. rewrite andb_true_iff, !Z.leb_le. lia. Qed.
Lemma is_low_iff cu : is_low_surrogate cu = true <-> low_surrogate cu.
Proof. unfold is_low_surrogate, low_surrogate. rewrite andb_true_iff, !Z.leb_le. lia. Qed.
Lemma is_high_false cu : is_high_surrogate cu = false <-> ~ high_surrogate cu.
Proof. rewrite <- is_high_iff. destruct (is_high_surrogate cu); naive_solver. Qed.
Lemma is_low_false cu : is_low_surrogate cu = false <-> ~ low_surrogate cu.
Proof. rewrite <- is_low_iff. destruct (is_low_surrogate cu); naive_solver. Qed.

Definition string_end (i : nat) (s : bytes) (cu : Cursor) : Prop :=
  exists k rest, s = k ++ c_dquote :: rest /\ str_body k /\ cu = ((i + length k + 1)%nat, rest).

(** A recognised prefix in front of a recognised string end. *)
Lemma string_end_app p n i s cu :
  length p = n -> (forall k, str_body k -> str_body (p ++ k)) ->
  string_end (i + n) s cu -> string_end i (p ++ s) cu.
Proof.
  intros <- Hp (k & rest & -> & Hk & ->). exists (p ++ k), rest. split_and!.
  - by rewrite <- app_assoc.
  - by apply Hp.
  - f_equal. rewrite length_app. lia.
Qed.

Lemma scan_string_sound s i cu : scan_string_from i s = (TokOk, cu) -> string_end i s cu.
Proof.
  remember (length s) as n eqn:Hn. revert s i Hn.
  induction n as [n IH] using lt_wf_ind. intros s i ->.
  assert (forall p s' i' n', s = p ++ s' -> length p = S n' -> i' = (i + S n')%nat ->
    (forall k, str_body k -> str_body (p ++ k)) ->
    scan_string_from i' s' = (TokOk, cu) -> string_end i s cu) as Hrec.
  { intros p s' i' n' -> Hp -> Hb Hs. apply (string_end_app p (S n')); [done|done|].
    eapply IH; [|reflexivity|exact Hs]. rewrite length_app. lia. }
  destruct s as [|c s1]; [done|]. cbn [scan_string_from].
  destruct (Ascii.eqb_spec c c_dquote) as [->|Hq].
  { intros [= <-]. exists [], s1. split_and!; [done|constructor|f_equal; cbn; lia]. }
  destruct (is_raw_control c) eqn:Ec; [done|]. unfold is_raw_control in Ec. zbool.
  destruct (Ascii.eqb_spec c c_bslash) as [->|Hb]; cbn [negb].
  2: { apply (Hrec [c] s1 (S i) 0%nat); [done..|lia|]. intros k Hk. by constructor. }
  destruct s1 as [|e s2]; [done|].
  destruct (is_simple_escape e) eqn:Ee.
  { apply (Hrec [c_bslash; e] s2 (S (S i)) 1%nat); [done..|lia|]. intros k Hk. by constructor. }
  destruct (Ascii.eqb_spec e "u") as [->|]; [|done].
  destruct s2 as [|h0 [|h1 [|h2 [|h3 s6]]]]; try done.
  destruct (scan_hex4 h0 h1 h2 h3) as [|cu0] eqn:Eh; [done|]. apply scan_hex4_spec in Eh.
  destruct (is_low_surrogate cu0) eqn:El; [done|]. apply is_low_false in El.
  destruct (is_high_surrogate cu0) eqn:Ehi.
  2: { apply is_high_false in Ehi. apply (Hrec [c_bslash; "u"%char; h0; h1; h2; h3] s6 _ 5%nat); [done..|].
    intros k Hk. by eapply SB_unicode. }
  apply is_high_iff in Ehi. destruct s6 as [|x [|y s8]]; try done.
  destruct (Ascii.eqb_spec x c_bslash) as [->|]; [|done].
  destruct (Ascii.eqb_spec y "u") as [->|]; [|done]. cbn [andb].
  destruct s8 as [|l0 [|l1 [|l2 [|l3 s12]]]]; try done.
  destruct (scan_hex4 l0 l1 l2 l3) as [|lo] eqn:Eh'; [done|]. apply scan_hex4_spec in Eh'.
  destruct (is_low_surrogate lo) eqn:El'; [|done]. apply is_low_iff in El'.
  apply (Hrec [c_bslash; "u"%char; h0; h1; h2; h3; c_bslash; "u"%char; l0; l1; l2; l3] s12 _ 11%nat);
    [done..|]. intros k Hk. by eapply SB_pair.
Qed.

Lemma simple_escape_not_u e : is_simple_escape e = true -> Ascii.eqb e "u" = false.
Proof.
  intros He. destruct (Ascii.eqb_spec e "u") as [->|]; [|done]. by vm_compute in He.
Qed.

Lemma scan_string_complete k rest i :
  str_body k -> scan_string_from i (k ++ c_dquote :: rest) = (TokOk, ((i + length k + 1)%nat, rest)).
Proof.
  intros Hk. revert i. induction Hk as [|c s Hc Hq Hb _ IH|e s He _ IH|a b c d cu s H4 Hh Hl _ IH|
    a b c d hi a' b' c' d' lo s H4 Hh H4' Hl _ IH]; intros i; cbn [app scan_string_from].
  - by rewrite Ascii.eqb_refl, Nat.add_0_r, Nat.add_1_r.
  - rewrite (proj2 (Ascii.eqb_neq _ _) Hq), (proj2 (Ascii.eqb_neq _ _) Hb).
    unfold is_raw_control. rewrite (proj2 (Z.ltb_ge _ _) Hc). cbn [negb].
    rewrite IH. cbn [length]. do 2 f_equal. lia.
  - change (Ascii.eqb c_bslash c_dquote) with false. change (is_raw_control c_bslash) with false.
    rewrite Ascii.eqb_refl, He. cbn [negb]. rewrite IH. cbn [length]. do 2 f_equal. lia.
  - change (Ascii.eqb c_bslash c_dquote) with false. change (is_raw_control c_bslash) with false.
    change (is_simple_escape "u") with false. rewrite !Ascii.eqb_refl. cbn [negb].
    rewrite (proj2 (scan_hex4_spec _ _ _ _ _) H4).
    rewrite (proj2 (is_low_false _) Hl), (proj2 (is_high_false _) Hh), IH.
    cbn [length]. do 2 f_equal. lia.
  - change (Ascii.eqb c_bslash c_dquote) with false. change (is_raw_control c_bslash) with false.
    change (is_simple_escape "u") with false. rewrite !Ascii.eqb_refl. cbn [negb andb].
    rewrite (proj2 (scan_hex4_spec _ _ _ _ _) H4), (proj2 (scan_hex4_spec _ _ _ _ _) H4').
    assert (is_low_surrogate hi = false) as ->.
    { apply is_low_false. unfold low_surrogate, high_surrogate in *. lia. }
    rewrite (proj2 (is_high_iff _) Hh), (proj2 (is_low_iff _) Hl), IH.
    cbn [length]. do 2 f_equal. lia.
Qed.

(** ** Cursor movements *)

(** [cu'] is [cu] advanced over the bytes [t]. *)
Definition moved (cu : Cursor) (t : bytes) (cu' : Cursor) : Prop :=
  cu.2 = t ++ cu'.2 /\ cu'.1 = (cu.1 + length t)%nat.

Lemma moved_nil cu : moved cu [] cu.
Proof. split; cbn; [done|lia]. Qed.
Lemma moved_trans cu1 t1 cu2 t2 cu3 : moved cu1 t1 cu2 -> moved cu2 t2 cu3 -> moved cu1 (t1 ++ t2) cu3.
Proof. intros [E1 L1] [E2 L2]. split; [by rewrite E1, E2, app_assoc|rewrite L2, L1, length_app; lia]. Qed.
Lemma moved_next cu c : at_char cu c = true -> moved cu [c] (next cu).
Proof.
  destruct cu as [i [|x s]]; cbn; [done|]. intros ->%Ascii.eqb_eq. split; cbn; [done|lia].
Qed.
Lemma moved_eq cu t cu1 cu2 : moved cu t cu1 -> moved cu t cu2 -> cu1 = cu2.
Proof.
  destruct cu1 as [i1 s1], cu2 as [i2 s2]. intros [E1 L1] [E2 L2]. cbn in *.
  rewrite E1 in E2. apply app_inv_head in E2. congruence.
Qed.
#[export] Hint Resolve moved_nil moved_next : mm.

Lemma skip_while_moved p cu : moved cu (take_while p cu.2) (skip_while p cu).
Proof. split; cbn; [by rewrite take_drop_while|done]. Qed.

Lemma skip_while_head p cu : match (skip_while p cu).2 with c :: _ => p c = false | [] => True end.
Proof.
  destruct cu as [i s]. cbn. induction s as [|c s IH]; cbn; [done|]. by destruct (p c) eqn:E.
Qed.

(** The walk over a known prefix stops where the prefix does. *)
Lemma skip_while_exact p cu t cu' :
  moved cu t cu' -> Forall (fun c => p c = true) t ->
  match cu'.2 with c :: _ => p c = false | [] => True end -> skip_while p cu = cu'.
Proof.
  intros Hm Ht Hh. enough (take_while p cu.2 = t) as E.
  { pose proof (skip_while_moved p cu) as Hs. rewrite E in Hs. by eapply moved_eq. }
  destruct Hm as [-> _]. clear - Ht Hh.
  induction Ht as [|c t Hc _ IH]; cbn; [|by rewrite Hc, IH].
  destruct cu' as [i [|c s]]; cbn in *; [done|]. by rewrite Hh.
Qed.

Lemma at_digit_spec cu : at_digit cu = true <-> exists c s, cu.2 = c :: s /\ is_dec_digit c = true.
Proof. destruct cu as [i [|c s]]; cbn; naive_solver. Qed.

Lemma digits_walk cu :
  at_digit cu = true -> exists d, moved cu d (skip_while is_dec_digit cu) /\ digits1 d.
Proof.
  intros Hd. exists (take_while is_dec_digit cu.2). split; [apply skip_while_moved|].
  split; [|apply take_while_all]. apply at_digit_spec in Hd as (c & s & -> & Hc). cbn. by rewrite Hc.
Qed.

(** ** [scan_number] *)

Lemma scan_frac_sound cu cu' : scan_frac cu = (true, cu') -> exists t, moved cu t cu' /\ frac_part t.
Proof.
  unfold scan_frac. destruct (at_char cu ".") eqn:E.
  - destruct (at_digit (next cu)) eqn:Ed; [|done]. intros [= <-].
    destruct (digits_walk _ Ed) as (d & Hm & Hd). exists ("."%char :: d). split.
    + apply (moved_trans _ ["."%char] (next cu)); [by apply moved_next|done].
    + right. eauto.
  - intros [= <-]. exists []. split; [apply moved_nil|by left].
Qed.

Lemma scan_exp_sound cu cu' : scan_exp cu = (true, cu') -> exists t, moved cu t cu' /\ exp_part t.
Proof.
  unfold scan_exp. destruct (at_char cu "e" || at_char cu "E") eqn:E.
  2: { intros [= <-]. exists []. split; [apply moved_nil|by left]. }
  set (cu1 := next cu).
  set (cu2 := if at_char cu1 "+" || at_char cu1 "-" then next cu1 else cu1).
  assert (exists e, moved cu [e] cu1 /\ (e = "e"%char \/ e = "E"%char)) as (e & Hm1 & He).
  { apply orb_true_iff in E as [E|E]; eauto with mm. }
  assert (exists sg, moved cu1 sg cu2 /\ (sg = [] \/ sg = ["+"%char] \/ sg = ["-"%char])) as (sg & Hm2 & Hsg).
  { unfold cu2. destruct (at_char cu1 "+") eqn:E1; [|destruct (at_char cu1 "-") eqn:E2]; cbn [orb];
      eauto 6 with mm. }
  destruct (at_digit cu2) eqn:Ed; [|done]. intros [= <-].
  destruct (digits_walk _ Ed) as (d & Hm3 & Hd). exists (e :: sg ++ d). split.
  - apply (moved_trans _ [e] cu1); [done|]. by apply (moved_trans _ sg cu2).
  - right. eauto 8.
Qed.

Lemma scan_number_sound cu cu' : scan_number cu = (true, cu') -> exists t, moved cu t cu' /\ number t.
Proof.
  unfold scan_number. set (cu1 := if at_char cu "-" then next cu else cu).
  assert (exists m, moved cu m cu1 /\ (m = [] \/ m = ["-"%char])) as (m & Hm1 & Hm).
  { unfold cu1. destruct (at_char cu "-") eqn:E; eauto with mm. }
  destruct (at_digit cu1) eqn:Ed; cbn [negb]; [|done].
  set (cu2 := if at_char cu1 "0" then next cu1 else skip_while is_dec_digit cu1).
  assert (exists i, moved cu1 i cu2 /\ int_part i) as (i & Hm2 & Hi).
  { unfold cu2. destruct (at_char cu1 "0") eqn:E.
    - exists ["0"%char]. split; [by apply moved_next|by left].
    - exists (take_while is_dec_digit cu1.2). split; [apply skip_while_moved|]. right.
      pose proof (take_while_all is_dec_digit cu1.2) as Hall.
      apply at_digit_spec in Ed as (c & s & Hs & Hc). unfold at_char in E. rewrite Hs in E, Hall |- *.
      cbn in Hall |- *. rewrite Hc in Hall |- *. apply Ascii.eqb_neq in E. eauto. }
  destruct (scan_frac cu2) as [[|] cu3] eqn:Ef; [|done].
  destruct (scan_frac_sound _ _ Ef) as (f & Hm3 & Hf). intros Ex.
  destruct (scan_exp_sound _ _ Ex) as (x & Hm4 & Hx). exists (m ++ i ++ f ++ x). split.
  - eauto using moved_trans.
  - exists m, i, f, x. by split_and!.
Qed.

(** What may not follow a number for the greedy scan to stop at its end. *)
Definition delimited (s : bytes) : Prop :=
  match s with
  | [] => True
  | c :: _ => is_dec_digit c = false /\ c <> "."%char /\ c <> "e"%char /\ c <> "E"%char
  end.

Lemma at_char_head cu c t cu' : moved cu (c :: t) cu' -> at_char cu c = true.
Proof. intros [E _]. unfold at_char. rewrite E. cbn. apply Ascii.eqb_refl. Qed.

Lemma next_moved cu c t cu' : moved cu (c :: t) cu' -> moved (next cu) t cu'.
Proof.
  destruct cu as [i s]. intros [E L]. cbn in *. subst s. split; cbn; [done|lia].
Qed.

Lemma digits_exact cu d cu' :
  digits1 d -> moved cu d cu' -> match cu'.2 with c :: _ => is_dec_digit c = false | [] => True end ->
  at_digit cu = true /\ skip_while is_dec_digit cu = cu'.
Proof.
  intros [Hne Hd] Hm Hh. split; [|by eapply skip_while_exact].
  destruct d as [|c d]; [done|]. destruct Hm as [E _]. apply at_digit_spec.
  exists c, (d ++ cu'.2). split; [done|]. by apply Forall_cons in Hd as [? _].
Qed.

Lemma digit_ord c : is_dec_digit c = true -> 48 <= ord c <= 57.
Proof. by rewrite <- in_range_iff. Qed.

Lemma digit_neq c x : is_dec_digit c = true -> is_dec_digit x = false -> Ascii.eqb c x = false.
Proof. intros Hc Hx. apply Ascii.eqb_neq. intros ->. congruence. Qed.

Lemma scan_exp_complete cu x cu' :
  exp_part x -> moved cu x cu' -> delimited cu'.2 -> scan_exp cu = (true, cu').
Proof.
  intros [->|(e & sg & d & -> & He & Hsg & Hd)] Hm Hdel; unfold scan_exp.
  - assert (cu = cu') as -> by (eapply moved_eq; [apply moved_nil|done]).
    destruct cu' as [i [|c s]]; cbn in *; [done|]. destruct Hdel as (_ & _ & H1 & H2).
    by rewrite (proj2 (Ascii.eqb_neq _ _) H1), (proj2 (Ascii.eqb_neq _ _) H2).
  - assert (at_char cu "e" || at_char cu "E" = true) as ->.
    { apply orb_true_iff. destruct He as [-> | ->]; eauto using at_char_head. }
    apply next_moved in Hm. set (cu1 := next cu) in *.
    assert (exists cu2, moved cu1 sg cu2 /\ moved cu2 d cu' /\
      (if at_char cu1 "+" || at_char cu1 "-" then next cu1 else cu1) = cu2) as (cu2 & _ & Hm2 & ->).
    { destruct Hsg as [-> |[-> | ->]].
      - exists cu1. split_and!; [apply moved_nil|done|]. destruct Hd as [Hne Hd], d as [|c d]; [done|].
        apply Forall_cons in Hd as [Hc _]. destruct Hm as [E _]. unfold at_char. rewrite E. cbn.
        by rewrite !digit_neq.
      - exists (next cu1). pose proof (at_char_head _ _ _ _ Hm) as Ha. rewrite Ha.
        split_and!; [by apply moved_next|by eapply next_moved|done].
      - exists (next cu1). pose proof (at_char_head _ _ _ _ Hm) as Ha. rewrite Ha, orb_true_r.
        split_and!; [by apply moved_next|by eapply next_moved|done]. }
    destruct (digits_exact cu2 d cu' Hd Hm2) as [-> ->]; [|done].
    destruct (cu'.2); [done|]. by destruct Hdel.
Qed.

Lemma exp_part_head x : exp_part x -> match x with c :: _ => c = "e"%char \/ c = "E"%char | [] => True end.
Proof. intros [->|(e & sg & d & -> & He & _)]; done. Qed.

Lemma scan_frac_complete cu f x cu1 cu' :
  frac_part f -> exp_part x -> moved cu f cu1 -> moved cu1 x cu' -> delimited cu'.2 ->
  scan_frac cu = (true, cu1).
Proof.
  intros Hf Hx Hm Hm' Hdel.
  assert (match cu1.2 with c :: _ => is_dec_digit c = false /\ c <> "."%char | [] => True end) as Hh.
  { destruct Hm' as [E _]. rewrite E. apply exp_part_head in Hx. destruct x as [|c x]; cbn.
    - destruct (cu'.2); [done|]. by destruct Hdel as (? & ? & _).
    - by destruct Hx as [-> | ->]. }
  destruct Hf as [->|(d & -> & Hd)]; unfold scan_frac.
  - assert (cu = cu1) as -> by (eapply moved_eq; [apply moved_nil|done]).
    destruct cu1 as [i [|c s]]; cbn in *; [done|]. destruct Hh as [_ H].
    by rewrite (proj2 (Ascii.eqb_neq _ _) H).
  - rewrite (at_char_head _ _ _ _ Hm). apply next_moved in Hm.
    destruct (digits_exact _ d cu1 Hd Hm) as [-> ->]; [|done]. destruct (cu1.2); [done|]. by destruct Hh.
Qed.

Lemma frac_part_head f : frac_part f -> match f with c :: _ => c = "."%char | [] => True end.
Proof. by intros [->|(d & -> & _)]. Qed.

Lemma moved_split cu t1 t2 cu' : moved cu (t1 ++ t2) cu' -> exists cu1, moved cu t1 cu1 /\ moved cu1 t2 cu'.
Proof.
  intros [E L]. exists ((cu.1 + length t1)%nat, t2 ++ cu'.2). unfold moved. cbn.
  rewrite E, <- app_assoc. rewrite length_app in L. split_and!; [done|done|done|lia].
Qed.

Lemma scan_int_complete cu t r cu1 cu' :
  int_part t -> moved cu t cu1 -> moved cu1 r cu' ->
  match r ++ cu'.2 with c :: _ => is_dec_digit c = false \/ t = ["0"%char] | [] => True end ->
  at_digit cu = true /\ (if at_char cu "0" then next cu else skip_while is_dec_digit cu) = cu1.
Proof.
  intros Hi Hm [E _] Hh. rewrite <- E in Hh. destruct Hi as [->|(c & s' & -> & Hc & Hd)].
  - rewrite (at_char_head _ _ _ _ Hm). split.
    + apply at_digit_spec. destruct Hm as [-> _]. eauto.
    + eapply moved_eq; [|exact Hm]. by eapply moved_next, at_char_head.
  - assert (at_char cu "0" = false) as ->.
    { unfold at_char. destruct Hm as [-> _]. cbn. by apply Ascii.eqb_neq. }
    eapply digits_exact; [|exact Hm|]; [done|]. destruct (cu1.2); [done|].
    destruct Hh as [?|?]; [done|]. simplify_eq.
Qed.

Lemma scan_number_complete cu t cu' :
  number t -> moved cu t cu' -> delimited cu'.2 -> scan_number cu = (true, cu').
Proof.
  intros (m & i & f & x & -> & Hm & Hi & Hf & Hx) Hmv Hdel.
  apply moved_split in Hmv as (cu1 & Hm1 & Hmv). apply moved_split in Hmv as (cu2 & Hm2 & Hmv).
  apply moved_split in Hmv as (cu3 & Hm3 & Hm4). unfold scan_number.
  assert ((if at_char cu "-" then next cu else cu) = cu1) as ->.
  { destruct Hm as [-> | ->].
    - assert (cu = cu1) as -> by (eapply moved_eq; [apply moved_nil|done]).
      destruct Hm2 as [E _]. unfold at_char. rewrite E.
      destruct Hi as [->|(c & s & -> & _ & Hd)]; [done|]. apply Forall_cons in Hd as [Hc _]. cbn.
      by rewrite digit_neq.
    - rewrite (at_char_head _ _ _ _ Hm1). eapply moved_eq; [|exact Hm1].
      by eapply moved_next, at_char_head. }
  destruct (scan_int_complete cu1 i (f ++ x) cu2 cu' Hi Hm2) as [-> ->].
  - by eapply moved_trans.
  - apply frac_part_head in Hf. apply exp_part_head in Hx.
    destruct f as [|c f]; cbn; [|subst; by left]. destruct x as [|c x]; cbn.
    + destruct (cu'.2); [done|]. left. by destruct Hdel.
    + left. by destruct Hx as [-> | ->].
  - cbn [negb]. rewrite (scan_frac_complete cu2 f x cu3 cu') by done.
    by rewrite (scan_exp_complete cu3 x cu').
Qed.
