(* ===== verification/PreflightSound.v ===== *)
(** * The scanner accepts only JSON objects, and always terminates

    The invariant of the iterative scanner: the bytes consumed so far are a
    prefix of a JSON text, open containers and all, the mask holds their kinds
    and the recorded spans are the fields of the root object completed so far.
    Each iteration consumes a byte, so the fuel is never exhausted. *)

From Stdlib Require Import ZArith Ascii String List Lia.
From stdpp Require Import base tactics list option strings.
From S2P Require Import Prelude Types Protocol Utf8 Preflight JsonGrammar.

(** ** Prefixes of JSON texts *)

(** The root fields completed so far, and the key awaiting its value with the
    offset at which that value starts. *)
Definition Fields : Type := FrameScan * option (bytes * nat).

(** Inside a nested container the root's fields do not move. *)
Definition inner (stk : list bool) (fi mine : Fields) : Fields :=
  match stk with [] => mine | _ => fi end.

(** [level stk]: nesting still allowed for a value under these containers. *)
Definition level (stk : list bool) : nat := (32 - length stk)%nat.

(** [ctx stk t fi]: [t] is consumed and a value may stand next; [stk] holds the
    kinds of the open containers ([true]: object), innermost first. *)
Inductive ctx : list bool -> bytes -> Fields -> Prop :=
| ctx_root w : ws w -> ctx [] w ([], None)
| ctx_obj stk t fi pre kvs w1 k w2 w3 T :
    ctx stk t fi -> (length stk < 32)%nat -> member_pre (level (true :: stk)) pre kvs ->
    ws w1 -> str_body k -> ws w2 -> ws w3 ->
    T = t ++ "{"%char :: pre ++ w1 ++ quoted k ++ w2 ++ ":"%char :: w3 ->
    ctx (true :: stk) T (inner stk fi (kvs, Some (k, length T)))
| ctx_arr stk t fi pre w T :
    ctx stk t fi -> (length stk < 32)%nat -> element_pre (level (false :: stk)) pre -> ws w ->
    T = t ++ "["%char :: pre ++ w -> ctx (false :: stk) T fi.

(** Where the scanner stands: its state after the bytes [t]. *)
Inductive pos : St -> list bool -> bytes -> Fields -> Prop :=
| pos_value stk t fi : ctx stk t fi -> pos Value stk t fi
| pos_obj_open stk t fi w T :
    ctx stk t fi -> (length stk < 32)%nat -> ws w -> T = t ++ "{"%char :: w ->
    pos ObjKeyOrClose (true :: stk) T (inner stk fi ([], None))
| pos_obj_key stk t fi l kvs w T :
    ctx stk t fi -> (length stk < 32)%nat -> members (level (true :: stk)) l kvs -> ws w ->
    T = t ++ "{"%char :: l ++ ","%char :: w ->
    pos ObjKey (true :: stk) T (inner stk fi (kvs, None))
| pos_colon stk t fi pre kvs w1 k w2 T n :
    ctx stk t fi -> (length stk < 32)%nat -> member_pre (level (true :: stk)) pre kvs ->
    ws w1 -> str_body k -> ws w2 -> T = t ++ "{"%char :: pre ++ w1 ++ quoted k ++ w2 ->
    pos ObjColon (true :: stk) T (inner stk fi (kvs, Some (k, n)))
| pos_after_obj stk t fi l kvs T :
    ctx stk t fi -> (length stk < 32)%nat -> members (level (true :: stk)) l kvs ->
    T = t ++ "{"%char :: l -> pos AfterValue (true :: stk) T (inner stk fi (kvs, None))
| pos_arr_open stk t fi w T :
    ctx stk t fi -> (length stk < 32)%nat -> ws w -> T = t ++ "["%char :: w ->
    pos ArrValueOrClose (false :: stk) T fi
| pos_after_arr stk t fi l T :
    ctx stk t fi -> (length stk < 32)%nat -> elements (level (false :: stk)) l ->
    T = t ++ "["%char :: l -> pos AfterValue (false :: stk) T fi.

Lemma members_ws n l kvs w : members n l kvs -> ws w -> members n (l ++ w) kvs.
Proof.
  intros Hm Hw. inversion Hm; subst.
  replace ((pre ++ w1 ++ quoted k ++ w2 ++ ":"%char :: w3 ++ v ++ w4) ++ w)
    with (pre ++ w1 ++ quoted k ++ w2 ++ ":"%char :: w3 ++ v ++ (w4 ++ w))
    by app_norm.
  constructor; try done. by apply ws_app.
Qed.

Lemma elements_ws n l w : elements n l -> ws w -> elements n (l ++ w).
Proof.
  intros Hm Hw. inversion Hm; subst. rewrite <- !app_assoc. constructor; try done. by apply ws_app.
Qed.


(** Whitespace never changes where the scanner stands, except for the offset of
    a value about to start. *)
Definition same_fields (stk : list bool) (fi fi' : Fields) : Prop :=
  fi'.1 = fi.1 /\ (fst <$> fi'.2 = fst <$> fi.2) /\ ((2 <= length stk)%nat -> fi' = fi).

Lemma same_fields_refl stk fi : same_fields stk fi fi.
Proof. by split_and!. Qed.

Lemma pos_ws st stk t fi w :
  pos st stk t fi -> ws w -> exists fi', pos st stk (t ++ w) fi' /\ same_fields stk fi fi'.
Proof.
  intros Hp Hw. destruct Hp as [stk t fi Hc|stk t fi w0 T Hc Hl Hw0 ->|stk t fi l kvs w0 T Hc Hl Hm Hw0 ->|
    stk t fi pre kvs w1 k w2 T n Hc Hl Hm Hw1 Hk Hw2 ->|stk t fi l kvs T Hc Hl Hm ->|
    stk t fi w0 T Hc Hl Hw0 ->|stk t fi l T Hc Hl Hm ->].
  - destruct Hc as [w0 Hw0|stk t fi pre kvs w1 k w2 w3 T Hc Hl Hm Hw1 Hk Hw2 Hw3 ->|
      stk t fi pre w0 T Hc Hl Hm Hw0 ->].
    + exists ([], None). split; [|done]. apply pos_value, ctx_root. by apply ws_app.
    + eexists. split.
      * apply pos_value. eapply (ctx_obj stk t fi pre kvs w1 k w2 (w3 ++ w)); try done.
        -- by apply ws_app.
        -- app_norm.
      * destruct stk; cbn; [|done]. split_and!; [done|done|cbn; lia].
    + exists fi. split; [|done]. apply pos_value. eapply (ctx_arr stk t fi pre (w0 ++ w)); try done.
      * by apply ws_app.
      * app_norm.
  - eexists. split; [|apply same_fields_refl]. eapply (pos_obj_open stk t fi (w0 ++ w)); try done.
    + by apply ws_app.
    + app_norm.
  - eexists. split; [|apply same_fields_refl]. eapply (pos_obj_key stk t fi l kvs (w0 ++ w)); try done.
    + by apply ws_app.
    + app_norm.
  - eexists. split; [|apply same_fields_refl].
    eapply (pos_colon stk t fi pre kvs w1 k (w2 ++ w)); try done.
    + by apply ws_app.
    + app_norm.
  - eexists. split; [|apply same_fields_refl]. eapply (pos_after_obj stk t fi (l ++ w)); try done.
    + by apply members_ws.
    + app_norm.
  - eexists. split; [|apply same_fields_refl]. eapply (pos_arr_open stk t fi (w0 ++ w)); try done.
    + by apply ws_app.
    + app_norm.
  - eexists. split; [|apply same_fields_refl]. eapply (pos_after_arr stk t fi (l ++ w)); try done.
    + by apply elements_ws.
    + app_norm.
Qed.

(** The fields once the value [v] that starts now is complete. *)
Definition finish_fi (stk : list bool) (fi : Fields) (v : bytes) : Fields :=
  match stk, fi.2 with
  | [true], Some (k, _) => (fi.1 ++ [(k, v)], None)
  | _, _ => fi
  end.

(** A complete value in a container leaves the scanner after a value. *)
Lemma value_pos stk t fi v :
  ctx stk t fi -> stk <> [] -> json (level stk) v -> pos AfterValue stk (t ++ v) (finish_fi stk fi v).
Proof.
  intros Hc Hne Hv. destruct Hc as [w Hw|stk t fi pre kvs w1 k w2 w3 T Hc Hl Hm Hw1 Hk Hw2 Hw3 ->|
    stk t fi pre w0 T Hc Hl Hm Hw0 ->]; [done| |].
  - assert (finish_fi (true :: stk) (inner stk fi (kvs, Some (k, length (t ++ "{"%char :: pre ++ w1 ++
      quoted k ++ w2 ++ ":"%char :: w3)))) v = inner stk fi (kvs ++ [(k, v)], None)) as ->.
    { destruct stk; [done|]. cbn. by destruct b. }
    eapply (pos_after_obj stk t fi (pre ++ w1 ++ quoted k ++ w2 ++ ":"%char :: w3 ++ v ++ [])); try done.
    + by constructor; auto with mm.
    + app_norm.
  - assert (finish_fi (false :: stk) fi v = fi) as -> by (by destruct stk).
    eapply (pos_after_arr stk t fi (pre ++ w0 ++ v ++ [])); try done.
    + by constructor; auto with mm.
    + app_norm.
Qed.

(** ** The invariant *)

Fixpoint mask_ok (mask : Z) (stk : list bool) : Prop :=
  match stk with
  | [] => True
  | b :: stk' => Z.testbit mask (Z.of_nat (length stk')) = b /\ mask_ok mask stk'
  end.

(** What the machine's fields say about [fi]; the start of the pending value is
    known once the scanner is inside it. *)
Record scan_ok (s : FrameScanner) (stk : list bool) (fi : Fields) : Prop := {
  ok_depth : depth_ s = Z.of_nat (length stk);
  ok_mask : mask_ok (object_mask_ s) stk;
  ok_out : out_ s = fi.1 /\ (length (out_ s) <= kMaxTopLevelKeys)%nat;
  ok_have : have_pending_key_ s = bool_decide (is_Some fi.2);
  ok_pending : forall k n, fi.2 = Some (k, n) ->
    pending_key_ s = k /\ ((2 <= length stk)%nat -> value_start_ s = n);
  ok_root : forall b, last stk = Some b -> root_is_object_ s = b;
}.

(** The cursor is after [t] in the frame. *)
Definition at_text (s : FrameScanner) (t : bytes) : Prop :=
  f_ s = t ++ (cur_ s).2 /\ i_ s = length t.

Definition running (s : FrameScanner) : Prop :=
  exists stk t fi, done_ s = false /\ at_text s t /\ pos (st_ s) stk t fi /\ scan_ok s stk fi /\
    (stk = [] -> exists c r, (cur_ s).2 = c :: r /\ is_ws c = false /\
       root_is_object_ s = Ascii.eqb c "{").

Definition finished (s : FrameScanner) : Prop :=
  done_ s = true /\ exists w v, at_text s (w ++ v) /\ ws w /\
    (length (out_ s) <= kMaxTopLevelKeys)%nat /\
    (root_is_object_ s = true -> exists body, v = "{"%char :: body ++ ["}"%char] /\
       obj_body 31 body (out_ s)).

Definition scanning (s : FrameScanner) : Prop := running s \/ finished s.

Lemma at_text_moved s t u cu :
  at_text s t -> moved (cur_ s) u cu -> f_ s = (t ++ u) ++ cu.2 /\ cu.1 = length (t ++ u).
Proof.
  intros [Hf Hi] [E L]. unfold i_ in Hi. rewrite Hf, E, L, Hi, length_app, app_assoc. done.
Qed.

Lemma ctx_array_root t fi : ctx [false] t fi -> fi = ([], None).
Proof. inversion 1 as [| |? ? ? ? ? ? Hc]; subst. by inversion Hc. Qed.

Lemma ctx_object_root t fi : ctx [true] t fi -> exists kvs k, fi = (kvs, Some (k, length t)).
Proof. inversion 1 as [|? ? ? ? ? ? ? ? ? ? Hc|]; subst. inversion Hc; subst. cbn. eauto. Qed.

Lemma substr_exact t v r : substr (t ++ v ++ r) (length t) (length v) = v.
Proof. unfold substr. by rewrite drop_app_length, take_app_length. Qed.

(** ** A value completes *)

(** [value_done] after the top-level value [v]. *)
Lemma value_done_top s t v s' :
  depth_ s = 0 -> at_text s (t ++ v) -> ws t -> (length (out_ s) <= kMaxTopLevelKeys)%nat ->
  (root_is_object_ s = true -> exists body, v = "{"%char :: body ++ ["}"%char] /\
     obj_body 31 body (out_ s)) ->
  value_done s = Next s' -> scanning s'.
Proof.
  intros Hd [Hf Hi] Ht Hl Hroot. unfold value_done. cbv zeta. rewrite Hd. cbn [Z.eqb andb].
  intros [= <-]. right. split; [done|]. exists t, v. by split_and!.
Qed.

(** [value_done] after the value [v] of the context [t], inside a container. *)
Lemma value_done_ok s stk t fi v s' :
  stk <> [] -> done_ s = false -> at_text s (t ++ v) -> ctx stk t fi -> json (level stk) v ->
  scan_ok s stk fi ->
  (forall k, length stk = 1%nat -> fi.2 = Some (k, length t) -> value_start_ s = length t) ->
  value_done s = Next s' -> scanning s'.
Proof.
  intros Hstk Hd [Hf Hi] Hc Hv [O1 O2 [O3 O3'] O4 O5 O6] Hvs. unfold value_done. cbv zeta. rewrite O1.
  destruct stk as [|b stk]; [done|].
  assert (Hne : (Z.of_nat (length (b :: stk)) =? 0) = false) by (apply Z.eqb_neq; cbn; lia).
  pose proof (value_pos _ _ _ _ Hc Hstk Hv) as Hp.
  destruct stk as [|b' stk].
  - destruct b.
    + destruct (ctx_object_root _ _ Hc) as (kvs & k & ->). cbn [fst snd] in *.
      rewrite O4, bool_decide_true by (by eexists). cbn [length Z.of_nat Z.eqb andb Pos.of_succ_nat Pos.eqb].
      destruct (Nat.eqb_spec (length (out_ s)) kMaxTopLevelKeys) as [|Hlen]; [done|].
      cbn [depth_ record_field]. rewrite O1. cbn [length Z.of_nat Z.eqb Pos.of_succ_nat]. intros [= <-].
      destruct (O5 k (length t) eq_refl) as [Hk _]. specialize (Hvs k eq_refl eq_refl).
      left. exists [true], (t ++ v), (kvs ++ [(k, v)], None). split_and!; try done.
      split; try done.
      cbn. rewrite Hk, Hvs, Hi, length_app, O3, Hf, <- app_assoc.
      replace (length t + length v - length t)%nat with (length v) by lia.
      rewrite substr_exact. split; [done|]. rewrite length_app. cbn. rewrite <- O3. lia.
    + rewrite (ctx_array_root _ _ Hc) in *. cbn [snd] in *. rewrite O4, bool_decide_false by (by intros []).
      rewrite andb_false_r, Hne. intros [= <-]. left. exists [false], (t ++ v), ([], None).
      split_and!; try done.
  - assert ((Z.of_nat (length (b :: b' :: stk)) =? 1) = false) as -> by (apply Z.eqb_neq; cbn; lia).
    cbn [andb]. rewrite Hne. intros [= <-]. left.
    exists (b :: b' :: stk), (t ++ v), fi. split_and!; try done.
    cbn in Hp. by destruct b.
Qed.

(** ** One iteration *)

Definition open_char (b : bool) : ascii := if b then "{"%char else "["%char.
Definition close_char (b : bool) : ascii := if b then "}"%char else "]"%char.

Lemma at_text_next s T c r : at_text s T -> (cur_ s).2 = c :: r ->
  f_ s = (T ++ [c]) ++ r /\ S (cur_ s).1 = length (T ++ [c]).
Proof.
  intros [Hf Hi] E. rewrite Hf, E. split; [by app_norm|]. unfold i_ in Hi. rewrite Hi, length_app. cbn. lia.
Qed.

Lemma close_ok s b stk t fi l T fi' r s' :
  done_ s = false -> at_text s T -> T = t ++ open_char b :: l -> scan_ok s (b :: stk) fi' ->
  (cur_ s).2 = close_char b :: r -> ctx stk t fi -> (length stk < 32)%nat ->
  (if b then exists kvs, obj_body (level (b :: stk)) l kvs /\ fi' = inner stk fi (kvs, None)
   else arr_body (level (b :: stk)) l /\ fi' = fi) ->
  close_container s = Next s' -> scanning s'.
Proof.
  intros Hd Hat -> Hok Hcur Hc Hlen Hbody. unfold close_container.
  destruct (at_text_next _ _ _ _ Hat Hcur) as [Hf Hi].
  set (s2 := set_depth (depth_ s - 1) (set_cur (next (cur_ s)) s)).
  set (v := open_char b :: l ++ [close_char b]).
  assert (at_text s2 (t ++ v)) as Hat2.
  { split; cbn; [rewrite Hcur; cbn|unfold i_; cbn]; rewrite ?Hf, ?Hi; unfold v; by app_norm. }
  assert (level stk = S (level (b :: stk))) as Hlv by (unfold level; cbn; lia).
  assert (json (level stk) v) as Hv.
  { rewrite Hlv. unfold v. destruct b; cbn; [destruct Hbody as (kvs & ? & _)|destruct Hbody as [? _]].
    - by eapply J_object.
    - by apply J_array. }
  destruct Hok as [O1 O2 [O3 O3'] O4 O5 O6].
  destruct stk as [|b' stk].
  - apply value_done_top with (t := t) (v := v); try done.
    + cbn. rewrite O1. cbn. lia.
    + by inversion Hc.
    + cbn. intros Hr. rewrite (O6 b eq_refl) in Hr. subst b. destruct Hbody as (kvs & Hb & ->).
      exists l. split; [done|]. rewrite O3. exact Hb.
  - assert (fi' = fi) as -> by (destruct b; [by destruct Hbody as (kvs & _ & ->)|by destruct Hbody]).
    apply (value_done_ok s2 (b' :: stk) t fi v); try done.
    + split; try done; cbn.
      * rewrite O1. cbn. lia.
      * apply O2.
      * intros k n Hk. destruct (O5 k n Hk) as [? Hn]. split; [done|]. intros _. apply Hn. cbn. lia.
    + intros k _ Hk. cbn. apply (O5 k (length t) Hk). cbn. lia.
Qed.

Lemma scan_string_moved s cu :
  at_char (cur_ s) c_dquote = true -> scan_string (cur_ s) = (TokOk, cu) ->
  exists k, str_body k /\ moved (cur_ s) (quoted k) cu.
Proof.
  intros Hq. unfold scan_string. intros (k & rest & Hs & Hk & ->)%scan_string_sound.
  exists k. split; [done|]. unfold at_char in Hq. destruct (cur_ s) as [i [|c s0]]; [done|].
  apply Ascii.eqb_eq in Hq. subst c. cbn in *. split; cbn; [by rewrite Hs; app_norm|].
  rewrite length_app. cbn. lia.
Qed.

Lemma step_key_ok s stk t fi pre kvs w1 T fi' c s' :
  done_ s = false -> at_text s T -> T = t ++ "{"%char :: pre ++ w1 -> ctx stk t fi ->
  (length stk < 32)%nat -> member_pre (level (true :: stk)) pre kvs -> ws w1 ->
  scan_ok s (true :: stk) fi' -> fi' = inner stk fi (kvs, None) -> at_char (cur_ s) c = true ->
  step_key c s = Next s' -> scanning s'.
Proof.
  intros Hd Hat -> Hc Hlen Hm Hw [O1 O2 [O3 O3'] O4 O5 O6] -> Hch. unfold step_key.
  destruct (Ascii.eqb_spec c c_dquote) as [->|]; [|done]. cbn [negb].
  destruct (scan_string (cur_ s)) as [tk cu] eqn:Es. destruct tk; try done.
  destruct (scan_string_moved _ _ Hch Es) as (k & Hk & Hmv). intros [= <-].
  destruct (at_text_moved _ _ _ _ Hat Hmv) as [Hf Hi].
  set (t0 := t ++ "{"%char :: pre ++ w1) in *.
  assert (pos ObjColon (true :: stk) (t0 ++ quoted k) (inner stk fi (kvs, Some (k, 0%nat)))) as Hp.
  { eapply (pos_colon stk t fi pre kvs w1 k []); try done; auto with mm. unfold t0. by app_norm. }
  cbn [depth_ root_is_object_ set_cur]. left.
  exists (true :: stk), (t0 ++ quoted k), (inner stk fi (kvs, Some (k, 0%nat))).
  destruct stk as [|b stk].
  - rewrite O1, (O6 true eq_refl). change (Z.of_nat (length [true]) =? 1) with true. cbn [andb].
    split_and!; try done. cbn [inner] in *. split; try done.
    cbn [snd]. intros k0 n [= <- <-]. split; [|cbn; lia]. cbn [pending_key_ set_pending set_st f_ set_cur].
    assert (f_ s = (t0 ++ [c_dquote]) ++ k ++ c_dquote :: cu.2) as -> by (rewrite Hf; unfold quoted; by app_norm).
    destruct Hat as [_ Hi0]. unfold i_ in *. cbn [cur_ set_cur]. rewrite Hi, Hi0.
    replace (length (t0 ++ quoted k) - 1 - S (length t0))%nat with (length k)
      by (unfold quoted; rewrite length_app; cbn [length]; rewrite length_app; cbn [length]; lia).
    replace (S (length t0)) with (length (t0 ++ [c_dquote])) by (rewrite length_app; cbn; lia).
    apply substr_exact.
  - assert ((depth_ s =? 1) = false) as -> by (rewrite O1; apply Z.eqb_neq; cbn; lia). cbn [andb].
    split_and!; done.
Qed.

(** The mask with the kind of the container opened at depth [d] recorded. *)
Definition mask_open (mask : Z) (b : bool) (d : Z) : Z :=
  if b then Z.lor mask (Z.shiftl 1 d) else Z.land mask (u64 (Z.lnot (Z.shiftl 1 d))).

Lemma mask_open_bit mask b d j :
  0 <= d < 64 -> 0 <= j < 64 ->
  Z.testbit (mask_open mask b d) j = if decide (j = d) then b else Z.testbit mask j.
Proof.
  intros Hd Hj. unfold mask_open.
  assert (j <> d -> Z.testbit 1 (j - d) = false) as H1.
  { intros. destruct (Z.ltb_spec j d); [by rewrite Z.testbit_neg_r by lia|].
    change 1 with (2 ^ 0). apply Z.pow2_bits_false. lia. }
  destruct b.
  - rewrite Z.lor_spec, Z.shiftl_spec by lia. destruct (decide (j = d)) as [->|].
    + by rewrite Z.sub_diag, orb_true_r.
    + by rewrite H1, orb_false_r.
  - unfold u64. change two64 with (2 ^ 64).
    rewrite Z.land_spec, Z.mod_pow2_bits_low, Z.lnot_spec, Z.shiftl_spec by lia.
    destruct (decide (j = d)) as [->|].
    + rewrite Z.sub_diag. cbn. by rewrite andb_false_r.
    + by rewrite H1, andb_true_r.
Qed.

Lemma mask_set mask b stk :
  (length stk < 64)%nat -> mask_ok mask stk ->
  mask_ok (mask_open mask b (Z.of_nat (length stk))) (b :: stk).
Proof.
  intros Hl Hm. set (d := Z.of_nat (length stk)).
  cbn. fold d. split; [rewrite mask_open_bit by lia; by rewrite decide_True|].
  assert (Z.of_nat (length stk) <= d) as Hle by (unfold d; lia).
  assert (d < 64) as Hd by (unfold d; lia). clearbody d.
  induction stk as [|x stk IH]; [done|]. cbn in *. destruct Hm as [Hx Hm].
  split; [|apply IH; [lia|done|lia]]. rewrite mask_open_bit by lia. by rewrite decide_False by lia.
Qed.

(** The machine as [step_value] sees it: the value's offset noted. *)
Definition noted (s : FrameScanner) : FrameScanner :=
  if (depth_ s =? 1) && root_is_object_ s then set_value_start (i_ s) s else s.

Lemma noted_fields s :
  f_ (noted s) = f_ s /\ out_ (noted s) = out_ s /\ cur_ (noted s) = cur_ s /\
  depth_ (noted s) = depth_ s /\ object_mask_ (noted s) = object_mask_ s /\
  pending_key_ (noted s) = pending_key_ s /\ have_pending_key_ (noted s) = have_pending_key_ s /\
  root_is_object_ (noted s) = root_is_object_ s /\ done_ (noted s) = done_ s /\ st_ (noted s) = st_ s.
Proof. unfold noted. by destruct (_ && _). Qed.

(** The machine before a value of the context [t]. *)
Record value_ready (s : FrameScanner) (stk : list bool) (t : bytes) (fi : Fields) (c : ascii)
    (r : bytes) : Prop := {
  vr_done : done_ s = false;
  vr_at : at_text s t;
  vr_ctx : ctx stk t fi;
  vr_ok : scan_ok s stk fi;
  vr_cur : (cur_ s).2 = c :: r;
  vr_root : stk = [] -> root_is_object_ s = Ascii.eqb c "{";
  vr_start : forall k n, fi.2 = Some (k, n) -> value_start_ s = n;
}.

Lemma noted_ready s stk t fi c r :
  done_ s = false -> at_text s t -> ctx stk t fi -> scan_ok s stk fi -> (cur_ s).2 = c :: r ->
  (stk = [] -> root_is_object_ s = Ascii.eqb c "{") ->
  value_ready (noted s) stk t fi c r.
Proof.
  intros Hd [Hf Hi] Hc [O1 O2 O3 O4 O5 O6] Hcur Hr.
  destruct (noted_fields s) as (E1&E2&E3&E4&E5&E6&E7&E8&E9&E10).
  assert (forall k n, fi.2 = Some (k, n) -> (2 <= length stk)%nat -> value_start_ (noted s) = n) as Hge.
  { intros k n Hk Hl. unfold noted. rewrite (proj2 (Z.eqb_neq _ _)) by lia. by apply (O5 k n). }
  split; [congruence| |done| |congruence|rewrite E8; exact Hr|].
  - split; unfold i_ in *; congruence.
  - split; try congruence; [|by rewrite E8]. intros k n Hk. rewrite E6.
    split; [by apply (O5 k n)|]. by apply (Hge k n).
  - intros k n Hk. destruct stk as [|b [|b' stk]].
    + inversion Hc; subst. done.
    + destruct b; [|rewrite (ctx_array_root _ _ Hc) in Hk; done].
      destruct (ctx_object_root _ _ Hc) as (kvs & k' & ->). cbn in Hk. injection Hk as <- <-.
      unfold noted. rewrite O1, (O6 true eq_refl). cbn. done.
    + apply (Hge k n Hk). cbn. lia.
Qed.

Lemma open_container_ok s stk t fi b r s' :
  value_ready s stk t fi (open_char b) r ->
  open_container (open_char b) s = Next s' -> scanning s'.
Proof.
  intros [Hd Hat Hc [O1 O2 [O3 O3'] O4 O5 O6] Hcur Hr Hst]. unfold open_container.
  rewrite O1. destruct (Z.eqb_spec (Z.of_nat (length stk)) kMaxNestingDepth) as [|Hne]; [done|].
  assert (length stk < 32)%nat as Hlen.
  { unfold kMaxNestingDepth in Hne. assert (length stk <= 32)%nat; [|lia].
    clear - Hc. inversion Hc; subst; cbn; lia. }
  assert (Ascii.eqb (open_char b) "{" = b) as -> by (by destruct b).
  intros [= <-]. left. destruct (at_text_next _ _ _ _ Hat Hcur) as [Hf Hi].
  pose proof (mask_set (object_mask_ s) b stk ltac:(lia) O2) as Hm.
  set (fi' := if b then inner stk fi ([], None) else fi).
  assert (fi' = fi) as Hfi.
  { unfold fi'. destruct b; [|done]. destruct stk; [|done]. by inversion Hc; subst. }
  exists (b :: stk), (t ++ [open_char b]), fi'.
  split_and!; [done|split; cbn; [by rewrite Hcur|done]| | |done].
  - unfold fi'. destruct b; cbn.
    + by eapply (pos_obj_open stk t fi []); auto with mm.
    + by eapply (pos_arr_open stk t fi []); auto with mm.
  - rewrite Hfi. split; cbn; try done.
    + cbn. lia.
    + intros k n Hk. destruct (O5 k n Hk) as [? _]. split; [done|]. intros _. by apply (Hst k n).
    + intros x Hx. destruct stk; [|by apply O6]. cbn in Hx. injection Hx as <-. rewrite Hr by done.
      by destruct b.
Qed.

(** A scalar value [v], scanned from the cursor to [cu]. *)
Lemma scalar_ok s stk t fi c r v cu s' :
  value_ready s stk t fi c r -> c <> "{"%char -> json (level stk) v -> moved (cur_ s) v cu ->
  value_done (set_cur cu s) = Next s' -> scanning s'.
Proof.
  intros [Hd Hat Hc [O1 O2 [O3 O3'] O4 O5 O6] Hcur Hr Hst] Hne Hv Hm.
  pose proof (at_text_moved _ _ _ _ Hat Hm) as Hat2.
  destruct stk as [|b stk].
  - apply value_done_top with (t := t) (v := v); try done.
    + by inversion Hc.
    + cbn. rewrite Hr by done. by rewrite (proj2 (Ascii.eqb_neq _ _) Hne).
  - apply (value_done_ok (set_cur cu s) (b :: stk) t fi v); try done.
    intros k _ Hk. by apply (Hst k).
Qed.

Lemma take_moved (cu : Cursor) t : take (length t) cu.2 = t ->
  moved cu t ((cu.1 + length t)%nat, drop (length t) cu.2).
Proof. intros E. split; cbn; [|done]. rewrite <- E at 1. by rewrite take_drop. Qed.

Lemma literal_of_literal c : literal (literal_of c).
Proof. unfold literal_of, literal. repeat case_match; auto. Qed.

Lemma step_value_ok s stk t fi c r s' :
  value_ready (noted s) stk t fi c r -> step_value c s = Next s' -> scanning s'.
Proof.
  intros Hv. unfold step_value. fold (noted s). set (n := noted s) in *. cbv zeta.
  pose proof (vr_cur _ _ _ _ _ _ Hv) as Hcur.
  destruct (Ascii.eqb_spec c "{") as [->|H1]; cbn [orb]; [by apply (open_container_ok n stk t fi true r)|].
  destruct (Ascii.eqb_spec c "[") as [->|H2]; [by apply (open_container_ok n stk t fi false r)|].
  destruct (Ascii.eqb_spec c c_dquote) as [->|H3].
  { destruct (scan_string (cur_ n)) as [tk cu] eqn:Es. destruct tk; try done.
    destruct (scan_string_moved n cu) as (k & Hk & Hm); [unfold at_char; by rewrite Hcur|done|].
    eapply scalar_ok; [exact Hv|done|by apply J_string|exact Hm]. }
  destruct (_ || _ || _).
  { case_bool_decide as E; [|done].
    eapply scalar_ok; [exact Hv|done|apply J_literal, (literal_of_literal c)|by apply take_moved]. }
  destruct (_ && _); [done|].
  destruct (scan_number (cur_ n)) as [ok cu] eqn:Es. destruct ok; [|done].
  destruct (scan_number_sound _ _ Es) as (x & Hm & Hx).
  eapply scalar_ok; [exact Hv|done|by apply J_number|exact Hm].
Qed.

(** The machine at the first byte past the whitespace. *)
Record ready (s : FrameScanner) (stk : list bool) (t : bytes) (fi : Fields) (c : ascii) (r : bytes)
    : Prop := {
  rd_done : done_ s = false;
  rd_at : at_text s t;
  rd_pos : pos (st_ s) stk t fi;
  rd_ok : scan_ok s stk fi;
  rd_cur : (cur_ s).2 = c :: r;
  rd_root : stk = [] -> root_is_object_ s = Ascii.eqb c "{";
}.

Lemma set_st_ok s st stk fi : scan_ok s stk fi -> scan_ok (set_st st s) stk fi.
Proof. by intros []. Qed.
Lemma set_cur_ok s cu stk fi : scan_ok s stk fi -> scan_ok (set_cur cu s) stk fi.
Proof. by intros []. Qed.

Lemma scan_ok_same s stk fi fi' : scan_ok s stk fi -> same_fields stk fi fi' -> scan_ok s stk fi'.
Proof.
  intros [O1 O2 O3 O4 O5 O6] (E1 & E2 & E3). split; try done; [by rewrite E1| |].
  - rewrite O4. destruct (fi.2), (fi'.2); try done.
  - intros k n Hk. rewrite Hk in E2. destruct (fi.2) as [[k0 n0]|] eqn:E; [|done].
    cbn in E2. injection E2 as ->. destruct (O5 k0 n0 eq_refl) as [? Hn]. split; [done|].
    intros Hl. rewrite (E3 Hl) in Hk. rewrite Hk in E. injection E as ->. by apply Hn.
Qed.

(** [++i_] past one byte and a change of state. *)
Lemma advance_ok s stk t fi c r st fi' :
  done_ s = false -> at_text s t -> (cur_ s).2 = c :: r -> stk <> [] -> scan_ok s stk fi ->
  same_fields stk fi fi' -> pos st stk (t ++ [c]) fi' ->
  scanning (set_st st (set_cur (next (cur_ s)) s)).
Proof.
  intros Hd Hat Hcur Hne Hok Hsame Hp. destruct (at_text_next _ _ _ _ Hat Hcur) as [Hf Hi].
  left. exists stk, (t ++ [c]), fi'. split_and!; try done.
  - split; cbn; [by rewrite Hcur|done].
  - by apply set_st_ok, set_cur_ok, (scan_ok_same _ _ fi).
Qed.

Lemma step_after_ok s stk t fi c r s' :
  ready s stk t fi c r -> st_ s = AfterValue -> step_after c s = Next s' -> scanning s'.
Proof.
  intros [Hd Hat Hp Hok Hcur Hr] Hst. rewrite Hst in Hp. unfold step_after.
  assert (exists b stk', stk = b :: stk' /\ Z.testbit (object_mask_ s) (depth_ s - 1) = b) as (b & stk' & E & ->).
  { inversion Hp; subst; (do 2 eexists; split; [done|]); destruct Hok as [O1 [O2 _]];
      rewrite O1, <- O2; f_equal; cbn; lia. }
  destruct (Ascii.eqb_spec c ",") as [->|Hne].
  - intros [= <-]. inversion Hp; subst; simplify_eq.
    + eapply (advance_ok s (true :: stk')); [exact Hd|exact Hat|exact Hcur|done|exact Hok|apply same_fields_refl|].
      eapply (pos_obj_key _ t0 _ l kvs []); try done; auto with mm. by app_norm.
    + eapply (advance_ok s (false :: stk')); [exact Hd|exact Hat|exact Hcur|done|exact Hok|apply same_fields_refl|].
      apply pos_value.
      eapply (ctx_arr _ t0 _ (l ++ [","%char]) []); try done; auto with mm; [by constructor|]. by app_norm.
  - destruct (Ascii.eqb_spec c (if b then "}"%char else "]"%char)) as [->|]; [|done].
    inversion Hp; subst; simplify_eq.
    + eapply (close_ok s true stk' t0 fi0 l); try done. exists kvs. split; [by apply OB_members|done].
    + eapply (close_ok s false stk' t0 fi l); try done. split; [by apply AB_elements|done].
Qed.

Lemma dispatch_ok s stk t fi c r s' :
  ready s stk t fi c r -> dispatch c s = Next s' -> scanning s'.
Proof.
  intros Hrd. pose proof Hrd as [Hd Hat Hp Hok Hcur Hr]. unfold dispatch. destruct (st_ s) eqn:Hst.
  - inversion Hp; subst. eapply step_value_ok, noted_ready; try done.
  - inversion Hp; subst. destruct (Ascii.eqb_spec c "]") as [->|].
    + eapply (close_ok s false stk0 t0 fi w); try done. split; [by apply AB_empty|done].
    + eapply (step_value_ok s), noted_ready; try done.
      eapply (ctx_arr _ t0 _ [] w); try done. constructor.
  - inversion Hp; subst. destruct (Ascii.eqb_spec c "}") as [->|].
    + eapply (close_ok s true stk0 t0 fi0 w); try done. exists []. split; [by apply OB_empty|done].
    + eapply (step_key_ok s stk0 t0 fi0 [] [] w); try done; [constructor|unfold at_char].
      rewrite Hcur. apply Ascii.eqb_refl.
  - inversion Hp; subst.
    eapply (step_key_ok s stk0 t0 fi0 (l ++ [","%char]) kvs w); try done; [by app_norm|by constructor|].
    unfold at_char. rewrite Hcur. apply Ascii.eqb_refl.
  - inversion Hp; subst. destruct (Ascii.eqb_spec c ":") as [->|]; [|done]. intros [= <-].
    eapply (advance_ok s (true :: stk0) _ _ ":"%char r Value
      (inner stk0 fi0 (kvs, Some (k, length (((t0 ++ "{"%char :: pre ++ w1 ++ quoted k ++ w2)) ++ [":"%char]))))); try done.
    + destruct stk0; cbn; [split_and!; [done|done|cbn; lia]|apply same_fields_refl].
    + apply pos_value. eapply (ctx_obj stk0 t0 fi0 pre kvs w1 k w2 []); try done; auto with mm. by app_norm.
  - eapply step_after_ok; done.
Qed.

Lemma step_ok s s' : running s -> step s = Next s' -> scanning s'.
Proof.
  intros (stk & t & fi & Hd & Hat & Hp & Hok & Hr). unfold step. cbv zeta.
  set (s1 := set_cur (skip_ws (cur_ s)) s).
  pose proof (skip_while_moved is_ws (cur_ s)) as Hm.
  destruct (pos_ws _ _ _ _ _ Hp (take_while_all is_ws (cur_ s).2)) as (fi' & Hp' & Hsame).
  pose proof (at_text_moved _ _ _ _ Hat Hm) as Hat1.
  destruct ((cur_ s1).2) as [|c r] eqn:Hcur; [done|].
  destruct (is_raw_control c); [done|].
  apply (dispatch_ok s1 stk (t ++ take_while is_ws (cur_ s).2) fi' c r).
  split; try done.
  - by apply set_cur_ok, (scan_ok_same _ _ fi).
  - intros Hn. destruct (Hr Hn) as (c0 & r0 & E & Hw & Hro). cbn.
    cbn in Hcur. rewrite E in Hcur. cbn in Hcur. rewrite Hw in Hcur. by simplify_eq.
Qed.

(** ** Every iteration consumes a byte *)

Lemma drop_while_length {A} (p : A -> bool) l : (length (drop_while p l) <= length l)%nat.
Proof. apply length_drop_while. Qed.

Definition remaining (s : FrameScanner) : nat := length (cur_ s).2.

Lemma moved_shorter cu t cu' : moved cu t cu' -> t <> [] -> (length cu'.2 < length cu.2)%nat.
Proof. intros [E _] Hne. rewrite E, length_app. destruct t; [done|]. cbn. lia. Qed.

Lemma value_done_cur s s' : value_done s = Next s' -> cur_ s' = cur_ s.
Proof.
  unfold value_done. cbv zeta. repeat case_match; try done; intros [= <-]; done.
Qed.

Lemma number_nonempty t : number t -> t <> [].
Proof.
  intros (m & i & f & x & -> & _ & Hi & _ & _). intros [_ [Ei _]%app_eq_nil]%app_eq_nil.
  destruct Hi as [->|(c & s & -> & _)]; done.
Qed.

Lemma next_shorter (cu : Cursor) c r : cu.2 = c :: r -> (length (next cu).2 < length cu.2)%nat.
Proof. intros E. cbn. rewrite E. cbn. lia. Qed.

Lemma scan_string_shorter s cu c r :
  (cur_ s).2 = c :: r -> scan_string (cur_ s) = (TokOk, cu) -> (length cu.2 < remaining s)%nat.
Proof.
  intros E. unfold scan_string, remaining. intros (k & rest & Hs & _ & ->)%scan_string_sound.
  cbn in Hs |- *. rewrite E in Hs |- *. cbn in Hs |- *. rewrite Hs, length_app. cbn. lia.
Qed.

Lemma step_value_shorter c r s s' :
  (cur_ s).2 = c :: r -> step_value c s = Next s' -> (remaining s' < remaining s)%nat.
Proof.
  intros Hcur. unfold step_value. fold (noted s). cbv zeta.
  destruct (noted_fields s) as (_&_&Ec&_).
  assert (remaining s = length (cur_ (noted s)).2) as -> by (unfold remaining; by rewrite Ec).
  rewrite <- Ec in Hcur. set (n := noted s) in *. unfold remaining.
  destruct (_ || _).
  { unfold open_container. case_match; [done|]. intros [= <-]. by eapply next_shorter. }
  destruct (Ascii.eqb c c_dquote).
  { destruct (scan_string (cur_ n)) as [tk cu] eqn:Es. destruct tk; try done.
    intros E%value_done_cur. rewrite E. by eapply scan_string_shorter. }
  destruct (_ || _ || _).
  { case_bool_decide as E; [|done]. intros E'%value_done_cur. rewrite E'.
    eapply moved_shorter; [by apply take_moved|]. unfold literal_of. by repeat case_match. }
  destruct (_ && _); [done|]. destruct (scan_number (cur_ n)) as [ok cu] eqn:Es. destruct ok; [|done].
  destruct (scan_number_sound _ _ Es) as (x & Hm & Hx). intros E%value_done_cur. rewrite E.
  eapply moved_shorter; [exact Hm|by apply number_nonempty].
Qed.

Lemma dispatch_shorter c r s s' :
  (cur_ s).2 = c :: r -> dispatch c s = Next s' -> (remaining s' < remaining s)%nat.
Proof.
  intros Hcur. unfold dispatch.
  assert (step_key c s = Next s' -> (remaining s' < remaining s)%nat) as Hkey.
  { unfold step_key. case_match; [done|]. destruct (scan_string (cur_ s)) as [tk cu] eqn:Es.
    destruct tk; try done. intros [= <-]. unfold remaining at 1.
    destruct (_ && _); by eapply scan_string_shorter. }
  assert (close_container s = Next s' -> (remaining s' < remaining s)%nat) as Hclose.
  { unfold close_container. intros E%value_done_cur. unfold remaining. rewrite E. by eapply next_shorter. }
  assert (forall st, Next (set_st st (set_cur (next (cur_ s)) s)) = Next s' ->
    (remaining s' < remaining s)%nat) as Hadv.
  { intros st [= <-]. by eapply next_shorter. }
  pose proof (step_value_shorter c r s s' Hcur) as Hval.
  destruct (st_ s); try done; try (case_match; eauto; done).
  unfold step_after. repeat case_match; eauto; done.
Qed.

Lemma step_shorter s s' : step s = Next s' -> (remaining s' < remaining s)%nat.
Proof.
  unfold step. cbv zeta. set (s1 := set_cur (skip_ws (cur_ s)) s).
  assert (remaining s1 <= remaining s)%nat by apply length_drop_while.
  destruct ((cur_ s1).2) as [|c r] eqn:E; [done|]. case_match; [done|].
  intros Hd. pose proof (dispatch_shorter _ _ _ _ E Hd). lia.
Qed.

(** Enough fuel: the loop ends, and what it ends with is an accepted prefix. *)
Lemma loop_total fuel s : (remaining s < fuel)%nat -> exists r, loop fuel s = Some r.
Proof.
  revert s. induction fuel as [|fuel IH]; intros s Hf; [lia|]. cbn [loop].
  destruct (done_ s); [eauto|]. destruct (step s) as [s1|e] eqn:E; [|eauto].
  apply IH. pose proof (step_shorter _ _ E). lia.
Qed.

Lemma loop_ok fuel s s' : scanning s -> loop fuel s = Some (Next s') -> finished s'.
Proof.
  revert s. induction fuel as [|fuel IH]; intros s Hs; cbn [loop].
  - destruct (done_ s) eqn:Hd; [|done]. intros [= <-]. destruct Hs as [(?&?&?&?&_)|]; [congruence|done].
  - destruct (done_ s) eqn:Hd.
    + intros [= <-]. destruct Hs as [(?&?&?&?&_)|]; [congruence|done].
    + destruct (step s) as [s1|e] eqn:E; [|done]. apply IH. destruct Hs as [Hs|[Hs _]]; [|congruence].
      by eapply step_ok.
Qed.

(** ** The whole scan *)

Lemma scan_frame_total frame : exists r, scan_frame frame = Some r.
Proof.
  unfold scan_frame. cbv zeta. destruct ((skip_ws (0%nat, frame)).2) as [|c r] eqn:E; [eauto|].
  destruct (loop_total (S (length frame)) (initial frame (Ascii.eqb c "{") (skip_ws (0%nat, frame))))
    as [x ->]; [|destruct x; eauto].
  unfold remaining. cbn. pose proof (length_drop_while is_ws frame). lia.
Qed.

Lemma initial_scanning frame c r :
  (skip_ws (0%nat, frame)).2 = c :: r ->
  running (initial frame (Ascii.eqb c "{") (skip_ws (0%nat, frame))).
Proof.
  intros E. pose proof (skip_while_moved is_ws (0%nat, frame)) as [Hf Hi].
  exists [], (take_while is_ws frame), ([], None). split_and!; try done.
  - apply pos_value, ctx_root, take_while_all.
  - split; try done. split; [done|cbn; unfold kMaxTopLevelKeys; lia].
  - intros _. exists c, r. split_and!; [exact E| |done].
    pose proof (skip_while_head is_ws (0%nat, frame)) as Hh. unfold skip_ws in E. by rewrite E in Hh.
Qed.

Lemma value_done_frame s s' : value_done s = Next s' -> f_ s' = f_ s.
Proof. unfold value_done. cbv zeta. repeat case_match; try done; by intros [= <-]. Qed.

Lemma step_frame s s' : step s = Next s' -> f_ s' = f_ s.
Proof.
  unfold step. cbv zeta. case_match; [done|]. case_match; [done|].
  set (s1 := set_cur (skip_ws (cur_ s)) s). change (f_ s) with (f_ s1). unfold dispatch.
  assert (close_container s1 = Next s' -> f_ s' = f_ s1) as Hclose.
  { unfold close_container. intros E%value_done_frame. by rewrite E. }
  assert (step_key a s1 = Next s' -> f_ s' = f_ s1) as Hkey.
  { unfold step_key. repeat (case_match; try done); by intros [= <-]. }
  assert (step_value a s1 = Next s' -> f_ s' = f_ s1) as Hval.
  { unfold step_value. fold (noted s1). cbv zeta.
    destruct (noted_fields s1) as (Ef&_). rewrite <- Ef. set (n := noted s1).
    unfold open_container. repeat (case_match; try done);
      first [by intros [= <-]|intros E%value_done_frame; by rewrite E]. }
  destruct (st_ s1); repeat (case_match; try done); eauto; try by intros [= <-].
  unfold step_after. repeat (case_match; try done); eauto; by intros [= <-].
Qed.

Lemma loop_frame fuel s s' : loop fuel s = Some (Next s') -> f_ s' = f_ s.
Proof.
  revert s. induction fuel as [|fuel IH]; intros s; cbn [loop];
    (destruct (done_ s); [by intros [= <-]|]); [done|].
  destruct (step s) as [s1|] eqn:Es; [|done]. intros E. rewrite (IH s1 E). by apply step_frame.
Qed.

Lemma scan_frame_sound frame kvs :
  scan_frame frame = Some (inr kvs) ->
  object_text 31 frame kvs /\ (length kvs <= kMaxTopLevelKeys)%nat.
Proof.
  unfold scan_frame. cbv zeta. destruct ((skip_ws (0%nat, frame)).2) as [|c r] eqn:E; [done|].
  destruct (loop _ _) as [[s|e]|] eqn:El; try done. pose proof (loop_frame _ _ _ El) as Efr.
  pose proof (loop_ok _ _ _ (or_introl (initial_scanning _ _ _ E)) El)
    as (Hd & w & v & [Hf Hi] & Hw & Hl & Hr).
  unfold finish. cbv zeta. destruct ((cur_ (set_cur (skip_ws (cur_ s)) s)).2) as [|x y] eqn:Ew; [|done].
  destruct (root_is_object_ _) eqn:Ero; [|done]. intros [= <-]. split; [|done].
  destruct (Hr eq_refl) as (body & -> & Hb). cbn in Efr.
  exists w, body, ((cur_ s).2). split_and!; try done.
  - rewrite <- Efr, Hf. by app_norm.
  - cbn in Ew. rewrite <- (take_drop_while is_ws (cur_ s).2), Ew, app_nil_r. apply take_while_all.
Qed.
