(* ===== verification/PreflightComplete.v ===== *)
(** * The scanner accepts every JSON object within its caps

    By induction on the grammar: from a state where a value (a member, an
    element) may stand, the machine walks over its text and stops right after
    it, with the spans of the root's fields recorded. *)

From Stdlib Require Import ZArith Ascii String List Lia.
From stdpp Require Import base tactics list option strings.
From S2P Require Import Prelude Types Protocol Utf8 Preflight JsonGrammar PreflightSound.

Inductive steps : FrameScanner -> FrameScanner -> Prop :=
| steps_refl s : steps s s
| steps_cons s1 s2 s3 : done_ s1 = false -> step s1 = Next s2 -> steps s2 s3 -> steps s1 s3.

Lemma steps_trans s1 s2 s3 : steps s1 s2 -> steps s2 s3 -> steps s1 s3.
Proof. induction 1; [done|]. intros. eapply steps_cons; eauto. Qed.
Lemma steps_one s1 s2 : done_ s1 = false -> step s1 = Next s2 -> steps s1 s2.
Proof. intros. eapply steps_cons; [done..|constructor]. Qed.

Lemma steps_loop s s' fuel :
  steps s s' -> done_ s' = true -> (remaining s < fuel)%nat -> loop fuel s = Some (Next s').
Proof.
  intros Hs Hd. revert fuel. induction Hs as [s|s1 s2 s3 Hd1 Hs1 _ IH]; intros fuel Hf;
    (destruct fuel as [|fuel]; [lia|]); cbn [loop].
  - by rewrite Hd.
  - rewrite Hd1, Hs1. apply IH; [done|]. pose proof (step_shorter _ _ Hs1). lia.
Qed.

(** ** One step, seen past the whitespace *)

(** The machine moved over the whitespace [w]. *)
Definition past (w : bytes) (s : FrameScanner) : FrameScanner :=
  set_cur ((i_ s + length w)%nat, drop (length w) (cur_ s).2) s.

Lemma past_moved w s r : (cur_ s).2 = w ++ r -> moved (cur_ s) w (cur_ (past w s)).
Proof. intros E. split; cbn; [by rewrite E, drop_app_length|done]. Qed.

Lemma past_cur w s r : (cur_ s).2 = w ++ r -> (cur_ (past w s)).2 = r.
Proof. intros E. cbn. by rewrite E, drop_app_length. Qed.

Lemma ws_head_false w c r : ws w -> is_ws c = false -> take_while is_ws (w ++ c :: r) = w.
Proof. induction 1 as [|x w Hx _ IH]; intros Hc; cbn; [by rewrite Hc|]. rewrite Hx. by rewrite IH. Qed.

Lemma step_past s w c r :
  (cur_ s).2 = w ++ c :: r -> ws w -> is_ws c = false -> is_raw_control c = false ->
  step s = dispatch c (past w s).
Proof.
  intros E Hw Hc Hr. unfold step. cbv zeta.
  assert (skip_ws (cur_ s) = cur_ (past w s)) as ->.
  { eapply moved_eq; [|by apply (past_moved w s (c :: r))].
    pose proof (skip_while_moved is_ws (cur_ s)) as Hm. rewrite E, ws_head_false in Hm by done. exact Hm. }
  change (set_cur (cur_ (past w s)) s) with (past w s).
  rewrite (past_cur w s (c :: r) E). by rewrite Hr.
Qed.

(** Characters that start or end something: visible, not whitespace. *)
Definition visible (c : ascii) : Prop := is_ws c = false /\ is_raw_control c = false.

Lemma visible_ord c : 0x21 <= ord c -> visible c.
Proof.
  intros Hc. split; [|unfold is_raw_control; apply Z.ltb_ge; lia]. unfold is_ws.
  rewrite !(proj2 (Z.eqb_neq _ _)) by lia. done.
Qed.

Lemma json_head n v : json n v -> exists c r, v = c :: r /\ visible c /\ c <> "]"%char /\ c <> "}"%char.
Proof.
  assert (forall c, In c (list_ascii_of_string "{[tfn-") \/ c = c_dquote -> visible c /\ c <> "]"%char /\ c <> "}"%char) as Hv.
  { intros c [Hc| ->]; [|split; [apply visible_ord; by vm_compute|done]].
    cbn in Hc. repeat destruct Hc as [<-|Hc]; try done; (split; [apply visible_ord; by vm_compute|done]). }
  intros Hj. destruct Hj as [n k Hk|n s Hl|n s (m & i & f & x & -> & Hm & Hi & _)|n l kvs _|n l _].
  - do 2 eexists. split; [done|]. apply Hv. by right.
  - destruct Hl as [-> |[-> | ->]]; do 2 eexists; (split; [done|]); apply Hv; left; cbn; auto 8.
  - destruct Hm as [-> | ->]; [|do 2 eexists; split; [done|]; apply Hv; left; cbn; auto 8].
    assert (exists c r, i = c :: r /\ is_dec_digit c = true) as (c & r & -> & Hc).
    { destruct Hi as [->|(c & s & -> & _ & Hd)]; [by do 2 eexists|].
      apply Forall_cons in Hd as [? _]. by do 2 eexists. }
    do 2 eexists. split; [done|]. pose proof (digit_ord _ Hc) as Ho.
    split; [apply visible_ord; lia|]. by split; intros ->.
  - do 2 eexists. split; [done|]. apply Hv. left. cbn. auto.
  - do 2 eexists. split; [done|]. apply Hv. left. cbn. auto.
Qed.

(** ** What a walk leaves unchanged *)

Record unchanged (s s' : FrameScanner) : Prop := {
  un_f : f_ s' = f_ s;
  un_root : root_is_object_ s' = root_is_object_ s;
  un_depth : depth_ s' = depth_ s;
  un_done : done_ s' = false;
  un_mask : forall j, 0 <= j < depth_ s -> Z.testbit (object_mask_ s') j = Z.testbit (object_mask_ s) j;
  un_out : out_ s' = out_ s;
  un_have : have_pending_key_ s' = have_pending_key_ s;
  un_pending : pending_key_ s' = pending_key_ s;
  un_start : value_start_ s' = value_start_ s;
}.

Lemma unchanged_refl s : done_ s = false -> unchanged s s.
Proof. by split. Qed.

Lemma unchanged_trans s1 s2 s3 : unchanged s1 s2 -> unchanged s2 s3 -> unchanged s1 s3.
Proof.
  intros [A1 A2 A3 A4 A5 A6 A7 A8 A9] [B1 B2 B3 B4 B5 B6 B7 B8 B9].
  split; try congruence. intros j Hj. rewrite B5 by (rewrite A3; lia). by apply A5.
Qed.

Definition at_root (s : FrameScanner) : bool := (depth_ s =? 1) && root_is_object_ s.

(** The walk over members: inside the root object they are recorded. *)
Record recorded (kvs : FrameScan) (s s' : FrameScanner) : Prop := {
  re_f : f_ s' = f_ s;
  re_root : root_is_object_ s' = root_is_object_ s;
  re_depth : depth_ s' = depth_ s;
  re_done : done_ s' = false;
  re_mask : forall j, 0 <= j < depth_ s -> Z.testbit (object_mask_ s') j = Z.testbit (object_mask_ s) j;
  re_fields : if at_root s then out_ s' = out_ s ++ kvs /\ have_pending_key_ s' = false
              else out_ s' = out_ s /\ have_pending_key_ s' = have_pending_key_ s /\
                   pending_key_ s' = pending_key_ s /\ value_start_ s' = value_start_ s;
}.

(** A machine inside a container that allows [n] more levels. *)
Record inside (n : nat) (s : FrameScanner) : Prop := {
  in_done : done_ s = false;
  in_text : exists t, at_text s t;
  in_depth : 1 <= depth_ s /\ depth_ s + Z.of_nat n <= 32;
}.

Lemma moved_text s t u s' : at_text s t -> f_ s' = f_ s -> moved (cur_ s) u (cur_ s') -> at_text s' (t ++ u).
Proof. intros Hat Hf Hm. destruct (at_text_moved _ _ _ _ Hat Hm) as [E1 E2]. split; [congruence|done]. Qed.

Lemma moved_rest cu t cu' r : moved cu t cu' -> cu.2 = t ++ r -> cu'.2 = r.
Proof. intros [E _] E'. rewrite E in E'. by apply app_inv_head in E'. Qed.

(** After a value comes whitespace and then a comma or a closing bracket. *)
Definition stops (r : bytes) : Prop :=
  exists c r', r = c :: r' /\ (c = ","%char \/ c = "}"%char \/ c = "]"%char).

Lemma ws_stops_delimited w r : ws w -> stops r -> delimited (w ++ r).
Proof.
  intros Hw (c & r' & -> & Hc). destruct Hw as [|x w Hx _]; cbn.
  - by destruct Hc as [-> |[-> | ->]].
  - unfold is_ws in Hx.
    assert (ord x = 32 \/ ord x = 9 \/ ord x = 10 \/ ord x = 13) as Ho.
    { repeat (apply orb_true_iff in Hx as [Hx|Hx]); zbool; auto. }
    split_and!; [|intros ->; vm_compute in Ho; lia..].
    unfold is_dec_digit, in_range. rewrite (proj2 (Z.leb_gt _ _)) by lia. done.
Qed.

(** ** Values *)

(** What the walk over the value [v] achieves, from any state that expects it:
    it reaches the [value_done] of [v]. *)
Definition walks_value (n : nat) (v : bytes) : Prop := forall s w rest,
  inside n s -> (st_ s = Value \/ st_ s = ArrValueOrClose) -> (cur_ s).2 = w ++ v ++ rest -> ws w ->
  delimited rest ->
  exists s1 s2, steps s s1 /\ done_ s1 = false /\ step s1 = value_done s2 /\
    moved (cur_ s) (w ++ v) (cur_ s2) /\ unchanged (noted (past w s)) s2.

Lemma inside_noted n s w : inside n s -> done_ (noted (past w s)) = false.
Proof. intros [Hd _ _]. destruct (noted_fields (past w s)) as (_&_&_&_&_&_&_&_&E&_). by rewrite E. Qed.

Lemma set_cur_unchanged s s' cu : unchanged s s' -> unchanged s (set_cur cu s').
Proof. by intros []. Qed.

(** The first step over a value dispatches on its first byte. *)
Lemma step_value_past s w c r :
  (st_ s = Value \/ st_ s = ArrValueOrClose) -> (cur_ s).2 = w ++ c :: r -> ws w -> visible c ->
  c <> "]"%char -> step s = step_value c (past w s).
Proof.
  intros Hst E Hw [Hv1 Hv2] Hc. rewrite (step_past s w c r) by done. unfold dispatch.
  change (st_ (past w s)) with (st_ s). destruct Hst as [-> | ->]; [done|].
  by rewrite (proj2 (Ascii.eqb_neq _ _) Hc).
Qed.

(** A scalar takes one step. *)
Lemma scalar_walks n v :
  (exists c r, v = c :: r /\ visible c /\ c <> "]"%char) ->
  (forall s c r rest, v = c :: r -> (cur_ s).2 = v ++ rest -> delimited rest ->
     exists cu, moved (cur_ s) v cu /\ step_value c s = value_done (set_cur cu (noted s))) ->
  walks_value n v.
Proof.
  intros (c & r & Ev & Hc & Hne) Hstep s w rest Hin Hst Hcur Hw Hdel.
  pose proof (past_cur w s (v ++ rest) Hcur) as Hp.
  destruct (Hstep (past w s) c r rest Ev Hp Hdel) as (cu & Hm & Hv).
  exists s, (set_cur cu (noted (past w s))). split_and!; [constructor|apply Hin| | |].
  - rewrite <- Hv. apply (step_value_past s w c (r ++ rest)); try done. by rewrite Hcur, Ev.
  - eapply moved_trans; [by apply (past_moved w s (v ++ rest))|exact Hm].
  - apply set_cur_unchanged, unchanged_refl. by apply (inside_noted n).
Qed.

Lemma step_value_noted s : cur_ (noted s) = cur_ s.
Proof. by destruct (noted_fields s) as (_&_&E&_). Qed.

Lemma string_walks n k : str_body k -> walks_value n (quoted k).
Proof.
  intros Hk. apply scalar_walks.
  { do 2 eexists. split; [done|]. split; [apply visible_ord; by vm_compute|done]. }
  intros s c r rest [= <- <-] Hcur _. unfold step_value. fold (noted s). cbv zeta.
  change (Ascii.eqb c_dquote "{" || Ascii.eqb c_dquote "[") with false.
  rewrite Ascii.eqb_refl, step_value_noted. unfold scan_string.
  assert ((next (cur_ s)).2 = k ++ c_dquote :: rest) as -> by (cbn; rewrite Hcur; unfold quoted; cbn; by app_norm).
  rewrite scan_string_complete by done. eexists. split; [|done].
  split; cbn -[c_dquote]; [by rewrite Hcur; unfold quoted; app_norm|]. rewrite length_app. cbn. lia.
Qed.

Lemma literal_walks n v : literal v -> walks_value n v.
Proof.
  intros Hl. apply scalar_walks.
  { destruct (json_head n v (J_literal n v Hl)) as (c & r & -> & Hv & H & _). eauto. }
  intros s c r rest Ev Hcur _. unfold step_value. fold (noted s). cbv zeta.
  assert (literal_of c = v /\ Ascii.eqb c "{" || Ascii.eqb c "[" = false /\ Ascii.eqb c c_dquote = false /\
    Ascii.eqb c "t" || Ascii.eqb c "f" || Ascii.eqb c "n" = true) as (-> & -> & -> & ->).
  { destruct Hl as [-> |[-> | ->]]; injection Ev as <- _; by vm_compute. }
  rewrite step_value_noted, Hcur, take_app_length, bool_decide_true, drop_app_length by done.
  eexists. split; [|unfold i_; by rewrite step_value_noted]. split; [by rewrite Hcur|done].
Qed.

Lemma number_walks n v : number v -> walks_value n v.
Proof.
  intros Hn. destruct (json_head n v (J_number n v Hn)) as (c & r & Ev & Hv & H & _).
  assert (c = "-"%char \/ is_dec_digit c = true) as Hc.
  { destruct Hn as (m & i & f & x & E & Hm & Hi & _). rewrite E in Ev.
    destruct Hm as [-> | ->]; [right|by left; injection Ev].
    destruct Hi as [->|(c' & s' & -> & _ & Hd)]; [by injection Ev as <- _|].
    apply Forall_cons in Hd as [? _]. by injection Ev as <- _. }
  apply scalar_walks; [eauto|]. intros s c' r' rest Ev' Hcur Hdel. rewrite Ev in Ev'. simplify_eq.
  set (cu := ((i_ s + length (c' :: r'))%nat, rest)).
  assert (moved (cur_ s) (c' :: r') cu) as Hm by (split; [by rewrite Hcur|done]).
  exists cu. split; [done|]. unfold step_value. fold (noted s). cbv zeta.
  assert (forall x, In x (list_ascii_of_string "{[tfn") \/ x = c_dquote -> Ascii.eqb c' x = false) as Hne.
  { intros x Hx. apply Ascii.eqb_neq. intros E.
    destruct Hx as [Hx| ->]; [cbn in Hx; repeat destruct Hx as [<-|Hx]; [..|done]|];
      subst c'; by destruct Hc. }
  rewrite !Hne by (cbn; auto 8). cbn [orb].
  assert (negb (Ascii.eqb c' "-") && negb (is_dec_digit c') = false) as ->.
  { destruct Hc as [-> | ->]; [done|by rewrite andb_false_r]. }
  rewrite step_value_noted, (scan_number_complete (cur_ s) (c' :: r') cu) by done. done.
Qed.

(** ** Members *)

(** A machine inside an object, with room for the members [kvs]. *)
Record in_object (n : nat) (s : FrameScanner) (kvs : FrameScan) : Prop := {
  io_inside : inside n s;
  io_mask : Z.testbit (object_mask_ s) (depth_ s - 1) = true;
  io_root : depth_ s = 1 -> root_is_object_ s = true;
  io_room : at_root s = true ->
    have_pending_key_ s = false /\ (length (out_ s) + length kvs <= kMaxTopLevelKeys)%nat;
}.

Definition at_key (s : FrameScanner) : Prop := st_ s = ObjKeyOrClose \/ st_ s = ObjKey.

Definition walks_pre (n : nat) (pre : bytes) (kvs : FrameScan) : Prop := forall s r,
  in_object n s kvs -> st_ s = ObjKeyOrClose -> (cur_ s).2 = pre ++ r ->
  exists s', steps s s' /\ at_key s' /\ moved (cur_ s) pre (cur_ s') /\ recorded kvs s s'.

Definition walks_members (n : nat) (l : bytes) (kvs : FrameScan) : Prop := forall s rest,
  in_object n s kvs -> st_ s = ObjKeyOrClose -> (cur_ s).2 = l ++ rest -> stops rest ->
  exists s' t w, steps s s' /\ st_ s' = AfterValue /\ l = t ++ w /\ ws w /\
    moved (cur_ s) t (cur_ s') /\ recorded kvs s s'.

Definition walks_body (n : nat) (l : bytes) (kvs : FrameScan) : Prop := forall s rest,
  in_object n s kvs -> st_ s = ObjKeyOrClose -> (cur_ s).2 = l ++ "}"%char :: rest ->
  exists s1 s2, steps s s1 /\ done_ s1 = false /\ step s1 = close_container s2 /\
    moved (cur_ s) l (cur_ s2) /\ recorded kvs s s2.

(** The key: its span is noted in the root object. *)
Lemma key_step s w k r t :
  done_ s = false -> at_key s -> (cur_ s).2 = w ++ quoted k ++ r -> ws w -> str_body k -> at_text s t ->
  exists s', step s = Next s' /\ st_ s' = ObjColon /\ moved (cur_ s) (w ++ quoted k) (cur_ s') /\
    f_ s' = f_ s /\ root_is_object_ s' = root_is_object_ s /\ depth_ s' = depth_ s /\
    done_ s' = false /\ object_mask_ s' = object_mask_ s /\ out_ s' = out_ s /\
    value_start_ s' = value_start_ s /\
    (if at_root s then pending_key_ s' = k /\ have_pending_key_ s' = true
     else pending_key_ s' = pending_key_ s /\ have_pending_key_ s' = have_pending_key_ s).
Proof.
  intros Hd Hkey Hcur Hw Hk Hat.
  pose proof (past_moved w s _ Hcur) as Hmw. pose proof (past_cur w s _ Hcur) as Hcw.
  pose proof (moved_text s t w (past w s) Hat eq_refl Hmw) as [Hf Hi].
  assert (step s = step_key c_dquote (past w s)) as ->.
  { rewrite (step_past s w c_dquote (k ++ c_dquote :: r)); [|rewrite Hcur; unfold quoted; by app_norm|done..].
    unfold dispatch. change (st_ (past w s)) with (st_ s). by destruct Hkey as [-> | ->]. }
  unfold step_key. rewrite Ascii.eqb_refl. cbn [negb]. unfold scan_string.
  assert ((next (cur_ (past w s))).2 = k ++ c_dquote :: r) as ->.
  { unfold next. rewrite Hcw. unfold quoted. by app_norm. }
  rewrite scan_string_complete by done.
  set (cu := (((next (cur_ (past w s))).1 + length k + 1)%nat, r)).
  assert (moved (cur_ (past w s)) (quoted k) cu) as Hmk.
  { split; [exact Hcw|]. unfold cu, quoted. cbn. rewrite length_app. cbn. lia. }
  assert (moved (cur_ s) (w ++ quoted k) cu) as Hm by (by eapply moved_trans).
  eexists. split; [done|]. cbn [depth_ root_is_object_ set_cur]. unfold at_root.
  change (depth_ (past w s)) with (depth_ s). change (root_is_object_ (past w s)) with (root_is_object_ s).
  destruct (_ && _); split_and!; try done; try exact Hm.
  cbn [pending_key_ set_st set_pending f_ set_cur]. rewrite Hf, Hcw.
  assert ((t ++ w) ++ quoted k ++ r = ((t ++ w) ++ [c_dquote]) ++ k ++ c_dquote :: r) as ->
    by (unfold quoted; by app_norm).
  assert (length (quoted k) = S (S (length k))) as Hq by (unfold quoted; cbn; rewrite length_app; cbn; lia).
  destruct Hmk as [_ Hlk]. fold (i_ (past w s)) in Hlk. rewrite Hi, Hq in Hlk.
  unfold i_ at 2. cbn [cur_ set_cur]. rewrite Hlk, Hi.
  replace (length (t ++ w) + S (S (length k)) - 1 - S (length (t ++ w)))%nat with (length k) by lia.
  replace (S (length (t ++ w))) with (length ((t ++ w) ++ [c_dquote])) by (rewrite (length_app (t ++ w)); cbn; lia).
  apply substr_exact.
Qed.

(** One structural byte: [++i_] and the next state. *)
Lemma byte_step s w c r st :
  (cur_ s).2 = w ++ c :: r -> ws w -> visible c ->
  dispatch c (past w s) = Next (set_st st (set_cur (next (cur_ (past w s))) (past w s))) ->
  exists s', step s = Next s' /\ s' = set_st st (set_cur (next (cur_ (past w s))) (past w s)) /\
    moved (cur_ s) (w ++ [c]) (cur_ s').
Proof.
  intros Hcur Hw [Hc1 Hc2] Hd. eexists. split; [by rewrite (step_past s w c r)|]. split; [done|].
  eapply moved_trans; [by apply (past_moved w s (c :: r))|].
  apply moved_next. unfold at_char. rewrite (past_cur w s (c :: r) Hcur). apply Ascii.eqb_refl.
Qed.

(** [value_done] inside a container. *)
Lemma value_done_inside s :
  1 <= depth_ s ->
  (if depth_ s =? 1 then have_pending_key_ s = true /\ (length (out_ s) < kMaxTopLevelKeys)%nat else True) ->
  value_done s = Next (set_st AfterValue
    (if depth_ s =? 1 then record_field (pending_key_ s,
       substr (f_ s) (value_start_ s) (i_ s - value_start_ s)) s else s)).
Proof.
  intros Hd Hr. unfold value_done. cbv zeta. destruct (Z.eqb_spec (depth_ s) 1) as [E|E]; cbn [andb].
  - destruct Hr as [-> Hl]. rewrite (proj2 (Nat.eqb_neq _ _)) by lia. cbn [depth_ record_field].
    by rewrite E.
  - rewrite (proj2 (Z.eqb_neq (depth_ s) 0)) by lia. done.
Qed.

Lemma recorded_at_root kvs s s' : recorded kvs s s' -> at_root s' = at_root s.
Proof. intros [? E1 E2 _ _ _]. unfold at_root. by rewrite E1, E2. Qed.

(** The [value_done] of a value whose walk began at [s3], in an object. *)
Lemma member_done s3 s5 w v t r :
  at_text s3 t -> (cur_ s3).2 = w ++ v ++ r -> unchanged (noted (past w s3)) s5 ->
  moved (cur_ s3) (w ++ v) (cur_ s5) -> 1 <= depth_ s3 -> (depth_ s3 = 1 -> root_is_object_ s3 = true) ->
  (at_root s3 = true -> have_pending_key_ s3 = true /\ (length (out_ s3) < kMaxTopLevelKeys)%nat) ->
  exists s6, value_done s5 = Next s6 /\ st_ s6 = AfterValue /\ cur_ s6 = cur_ s5 /\
    f_ s6 = f_ s3 /\ root_is_object_ s6 = root_is_object_ s3 /\ depth_ s6 = depth_ s3 /\
    done_ s6 = false /\
    (forall j, 0 <= j < depth_ s3 -> Z.testbit (object_mask_ s6) j = Z.testbit (object_mask_ s3) j) /\
    (if at_root s3 then out_ s6 = out_ s3 ++ [(pending_key_ s3, v)] /\ have_pending_key_ s6 = false
     else out_ s6 = out_ s3 /\ have_pending_key_ s6 = have_pending_key_ s3 /\
          pending_key_ s6 = pending_key_ s3 /\ value_start_ s6 = value_start_ s3).
Proof.
  intros Hat Hcur [U1 U2 U3 U4 U5 U6 U7 U8 U9] Hm Hd Hroot Hroom.
  destruct (noted_fields (past w s3)) as (E1&E2&E3&E4&E5&E6&E7&E8&E9&_).
  rewrite E1 in U1. rewrite E8 in U2. rewrite E4 in U3, U5. rewrite E2 in U6. rewrite E7 in U7. rewrite E6 in U8.
  setoid_rewrite E5 in U5.
  cbn [past set_cur f_ out_ depth_ object_mask_ pending_key_ have_pending_key_ root_is_object_] in *.
  pose proof (moved_text s3 t (w ++ v) s5 Hat U1 Hm) as [Hf5 Hi5].
  pose proof (moved_text s3 t w (past w s3) Hat eq_refl (past_moved w s3 _ Hcur)) as [_ Hi].
  unfold at_root in *. destruct (Z.eqb_spec (depth_ s3) 1) as [Ed|Ed]; cbn [andb] in *.
  - rewrite (Hroot Ed) in *. destruct (Hroom eq_refl) as [Hh Hl]. eexists.
    split; [apply value_done_inside; [lia|]; rewrite U3, Ed; cbn; by rewrite U7, U6|].
    rewrite U3, Ed. cbn [Z.eqb Pos.eqb]. cbn. rewrite Ed in U5. split_and!; try done; try congruence.
    assert (value_start_ s5 = length (t ++ w)) as ->.
    { rewrite U9. unfold noted. cbn [depth_ past set_cur root_is_object_]. rewrite Ed, (Hroot Ed).
      cbn -[past]. exact Hi. }
    rewrite U6, U8, Hf5, Hi5. do 3 f_equal.
    replace (length (t ++ w ++ v) - length (t ++ w))%nat with (length v) by (rewrite !length_app; lia).
    replace ((t ++ w ++ v) ++ (cur_ s5).2) with ((t ++ w) ++ v ++ (cur_ s5).2) by app_norm.
    apply substr_exact.
  - eexists. split; [apply value_done_inside; [lia|]; by rewrite U3, (proj2 (Z.eqb_neq _ _) Ed)|].
    rewrite U3, (proj2 (Z.eqb_neq _ _) Ed). cbn. split_and!; try done; try congruence.
    rewrite U9. unfold noted. cbn [depth_ past set_cur root_is_object_].
    by rewrite (proj2 (Z.eqb_neq _ _) Ed).
Qed.

(** A key, a colon and a value after what precedes them. *)
Lemma member_walks n pre kvs w1 k w2 w3 v w4 :
  walks_pre n pre kvs -> ws w1 -> str_body k -> ws w2 -> ws w3 -> walks_value n v -> ws w4 ->
  walks_members n (pre ++ w1 ++ quoted k ++ w2 ++ ":"%char :: w3 ++ v ++ w4) (kvs ++ [(k, v)]).
Proof.
  intros Hpre Hw1 Hk Hw2 Hw3 Hv Hw4 s rest [Hin Hmask Hroot Hroom] Hst Hcur Hstop.
  assert (in_object n s kvs) as Hobj.
  { split; try done. intros Hr. destruct (Hroom Hr) as [? Hl]. rewrite length_app in Hl. split; [done|lia]. }
  destruct (Hpre s (w1 ++ quoted k ++ w2 ++ ":"%char :: w3 ++ v ++ w4 ++ rest) Hobj Hst)
    as (s1 & Hs1 & Hk1 & Hm1 & Hr1); [rewrite Hcur; by app_norm|].
  pose proof (recorded_at_root _ _ _ Hr1) as Ear1. pose proof Hr1 as [E1f E1r E1d E1done E1m E1fi].
  destruct (in_text _ _ Hin) as [t0 Hat]. pose proof (moved_text s t0 pre s1 Hat E1f Hm1) as Hat1.
  assert ((cur_ s1).2 = w1 ++ quoted k ++ w2 ++ ":"%char :: w3 ++ v ++ w4 ++ rest) as Hc1
    by (eapply moved_rest; [exact Hm1|rewrite Hcur; by app_norm]).
  destruct (key_step s1 w1 k _ _ E1done Hk1 Hc1 Hw1 Hk Hat1)
    as (s2 & Hs2 & Hst2 & Hm2 & E2f & E2r & E2d & E2done & E2m & E2o & E2v & E2p).
  assert ((cur_ s2).2 = w2 ++ ":"%char :: w3 ++ v ++ w4 ++ rest) as Hc2
    by (eapply moved_rest; [exact Hm2|rewrite Hc1; by app_norm]).
  destruct (byte_step s2 w2 ":" _ Value Hc2 Hw2) as (s3 & Hs3 & E3 & Hm3);
    [by apply visible_ord|unfold dispatch; change (st_ (past w2 s2)) with (st_ s2); by rewrite Hst2|].
  pose proof (moved_text _ _ _ s2 Hat1 E2f Hm2) as Hat2.
  assert (f_ s3 = f_ s2) as E3f by (by rewrite E3).
  pose proof (moved_text _ _ _ s3 Hat2 E3f Hm3) as Hat3.
  assert ((cur_ s3).2 = w3 ++ v ++ w4 ++ rest) as Hc3
    by (eapply moved_rest; [exact Hm3|rewrite Hc2; by app_norm]).
  assert (depth_ s3 = depth_ s /\ root_is_object_ s3 = root_is_object_ s /\ object_mask_ s3 = object_mask_ s1 /\
    out_ s3 = out_ s1 /\ have_pending_key_ s3 = have_pending_key_ s2 /\ pending_key_ s3 = pending_key_ s2 /\
    value_start_ s3 = value_start_ s1) as (D3 & R3 & M3 & O3 & H3 & P3 & V3)
    by (rewrite E3; cbn; split_and!; congruence).
  assert (inside n s3) as Hin3.
  { split; [by rewrite E3|by eexists|]. rewrite D3. apply Hin. }
  destruct (Hv s3 w3 (w4 ++ rest) Hin3) as (s4 & s5 & Hs4 & Hd4 & Hv4 & Hm4 & Hu); try done;
    [left; by rewrite E3|by apply ws_stops_delimited|].
  assert (at_root s3 = at_root s) as Ear3 by (unfold at_root; by rewrite D3, R3).
  destruct (member_done s3 s5 w3 v _ (w4 ++ rest) Hat3 Hc3 Hu Hm4)
    as (s6 & Hs6 & Hst6 & Hc6 & E6f & E6r & E6d & E6done & E6m & E6fi).
  - rewrite D3. apply Hin.
  - by rewrite D3, R3.
  - rewrite Ear3. intros Hr. rewrite Ear1, Hr in E2p. rewrite Hr in E1fi. destruct E2p as [_ E2h], E1fi as [E1o _].
    destruct (Hroom Hr) as [_ Hl]. rewrite O3, H3, E1o. split; [done|]. rewrite length_app in Hl |- *. cbn in Hl. lia.
  - exists s6, (pre ++ w1 ++ quoted k ++ w2 ++ ":"%char :: w3 ++ v), w4. split_and!; [|done|by app_norm|done| |].
    + eapply steps_trans; [exact Hs1|]. eapply steps_cons; [exact E1done|exact Hs2|].
      eapply steps_cons; [exact E2done|exact Hs3|]. eapply steps_trans; [exact Hs4|].
      apply steps_one; [done|]. by rewrite Hv4.
    + rewrite Hc6. replace (pre ++ w1 ++ quoted k ++ w2 ++ ":"%char :: w3 ++ v)
        with (pre ++ (w1 ++ quoted k) ++ (w2 ++ [":"%char]) ++ (w3 ++ v)) by app_norm.
      do 3 (eapply moved_trans; [eassumption|]). done.
    + split; [congruence..|done| |].
      * intros j Hj. rewrite E6m, M3 by (by rewrite D3). by apply E1m.
      * rewrite Ear3 in E6fi. rewrite Ear1 in E2p. destruct (at_root s).
        -- destruct E6fi as [F1 F2], E2p as [E2p _], E1fi as [E1o _]. split; [|done].
           rewrite F1, O3, E1o, P3, E2p. by app_norm.
        -- destruct E6fi as (F1 & F2 & F3 & F4), E2p as [G1 G2], E1fi as (I1 & I2 & I3 & I4).
           rewrite F1, F2, F3, F4, O3, H3, P3, V3, G1, G2. by split_and!.
Qed.

Lemma pre_first_walks n : walks_pre n [] [].
Proof.
  intros s r [[Hd _ _] _ _ Hroom] Hst Hcur. exists s. split_and!; [constructor|by left|apply moved_nil|].
  split; try done. destruct (at_root s); [|done]. rewrite app_nil_r. by destruct (Hroom eq_refl).
Qed.

(** [step_after] in an object. *)
Lemma after_object_step c s :
  st_ s = AfterValue -> Z.testbit (object_mask_ s) (depth_ s - 1) = true ->
  dispatch "," s = Next (set_st ObjKey (set_cur (next (cur_ s)) s)) /\
  (c = "}"%char -> dispatch c s = close_container s).
Proof. intros Hst Hm. unfold dispatch, step_after. rewrite Hst, Hm. split; [done|]. by intros ->. Qed.

Lemma recorded_mask kvs s s' :
  1 <= depth_ s -> recorded kvs s s' ->
  Z.testbit (object_mask_ s') (depth_ s' - 1) = Z.testbit (object_mask_ s) (depth_ s - 1).
Proof. intros Hd [_ _ E _ Em _]. rewrite E. apply Em. lia. Qed.

Lemma recorded_cursor kvs s s' s'' :
  recorded kvs s s' -> f_ s'' = f_ s' -> out_ s'' = out_ s' -> depth_ s'' = depth_ s' ->
  object_mask_ s'' = object_mask_ s' -> pending_key_ s'' = pending_key_ s' ->
  have_pending_key_ s'' = have_pending_key_ s' -> value_start_ s'' = value_start_ s' ->
  root_is_object_ s'' = root_is_object_ s' -> done_ s'' = done_ s' -> recorded kvs s s''.
Proof.
  intros [A1 A2 A3 A4 A5 A6] B1 B2 B3 B4 B5 B6 B7 B8 B9. split; try congruence.
  - intros j Hj. rewrite B4. by apply A5.
  - by rewrite B2, B5, B6, B7.
Qed.

Lemma pre_next_walks n l kvs : walks_members n l kvs -> walks_pre n (l ++ [","%char]) kvs.
Proof.
  intros Hl s r Hobj Hst Hcur.
  destruct (Hl s (","%char :: r) Hobj Hst) as (s1 & t & w & Hs1 & Hst1 & -> & Hw & Hm & Hr);
    [rewrite Hcur; by app_norm|do 2 eexists; split; [done|auto]|].
  destruct Hobj as [[_ _ [Hd _]] Hmask _ _].
  pose proof (recorded_mask _ _ _ Hd Hr) as Hb. rewrite Hmask in Hb.
  assert ((cur_ s1).2 = w ++ ","%char :: r) as Hc1 by (eapply moved_rest; [exact Hm|rewrite Hcur; by app_norm]).
  destruct (byte_step s1 w "," r ObjKey Hc1 Hw) as (s2 & Hs2 & E2 & Hm2);
    [by apply visible_ord|by apply (after_object_step "," (past w s1))|].
  exists s2. split_and!.
  - eapply steps_trans; [exact Hs1|]. apply steps_one; [apply Hr|exact Hs2].
  - right. by rewrite E2.
  - rewrite <- app_assoc. by eapply moved_trans.
  - by eapply recorded_cursor; [exact Hr|rewrite E2..].
Qed.

Lemma body_empty_walks n w : ws w -> walks_body n w [].
Proof.
  intros Hw s rest [[Hd _ _] _ _ Hroom] Hst Hcur. exists s, (past w s).
  split_and!; [constructor|done| |by apply (past_moved w s _ Hcur)|].
  - rewrite (step_past s w "}" rest); [|done..]. unfold dispatch.
    change (st_ (past w s)) with (st_ s). by rewrite Hst.
  - split; try done. change (out_ (past w s)) with (out_ s). destruct (at_root s); [|done].
    rewrite app_nil_r. by destruct (Hroom eq_refl).
Qed.

Lemma body_members_walks n l kvs : walks_members n l kvs -> walks_body n l kvs.
Proof.
  intros Hl s rest Hobj Hst Hcur.
  destruct (Hl s ("}"%char :: rest) Hobj Hst) as (s1 & t & w & Hs1 & Hst1 & -> & Hw & Hm & Hr);
    [rewrite Hcur; by app_norm|do 2 eexists; split; [done|auto]|].
  destruct Hobj as [[_ _ [Hd _]] Hmask _ _].
  pose proof (recorded_mask _ _ _ Hd Hr) as Hb. rewrite Hmask in Hb.
  assert ((cur_ s1).2 = w ++ "}"%char :: rest) as Hc1 by (eapply moved_rest; [exact Hm|rewrite Hcur; by app_norm]).
  exists s1, (past w s1). split_and!; [done|apply Hr| | |].
  - rewrite (step_past s1 w "}" rest) by done. by apply (after_object_step "}" (past w s1)).
  - eapply moved_trans; [exact Hm|]. by apply (past_moved w s1 _ Hc1).
  - by eapply recorded_cursor.
Qed.

(** ** Elements, in an array that is not the root *)

Record in_array (n : nat) (s : FrameScanner) : Prop := {
  ia_inside : inside n s;
  ia_mask : Z.testbit (object_mask_ s) (depth_ s - 1) = false;
  ia_deep : 2 <= depth_ s;
}.

Definition at_value (s : FrameScanner) : Prop := st_ s = Value \/ st_ s = ArrValueOrClose.

Definition walks_epre (n : nat) (pre : bytes) : Prop := forall s r,
  in_array n s -> st_ s = ArrValueOrClose -> (cur_ s).2 = pre ++ r ->
  exists s', steps s s' /\ at_value s' /\ moved (cur_ s) pre (cur_ s') /\ unchanged s s'.

Definition walks_elements (n : nat) (l : bytes) : Prop := forall s rest,
  in_array n s -> st_ s = ArrValueOrClose -> (cur_ s).2 = l ++ rest -> stops rest ->
  exists s' t w, steps s s' /\ st_ s' = AfterValue /\ l = t ++ w /\ ws w /\
    moved (cur_ s) t (cur_ s') /\ unchanged s s'.

Definition walks_abody (n : nat) (l : bytes) : Prop := forall s rest,
  in_array n s -> st_ s = ArrValueOrClose -> (cur_ s).2 = l ++ "]"%char :: rest ->
  exists s1 s2, steps s s1 /\ done_ s1 = false /\ step s1 = close_container s2 /\
    moved (cur_ s) l (cur_ s2) /\ unchanged s s2.

Lemma noted_deep s : 2 <= depth_ s -> noted s = s.
Proof. intros Hd. unfold noted. by rewrite (proj2 (Z.eqb_neq _ _)) by lia. Qed.

Lemma unchanged_inside n s s' t :
  inside n s -> unchanged s s' -> moved (cur_ s) t (cur_ s') -> inside n s'.
Proof.
  intros [Hd [t0 Hat] Hdep] Hu Hm. split; [apply Hu| |by rewrite (un_depth _ _ Hu)].
  exists (t0 ++ t). by eapply moved_text; [|apply Hu|].
Qed.

Lemma unchanged_in_array n s s' t :
  in_array n s -> unchanged s s' -> moved (cur_ s) t (cur_ s') -> in_array n s'.
Proof.
  intros [Hi Hm Hd] Hu Hmv. split; [by eapply unchanged_inside| |].
  - rewrite (un_depth _ _ Hu), (un_mask _ _ Hu) by lia. done.
  - by rewrite (un_depth _ _ Hu).
Qed.

Lemma element_walks n pre w1 v w2 :
  walks_epre n pre -> ws w1 -> walks_value n v -> ws w2 -> walks_elements n (pre ++ w1 ++ v ++ w2).
Proof.
  intros Hpre Hw1 Hv Hw2 s rest Hin Hst Hcur Hstop.
  destruct (Hpre s (w1 ++ v ++ w2 ++ rest) Hin Hst) as (s1 & Hs1 & Hst1 & Hm1 & Hu1);
    [rewrite Hcur; by app_norm|].
  pose proof (unchanged_in_array _ _ _ _ Hin Hu1 Hm1) as Hin1.
  destruct (Hv s1 w1 (w2 ++ rest) (ia_inside _ _ Hin1) Hst1) as (s2 & s3 & Hs2 & Hd2 & Hv2 & Hm2 & Hu2);
    [eapply moved_rest; [exact Hm1|rewrite Hcur; by app_norm]|done|by apply ws_stops_delimited|].
  pose proof (ia_deep _ _ Hin1) as Hdeep. rewrite noted_deep in Hu2 by done.
  assert (unchanged s1 s3) as Hu3 by (by destruct Hu2).
  exists (set_st AfterValue s3), (pre ++ w1 ++ v), w2. split_and!; [|done|by app_norm|done| |].
  - eapply steps_trans; [exact Hs1|]. eapply steps_trans; [exact Hs2|]. apply steps_one; [done|].
    assert (depth_ s3 = depth_ s1) as Ed by apply Hu3.
    assert ((depth_ s3 =? 1) = false) as E1 by (apply Z.eqb_neq; lia).
    rewrite Hv2, value_done_inside; rewrite ?E1; [done|lia|done].
  - by eapply moved_trans.
  - pose proof (unchanged_trans _ _ _ Hu1 Hu3) as Hu. by destruct Hu.
Qed.

Lemma after_array_step c s :
  st_ s = AfterValue -> Z.testbit (object_mask_ s) (depth_ s - 1) = false ->
  dispatch "," s = Next (set_st Value (set_cur (next (cur_ s)) s)) /\
  (c = "]"%char -> dispatch c s = close_container s).
Proof. intros Hst Hm. unfold dispatch, step_after. rewrite Hst, Hm. split; [done|]. by intros ->. Qed.

Lemma epre_first_walks n : walks_epre n [].
Proof.
  intros s r Hin Hst Hcur. exists s. split_and!; [constructor|by right|apply moved_nil|].
  apply unchanged_refl, Hin.
Qed.

Lemma epre_next_walks n l : walks_elements n l -> walks_epre n (l ++ [","%char]).
Proof.
  intros Hl s r Hin Hst Hcur.
  destruct (Hl s (","%char :: r) Hin Hst) as (s1 & t & w & Hs1 & Hst1 & -> & Hw & Hm & Hu);
    [rewrite Hcur; by app_norm|do 2 eexists; split; [done|auto]|].
  pose proof (unchanged_in_array _ _ _ _ Hin Hu Hm) as Hin1.
  assert ((cur_ s1).2 = w ++ ","%char :: r) as Hc1 by (eapply moved_rest; [exact Hm|rewrite Hcur; by app_norm]).
  destruct (byte_step s1 w "," r Value Hc1 Hw) as (s2 & Hs2 & E2 & Hm2);
    [by apply visible_ord|by apply (after_array_step "," (past w s1)), Hin1|].
  exists s2. split_and!.
  - eapply steps_trans; [exact Hs1|]. apply steps_one; [apply Hu|exact Hs2].
  - left. by rewrite E2.
  - rewrite <- app_assoc. by eapply moved_trans.
  - rewrite E2. by destruct Hu.
Qed.

Lemma abody_empty_walks n w : ws w -> walks_abody n w.
Proof.
  intros Hw s rest Hin Hst Hcur. exists s, (past w s).
  split_and!; [constructor|apply Hin| |by apply (past_moved w s _ Hcur)|].
  - rewrite (step_past s w "]" rest); [|done..]. unfold dispatch.
    change (st_ (past w s)) with (st_ s). by rewrite Hst.
  - apply set_cur_unchanged, unchanged_refl, Hin.
Qed.

Lemma abody_elements_walks n l : walks_elements n l -> walks_abody n l.
Proof.
  intros Hl s rest Hin Hst Hcur.
  destruct (Hl s ("]"%char :: rest) Hin Hst) as (s1 & t & w & Hs1 & Hst1 & -> & Hw & Hm & Hu);
    [rewrite Hcur; by app_norm|do 2 eexists; split; [done|auto]|].
  pose proof (unchanged_in_array _ _ _ _ Hin Hu Hm) as Hin1.
  assert ((cur_ s1).2 = w ++ "]"%char :: rest) as Hc1 by (eapply moved_rest; [exact Hm|rewrite Hcur; by app_norm]).
  exists s1, (past w s1). split_and!; [done|apply Hu| | |].
  - rewrite (step_past s1 w "]" rest) by done.
    apply (after_array_step "]" (past w s1)); [done|apply Hin1|done].
  - eapply moved_trans; [exact Hm|]. by apply (past_moved w s1 _ Hc1).
  - by apply set_cur_unchanged.
Qed.

(** ** Containers *)

(** The step that opens a container. *)
Lemma open_step n s w b r :
  inside (S n) s -> at_value s -> (cur_ s).2 = w ++ open_char b :: r -> ws w ->
  exists s1, step s = Next s1 /\ st_ s1 = (if b then ObjKeyOrClose else ArrValueOrClose) /\
    moved (cur_ s) (w ++ [open_char b]) (cur_ s1) /\ inside n s1 /\
    depth_ s1 = depth_ s + 1 /\ object_mask_ s1 = mask_open (object_mask_ s) b (depth_ s) /\
    s1 = set_cur (cur_ s1) (set_st (st_ s1) (set_depth (depth_ s1)
           (set_mask (object_mask_ s1) (noted (past w s))))).
Proof.
  intros [Hd [t Hat] Hdep] Hst Hcur Hw.
  assert (visible (open_char b) /\ open_char b <> "]"%char) as [Hv Hne]
    by (destruct b; (split; [by apply visible_ord|done])).
  rewrite (step_value_past s w (open_char b) r) by done. unfold step_value. fold (noted (past w s)). cbv zeta.
  assert (Ascii.eqb (open_char b) "{" || Ascii.eqb (open_char b) "[" = true) as -> by (by destruct b).
  destruct (noted_fields (past w s)) as (E1&E2&E3&E4&E5&E6&E7&E8&E9&_).
  unfold open_container. rewrite E4. change (depth_ (past w s)) with (depth_ s).
  rewrite (proj2 (Z.eqb_neq _ _)) by (unfold kMaxNestingDepth; lia).
  assert (Ascii.eqb (open_char b) "{" = b) as -> by (by destruct b).
  eexists. split; [done|].
  assert (moved (cur_ s) (w ++ [open_char b]) (next (cur_ (past w s)))) as Hm.
  { eapply moved_trans; [by apply (past_moved w s _ Hcur)|]. apply moved_next.
    unfold at_char. rewrite (past_cur w s _ Hcur). apply Ascii.eqb_refl. }
  cbn [st_ cur_ depth_ object_mask_ set_cur set_st set_depth set_mask]. rewrite E3, E5.
  split_and!; try done.
  split; [cbn; by rewrite E9| |cbn; lia]. exists (t ++ w ++ [open_char b]).
  eapply moved_text; [exact Hat|exact E1|exact Hm].
Qed.

Lemma close_unchanged s s0 s1 s3 b cu :
  s0 = noted s -> depth_ s1 = depth_ s + 1 -> object_mask_ s1 = mask_open (object_mask_ s) b (depth_ s) ->
  0 <= depth_ s < 32 -> done_ s = false ->
  s1 = set_cur (cur_ s1) (set_st (st_ s1) (set_depth (depth_ s1) (set_mask (object_mask_ s1) s0))) ->
  unchanged s1 s3 -> unchanged s0 (set_depth (depth_ s3 - 1) (set_cur cu s3)).
Proof.
  intros E0 Ed Em Hr Hd E1 [U1 U2 U3 U4 U5 U6 U7 U8 U9].
  destruct (noted_fields s) as (F1&F2&F3&F4&F5&F6&F7&F8&F9&_). rewrite <- E0 in *.
  rewrite E1 in U1, U2, U6, U7, U8, U9. cbn in U1, U2, U6, U7, U8, U9.
  split; cbn; try done.
  - rewrite U3, Ed, F4. lia.
  - intros j Hj. rewrite F4 in Hj. rewrite U5 by lia. rewrite Em, F5, mask_open_bit by lia.
    by rewrite decide_False by lia.
Qed.

Lemma recorded_deep kvs s s' : at_root s = false -> recorded kvs s s' -> unchanged s s'.
Proof. intros Hr [A1 A2 A3 A4 A5 A6]. rewrite Hr in A6. destruct A6 as (?&?&?&?). by split. Qed.

Lemma object_walks n l kvs : walks_body n l kvs -> walks_value (S n) ("{"%char :: l ++ ["}"%char]).
Proof.
  intros Hl s w rest Hin Hst Hcur Hw _.
  destruct (open_step n s w true (l ++ "}"%char :: rest) Hin Hst)
    as (s1 & Hs1 & Hst1 & Hm1 & Hin1 & Hd1 & Hmask1 & E1); [rewrite Hcur; by app_norm|done|].
  destruct Hin as [Hd _ Hdep].
  assert (in_object n s1 kvs) as Hobj.
  { split; [done| | |].
    - rewrite Hd1, Hmask1, mask_open_bit by lia. by rewrite decide_True by lia.
    - lia.
    - unfold at_root. rewrite (proj2 (Z.eqb_neq (depth_ s1) 1)) by lia. done. }
  assert ((cur_ s1).2 = l ++ "}"%char :: rest) as Hc1
    by (eapply moved_rest; [exact Hm1|rewrite Hcur; by app_norm]).
  destruct (Hl s1 rest Hobj Hst1 Hc1) as (s2 & s3 & Hs2 & Hd2 & Hv2 & Hm3 & Hr3).
  assert (unchanged s1 s3) as Hu.
  { eapply recorded_deep; [|exact Hr3]. unfold at_root. by rewrite (proj2 (Z.eqb_neq (depth_ s1) 1)) by lia. }
  exists s2, (set_depth (depth_ s3 - 1) (set_cur (next (cur_ s3)) s3)).
  split_and!; [by eapply steps_cons|done|exact Hv2| |].
  - replace (w ++ "{"%char :: l ++ ["}"%char]) with ((w ++ ["{"%char]) ++ l ++ ["}"%char]) by app_norm.
    eapply moved_trans; [exact Hm1|]. eapply moved_trans; [exact Hm3|]. apply moved_next.
    unfold at_char. rewrite (moved_rest _ _ _ ("}"%char :: rest) Hm3) by done. done.
  - eapply (close_unchanged (past w s) _ s1 s3 true); try done. cbn. lia.
Qed.

Lemma array_walks n l : walks_abody n l -> walks_value (S n) ("["%char :: l ++ ["]"%char]).
Proof.
  intros Hl s w rest Hin Hst Hcur Hw _.
  destruct (open_step n s w false (l ++ "]"%char :: rest) Hin Hst)
    as (s1 & Hs1 & Hst1 & Hm1 & Hin1 & Hd1 & Hmask1 & E1); [rewrite Hcur; by app_norm|done|].
  destruct Hin as [Hd _ Hdep].
  assert (in_array n s1) as Harr.
  { split; [done| |lia]. rewrite Hd1, Hmask1, mask_open_bit by lia. by rewrite decide_True by lia. }
  assert ((cur_ s1).2 = l ++ "]"%char :: rest) as Hc1
    by (eapply moved_rest; [exact Hm1|rewrite Hcur; by app_norm]).
  destruct (Hl s1 rest Harr Hst1 Hc1) as (s2 & s3 & Hs2 & Hd2 & Hv2 & Hm3 & Hu).
  exists s2, (set_depth (depth_ s3 - 1) (set_cur (next (cur_ s3)) s3)).
  split_and!; [by eapply steps_cons|done|exact Hv2| |].
  - replace (w ++ "["%char :: l ++ ["]"%char]) with ((w ++ ["["%char]) ++ l ++ ["]"%char]) by app_norm.
    eapply moved_trans; [exact Hm1|]. eapply moved_trans; [exact Hm3|]. apply moved_next.
    unfold at_char. rewrite (moved_rest _ _ _ ("]"%char :: rest) Hm3) by done. done.
  - eapply (close_unchanged (past w s) _ s1 s3 false); try done. cbn. lia.
Qed.

(** ** The grammar, by mutual induction *)

Scheme json_mut := Minimality for json Sort Prop
with obj_body_mut := Minimality for obj_body Sort Prop
with members_mut := Minimality for members Sort Prop
with member_pre_mut := Minimality for member_pre Sort Prop
with arr_body_mut := Minimality for arr_body Sort Prop
with elements_mut := Minimality for elements Sort Prop
with element_pre_mut := Minimality for element_pre Sort Prop.

Lemma body_walks n l kvs : obj_body n l kvs -> walks_body n l kvs.
Proof.
  apply (obj_body_mut walks_value walks_body walks_members walks_pre walks_abody walks_elements walks_epre).
  - intros n0 k Hk. by apply string_walks.
  - intros n0 s Hl. by apply literal_walks.
  - intros n0 s Hn. by apply number_walks.
  - intros n0 l0 kvs0 _. apply object_walks.
  - intros n0 l0 _. apply array_walks.
  - apply body_empty_walks.
  - intros n0 l0 kvs0 _. apply body_members_walks.
  - intros. by apply member_walks.
  - apply pre_first_walks.
  - intros n0 l0 kvs0 _. apply pre_next_walks.
  - apply abody_empty_walks.
  - intros n0 l0 _. apply abody_elements_walks.
  - intros. by apply element_walks.
  - apply epre_first_walks.
  - intros n0 l0 _. apply epre_next_walks.
Qed.

(** ** The whole frame *)

(** The machine inside the root object. *)
Definition opened (frame : bytes) (cu : Cursor) : FrameScanner :=
  set_st ObjKeyOrClose (set_cur (next cu) (set_depth 1 (set_mask 1 (initial frame true cu)))).

Lemma opened_walk frame cu kvs w2 t :
  frame = t ++ cu.2 -> cu.1 = length t -> (length kvs <= kMaxTopLevelKeys)%nat ->
  (exists body, cu.2 = "{"%char :: body ++ "}"%char :: w2 /\ obj_body 31 body kvs) ->
  exists s4, steps (opened frame cu) s4 /\ done_ s4 = true /\ (cur_ s4).2 = w2 /\
    root_is_object_ s4 = true /\ out_ s4 = kvs.
Proof.
  intros Hf Hi Hlen (body & Hcu & Hb). set (s1 := opened frame cu).
  assert (in_object 31 s1 kvs) as Hobj.
  { split; [|done|done|done]. split; [done| |cbn; lia]. exists (t ++ ["{"%char]). split; cbn.
    - rewrite Hf, Hcu. cbn. by app_norm.
    - unfold i_. cbn. rewrite Hi, length_app. cbn. lia. }
  assert ((cur_ s1).2 = body ++ "}"%char :: w2) as Hc1 by (cbn; by rewrite Hcu).
  destruct (body_walks _ _ _ Hb s1 w2 Hobj eq_refl Hc1) as (s2 & s3 & Hs2 & Hd2 & Hv2 & Hm3 & [R1 R2 R3 R4 _ [R5 R6]]).
  exists (set_done (set_depth (depth_ s3 - 1) (set_cur (next (cur_ s3)) s3))). split_and!; try done.
  - eapply steps_trans; [exact Hs2|]. apply steps_one; [done|]. rewrite Hv2.
    unfold close_container, value_done. cbv zeta. cbn [depth_ set_depth]. by rewrite R3.
  - cbn. rewrite (moved_rest _ _ _ ("}"%char :: w2) Hm3) by done. done.
Qed.

Lemma scan_frame_complete frame kvs :
  object_text 31 frame kvs -> (length kvs <= kMaxTopLevelKeys)%nat ->
  scan_frame frame = Some (inr kvs).
Proof.
  intros (w1 & body & w2 & -> & Hw1 & Hw2 & Hb) Hlen. unfold scan_frame. cbv zeta.
  set (frame := w1 ++ "{"%char :: body ++ "}"%char :: w2).
  pose proof (skip_while_moved is_ws (0%nat, frame)) as Hm0. cbn [snd] in Hm0. unfold frame in Hm0 at 2.
  rewrite ws_head_false in Hm0 by done. change (skip_while is_ws) with skip_ws in Hm0.
  set (cu := skip_ws (0%nat, frame)) in *.
  assert (cu.2 = "{"%char :: body ++ "}"%char :: w2) as Hcu by (eapply moved_rest; [exact Hm0|done]).
  destruct Hm0 as [Hf Hi]. clearbody cu. cbn [fst snd Nat.add] in Hf, Hi.
  rewrite Hcu. change (Ascii.eqb "{" "{") with true.
  destruct (opened_walk frame cu kvs w2 w1 Hf Hi Hlen) as (s4 & Hs & Hd & Hc4 & Hro & Hout); [by eexists|].
  pose proof (f_equal length Hf) as Hlf. rewrite length_app in Hlf.
  rewrite (steps_loop (initial frame true cu) s4 (S (length frame))); [|
    |done|unfold remaining; cbn [cur_ initial]; lia].
  - unfold finish. cbv zeta. cbn [cur_ set_cur]. unfold skip_ws, skip_while. rewrite Hc4. cbn [snd].
    assert (drop_while is_ws w2 = []) as ->.
    { clear - Hw2. induction Hw2 as [|x w Hx _ IH]; cbn; [done|]. by rewrite Hx. }
    cbn [root_is_object_ set_cur out_]. by rewrite Hro, Hout.
  - eapply steps_cons; [done| |exact Hs].
    rewrite (step_past _ [] "{" (body ++ "}"%char :: w2)); [|exact Hcu|constructor|done|done].
    assert (past [] (initial frame true cu) = initial frame true cu) as ->.
    { unfold past, initial, set_cur. cbn. unfold i_. cbn. rewrite Nat.add_0_r, drop_0. by destruct cu. }
    reflexivity.
Qed.

Lemma has_duplicate_spec seen l : has_duplicate seen l = false <-> NoDup l.*1 /\ (forall k, k ∈ l.*1 -> k ∉ seen).
Proof.
  revert seen. induction l as [|f l IH]; intros seen; cbn [has_duplicate].
  - split; [|done]. intros _. split; [constructor|]. intros k. by intros ?%elem_of_nil.
  - rewrite orb_false_iff, IH, fmap_cons, NoDup_cons. split.
    + intros [Hn [Hnd Hs]]. assert (f.1 ∉ seen) as Hf.
      { intros Hin. apply Bool.not_true_iff_false in Hn. apply Hn, existsb_exists.
        exists f.1. split; [by apply list_elem_of_In|]. by apply bool_decide_true. }
      split_and!; [|done|].
      * intros Hin. apply (Hs _ Hin). apply elem_of_app. right. by left.
      * intros k [->|Hk]%elem_of_cons; [done|]. intros Hin. apply (Hs _ Hk), elem_of_app. by left.
    + intros [[Hnf Hnd] Hs]. split_and!; [|done|].
      * apply Bool.not_true_iff_false. intros (k & Hk & E)%existsb_exists.
        apply bool_decide_eq_true in E. apply list_elem_of_In in Hk.
        apply (Hs f.1); [by left|by rewrite E].
      * intros k Hk. rewrite elem_of_app, list_elem_of_singleton. intros [Hin| ->]; [|done].
        apply (Hs k); [by right|done].
Qed.

Lemma has_escape_spec kvs :
  existsb has_escape kvs = false <-> Forall (fun f : TopLevelField => c_bslash ∉ f.1) kvs.
Proof.
  assert (forall f, has_escape f = false <-> c_bslash ∉ f.1) as H1.
  { intros f. unfold has_escape. rewrite <- Bool.not_true_iff_false, existsb_exists. split.
    - intros H Hin. apply H. exists c_bslash. split; [by apply list_elem_of_In|]. apply Ascii.eqb_refl.
    - intros H (x & Hx & E%Ascii.eqb_eq). subst. by apply H, list_elem_of_In. }
  induction kvs as [|f kvs IH]; cbn; [by split|]. by rewrite orb_false_iff, Forall_cons, H1, IH.
Qed.

(** The acceptance policy, declaratively. *)
Definition acceptable (frame : bytes) (kvs : FrameScan) : Prop :=
  take 3 frame <> bom /\ utf8_text frame /\ object_text 31 frame kvs /\
  (length kvs <= 32)%nat /\ Forall (fun f : TopLevelField => c_bslash ∉ f.1) kvs /\ NoDup kvs.*1.

Lemma preflight_spec frame :
  (exists r, frame_preflight frame = Some r) /\
  (forall kvs, frame_preflight frame = Some (inr kvs) <-> acceptable frame kvs).
Proof.
  destruct (scan_frame_total frame) as [r Hr]. unfold frame_preflight, acceptable.
  case_bool_decide as Hbom.
  { split; [eauto|]. intros kvs. split; [done|]. by intros (? & _). }
  destruct (utf8_valid frame) eqn:Hu; cbn [negb].
  2: { split; [eauto|]. intros kvs. split; [done|]. intros (_ & Ht%utf8_valid_spec & _). congruence. }
  rewrite Hr. apply utf8_valid_spec in Hu. destruct r as [err|scan].
  { split; [eauto|]. intros kvs. split; [done|]. intros (_ & _ & Ho & Hl & _).
    rewrite (scan_frame_complete _ _ Ho Hl) in Hr. done. }
  pose proof (scan_frame_sound _ _ Hr) as [Ho Hl].
  assert (forall kvs, object_text 31 frame kvs -> (length kvs <= 32)%nat -> kvs = scan) as Huniq.
  { intros kvs Ho' Hl'. rewrite (scan_frame_complete _ _ Ho' Hl') in Hr. by simplify_eq. }
  destruct (existsb has_escape scan) eqn:He.
  { split; [eauto|]. intros kvs. split; [done|]. intros (_ & _ & Ho' & Hl' & Hesc & _).
    rewrite (Huniq _ Ho' Hl') in Hesc. apply has_escape_spec in Hesc. congruence. }
  destruct (has_duplicate [] scan) eqn:Hd.
  { split; [eauto|]. intros kvs. split; [done|]. intros (_ & _ & Ho' & Hl' & _ & Hnd).
    rewrite (Huniq _ Ho' Hl') in Hnd. rewrite (proj2 (has_duplicate_spec [] scan)) in Hd; [done|].
    split; [done|]. intros k _ Hk. by apply elem_of_nil in Hk. }
  apply has_escape_spec in He. apply has_duplicate_spec in Hd as [Hd _].
  split; [eauto|]. intros kvs. split; [intros [= <-]; by split_and!|].
  intros (_ & _ & Ho' & Hl' & _). by rewrite (Huniq _ Ho' Hl').
Qed.

(** C19 The preflight is total, and accepts a frame with the fields [kvs]
    exactly when the frame is strict UTF-8 without a BOM, is one RFC 8259
    object nested at most 32 deep, has at most 32 top-level keys, none of them
    escaped or repeated, and [kvs] are its key and value texts in order. *)
Theorem preflight_iff frame :
  (exists r, frame_preflight frame = Some r) /\
  (forall kvs, frame_preflight frame = Some (inr kvs) <-> acceptable frame kvs).
Proof. apply preflight_spec. Qed.
