(* ===== verification/PreflightProps.v ===== *)
(** * What the shared helpers of the preflight guarantee

    Rejections carry the one code the contract allows, a rendered peer tag is
    safe to log, identifiers that pass are bounded and free of control bytes,
    and the integral-token predicates are exactly the digit strings. *)

From Stdlib Require Import ZArith Ascii String List Lia.
From stdpp Require Import base tactics list option strings.
From S2P Require Import Prelude Types Protocol Utf8 Preflight JsonGrammar PreflightSound PreflightComplete.

(** ** Rejections *)

Lemma step_fail_code s e : step s = Fail e -> de_code e = Malformed.
Proof.
  assert (forall s e, value_done s = Fail e -> de_code e = Malformed) as Hdone.
  { intros s0 e0. unfold value_done. cbv zeta. repeat case_match; try done. by intros [= <-]. }
  assert (forall c s e, step_key c s = Fail e -> de_code e = Malformed) as Hkey.
  { intros c s0 e0. unfold step_key. repeat (case_match; try done); by intros [= <-]. }
  assert (forall c s e, step_value c s = Fail e -> de_code e = Malformed) as Hval.
  { intros c s0 e0. unfold step_value, open_container. cbv zeta.
    repeat (case_match; try done); try (by intros [= <-]); apply Hdone. }
  unfold step. cbv zeta. case_match; [by intros [= <-]|]. case_match; [by intros [= <-]|].
  unfold dispatch, step_after, close_container.
  repeat (case_match; try done); eauto; by intros [= <-].
Qed.

Lemma loop_fail_code fuel s e : loop fuel s = Some (Fail e) -> de_code e = Malformed.
Proof.
  revert s. induction fuel as [|fuel IH]; intros s; cbn [loop]; (destruct (done_ s); [done|]); [done|].
  destruct (step s) as [s1|e1] eqn:E; [apply IH|]. intros [= <-]. by eapply step_fail_code.
Qed.

(** Every frame the preflight refuses is refused as [MALFORMED], before any
    library parser sees it. *)
Theorem preflight_rejects_malformed frame e :
  frame_preflight frame = Some (inl e) -> de_code e = Malformed.
Proof.
  unfold frame_preflight. case_bool_decide; [by intros [= <-]|].
  destruct (utf8_valid frame); cbn [negb]; [|by intros [= <-]].
  destruct (scan_frame frame) as [[e1|scan]|] eqn:Es; [| |done].
  - intros [= <-]. revert Es. unfold scan_frame. cbv zeta. case_match; [by intros [= <-]|].
    destruct (loop _ _) as [[s|e2]|] eqn:El; [| |done].
    + unfold finish. cbv zeta. intros [= E]. revert E. repeat case_match; try done; by intros [= <-].
    + intros [= <-]. by eapply loop_fail_code.
  - repeat case_match; try done; by intros [= <-].
Qed.

(** ** The rendered tag *)

Lemma is_continuation_spec c : is_continuation c = true <-> 0x80 <= ord c < 0xC0.
Proof. destruct c as [[] [] [] [] [] [] [] []]; vm_compute; split; intros; try done; naive_solver. Qed.

Lemma is_control_ord c : is_control_byte c = true -> ord c < 0x80.
Proof. unfold is_control_byte. intros H. apply orb_true_iff in H as [H|H]; zbool; lia. Qed.

Lemma encode_tail_continuation cp j c :
  scalar cp -> (0 < j)%nat -> utf8_encode cp !! j = Some c -> is_continuation c = true.
Proof.
  intros Hsc Hj. unfold utf8_encode, scalar in *. intros Hl. apply is_continuation_spec.
  repeat case_match; destruct j as [|[|[|[|j]]]]; cbn in Hl; try lia; simplify_eq;
    zbool; rewrite ord_chr; div64.
Qed.

Lemma encode_nonempty cp : (0 < length (utf8_encode cp))%nat.
Proof. unfold utf8_encode. repeat case_match; cbn; lia. Qed.

(** Cutting a text where no continuation byte follows leaves a text. *)
Lemma take_boundary cps n :
  Forall scalar cps ->
  (forall c, concat (map utf8_encode cps) !! n = Some c -> is_continuation c = false) ->
  utf8_text (take n (concat (map utf8_encode cps))).
Proof.
  intros Hall. revert n. induction Hall as [|cp cps Hsc Hall IH]; intros n Hn.
  - exists []. split; [constructor|]. by destruct n.
  - cbn [map concat] in *. destruct (decide (n = 0)%nat) as [->|Hne]; [exists []; done|].
    destruct (decide (n < length (utf8_encode cp))%nat) as [Hlt|Hge].
    + destruct (lookup_lt_is_Some_2 _ _ Hlt) as [c Hc].
      pose proof (encode_tail_continuation cp n c Hsc ltac:(lia) Hc) as Hcont.
      rewrite lookup_app_l in Hn by done. by rewrite (Hn c Hc) in Hcont.
    + rewrite take_app_ge by lia. destruct (IH (n - length (utf8_encode cp))%nat) as (cps' & Hall' & E).
      * intros c. rewrite <- (lookup_app_r (utf8_encode cp)) by lia. apply Hn.
      * exists (cp :: cps'). split; [by constructor|]. cbn. by rewrite E.
Qed.

Lemma back_up_spec tag n c :
  tag !! back_up tag n = Some c -> back_up tag n <> 0%nat -> is_continuation c = false.
Proof.
  induction n as [|n IH]; cbn [back_up]; [done|].
  destruct (tag !! S n) as [x|] eqn:E; [|by rewrite E].
  destruct (is_continuation x) eqn:Ex; [exact IH|]. rewrite E. by intros [= <-].
Qed.

Lemma back_up_le tag n : (back_up tag n <= n)%nat.
Proof. induction n as [|n IH]; cbn [back_up]; [lia|]. repeat case_match; lia. Qed.

Lemma back_up_end tag : back_up tag (length tag) = length tag.
Proof.
  destruct (length tag) as [|n] eqn:E; [done|]. cbn [back_up].
  rewrite lookup_ge_None_2 by lia. done.
Qed.

Definition mask_controls (s : bytes) : bytes := map (fun c => if is_control_byte c then "?"%char else c) s.

Lemma mask_controls_text s : utf8_text s -> utf8_text (mask_controls s).
Proof.
  intros (cps & Hall & ->). exists (map (fun cp => if (cp <? 0x20) || (cp =? 0x7F) then 63 else cp) cps).
  split.
  - apply Forall_fmap. eapply Forall_impl; [exact Hall|]. intros cp Hcp. cbn.
    destruct (_ || _); [unfold scalar; lia|done].
  - unfold mask_controls. rewrite concat_map, !map_map. f_equal. apply map_ext_in.
    intros cp Hin%list_elem_of_In. rewrite Forall_forall in Hall. specialize (Hall _ Hin).
    unfold utf8_encode at 1. destruct (Z.ltb_spec cp 0x80) as [Hlt|Hge].
    + cbn [map]. unfold is_control_byte, scalar in *. rewrite ord_chr by lia.
      destruct ((cp <? 32) || (cp =? 127)) eqn:Ec; [done|].
      unfold utf8_encode. by rewrite (proj2 (Z.ltb_lt _ _)) by lia.
    + rewrite (proj2 (Z.ltb_ge cp 0x20)), (proj2 (Z.eqb_neq cp 0x7F)) by lia. cbn [orb].
      unfold utf8_encode, scalar in *. rewrite (proj2 (Z.ltb_ge cp 0x80)) by lia.
      assert (forall z, 0x80 <= z < 256 -> (if is_control_byte (chr z) then "?"%char else chr z) = chr z) as Hc.
      { intros z Hz. destruct (is_control_byte (chr z)) eqn:E; [|done].
        apply is_control_ord in E. rewrite ord_chr in E by lia. lia. }
      destruct (Z.ltb_spec cp 0x800); [|destruct (Z.ltb_spec cp 0x10000)]; cbn [map];
        rewrite !Hc by div64; done.
Qed.

Lemma utf8_text_app a b : utf8_text a -> utf8_text b -> utf8_text (a ++ b).
Proof.
  intros (ca & Ha & ->) (cb & Hb & ->). exists (ca ++ cb). split; [by apply Forall_app|].
  by rewrite map_app, concat_app.
Qed.

Definition shown_size (tag : bytes) : nat :=
  back_up tag (if (length tag <=? kMaxTagDetailBytes)%nat then length tag else kMaxTagDetailBytes).

Lemma sanitized_tag_text tag : utf8_text tag -> utf8_text (sanitized_tag tag).
Proof.
  intros (cps & Hall & ->). set (tag := concat (map utf8_encode cps)). unfold sanitized_tag. fold (shown_size tag). cbv zeta.
  apply utf8_text_app.
  - apply mask_controls_text. destruct (decide (shown_size tag = 0)%nat) as [->|Hne]; [exists []; by rewrite take_0|].
    apply take_boundary; [done|]. intros c Hc. by eapply back_up_spec.
  - destruct (_ <? _)%nat; [exists [0x2026]|exists []]; (split; [repeat constructor; unfold scalar; lia|done]).
Qed.

(** A rendered peer tag is at most 35 bytes, free of control bytes and still
    valid UTF-8; a short tag without control bytes is rendered unchanged. *)
Theorem sanitized_tag_safe tag :
  utf8_text tag ->
  utf8_text (sanitized_tag tag) /\
  Forall (fun c => is_control_byte c = false) (sanitized_tag tag) /\
  (length (sanitized_tag tag) <= kMaxTagDetailBytes + 3)%nat /\
  ((length tag <= kMaxTagDetailBytes)%nat -> Forall (fun c => is_control_byte c = false) tag ->
     sanitized_tag tag = tag).
Proof.
  intros Ht. split; [by apply sanitized_tag_text|]. unfold sanitized_tag. cbv zeta.
  set (n0 := if (length tag <=? kMaxTagDetailBytes)%nat then length tag else kMaxTagDetailBytes).
  assert (n0 <= kMaxTagDetailBytes /\ n0 <= length tag)%nat as [Hn1 Hn2].
  { unfold n0. destruct (Nat.leb_spec (length tag) kMaxTagDetailBytes); lia. }
  set (n := back_up tag n0). pose proof (back_up_le tag n0) as Hle. fold n in Hle.
  split_and!.
  - apply Forall_app. split.
    + apply Forall_fmap, Forall_true. intros c. cbn. by destruct (is_control_byte c) eqn:E.
    + destruct (_ <? _)%nat; [repeat constructor|constructor].
  - rewrite length_app, length_map, length_take. unfold kMaxTagDetailBytes in *.
    destruct (_ <? _)%nat; cbn [length ellipsis]; lia.
  - intros Hl Hc. assert (n = length tag) as ->.
    { unfold n, n0. rewrite (proj2 (Nat.leb_le _ _) Hl). apply back_up_end. }
    rewrite firstn_all, Nat.ltb_irrefl, app_nil_r. clear - Hc.
    induction Hc as [|c s Hc _ IH]; cbn; [done|]. by rewrite Hc, IH.
Qed.

(** ** Identifiers *)

Definition identifier_ok (cap : nat) (s : string) : Prop :=
  (String.length s <= cap)%nat /\
  Forall (fun c => 0x20 <= ord c /\ ord c <> 0x7F) (list_ascii_of_string s).

Lemma check_identifier_None v name cap : check_identifier v name cap = None <-> identifier_ok cap v.
Proof.
  unfold check_identifier, identifier_ok.
  assert (length (list_ascii_of_string v) = String.length v) as -> by (induction v; cbn; congruence).
  destruct (Nat.ltb_spec cap (String.length v)); [split; [done|lia]|].
  destruct (existsb is_control_byte (list_ascii_of_string v)) eqn:E.
  - split; [done|]. intros [_ Hf]. apply existsb_exists in E as (c & Hin & Hc).
    rewrite Forall_forall in Hf. apply list_elem_of_In in Hin. specialize (Hf c Hin).
    unfold is_control_byte in Hc. apply orb_true_iff in Hc as [Hc|Hc]; zbool; lia.
  - split; [|done]. intros _. split; [lia|]. apply Forall_forall. intros c Hin%list_elem_of_In.
    assert (is_control_byte c = false) as Hc.
    { apply Bool.not_true_iff_false. intros Hc. apply Bool.not_true_iff_false in E. apply E, existsb_exists. eauto. }
    unfold is_control_byte in Hc. zbool. lia.
Qed.

Lemma check_inbound_strings_spec m :
  check_inbound_strings m = None <->
  match m with
  | InNew o => identifier_ok 64 (no_cl_id o) /\ identifier_ok 32 (no_symbol o) /\ identifier_ok 8 (no_side o)
  | InCancel c => identifier_ok 64 (co_cl_id c)
  end.
Proof.
  destruct m as [o|c]; cbn [check_inbound_strings]; [|apply check_identifier_None].
  rewrite <- (check_identifier_None _ "cl_id"), <- (check_identifier_None _ "symbol"),
    <- (check_identifier_None _ "side").
  destruct (check_identifier (no_cl_id o) _ _); [split; [done|by intros [? _]]|].
  destruct (check_identifier (no_symbol o) _ _); [split; [done|by intros (_ & ? & _)]|].
  split; [auto|by intros (_ & _ & ?)].
Qed.

(** The identifier policy passes exactly the commands whose identifiers fit
    their caps and hold no control byte. *)
Theorem check_inbound_strings_iff m :
  check_inbound_strings m = None <->
  match m with
  | InNew o => identifier_ok 64 (no_cl_id o) /\ identifier_ok 32 (no_symbol o) /\ identifier_ok 8 (no_side o)
  | InCancel c => identifier_ok 64 (co_cl_id c)
  end.
Proof. apply check_inbound_strings_spec. Qed.

(** ** Integral tokens *)

Lemma is_unsigned_integer_token_iff raw : is_unsigned_integer_token raw = true <-> digits1 raw.
Proof.
  unfold is_unsigned_integer_token, digits1, digits. rewrite andb_true_iff, negb_true_iff, bool_decide_eq_false.
  split; (intros [? H]; split; [done|]).
  - apply Forall_forall. intros c Hin%list_elem_of_In. rewrite forallb_forall in H. auto.
  - rewrite forallb_forall. intros c Hin%list_elem_of_In. rewrite Forall_forall in H. auto.
Qed.

Lemma is_integer_token_iff raw :
  is_integer_token raw = true <-> digits1 raw \/ exists d, raw = "-"%char :: d /\ digits1 d.
Proof.
  unfold is_integer_token. destruct raw as [|x raw].
  - split; [done|]. intros [[? _]|(d & ? & _)]; done.
  - destruct (Ascii.eqb_spec x "-") as [->|Hne]; rewrite is_unsigned_integer_token_iff.
    + split; [eauto|]. intros [[_ H]|(d & [= ->] & Hd)]; [|done].
      apply Forall_cons in H as [H _]. done.
    + split; [auto|]. intros [?|(d & [= -> ->] & _)]; done.
Qed.

(** ** Concrete frames *)

Definition demo_frame : bytes :=
  list_ascii_of_string " {'t':'new_order','px':-5,'x':[1e309,{'y':[]}]} ".
(** The same frame with real double quotes. *)
Definition requote (s : bytes) : bytes := map (fun c => if Ascii.eqb c "'" then c_dquote else c) s.

Example preflight_demo :
  (fun r => match r with Some (inr l) => Some (map (fun f => string_of_list_ascii f.1) l) | _ => None end)
    (frame_preflight (requote demo_frame)) = Some ["t"; "px"; "x"]%string.
Proof. vm_compute. reflexivity. Qed.

Lemma preflight_rejects_malformed_witness :
  exists e, frame_preflight (list_ascii_of_string "{}x") = Some (inl e) /\ de_code e = Malformed.
Proof.
  eexists. split; [vm_compute; reflexivity|].
  apply (preflight_rejects_malformed (list_ascii_of_string "{}x")). vm_compute. reflexivity.
Defined.

Lemma sanitized_tag_safe_witness :
  let tag := map chr (65 :: 10 :: repeat 66 29 ++ [0xC3; 0xA9; 67]) in
  utf8_text (sanitized_tag tag) /\
  sanitized_tag tag = map chr (65 :: 63 :: repeat 66 29) ++ ellipsis.
Proof.
  intros tag. split; [|vm_compute; reflexivity].
  apply sanitized_tag_safe. apply utf8_valid_spec. vm_compute. reflexivity.
Defined.
