(* ===== verification/Codec.v ===== *)
(** * The two codecs ([cpp/src/codec_nlohmann.cpp], [cpp/src/codec_glaze.cpp])

    Both arms decode over the fields the preflight recorded.  The third-party
    parsers are parameters: [json_parse] is [nlohmann::json::parse] on one
    value, [glz_tag], [glz_new] and [glz_cancel] are the three glaze reads of a
    whole frame.  [encode] is the direct serializer of the naive arm. *)

From Stdlib Require Import ZArith Ascii String List Lia.
From stdpp Require Import base tactics list option strings.
From S2P Require Import Prelude Types Protocol Utf8 Preflight.

Abbreviation text := list_ascii_of_string.
Abbreviation untext := string_of_list_ascii.

Definition malformed (detail : string) : DecodeError := mkDecodeError Malformed detail.
Definition unknown_type (tag : bytes) : DecodeError :=
  mkDecodeError UnknownType ("unknown inbound t: " ++ untext (sanitized_tag tag)).
Definition unsupported_version (v : Z) : DecodeError :=
  mkDecodeError UnsupportedVersion ("v=" ++ dec_string v).

Definition find_key (key : string) (scan : FrameScan) : bytes := find_field (text key) scan.

(** What the code asks of a parsed value. *)
Inductive JVal :=
| JUnsigned (n : Z)
| JInteger (z : Z)
| JFloat
| JString (s : bytes)
| JBool (b : bool)
| JOther.

(** ** The naive arm *)

Section Naive.
Context (json_parse : bytes -> option JVal).

Definition parse_field (scan : FrameScan) (key : string) : option JVal :=
  match find_key key scan with [] => None | span => json_parse span end.

Definition get_u64 (scan : FrameScan) (key : string) : option Z :=
  if negb (is_unsigned_integer_token (find_key key scan)) then None
  else match parse_field scan key with Some (JUnsigned n) => Some n | _ => None end.

Definition get_i64 (scan : FrameScan) (key : string) : option Z :=
  if negb (is_integer_token (find_key key scan)) then None
  else
    match parse_field scan key with
    | Some (JUnsigned n) => if two63 - 1 <? n then None else Some n
    | Some (JInteger z) => Some z
    | _ => None
    end.

Definition get_str (scan : FrameScan) (key : string) : option string :=
  match parse_field scan key with Some (JString s) => Some (untext s) | _ => None end.

Definition get_bool (scan : FrameScan) (key : string) : option bool :=
  match parse_field scan key with Some (JBool b) => Some b | _ => None end.

(** The chain of getters that fills a [NewOrder]: the first failure wins. *)
Definition naive_new (scan : FrameScan) (v : Z) : option NewOrder :=
  seq ← get_u64 scan "seq"; epoch ← get_u64 scan "epoch"; md_seq ← get_u64 scan "md_seq";
  cl_id ← get_str scan "cl_id"; symbol ← get_str scan "symbol"; side ← get_str scan "side";
  px ← get_i64 scan "px"; qty ← get_i64 scan "qty"; post_only ← get_bool scan "post_only";
  Some (mkNewOrder v seq epoch md_seq cl_id symbol side px qty post_only).

Definition naive_cancel (scan : FrameScan) (v : Z) : option CancelOrder :=
  seq ← get_u64 scan "seq"; epoch ← get_u64 scan "epoch"; cl_id ← get_str scan "cl_id";
  Some (mkCancelOrder v seq epoch cl_id).

Definition naive_fields (scan : FrameScan) : DecodeError + InMsg :=
  match parse_field scan "t" with
  | Some (JString tag) =>
      let is_new := bool_decide (tag = text kTagNewOrder) in
      if negb is_new && negb (bool_decide (tag = text kTagCancelOrder)) then inl (unknown_type tag)
      else
        match get_u64 scan "v" with
        | None => inl (malformed "v missing or not an unsigned integer")
        | Some v =>
            if negb (v =? 1) then inl (unsupported_version v)
            else if is_new then
              match naive_new scan v with
              | None => inl (malformed "new_order: missing or mistyped field")
              | Some o => match check_inbound_strings (InNew o) with
                          | Some e => inl e | None => inr (InNew o) end
              end
            else
              match naive_cancel scan v with
              | None => inl (malformed "cancel_order: missing or mistyped field")
              | Some c => match check_inbound_strings (InCancel c) with
                          | Some e => inl e | None => inr (InCancel c) end
              end
        end
  | _ => inl (malformed "t missing or not a string")
  end.

Definition decode_naive (input : bytes) : option (DecodeError + InMsg) :=
  match frame_preflight input with
  | None => None
  | Some (inl e) => Some (inl e)
  | Some (inr scan) => Some (naive_fields scan)
  end.
End Naive.

(** ** The tuned arm *)

(** [std::from_chars] of an all-digit token into a [std::uint64_t]. *)
Definition dec_value (s : bytes) : Z := fold_left (fun a c => a * 10 + (ord c - 48)) s 0.
Definition from_chars_u64 (s : bytes) : option Z :=
  if dec_value s <? two64 then Some (dec_value s) else None.

Definition integer_fields_are_integral (scan : FrameScan) (signed_keys unsigned_keys : list string) : bool :=
  forallb (fun k => bool_decide (find_key k scan = []) || is_integer_token (find_key k scan)) signed_keys &&
  forallb (fun k => bool_decide (find_key k scan = []) || is_unsigned_integer_token (find_key k scan))
    unsigned_keys.

(** A JSON string token that needs no unescaping. *)
Definition plain_token (s : string) : bytes := c_dquote :: text s ++ [c_dquote].

Section Glaze.
(** [None]: a read error; the inner option is the probe's nullable member. *)
Context (glz_tag : bytes -> option (option bytes)).
Context (glz_new : bytes -> option NewOrder).
Context (glz_cancel : bytes -> option CancelOrder).

Definition glaze_schema (input : bytes) (scan : FrameScan) : DecodeError + bool :=
  let ttok := find_key "t" scan in
  if bool_decide (ttok = plain_token "new_order") then inr true
  else if bool_decide (ttok = plain_token "cancel_order") then inr false
  else
    match glz_tag input with
    | Some (Some tag) =>
        let is_new := bool_decide (tag = text kTagNewOrder) in
        if negb is_new && negb (bool_decide (tag = text kTagCancelOrder)) then inl (unknown_type tag)
        else inr is_new
    | _ => inl (malformed "t missing or not a string")
    end.

Definition glaze_fields (input : bytes) (scan : FrameScan) : DecodeError + InMsg :=
  match glaze_schema input scan with
  | inl e => inl e
  | inr is_new =>
      let vtok := find_key "v" scan in
      match (if bool_decide (vtok = []) || negb (is_unsigned_integer_token vtok) then None
             else from_chars_u64 vtok) with
      | None => inl (malformed "v missing or not an unsigned integer")
      | Some v =>
          if negb (v =? 1) then inl (unsupported_version v)
          else if is_new then
            if negb (integer_fields_are_integral scan ["px"; "qty"] ["seq"; "epoch"; "md_seq"]) then
              inl (malformed "new_order: missing or mistyped field")
            else
              match glz_new input with
              | None => inl (malformed "new_order: missing or mistyped field")
              | Some o => match check_inbound_strings (InNew o) with
                          | Some e => inl e | None => inr (InNew o) end
              end
          else
            if negb (integer_fields_are_integral scan [] ["seq"; "epoch"]) then
              inl (malformed "cancel_order: missing or mistyped field")
            else
              match glz_cancel input with
              | None => inl (malformed "cancel_order: missing or mistyped field")
              | Some c => match check_inbound_strings (InCancel c) with
                          | Some e => inl e | None => inr (InCancel c) end
              end
      end
  end.

Definition decode_glaze (input : bytes) : option (DecodeError + InMsg) :=
  match frame_preflight input with
  | None => None
  | Some (inl e) => Some (inl e)
  | Some (inr scan) => Some (glaze_fields input scan)
  end.
End Glaze.

(** ** The serializer *)

Definition hex_upper (d : Z) : ascii := if d <? 10 then chr (48 + d) else chr (65 + (d - 10)).

Definition escape_byte (c : ascii) : bytes :=
  if Ascii.eqb c c_dquote then [c_bslash; c_dquote]
  else if Ascii.eqb c c_bslash then [c_bslash; c_bslash]
  else if ord c =? 8 then [c_bslash; "b"%char]
  else if ord c =? 9 then [c_bslash; "t"%char]
  else if ord c =? 10 then [c_bslash; "n"%char]
  else if ord c =? 12 then [c_bslash; "f"%char]
  else if ord c =? 13 then [c_bslash; "r"%char]
  else if ord c <? 0x20 then
    [c_bslash; "u"%char; "0"%char; "0"%char; hex_upper (Z.shiftr (ord c) 4); hex_upper (Z.land (ord c) 0xF)]
  else [c].

Definition append_escaped (out : bytes) (s : bytes) : bytes :=
  fold_left (fun out c => out ++ escape_byte c) s out.

Definition append_key (out : bytes) (key : string) : bytes :=
  out ++ [c_dquote] ++ text key ++ [c_dquote; ":"%char].

Definition field_int (key : string) (v : Z) (out : bytes) : bytes :=
  append_key out key ++ dec_bytes v ++ [","%char].
Definition field_str (key : string) (v : string) (out : bytes) : bytes :=
  append_escaped (append_key out key ++ [c_dquote]) (text v) ++ [c_dquote] ++ [","%char].

Definition open_msg (tag : string) (out : bytes) : bytes :=
  out ++ ["{"%char] ++ plain_token "t" ++ [":"%char; c_dquote] ++ text tag ++ [c_dquote; ","%char].
(** [out.back() = '}'] *)
Definition close_msg (out : bytes) : bytes := removelast out ++ ["}"%char].

Definition encode_tob (m : Tob) (out : bytes) : bytes :=
  close_msg (field_int "ask_qty" (tob_ask_qty m) (field_int "ask_px" (tob_ask_px m)
    (field_int "bid_qty" (tob_bid_qty m) (field_int "bid_px" (tob_bid_px m)
    (field_str "symbol" (tob_symbol m) (field_int "md_seq" (tob_md_seq m)
    (field_int "epoch" (tob_epoch m) (field_int "seq" (tob_seq m)
    (field_int "v" (tob_v m) (open_msg kTagTob out)))))))))).
Definition encode_ack (m : OrderAck) (out : bytes) : bytes :=
  close_msg (field_int "svc_ns" (oa_svc_ns m) (field_str "status" (oa_status m)
    (field_int "eng_id" (oa_eng_id m) (field_str "cl_id" (oa_cl_id m)
    (field_int "epoch" (oa_epoch m) (field_int "seq" (oa_seq m)
    (field_int "v" (oa_v m) (open_msg kTagOrderAck out)))))))).
Definition encode_cancel_ack (m : CancelAck) (out : bytes) : bytes :=
  close_msg (field_str "status" (ca_status m) (field_int "eng_id" (ca_eng_id m)
    (field_str "cl_id" (ca_cl_id m) (field_int "epoch" (ca_epoch m) (field_int "seq" (ca_seq m)
    (field_int "v" (ca_v m) (open_msg kTagCancelAck out))))))).
Definition encode_reject (m : Reject) (out : bytes) : bytes :=
  close_msg (field_str "reason" (rj_reason m) (field_str "code" (rj_code m)
    (field_str "cl_id" (rj_cl_id m) (field_int "epoch" (rj_epoch m) (field_int "seq" (rj_seq m)
    (field_int "v" (rj_v m) (open_msg kTagReject out))))))).
Definition encode_fill (m : Fill) (out : bytes) : bytes :=
  close_msg (field_int "exec_id" (fl_exec_id m) (field_int "leaves" (fl_leaves m)
    (field_int "qty" (fl_qty m) (field_int "px" (fl_px m) (field_int "eng_id" (fl_eng_id m)
    (field_str "cl_id" (fl_cl_id m) (field_int "epoch" (fl_epoch m) (field_int "seq" (fl_seq m)
    (field_int "v" (fl_v m) (open_msg kTagFill out)))))))))).

(** [out.clear()], then the alternative's serializer. *)
Definition encode (m : OutMsg) : bytes :=
  match m with
  | OutTob m => encode_tob m [] | OutAck m => encode_ack m [] | OutCancelAck m => encode_cancel_ack m []
  | OutReject m => encode_reject m [] | OutFill m => encode_fill m []
  end.
