(* ===== verification/JsonTokens.v ===== *)
(** * What a field's text denotes

    The meaning of the tokens the codecs read and write: integers within their
    width, unescaped strings, booleans; and the facts that printing and escaping
    are inverted by it. *)

From Stdlib Require Import ZArith Ascii String List Lia.
From stdpp Require Import base tactics list option strings.
From S2P Require Import Prelude Types Protocol Utf8 Preflight JsonGrammar PreflightSound PreflightComplete.
From S2P Require Import PreflightProps Codec.

(** ** Decimal integers *)

Lemma dec_value_app a b c : dec_value (a ++ [c]) = dec_value a * 10 + (ord c - 48) /\ dec_value (b ++ []) = dec_value b.
Proof. split; [|by rewrite app_nil_r]. unfold dec_value. by rewrite fold_left_app. Qed.

Lemma is_dec_digit_chr d : 0 <= d < 10 -> is_dec_digit (chr (48 + d)) = true.
Proof. intros. apply in_range_chr; lia. Qed.

Lemma dec_digits_spec fuel z acc :
  (0 < fuel)%nat -> 0 <= z < 2 ^ Z.of_nat fuel ->
  exists d, dec_digits fuel z acc = d ++ acc /\ digits1 d /\ dec_value d = z /\ int_part d.
Proof.
  revert z acc. induction fuel as [|fuel IH]; intros z acc Hf Hz; [lia|]. cbn [dec_digits].
  pose proof (Z.mod_pos_bound z 10 ltac:(lia)) as Hm.
  assert (forall d : bytes, dec_value (d ++ [chr (48 + z mod 10)]) = dec_value d * 10 + z mod 10) as Hv.
  { intros d. rewrite (proj1 (dec_value_app d [] _)), ord_chr by lia. lia. }
  destruct (Z.ltb_spec z 10) as [Hlt|Hge].
  - exists [chr (48 + z mod 10)]. split_and!; [done|split; [done|]|etrans; [apply (Hv [])|]; change (dec_value []) with 0; rewrite Z.mod_small by lia; lia|].
    + repeat constructor. by apply is_dec_digit_chr.
    + rewrite Z.mod_small by lia. destruct (decide (z = 0)) as [->|Hne]; [left; reflexivity|].
      right. do 2 eexists. split; [done|]. split.
      * intros E%(f_equal ord). rewrite ord_chr in E by lia. change (ord "0") with 48 in E. lia.
      * repeat constructor. apply is_dec_digit_chr. lia.
  - assert (1 < Z.of_nat (S fuel)) as Hf1.
    { destruct fuel; [cbn in Hz; lia|lia]. }
    assert (2 ^ Z.of_nat (S fuel) = 2 * 2 ^ Z.of_nat fuel) as Ep
      by (rewrite Nat2Z.inj_succ, Z.pow_succ_r; lia).
    destruct (IH (z / 10) (chr (48 + z mod 10) :: acc)) as (d & -> & [Hne Hd] & Hval & Hi).
    + lia.
    + Z.to_euclidean_division_equations; lia.
    + exists (d ++ [chr (48 + z mod 10)]). split_and!.
      * by app_norm.
      * split; [by destruct d|]. apply Forall_app. split; [done|]. repeat constructor. by apply is_dec_digit_chr.
      * rewrite Hv, Hval. pose proof (Z.div_mod z 10). lia.
      * right. destruct Hi as [->|(c & s & -> & Hc & Hd')].
        -- exfalso. change (dec_value [_]) with 0 in Hval. Z.to_euclidean_division_equations. lia.
        -- do 2 eexists. split; [done|]. split; [done|]. apply Forall_app. split; [done|].
           repeat constructor. by apply is_dec_digit_chr.
Qed.

Lemma dec_bytes_nonneg z :
  0 <= z -> digits1 (dec_bytes z) /\ dec_value (dec_bytes z) = z /\ number (dec_bytes z).
Proof.
  intros Hz. unfold dec_bytes. cbv zeta. rewrite (proj2 (Z.ltb_ge _ _)) by lia.
  destruct (dec_digits_spec (S (Z.to_nat (Z.log2 z))) z []) as (d & -> & Hd & Hv & Hi); [lia| |].
  - split; [lia|]. rewrite Nat2Z.inj_succ, Z2Nat.id by apply Z.log2_nonneg.
    destruct (decide (z = 0)) as [->|]; [cbn; lia|]. apply Z.log2_spec. lia.
  - rewrite app_nil_r. split_and!; [done..|]. exists [], d, [], []. split_and!; [by app_norm|by left|done|by left|by left].
Qed.

Lemma dec_bytes_neg z :
  z < 0 -> exists d, dec_bytes z = "-"%char :: d /\ digits1 d /\ dec_value d = - z /\ number (dec_bytes z).
Proof.
  intros Hz. unfold dec_bytes. cbv zeta. rewrite (proj2 (Z.ltb_lt _ _)) by lia.
  destruct (dec_digits_spec (S (Z.to_nat (Z.log2 (- z)))) (- z) []) as (d & -> & Hd & Hv & Hi); [lia| |].
  - split; [lia|]. rewrite Nat2Z.inj_succ, Z2Nat.id by apply Z.log2_nonneg. apply Z.log2_spec. lia.
  - rewrite app_nil_r. exists d. split_and!; [done..|].
    exists ["-"%char], d, [], []. split_and!; [by app_norm|by right|done|by left|by left].
Qed.

Lemma dec_value_nonneg s : digits s -> 0 <= dec_value s.
Proof.
  intros Hs. induction s as [|c s IH] using rev_ind; [done|]. apply Forall_app in Hs as [Hs Hc].
  apply Forall_singleton, digit_ord in Hc. rewrite (proj1 (dec_value_app s [] c)). specialize (IH Hs). lia.
Qed.

Lemma dec_bytes_number z : number (dec_bytes z).
Proof.
  destruct (Z.lt_ge_cases z 0) as [H|H]; [by destruct (dec_bytes_neg z H) as (? & _ & _ & _ & ?)|].
  by destruct (dec_bytes_nonneg z H) as (_ & _ & ?).
Qed.

Definition tok_u64 (tok : bytes) : option Z :=
  if is_unsigned_integer_token tok && (dec_value tok <? two64) then Some (dec_value tok) else None.

Definition tok_i64 (tok : bytes) : option Z :=
  if is_integer_token tok then
    match tok with
    | c :: d =>
        let z := if Ascii.eqb c "-" then - dec_value d else dec_value tok in
        if (- two63 <=? z) && (z <? two63) then Some z else None
    | [] => None
    end
  else None.

Lemma tok_u64_range tok z : tok_u64 tok = Some z -> is_u64 z.
Proof.
  unfold tok_u64. destruct (is_unsigned_integer_token tok) eqn:Hu; [|done].
  destruct (Z.ltb_spec (dec_value tok) two64); [|done]. intros [= <-]. split; [|done].
  apply is_unsigned_integer_token_iff in Hu as [_ ?]. by apply dec_value_nonneg.
Qed.

Lemma tok_i64_range tok z : tok_i64 tok = Some z -> is_i64 z.
Proof.
  unfold tok_i64. destruct (is_integer_token tok), tok as [|c d]; try done. cbv zeta. case_match eqn:E; [|done].
  intros [= <-]. zbool. split; lia.
Qed.

Lemma tok_u64_dec z : is_u64 z -> tok_u64 (dec_bytes z) = Some z.
Proof.
  intros Hz. destruct (dec_bytes_nonneg z) as (Hd & Hv & _); [apply Hz|]. unfold tok_u64.
  rewrite (proj2 (is_unsigned_integer_token_iff _) Hd), Hv. by rewrite (proj2 (Z.ltb_lt _ _)) by apply Hz.
Qed.

Lemma digits1_not_minus d : digits1 d -> exists c s, d = c :: s /\ Ascii.eqb c "-" = false.
Proof.
  intros [Hne Hd]. destruct d as [|c s]; [done|]. apply Forall_cons in Hd as [Hc _].
  do 2 eexists. split; [done|]. by apply digit_neq.
Qed.

Lemma tok_i64_dec z : is_i64 z -> tok_i64 (dec_bytes z) = Some z.
Proof.
  intros [Hlo Hhi]. unfold tok_i64. destruct (Z.lt_ge_cases z 0) as [H|H].
  - destruct (dec_bytes_neg z H) as (d & E & Hd & Hv & _). rewrite E.
    rewrite (proj2 (is_integer_token_iff _)) by eauto. change (Ascii.eqb "-" "-") with true. cbv zeta.
    rewrite Hv, Z.opp_involutive. by rewrite (proj2 (Z.leb_le _ _)), (proj2 (Z.ltb_lt _ _)) by lia.
  - destruct (dec_bytes_nonneg z H) as (Hd & Hv & _).
    rewrite (proj2 (is_integer_token_iff _)) by eauto.
    destruct (digits1_not_minus _ Hd) as (c & s & E & Hc). rewrite E at 1. rewrite Hc, Hv. cbv zeta.
    by rewrite (proj2 (Z.leb_le _ _)), (proj2 (Z.ltb_lt _ _)) by (unfold two63 in *; lia).
Qed.

(** ** Strings *)

Definition unescape_char (e : ascii) : ascii :=
  if Ascii.eqb e "b" then chr 8 else if Ascii.eqb e "f" then chr 12 else if Ascii.eqb e "n" then chr 10
  else if Ascii.eqb e "r" then chr 13 else if Ascii.eqb e "t" then chr 9 else e.

(** The bytes a string body denotes (RFC 8259, section 7). *)
Fixpoint unescape (s : bytes) : bytes :=
  match s with
  | [] => []
  | c :: s1 =>
      if negb (Ascii.eqb c c_bslash) then c :: unescape s1
      else
        match s1 with
        | [] => []
        | e :: s2 =>
            if negb (Ascii.eqb e "u") then unescape_char e :: unescape s2
            else
              match s2 with
              | h0 :: h1 :: h2 :: h3 :: s6 =>
                  match scan_hex4 h0 h1 h2 h3 with
                  | inl _ => []
                  | inr hi =>
                      if negb (is_high_surrogate hi) then utf8_encode hi ++ unescape s6
                      else
                        match s6 with
                        | _ :: _ :: l0 :: l1 :: l2 :: l3 :: s12 =>
                            match scan_hex4 l0 l1 l2 l3 with
                            | inr lo => utf8_encode (0x10000 + (hi - 0xD800) * 1024 + (lo - 0xDC00)) ++ unescape s12
                            | inl _ => []
                            end
                        | _ => []
                        end
                  end
              | _ => []
              end
        end
  end.

Definition tok_str (tok : bytes) : option bytes :=
  match tok with
  | c :: r => if Ascii.eqb c c_dquote then Some (unescape (removelast r)) else None
  | [] => None
  end.

Definition tok_bool (tok : bytes) : option bool :=
  if bool_decide (tok = text "true") then Some true
  else if bool_decide (tok = text "false") then Some false else None.

Lemma removelast_snoc {A} (l : list A) x : removelast (l ++ [x]) = l.
Proof. apply removelast_last. Qed.

Lemma tok_str_quoted k : tok_str (quoted k) = Some (unescape k).
Proof. unfold tok_str, quoted. by rewrite Ascii.eqb_refl, removelast_snoc. Qed.

Definition escape (s : bytes) : bytes := concat (map escape_byte s).

Lemma append_escaped_eq out s : append_escaped out s = out ++ escape s.
Proof.
  unfold append_escaped, escape. revert out. induction s as [|c s IH]; intros out; cbn; [by rewrite app_nil_r|].
  by rewrite IH, app_assoc.
Qed.

(** The escape of one byte: a legal escape sequence that denotes the byte. *)
Lemma escape_byte_cases c k :
  (str_body k -> str_body (escape_byte c ++ k)) /\
  unescape (escape_byte c ++ k) = c :: unescape k.
Proof.
  destruct (decide (c = c_dquote \/ c = c_bslash \/ 0x20 <= ord c)) as [Hc|Hc].
  - unfold escape_byte. destruct (Ascii.eqb_spec c c_dquote) as [->|H1].
    { split; [intros Hk; by apply (SB_escape c_dquote)|done]. }
    destruct (Ascii.eqb_spec c c_bslash) as [->|H2]; [split; [intros Hk; by apply (SB_escape c_bslash)|done]|].
    destruct Hc as [?|[?|Hc]]; [done..|]. rewrite !(proj2 (Z.eqb_neq _ _)), (proj2 (Z.ltb_ge _ _)) by lia.
    cbn [app unescape]. rewrite (proj2 (Ascii.eqb_neq _ _) H2). split; [intros Hk; by constructor|done].
  - (* one of the 32 control bytes *)
    assert (In c (map (fun n => chr (Z.of_nat n)) (seq 0 32))) as Hin.
    { apply in_map_iff. exists (Z.to_nat (ord c)). pose proof (ord_range c).
      assert (ord c < 32) by (destruct (Z.lt_ge_cases (ord c) 32); [done|exfalso; apply Hc; auto]).
      split; [rewrite Z2Nat.id by lia; apply chr_ord|apply List.in_seq; lia]. }
    clear Hc. cbn in Hin.
    repeat (destruct Hin as [<-|Hin]; [split; [intros Hk|reflexivity];
      first [by apply SB_escape | (eapply SB_unicode; [by apply scan_hex4_spec|by apply is_high_false|by apply is_low_false|done])]|]).
    done.
Qed.

Lemma escape_body s : str_body (escape s) /\ unescape (escape s) = s.
Proof.
  unfold escape. induction s as [|c s [IH1 IH2]]; cbn [map concat]; [split; [constructor|done]|].
  destruct (escape_byte_cases c (concat (map escape_byte s))) as [H1 H2].
  split; [by apply H1|]. by rewrite H2, IH2.
Qed.

Lemma escape_ascii_text c : ord c < 0x80 -> utf8_text (escape_byte c).
Proof.
  intros Hc. apply utf8_valid_spec.
  assert (In c (map (fun n => chr (Z.of_nat n)) (seq 0 128))) as Hin.
  { apply in_map_iff. exists (Z.to_nat (ord c)). pose proof (ord_range c).
    split; [rewrite Z2Nat.id by lia; apply chr_ord|apply List.in_seq; lia]. }
  clear Hc. cbn in Hin. repeat (destruct Hin as [<-|Hin]; [vm_compute; reflexivity|]). done.
Qed.

Lemma escape_high c : 0x80 <= ord c -> escape_byte c = [c].
Proof.
  intros Hc. unfold escape_byte.
  assert (forall x, ord x < 0x80 -> Ascii.eqb c x = false) as Hne.
  { intros x Hx. apply Ascii.eqb_neq. intros ->. lia. }
  rewrite !Hne by (by vm_compute). by rewrite !(proj2 (Z.eqb_neq _ _)), (proj2 (Z.ltb_ge _ _)) by lia.
Qed.

Lemma escape_high_all s : Forall (fun c => 0x80 <= ord c) s -> escape s = s.
Proof.
  unfold escape. induction 1 as [|c s Hc _ IH]; [done|]. cbn [map concat]. by rewrite escape_high, IH by done.
Qed.

Lemma utf8_encode_high cp : scalar cp -> 0x80 <= cp -> Forall (fun c => 0x80 <= ord c) (utf8_encode cp).
Proof.
  intros Hsc Hge. unfold utf8_encode, scalar in *. rewrite (proj2 (Z.ltb_ge cp 0x80)) by lia.
  destruct (Z.ltb_spec cp 0x800); [|destruct (Z.ltb_spec cp 0x10000)]; repeat constructor;
    rewrite ord_chr by div64; div64.
Qed.

Lemma escape_text s : utf8_text s -> utf8_text (escape s).
Proof.
  intros (cps & Hall & ->). induction Hall as [|cp cps Hsc _ IH]; [exists []; done|].
  cbn [map concat]. unfold escape in *. rewrite map_app, concat_app. apply utf8_text_app; [|exact IH].
  change (concat (map escape_byte (utf8_encode cp))) with (escape (utf8_encode cp)).
  destruct (Z.ltb_spec cp 0x80) as [Hlt|Hge].
  - assert (utf8_encode cp = [chr cp]) as ->.
    { unfold utf8_encode. by rewrite (proj2 (Z.ltb_lt cp 0x80)) by lia. }
    unfold escape, scalar in *. cbn. rewrite app_nil_r. apply escape_ascii_text. rewrite ord_chr; lia.
  - rewrite escape_high_all by (by apply utf8_encode_high). exists [cp].
    split; [by apply Forall_singleton|]. cbn. by rewrite app_nil_r.
Qed.
