(* ===== verification/CodecProps.v ===== *)
(** * The codec contract: both arms decode the same, and frames survive a round trip

    The third-party parsers are assumed to read single JSON tokens as RFC 8259
    means them ([nlohmann_ok], [glaze_ok]); everything the repository's code
    adds (the getters, the schema fast path, the error precedence, the
    serializer) is proved. *)

From Stdlib Require Import ZArith Ascii String List Lia.
From stdpp Require Import base tactics list option strings.
From S2P Require Import Prelude Types Protocol Utf8 Preflight JsonGrammar PreflightSound PreflightComplete.
From S2P Require Import PreflightProps Codec JsonTokens.

(** ** Pieces of a UTF-8 text *)

Lemma utf8_text_cancel a b : utf8_text a -> utf8_text (a ++ b) -> utf8_text b.
Proof.
  intros (cps & Hall & ->) H%utf8_valid_spec. apply utf8_valid_spec.
  induction Hall as [|cp cps Hsc _ IH]; [done|]. cbn [map concat] in H. rewrite <- app_assoc in H.
  rewrite utf8_valid_encode in H by done. auto.
Qed.

Lemma utf8_text_ascii s : Forall (fun c => ord c < 0x80) s -> utf8_text s.
Proof.
  intros H. apply utf8_valid_spec. induction H as [|c s Hc _ IH]; [done|]. cbn [utf8_valid].
  by rewrite (proj2 (Z.ltb_lt _ _)) by lia.
Qed.

(** An ASCII byte never falls inside an encoded character. *)
Lemma utf8_text_prefix a c b : ord c < 0x80 -> utf8_text (a ++ c :: b) -> utf8_text a.
Proof.
  intros Hc (cps & Hall & E). revert a E. induction Hall as [|cp cps Hsc Hall IH]; intros a E.
  - by destruct a.
  - cbn [map concat] in E. destruct (Nat.le_gt_cases (length (utf8_encode cp)) (length a)) as [Hle|Hgt].
    + apply app_eq_inv in E as [(k & Ea & Eb)|(k & Ea & Eb)].
      * rewrite Ea. apply utf8_text_app; [exists [cp]; split; [by apply Forall_singleton|by cbn; rewrite app_nil_r]|].
        by apply IH.
      * assert (k = []) as -> by (apply nil_length_inv; apply (f_equal length) in Ea; rewrite length_app in Ea; lia).
        rewrite app_nil_r in Ea. rewrite <- Ea. exists [cp]. split; [by apply Forall_singleton|].
        cbn. by rewrite app_nil_r.
    + destruct a as [|x a]; [by exists []|]. exfalso.
      assert (utf8_encode cp !! length (x :: a) = Some c) as Hl.
      { rewrite <- (lookup_app_l _ (concat (map utf8_encode cps))) by done. rewrite <- E.
        by apply list_lookup_middle. }
      apply encode_tail_continuation in Hl; [|done|cbn; lia]. apply is_continuation_spec in Hl. lia.
Qed.

Lemma ws_ascii w : ws w -> Forall (fun c => ord c < 0x80) w.
Proof.
  intros H. eapply Forall_impl; [exact H|]. intros c. unfold is_ws. intros Hw.
  repeat (apply orb_true_iff in Hw as [Hw|Hw]); zbool; lia.
Qed.

Lemma utf8_text_before_ws v w : ws w -> utf8_text (v ++ w) -> utf8_text v.
Proof.
  intros [|c w' Hc _]%ws_ascii H; [by rewrite app_nil_r in H|]. by eapply utf8_text_prefix.
Qed.

(** Every recorded value is a JSON text and valid UTF-8 on its own. *)
Definition token (tok : bytes) : Prop := json 31 tok /\ utf8_text tok.

Lemma members_tokens m l kvs :
  length kvs = m -> members 31 l kvs -> utf8_text l -> Forall (fun f : TopLevelField => token f.2) kvs.
Proof.
  revert l kvs. induction m as [|m IH]; intros l kvs Hlen Hm Hu; inversion Hm; subst;
    rewrite length_app in Hlen; cbn in Hlen; [lia|].
  rewrite app_assoc, app_assoc, app_assoc in Hu.
  apply Forall_app. split.
  - inversion H; subst; [constructor|]. eapply IH; [lia|done|].
    rewrite <- !app_assoc in Hu. by apply (utf8_text_prefix _ ",") in Hu.
  - apply Forall_singleton. cbn. split; [done|].
    pose proof (utf8_text_prefix _ ":" _ ltac:(vm_compute; reflexivity) Hu) as Hp.
    apply utf8_text_cancel in Hu; [|done]. rewrite app_comm_cons, app_assoc in Hu.
    apply utf8_text_before_ws in Hu; [|done].
    apply utf8_text_cancel in Hu; [done|]. apply utf8_text_ascii. constructor; [vm_compute; reflexivity|by apply ws_ascii].
Qed.

Lemma preflight_tokens frame kvs :
  frame_preflight frame = Some (inr kvs) -> Forall (fun f : TopLevelField => token f.2) kvs.
Proof.
  intros (_ & Hu & (w1 & body & w2 & -> & Hw1 & _ & Hb) & _)%preflight_spec.
  inversion Hb as [|? ? ? Hm]; subst; [constructor|].
  assert (utf8_text body) as Ht.
  { apply utf8_text_cancel in Hu; [|by apply utf8_text_ascii, ws_ascii].
    rewrite app_comm_cons in Hu. apply (utf8_text_prefix _ "}") in Hu; [|vm_compute; reflexivity].
    by apply (utf8_text_cancel ["{"%char]) in Hu; [|apply utf8_valid_spec]. }
  by eapply members_tokens.
Qed.

Lemma find_key_token key kvs :
  Forall (fun f : TopLevelField => token f.2) kvs -> find_key key kvs = [] \/ token (find_key key kvs).
Proof.
  intros Hall. unfold find_key, find_field. case_match eqn:E; [right|by left].
  apply find_some in E as [Hin _]. rewrite Forall_forall in Hall. apply Hall. by apply list_elem_of_In.
Qed.

(** ** What a decoder should read *)

Definition tok_string (tok : bytes) : option string := untext <$> tok_str tok.

Definition read_new (kvs : FrameScan) : option NewOrder :=
  v ← tok_u64 (find_key "v" kvs); seq ← tok_u64 (find_key "seq" kvs);
  epoch ← tok_u64 (find_key "epoch" kvs); md_seq ← tok_u64 (find_key "md_seq" kvs);
  cl_id ← tok_string (find_key "cl_id" kvs); symbol ← tok_string (find_key "symbol" kvs);
  side ← tok_string (find_key "side" kvs); px ← tok_i64 (find_key "px" kvs);
  qty ← tok_i64 (find_key "qty" kvs); post_only ← tok_bool (find_key "post_only" kvs);
  Some (mkNewOrder v seq epoch md_seq cl_id symbol side px qty post_only).

Definition read_cancel (kvs : FrameScan) : option CancelOrder :=
  v ← tok_u64 (find_key "v" kvs); seq ← tok_u64 (find_key "seq" kvs);
  epoch ← tok_u64 (find_key "epoch" kvs); cl_id ← tok_string (find_key "cl_id" kvs);
  Some (mkCancelOrder v seq epoch cl_id).

Definition checked (m : option InMsg) (detail : string) : DecodeError + InMsg :=
  match m with
  | None => inl (malformed detail)
  | Some m => match check_inbound_strings m with Some e => inl e | None => inr m end
  end.

(** The order of verdicts of the decode contract of codec.hpp: the tag, the
    version, the fields, the identifiers.  (PROTOCOL section 6 puts the version
    first: see [unknown_tag_before_version].) *)
Definition spec_fields (kvs : FrameScan) : DecodeError + InMsg :=
  match tok_str (find_key "t" kvs) with
  | None => inl (malformed "t missing or not a string")
  | Some tag =>
      if negb (bool_decide (tag = text kTagNewOrder)) && negb (bool_decide (tag = text kTagCancelOrder)) then
        inl (unknown_type tag)
      else
        match tok_u64 (find_key "v" kvs) with
        | None => inl (malformed "v missing or not an unsigned integer")
        | Some v =>
            if negb (v =? 1) then inl (unsupported_version v)
            else if bool_decide (tag = text kTagNewOrder) then
              checked (InNew <$> read_new kvs) "new_order: missing or mistyped field"
            else checked (InCancel <$> read_cancel kvs) "cancel_order: missing or mistyped field"
        end
  end.

Definition decode_spec (input : bytes) : option (DecodeError + InMsg) :=
  match frame_preflight input with
  | None => None
  | Some (inl e) => Some (inl e)
  | Some (inr kvs) => Some (spec_fields kvs)
  end.

(** ** The third-party parsers *)

(** The value of a token, as far as a field of the protocol can hold it. *)
Definition tok_val (tok : bytes) : option JVal :=
  match tok_str tok, tok_bool tok with
  | Some s, _ => Some (JString s)
  | None, Some b => Some (JBool b)
  | None, None =>
      if is_unsigned_integer_token tok then
        if dec_value tok <? two64 then Some (JUnsigned (dec_value tok)) else None
      else JInteger <$> tok_i64 tok
  end.

Definition seen (v : option JVal) : option JVal :=
  match v with Some JFloat | Some JOther => None | _ => v end.

(** nlohmann reads one JSON text as RFC 8259 means it; an integer past its
    64-bit range becomes a float or an error. *)
Definition nlohmann_ok (json_parse : bytes -> option JVal) : Prop :=
  forall tok, token tok -> seen (json_parse tok) = tok_val tok.

(** glaze reads the members of a struct out of an accepted object, by key;
    integer tokens are promised to be integral. *)
Record glaze_ok (glz_tag : bytes -> option (option bytes)) (glz_new : bytes -> option NewOrder)
    (glz_cancel : bytes -> option CancelOrder) : Prop := {
  gz_tag : forall frame kvs, frame_preflight frame = Some (inr kvs) ->
    mjoin (glz_tag frame) = tok_str (find_key "t" kvs);
  gz_new : forall frame kvs, frame_preflight frame = Some (inr kvs) ->
    integer_fields_are_integral kvs ["px"; "qty"]%string ["v"; "seq"; "epoch"; "md_seq"]%string = true ->
    glz_new frame = read_new kvs;
  gz_cancel : forall frame kvs, frame_preflight frame = Some (inr kvs) ->
    integer_fields_are_integral kvs [] ["v"; "seq"; "epoch"]%string = true ->
    glz_cancel frame = read_cancel kvs }.

(** ** The naive arm implements the specification *)

Lemma unsigned_val tok : is_unsigned_integer_token tok = true -> tok_val tok = JUnsigned <$> tok_u64 tok.
Proof.
  intros Hu. pose proof Hu as Hd%is_unsigned_integer_token_iff. unfold tok_val, tok_u64. rewrite Hu. cbn [andb].
  destruct (digits1_not_minus _ Hd) as (c & s & -> & _). destruct Hd as [_ Hd]. apply Forall_cons in Hd as [Hc _].
  unfold tok_str. rewrite (digit_neq c c_dquote) by done. unfold tok_bool.
  rewrite !bool_decide_eq_false_2; [by destruct (_ <? _)|..]; intros [= -> _]; done.
Qed.

Lemma integer_val tok :
  is_integer_token tok = true -> is_unsigned_integer_token tok = false -> tok_val tok = JInteger <$> tok_i64 tok.
Proof.
  intros Hi Hu. unfold tok_val. rewrite Hu. apply is_integer_token_iff in Hi as [Hd|(d & -> & Hd)]; [|done].
  apply is_unsigned_integer_token_iff in Hd. congruence.
Qed.

Section Arms.
Context (json_parse : bytes -> option JVal) (Hnl : nlohmann_ok json_parse).
Context (scan : FrameScan) (Htok : Forall (fun f : TopLevelField => token f.2) scan).

Lemma parse_field_seen key : seen (parse_field json_parse scan key) = tok_val (find_key key scan).
Proof.
  unfold parse_field. destruct (find_key_token key scan Htok) as [->|Ht]; [done|].
  rewrite <- Hnl by done. destruct (find_key key scan) eqn:E; [|done].
  destruct Ht as [Hj _]. destruct (json_head _ _ Hj) as (? & ? & [=] & _).
Qed.

Lemma get_u64_spec key : get_u64 json_parse scan key = tok_u64 (find_key key scan).
Proof.
  unfold get_u64. destruct (is_unsigned_integer_token (find_key key scan)) eqn:Hu; cbn [negb].
  - pose proof (parse_field_seen key) as E. rewrite unsigned_val in E by done.
    destruct (parse_field _ _ _) as [[]|], (tok_u64 _); cbn in E; by simplify_eq.
  - unfold tok_u64. by rewrite Hu.
Qed.

Lemma get_str_spec key : get_str json_parse scan key = tok_string (find_key key scan).
Proof.
  unfold get_str, tok_string. pose proof (parse_field_seen key) as E. unfold tok_val in E.
  destruct (tok_str _) as [s|]; [destruct (parse_field _ _ _) as [[]|]; cbn in E; by simplify_eq|].
  destruct (parse_field _ _ _) as [[]|]; cbn in *; try done.
  repeat case_match; try done. by destruct (tok_i64 _).
Qed.

Lemma get_bool_spec key : get_bool json_parse scan key = tok_bool (find_key key scan).
Proof.
  unfold get_bool. pose proof (parse_field_seen key) as E. unfold tok_val in E.
  destruct (tok_str _) as [s|] eqn:Es.
  - assert (tok_bool (find_key key scan) = None) as ->.
    { unfold tok_str in Es. destruct (find_key key scan) as [|c r]; [done|].
      destruct (Ascii.eqb_spec c c_dquote) as [->|]; [|done].
      unfold tok_bool. by rewrite !bool_decide_eq_false_2 by (intros [=]). }
    destruct (parse_field _ _ _) as [[]|]; cbn in E; by simplify_eq.
  - destruct (tok_bool _) as [b|]; [destruct (parse_field _ _ _) as [[]|]; cbn in E; by simplify_eq|].
    destruct (parse_field _ _ _) as [[]|]; cbn in *; try done.
    repeat case_match; try done. by destruct (tok_i64 _).
Qed.

Lemma get_i64_spec key : get_i64 json_parse scan key = tok_i64 (find_key key scan).
Proof.
  unfold get_i64. destruct (is_integer_token (find_key key scan)) eqn:Hi; cbn [negb].
  2: { unfold tok_i64. by rewrite Hi. }
  pose proof (parse_field_seen key) as E.
  destruct (is_unsigned_integer_token (find_key key scan)) eqn:Hu.
  - rewrite unsigned_val in E by done. unfold tok_u64 in E. rewrite Hu in E. cbn [andb] in E.
    unfold tok_i64. rewrite Hi. apply is_unsigned_integer_token_iff in Hu.
    destruct (digits1_not_minus _ Hu) as (c & s & Et & Hc). rewrite Et in *. rewrite Hc. cbv zeta.
    assert (0 <= dec_value (c :: s)) as Hnn by (by apply dec_value_nonneg; destruct Hu).
    revert Hnn E. generalize (dec_value (c :: s)). intros n Hnn E.
    rewrite (proj2 (Z.leb_le (- two63) n)) by (unfold two63; lia). cbn [andb].
    destruct (Z.ltb_spec n two64), (Z.ltb_spec n two63); try (exfalso; unfold two63, two64 in *; lia);
      destruct (parse_field _ _ _) as [[]|]; cbn in E; simplify_eq; try done;
      by first [rewrite (proj2 (Z.ltb_ge _ _)) by lia | rewrite (proj2 (Z.ltb_lt _ _)) by lia].
  - rewrite integer_val in E by done.
    destruct (parse_field _ _ _) as [[]|], (tok_i64 _); cbn in E; by simplify_eq.
Qed.

Lemma naive_fields_spec : naive_fields json_parse scan = spec_fields scan.
Proof.
  unfold naive_fields, spec_fields. pose proof (get_str_spec "t") as Ht. unfold get_str, tok_string in Ht.
  destruct (tok_str (find_key "t" scan)) as [tag|] eqn:E.
  - pose proof (parse_field_seen "t") as Hp. unfold tok_val in Hp. rewrite E in Hp.
    destruct (parse_field json_parse scan "t") as [[]|]; cbn in Hp; try done. simplify_eq. cbv zeta.
    destruct (negb _ && negb _); [done|]. rewrite get_u64_spec.
    destruct (tok_u64 _) as [v|] eqn:Ev; [|done]. destruct (negb (v =? 1)); [done|].
    unfold naive_new, naive_cancel, read_new, read_cancel.
    rewrite !get_u64_spec, !get_str_spec, !get_i64_spec, get_bool_spec, Ev. cbn [mbind option_bind].
    case_bool_decide; repeat (match goal with |- context [mbind _ ?x] => destruct x end; cbn [mbind option_bind]; try done).
  - destruct (parse_field json_parse scan "t") as [[]|]; done.
Qed.
End Arms.

(** ** The tuned arm implements the specification *)

Lemma integral_app scan ss us us' :
  integer_fields_are_integral scan ss (us ++ us') =
  forallb (fun k => bool_decide (find_key k scan = []) || is_unsigned_integer_token (find_key k scan)) us &&
  integer_fields_are_integral scan ss us'.
Proof.
  unfold integer_fields_are_integral. rewrite forallb_app.
  destruct (forallb _ ss), (forallb _ us); cbn; by rewrite ?andb_false_r.
Qed.

(** A field whose token is not integral fails the strict read as well. *)
Lemma bad_u64 tok : bool_decide (tok = []) || is_unsigned_integer_token tok = false -> tok_u64 tok = None.
Proof. intros [_ H]%orb_false_iff. unfold tok_u64. by rewrite H. Qed.
Lemma bad_i64 tok : bool_decide (tok = []) || is_integer_token tok = false -> tok_i64 tok = None.
Proof. intros [_ H]%orb_false_iff. unfold tok_i64. by rewrite H. Qed.

(** Closes [read = None] when one of its getters fails. *)
Ltac getter_fails :=
  repeat match goal with
    | H : tok_u64 ?t = None |- context [tok_u64 ?t] => rewrite H
    | H : tok_i64 ?t = None |- context [tok_i64 ?t] => rewrite H
    | |- mbind _ ?x = None => destruct x; cbn [mbind option_bind]; [|reflexivity]
    end; reflexivity.

Lemma not_integral_new kvs :
  integer_fields_are_integral kvs ["px"; "qty"]%string ["seq"; "epoch"; "md_seq"]%string = false ->
  read_new kvs = None.
Proof.
  unfold integer_fields_are_integral, read_new. cbn [forallb]. rewrite !andb_true_r. intros H.
  repeat (apply andb_false_iff in H as [H|H]); first [apply bad_i64 in H | apply bad_u64 in H]; getter_fails.
Qed.

Lemma not_integral_cancel kvs :
  integer_fields_are_integral kvs [] ["seq"; "epoch"]%string = false -> read_cancel kvs = None.
Proof.
  unfold integer_fields_are_integral, read_cancel. cbn [forallb andb]. rewrite !andb_true_r. intros H.
  repeat (apply andb_false_iff in H as [H|H]); apply bad_u64 in H; getter_fails.
Qed.

Lemma tok_str_plain s : unescape (text s) = text s -> tok_str (plain_token s) = Some (text s).
Proof. intros H. unfold plain_token. fold (quoted (text s)). by rewrite tok_str_quoted, H. Qed.

Lemma vtok_spec tok :
  (if bool_decide (tok = []) || negb (is_unsigned_integer_token tok) then None else from_chars_u64 tok) =
  tok_u64 tok.
Proof.
  unfold tok_u64, from_chars_u64. destruct (is_unsigned_integer_token tok) eqn:E.
  - case_bool_decide as Hn; [by rewrite Hn in E|]. done.
  - by rewrite orb_true_r.
Qed.

Section Tuned.
Context glz_tag glz_new glz_cancel (Hgz : glaze_ok glz_tag glz_new glz_cancel).
Context (frame : bytes) (scan : FrameScan) (Hpre : frame_preflight frame = Some (inr scan)).

Lemma glaze_schema_spec :
  glaze_schema glz_tag frame scan =
  match tok_str (find_key "t" scan) with
  | None => inl (malformed "t missing or not a string")
  | Some tag =>
      if negb (bool_decide (tag = text kTagNewOrder)) && negb (bool_decide (tag = text kTagCancelOrder)) then
        inl (unknown_type tag)
      else inr (bool_decide (tag = text kTagNewOrder))
  end.
Proof.
  unfold glaze_schema. cbv zeta. pose proof (gz_tag _ _ _ Hgz _ _ Hpre) as Hg.
  case_bool_decide as H1; [by rewrite H1, tok_str_plain by (vm_compute; done)|].
  case_bool_decide as H2; [by rewrite H2, tok_str_plain by (vm_compute; done)|].
  rewrite <- Hg. by destruct (glz_tag frame) as [[tag|]|].
Qed.

Lemma glaze_fields_spec : glaze_fields glz_tag glz_new glz_cancel frame scan = spec_fields scan.
Proof.
  unfold glaze_fields, spec_fields. rewrite glaze_schema_spec.
  destruct (tok_str (find_key "t" scan)) as [tag|]; [|done]. destruct (negb _ && negb _); [done|].
  cbv zeta. rewrite vtok_spec. destruct (tok_u64 (find_key "v" scan)) as [v|] eqn:Ev; [|done].
  assert (is_unsigned_integer_token (find_key "v" scan) = true) as Hv.
  { unfold tok_u64 in Ev. by destruct (is_unsigned_integer_token (find_key "v" scan)). }
  destruct (negb (v =? 1)); [done|].
  assert (forall ss us, integer_fields_are_integral scan ss us = true ->
    integer_fields_are_integral scan ss ("v"%string :: us) = true) as Hcons.
  { intros ss us H. change ("v"%string :: us) with (["v"%string] ++ us). rewrite integral_app, H. cbn [forallb].
    by rewrite Hv, orb_true_r. }
  case_bool_decide.
  - destruct (integer_fields_are_integral scan _ _) eqn:E; cbn [negb].
    + rewrite (gz_new _ _ _ Hgz _ _ Hpre) by (by apply Hcons). by destruct (read_new scan).
    + by rewrite not_integral_new.
  - destruct (integer_fields_are_integral scan _ _) eqn:E; cbn [negb].
    + rewrite (gz_cancel _ _ _ Hgz _ _ Hpre) by (by apply Hcons). by destruct (read_cancel scan).
    + by rewrite not_integral_cancel.
Qed.
End Tuned.

(** ** Each arm decodes as the specification says *)

Lemma decode_naive_spec json_parse frame : nlohmann_ok json_parse -> decode_naive json_parse frame = decode_spec frame.
Proof.
  intros Hnl. unfold decode_naive, decode_spec. destruct (frame_preflight frame) as [[e|kvs]|] eqn:E; [done| |done].
  by rewrite (naive_fields_spec _ Hnl) by (by eapply preflight_tokens).
Qed.

Lemma decode_glaze_spec glz_tag glz_new glz_cancel frame :
  glaze_ok glz_tag glz_new glz_cancel -> decode_glaze glz_tag glz_new glz_cancel frame = decode_spec frame.
Proof.
  intros Hgz. unfold decode_glaze, decode_spec. destruct (frame_preflight frame) as [[e|kvs]|] eqn:E; [done| |done].
  by erewrite glaze_fields_spec.
Qed.

(** C20 The two codec arms decode every frame to the same message or the same
    error, code and detail alike: both are the field-by-field reading of the
    frame with the precedence of codec.hpp's decode contract, which is preflight,
    tag, version, fields, identifiers; PROTOCOL section 6 has the version before
    the tag, and neither arm does that. *)
Theorem codec_arms_agree json_parse glz_tag glz_new glz_cancel frame :
  nlohmann_ok json_parse -> glaze_ok glz_tag glz_new glz_cancel ->
  decode_naive json_parse frame = decode_spec frame /\
  decode_glaze glz_tag glz_new glz_cancel frame = decode_spec frame.
Proof.
  split; [by apply decode_naive_spec|by apply decode_glaze_spec].
Qed.

(** C21 A decoded command is well formed: its version is 1, its integers are in
    the width of their fields, its identifiers are short and free of control
    bytes. *)
Theorem decoded_well_formed json_parse frame m :
  nlohmann_ok json_parse -> decode_naive json_parse frame = Some (inr m) ->
  match m with
  | InNew o => no_v o = 1 /\ is_u64 (no_seq o) /\ is_u64 (no_epoch o) /\ is_u64 (no_md_seq o) /\
      is_i64 (no_px o) /\ is_i64 (no_qty o) /\
      identifier_ok 64 (no_cl_id o) /\ identifier_ok 32 (no_symbol o) /\ identifier_ok 8 (no_side o)
  | InCancel c => co_v c = 1 /\ is_u64 (co_seq c) /\ is_u64 (co_epoch c) /\ identifier_ok 64 (co_cl_id c)
  end.
Proof.
  intros Hnl. rewrite decode_naive_spec by done. unfold decode_spec.
  destruct (frame_preflight frame) as [[e|kvs]|] eqn:E; [done| |done]. unfold spec_fields.
  destruct (tok_str _) as [tag|]; [|done]. destruct (negb _ && negb _); [done|].
  destruct (tok_u64 (find_key "v" kvs)) as [v|] eqn:Ev; [|done].
  destruct (Z.eqb_spec v 1) as [->|]; cbn [negb]; [|done].
  case_bool_decide; unfold read_new, read_cancel; rewrite Ev; cbn [mbind option_bind].
  - repeat (match goal with |- context [mbind _ ?x] => let E := fresh "E" in destruct x eqn:E end;
      cbn [mbind option_bind]; try done).
    cbn [fmap option_fmap option_map checked]. destruct (check_inbound_strings _) eqn:Hc; [done|]. intros [= <-].
    apply check_inbound_strings_spec in Hc. cbn in *. destruct Hc as (? & ? & ?).
    split_and!; eauto using tok_u64_range, tok_i64_range.
  - repeat (match goal with |- context [mbind _ ?x] => let E := fresh "E" in destruct x eqn:E end;
      cbn [mbind option_bind]; try done).
    cbn [fmap option_fmap option_map checked]. destruct (check_inbound_strings _) eqn:Hc; [done|]. intros [= <-].
    apply check_inbound_strings_spec in Hc. cbn in *. split_and!; eauto using tok_u64_range.
Qed.

(** ** Concrete parsers, and frames through both arms *)

Definition ref_tag (frame : bytes) : option (option bytes) :=
  match frame_preflight frame with
  | Some (inr kvs) => match tok_str (find_key "t" kvs) with Some s => Some (Some s) | None => Some None end
  | _ => None
  end.
Definition ref_new (frame : bytes) : option NewOrder :=
  match frame_preflight frame with Some (inr kvs) => read_new kvs | _ => None end.
Definition ref_cancel (frame : bytes) : option CancelOrder :=
  match frame_preflight frame with Some (inr kvs) => read_cancel kvs | _ => None end.

Lemma tok_val_ok : nlohmann_ok tok_val.
Proof.
  intros tok _. unfold tok_val. destruct (tok_str tok); [done|]. destruct (tok_bool tok); [done|].
  destruct (is_unsigned_integer_token tok); [by destruct (_ <? _)|]. by destruct (tok_i64 tok).
Qed.

Lemma ref_ok : glaze_ok ref_tag ref_new ref_cancel.
Proof.
  constructor; intros frame kvs H; unfold ref_tag, ref_new, ref_cancel; rewrite H; [|done..].
  by destruct (tok_str _).
Qed.

Definition demo_order : bytes := requote (text
  "{'t':'new_order','v':1,'seq':1,'epoch':7,'md_seq':3,'cl_id':'a\u0041','symbol':'BTC-USD','side':'B','px':-0,'qty':100,'post_only':true,'x':1.5e3}").

Lemma codec_arms_agree_witness :
  decode_naive tok_val demo_order =
    Some (inr (InNew (mkNewOrder 1 1 7 3 "aA" "BTC-USD" "B" 0 100 true))) /\
  decode_glaze ref_tag ref_new ref_cancel demo_order = decode_spec demo_order.
Proof.
  split; [vm_compute; reflexivity|]. apply (codec_arms_agree tok_val ref_tag ref_new ref_cancel demo_order).
  - exact tok_val_ok.
  - exact ref_ok.
Defined.

Lemma decoded_well_formed_witness :
  exists o, decode_naive tok_val demo_order = Some (inr (InNew o)) /\ no_v o = 1 /\ is_i64 (no_px o).
Proof.
  set (o := mkNewOrder 1 1 7 3 "aA" "BTC-USD" "B" 0 100 true). exists o.
  assert (decode_naive tok_val demo_order = Some (inr (InNew o))) as H by (vm_compute; reflexivity).
  destruct (decoded_well_formed tok_val demo_order (InNew o) tok_val_ok H) as (Hv & _ & _ & _ & Hp & _).
  exact (conj H (conj Hv Hp)).
Defined.

(** The tag is checked before the version. *)
Example unknown_tag_before_version :
  decode_spec (requote (text "{'v':2,'t':'nope'}")) = Some (inl (unknown_type (text "nope"))).
Proof. vm_compute. reflexivity. Qed.
