(* ===== verification/CodecRoundtrip.v ===== *)
(** * Outbound frames: strict JSON that reads back as the message

    [encode] is shown to build, for every message whose strings are UTF-8 and
    whose integers fit their fields, a frame the preflight accepts with exactly
    the message's fields in wire order, and from which a reader of JSON tokens
    recovers the message. *)

From Stdlib Require Import ZArith Ascii String List Lia.
From stdpp Require Import base tactics list option strings.
From S2P Require Import Prelude Types Protocol Utf8 Preflight JsonGrammar PreflightSound PreflightComplete.
From S2P Require Import PreflightProps Codec JsonTokens CodecProps.

(** ** The serializer as a list of fields *)

(** One member and the comma after it. *)
Definition item (f : TopLevelField) : bytes := quoted f.1 ++ ":"%char :: f.2 ++ [","%char].
Definition items (kvs : FrameScan) : bytes := concat (map item kvs).

Definition int_f (key : string) (z : Z) : TopLevelField := (text key, dec_bytes z).
Definition str_f (key s : string) : TopLevelField := (text key, quoted (escape (text s))).
Definition tag_f (tag : string) : TopLevelField := (text "t", plain_token tag).

(** The fields of a message, in wire order. *)
Definition out_fields (m : OutMsg) : FrameScan :=
  match m with
  | OutTob m => [tag_f kTagTob; int_f "v" (tob_v m); int_f "seq" (tob_seq m); int_f "epoch" (tob_epoch m);
      int_f "md_seq" (tob_md_seq m); str_f "symbol" (tob_symbol m); int_f "bid_px" (tob_bid_px m);
      int_f "bid_qty" (tob_bid_qty m); int_f "ask_px" (tob_ask_px m); int_f "ask_qty" (tob_ask_qty m)]
  | OutAck m => [tag_f kTagOrderAck; int_f "v" (oa_v m); int_f "seq" (oa_seq m); int_f "epoch" (oa_epoch m);
      str_f "cl_id" (oa_cl_id m); int_f "eng_id" (oa_eng_id m); str_f "status" (oa_status m);
      int_f "svc_ns" (oa_svc_ns m)]
  | OutCancelAck m => [tag_f kTagCancelAck; int_f "v" (ca_v m); int_f "seq" (ca_seq m);
      int_f "epoch" (ca_epoch m); str_f "cl_id" (ca_cl_id m); int_f "eng_id" (ca_eng_id m);
      str_f "status" (ca_status m)]
  | OutReject m => [tag_f kTagReject; int_f "v" (rj_v m); int_f "seq" (rj_seq m); int_f "epoch" (rj_epoch m);
      str_f "cl_id" (rj_cl_id m); str_f "code" (rj_code m); str_f "reason" (rj_reason m)]
  | OutFill m => [tag_f kTagFill; int_f "v" (fl_v m); int_f "seq" (fl_seq m); int_f "epoch" (fl_epoch m);
      str_f "cl_id" (fl_cl_id m); int_f "eng_id" (fl_eng_id m); int_f "px" (fl_px m); int_f "qty" (fl_qty m);
      int_f "leaves" (fl_leaves m); int_f "exec_id" (fl_exec_id m)]
  end.

Lemma field_int_item key z out : field_int key z out = out ++ item (int_f key z).
Proof. unfold field_int, append_key, item, int_f, quoted. cbn. app_norm. Qed.
Lemma field_str_item key s out : field_str key s out = out ++ item (str_f key s).
Proof. unfold field_str, append_key. rewrite append_escaped_eq. unfold item, str_f, quoted. cbn. app_norm. Qed.
Lemma open_msg_item tag out : open_msg tag out = out ++ "{"%char :: item (tag_f tag).
Proof. unfold open_msg, item, tag_f, quoted, plain_token. cbn. app_norm. Qed.

Definition joined (kvs : FrameScan) : bytes := removelast (items kvs).

Lemma items_snoc kvs f : items (kvs ++ [f]) = items kvs ++ item f.
Proof. unfold items. rewrite map_app, concat_app. cbn. by rewrite app_nil_r. Qed.

Lemma items_app kvs kvs' : items (kvs ++ kvs') = items kvs ++ items kvs'.
Proof. unfold items. by rewrite map_app, concat_app. Qed.

Lemma joined_snoc kvs f : joined (kvs ++ [f]) = items kvs ++ quoted f.1 ++ ":"%char :: f.2.
Proof.
  unfold joined. rewrite items_snoc. unfold item.
  replace (items kvs ++ quoted f.1 ++ ":"%char :: f.2 ++ [","%char])
    with ((items kvs ++ quoted f.1 ++ ":"%char :: f.2) ++ [","%char]) by app_norm.
  apply removelast_last.
Qed.

Lemma items_joined kvs : kvs <> [] -> items kvs = joined kvs ++ [","%char].
Proof.
  destruct kvs as [|f kvs _] using rev_ind; [done|]. intros _. rewrite joined_snoc, items_snoc.
  unfold item. app_norm.
Qed.

Lemma close_items kvs :
  kvs <> [] -> close_msg ("{"%char :: items kvs) = "{"%char :: joined kvs ++ ["}"%char].
Proof.
  intros Hne. unfold close_msg. rewrite items_joined by done. rewrite app_comm_cons, removelast_last. app_norm.
Qed.

Lemma encode_fields m : encode m = "{"%char :: joined (out_fields m) ++ ["}"%char].
Proof.
  assert (encode m = close_msg ("{"%char :: items (out_fields m))) as ->; [|apply close_items; by destruct m].
  destruct m; cbn [encode out_fields];
    unfold encode_tob, encode_ack, encode_cancel_ack, encode_reject, encode_fill; f_equal;
    repeat first [rewrite field_int_item | rewrite field_str_item]; rewrite open_msg_item;
    rewrite <- !app_assoc; unfold items; cbn [map concat app]; by rewrite app_nil_r.
Qed.

(** ** Joined fields are the members of an object *)

Lemma members_joined n kvs :
  kvs <> [] -> Forall (fun f : TopLevelField => str_body f.1 /\ json n f.2) kvs -> members n (joined kvs) kvs.
Proof.
  induction kvs as [|[k v] kvs IH] using rev_ind; [done|]. intros _ [Hall [Hk Hv]%Forall_singleton]%Forall_app.
  rewrite joined_snoc. cbn [fst snd].
  replace (items kvs ++ quoted k ++ ":"%char :: v)
    with (items kvs ++ [] ++ quoted k ++ [] ++ ":"%char :: [] ++ v ++ []) by app_norm.
  constructor; auto using ws_nil. destruct (decide (kvs = [])) as [->|Hne]; [constructor|].
  rewrite items_joined by done. constructor. auto.
Qed.

(** ** Which messages the server may send *)

Definition utf8_string (s : string) : Prop := utf8_text (text s).

Definition wf_out (m : OutMsg) : Prop :=
  match m with
  | OutTob m => is_u64 (tob_v m) /\ is_u64 (tob_seq m) /\ is_u64 (tob_epoch m) /\ is_u64 (tob_md_seq m) /\
      utf8_string (tob_symbol m) /\ is_i64 (tob_bid_px m) /\ is_i64 (tob_bid_qty m) /\
      is_i64 (tob_ask_px m) /\ is_i64 (tob_ask_qty m)
  | OutAck m => is_u64 (oa_v m) /\ is_u64 (oa_seq m) /\ is_u64 (oa_epoch m) /\ utf8_string (oa_cl_id m) /\
      is_u64 (oa_eng_id m) /\ utf8_string (oa_status m) /\ is_i64 (oa_svc_ns m)
  | OutCancelAck m => is_u64 (ca_v m) /\ is_u64 (ca_seq m) /\ is_u64 (ca_epoch m) /\ utf8_string (ca_cl_id m) /\
      is_u64 (ca_eng_id m) /\ utf8_string (ca_status m)
  | OutReject m => is_u64 (rj_v m) /\ is_u64 (rj_seq m) /\ is_u64 (rj_epoch m) /\ utf8_string (rj_cl_id m) /\
      utf8_string (rj_code m) /\ utf8_string (rj_reason m)
  | OutFill m => is_u64 (fl_v m) /\ is_u64 (fl_seq m) /\ is_u64 (fl_epoch m) /\ utf8_string (fl_cl_id m) /\
      is_u64 (fl_eng_id m) /\ is_i64 (fl_px m) /\ is_i64 (fl_qty m) /\ is_i64 (fl_leaves m) /\ is_u64 (fl_exec_id m)
  end.

(** A field that may be written: its key is plain ASCII, its value a token. *)
Definition plain_char (c : ascii) : bool :=
  (0x20 <=? ord c) && (ord c <? 0x80) && negb (Ascii.eqb c c_dquote) && negb (Ascii.eqb c c_bslash).
Definition writable (f : TopLevelField) : Prop := forallb plain_char f.1 = true /\ token f.2.

Lemma plain_body k : forallb plain_char k = true -> str_body k /\ utf8_text k /\ (c_bslash ∉ k) /\ unescape k = k.
Proof.
  induction k as [|c k IH]; cbn [forallb].
  - intros _. split_and!; [constructor|by exists []|apply not_elem_of_nil|done].
  - intros [Hc Hk]%andb_true_iff. destruct (IH Hk) as (H1 & H2 & H3 & H4). unfold plain_char in Hc. zbool.
    repeat match goal with H : negb _ = true |- _ => apply negb_true_iff in H end.
    repeat match goal with H : Ascii.eqb _ _ = false |- _ => apply Ascii.eqb_neq in H end.
    split_and!.
    + by constructor.
    + apply (utf8_text_app [c]); [|done]. by apply utf8_text_ascii, Forall_singleton.
    + apply not_elem_of_cons. split; [congruence|done].
    + cbn [unescape]. rewrite (proj2 (Ascii.eqb_neq _ _)) by done. cbn [negb]. by rewrite H4.
Qed.

Lemma writable_int key z : forallb plain_char (text key) = true -> writable (int_f key z).
Proof.
  intros Hk. split; [done|]. split; [by apply J_number, dec_bytes_number|]. apply utf8_text_ascii. cbn [int_f snd].
  destruct (Z.lt_ge_cases z 0) as [H|H].
  - destruct (dec_bytes_neg z H) as (d & -> & [_ Hd] & _). constructor; [done|].
    eapply Forall_impl; [exact Hd|]. cbn. intros c Hc%digit_ord. lia.
  - destruct (dec_bytes_nonneg z H) as ([_ Hd] & _). eapply Forall_impl; [exact Hd|].
    cbn. intros c Hc%digit_ord. lia.
Qed.

Lemma quoted_text s : utf8_text s -> utf8_text (quoted s).
Proof.
  intros H. apply (utf8_text_app [c_dquote]); [by apply utf8_text_ascii, Forall_singleton|].
  apply utf8_text_app; [done|]. by apply utf8_text_ascii, Forall_singleton.
Qed.

Lemma writable_str key s : forallb plain_char (text key) = true -> utf8_string s -> writable (str_f key s).
Proof.
  intros Hk Hs. split; [done|]. split; [apply J_string, escape_body|]. by apply quoted_text, escape_text.
Qed.

Lemma writable_tag tag : forallb plain_char (text tag) = true -> writable (tag_f tag).
Proof.
  intros Hk. destruct (plain_body _ Hk) as (Hb & Hu & _). split; [done|]. unfold plain_token.
  split; [by apply J_string|by apply quoted_text].
Qed.

Lemma out_fields_writable m : wf_out m -> Forall writable (out_fields m).
Proof.
  destruct m; cbn [wf_out out_fields]; intros H;
    repeat match goal with H : _ /\ _ |- _ => destruct H end; repeat (apply List.Forall_cons);
    first [apply List.Forall_nil | by apply writable_int | by apply writable_str | by apply writable_tag].
Qed.

Lemma item_text f : writable f -> utf8_text (item f).
Proof.
  intros [(_ & Hk & _)%plain_body [_ Hv]]. unfold item. apply utf8_text_app; [by apply quoted_text|].
  apply (utf8_text_app [":"%char]); [by apply utf8_text_ascii, Forall_singleton|].
  apply utf8_text_app; [done|]. by apply utf8_text_ascii, Forall_singleton.
Qed.

Lemma joined_text kvs : kvs <> [] -> Forall writable kvs -> utf8_text (joined kvs).
Proof.
  intros Hne Hall. apply (utf8_text_prefix _ "," []); [done|]. rewrite <- items_joined by done.
  unfold items. clear Hne. induction Hall; [by exists []|]. cbn [map concat]. apply utf8_text_app; [by apply item_text|done].
Qed.

(** A list of distinct writable fields, at most 32, is an acceptable frame. *)
Lemma fields_accepted kvs :
  kvs <> [] -> Forall writable kvs -> (length kvs <= 32)%nat -> NoDup kvs.*1 ->
  frame_preflight ("{"%char :: joined kvs ++ ["}"%char]) = Some (inr kvs).
Proof.
  intros Hne Hwf Hlen Hnd. apply preflight_spec. split_and!.
  - done.
  - apply (utf8_text_app ["{"%char]); [by apply utf8_text_ascii, Forall_singleton|].
    apply utf8_text_app; [by apply joined_text|]. by apply utf8_text_ascii, Forall_singleton.
  - exists [], (joined kvs), []. split_and!; [done|apply ws_nil|apply ws_nil|].
    apply OB_members, members_joined; [done|]. eapply Forall_impl; [exact Hwf|].
    intros f [(? & _)%plain_body [? _]]. done.
  - done.
  - eapply Forall_impl; [exact Hwf|]. intros f [(_ & _ & ? & _)%plain_body _]. done.
  - done.
Qed.

Lemma out_fields_keys_distinct m : NoDup (out_fields m).*1.
Proof.
  destruct m; cbn [out_fields fmap list_fmap fst int_f str_f tag_f];
    apply (bool_decide_unpack _); vm_compute; reflexivity.
Qed.

Lemma encode_accepted m : wf_out m -> frame_preflight (encode m) = Some (inr (out_fields m)).
Proof.
  intros Hwf%out_fields_writable. rewrite encode_fields.
  apply fields_accepted; [by destruct m|done|destruct m; cbn; lia|apply out_fields_keys_distinct].
Qed.

(** ** Reading a frame back *)

Section Reader.
Context (kvs : FrameScan).
Definition r_u64 (key : string) : option Z := tok_u64 (find_key key kvs).
Definition r_i64 (key : string) : option Z := tok_i64 (find_key key kvs).
Definition r_str (key : string) : option string := tok_string (find_key key kvs).

Definition read_tob : option OutMsg :=
  v ← r_u64 "v"; seq ← r_u64 "seq"; epoch ← r_u64 "epoch"; md_seq ← r_u64 "md_seq"; symbol ← r_str "symbol";
  bid_px ← r_i64 "bid_px"; bid_qty ← r_i64 "bid_qty"; ask_px ← r_i64 "ask_px"; ask_qty ← r_i64 "ask_qty";
  Some (OutTob (mkTob v seq epoch md_seq symbol bid_px bid_qty ask_px ask_qty)).
Definition read_ack : option OutMsg :=
  v ← r_u64 "v"; seq ← r_u64 "seq"; epoch ← r_u64 "epoch"; cl_id ← r_str "cl_id"; eng_id ← r_u64 "eng_id";
  status ← r_str "status"; svc_ns ← r_i64 "svc_ns";
  Some (OutAck (mkOrderAck v seq epoch cl_id eng_id status svc_ns)).
Definition read_cancel_ack : option OutMsg :=
  v ← r_u64 "v"; seq ← r_u64 "seq"; epoch ← r_u64 "epoch"; cl_id ← r_str "cl_id"; eng_id ← r_u64 "eng_id";
  status ← r_str "status"; Some (OutCancelAck (mkCancelAck v seq epoch cl_id eng_id status)).
Definition read_reject : option OutMsg :=
  v ← r_u64 "v"; seq ← r_u64 "seq"; epoch ← r_u64 "epoch"; cl_id ← r_str "cl_id"; code ← r_str "code";
  reason ← r_str "reason"; Some (OutReject (mkReject v seq epoch cl_id code reason)).
Definition read_fill : option OutMsg :=
  v ← r_u64 "v"; seq ← r_u64 "seq"; epoch ← r_u64 "epoch"; cl_id ← r_str "cl_id"; eng_id ← r_u64 "eng_id";
  px ← r_i64 "px"; qty ← r_i64 "qty"; leaves ← r_i64 "leaves"; exec_id ← r_u64 "exec_id";
  Some (OutFill (mkFill v seq epoch cl_id eng_id px qty leaves exec_id)).

Definition read_out : option OutMsg :=
  tag ← r_str "t";
  if bool_decide (tag = kTagTob) then read_tob
  else if bool_decide (tag = kTagOrderAck) then read_ack
  else if bool_decide (tag = kTagCancelAck) then read_cancel_ack
  else if bool_decide (tag = kTagReject) then read_reject
  else if bool_decide (tag = kTagFill) then read_fill
  else None.
End Reader.

Lemma read_str s : tok_string (quoted (escape (text s))) = Some s.
Proof.
  unfold tok_string. rewrite tok_str_quoted, (proj2 (escape_body _)). cbn. by rewrite string_of_list_ascii_of_string.
Qed.

Lemma find_key_here key v kvs : find_key key ((text key, v) :: kvs) = v.
Proof. unfold find_key, find_field. cbn [List.find fst]. by rewrite bool_decide_eq_true_2. Qed.
Lemma find_key_next key k v kvs : k <> text key -> find_key key ((k, v) :: kvs) = find_key key kvs.
Proof. intros H. unfold find_key, find_field. cbn [List.find fst]. by rewrite bool_decide_eq_false_2. Qed.

Lemma read_tag tag : forallb plain_char (text tag) = true -> tok_string (plain_token tag) = Some tag.
Proof.
  intros (_ & _ & _ & Hu)%plain_body. unfold tok_string, plain_token. fold (quoted (text tag)).
  rewrite tok_str_quoted, Hu. cbn. by rewrite string_of_list_ascii_of_string.
Qed.

(** Reads one field of a concrete frame. *)
Ltac read_field :=
  repeat first
    [ rewrite find_key_here
    | rewrite find_key_next by (vm_compute; discriminate)
    | rewrite read_tag by reflexivity
    | rewrite read_str
    | rewrite tok_u64_dec by assumption
    | rewrite tok_i64_dec by assumption
    | rewrite bool_decide_eq_true_2 by reflexivity
    | rewrite bool_decide_eq_false_2 by discriminate
    | progress cbn [mbind option_bind] ].

Lemma read_out_fields m : wf_out m -> read_out (out_fields m) = Some m.
Proof.
  destruct m as [[]|[]|[]|[]|[]]; cbn; intros H; repeat match goal with H : _ /\ _ |- _ => destruct H end;
    unfold read_out, read_tob, read_ack, read_cancel_ack, read_reject, read_fill, r_u64, r_i64, r_str;
    unfold out_fields, int_f, str_f, tag_f; cbn -[find_key tok_u64 tok_i64 tok_string list_ascii_of_string
      dec_bytes plain_token quoted escape bool_decide]; read_field; reflexivity.
Qed.
