(* ===== verification/CodecText.v ===== *)
(** * Text in, text out

    What decoding hands to the rest of the server is text: the identifiers of a
    command are UTF-8 (whatever escapes the peer wrote them with), its integers
    fit their fields, and the detail of every decode error is UTF-8 too, so it
    can be sent back. *)

From Stdlib Require Import ZArith Ascii String List Lia.
From stdpp Require Import base tactics list option strings.
From S2P Require Import Prelude Types Protocol Utf8 Preflight JsonGrammar PreflightSound PreflightComplete.
From S2P Require Import PreflightProps Codec JsonTokens CodecProps CodecRoundtrip.

(** ** Unescaping *)

Definition ascii_text (s : bytes) : Prop := Forall (fun c => ord c < 0x80) s.

Lemma hex_digit_ascii c x : hex_digit c = Some x -> ord c < 0x80.
Proof.
  unfold hex_digit. destruct (in_range_cases 48 57 c) as [[-> ?]|[-> ?]]; [lia|].
  destruct (in_range_cases 97 102 c) as [[-> ?]|[-> ?]]; [lia|].
  destruct (in_range_cases 65 70 c) as [[-> ?]|[-> ?]]; [lia|done].
Qed.

Lemma hex4_facts a b c d cu : hex4 a b c d cu -> ascii_text [a; b; c; d] /\ 0 <= cu < 0x10000.
Proof.
  intros (x & y & z & t & Ha & Hb & Hc & Hd & ->). split; [repeat constructor; by eapply hex_digit_ascii|].
  apply hex_digit_range in Ha, Hb, Hc, Hd. lia.
Qed.

Lemma simple_escape_facts e :
  is_simple_escape e = true -> ord e < 0x80 /\ Ascii.eqb e "u" = false /\ ord (unescape_char e) < 0x80.
Proof.
  unfold is_simple_escape. intros (x & Hin & ->%Ascii.eqb_eq)%existsb_exists. cbn in Hin.
  repeat (destruct Hin as [<-|Hin]; [by vm_compute|]). done.
Qed.

Lemma utf8_text_scalar cp : scalar cp -> utf8_text (utf8_encode cp).
Proof. intros H. exists [cp]. split; [by apply Forall_singleton|]. cbn. by rewrite app_nil_r. Qed.

Lemma utf8_text_peel p s : ascii_text p -> utf8_text (p ++ s) -> utf8_text s.
Proof. intros Hp. by apply utf8_text_cancel, utf8_text_ascii. Qed.

(** Bytes past ASCII stand for themselves. *)
Lemma high_body h s :
  Forall (fun c => 0x80 <= ord c) h -> str_body (h ++ s) -> str_body s /\ unescape (h ++ s) = h ++ unescape s.
Proof.
  induction 1 as [|c h Hc _ IH]; [done|]. cbn [app]. intros Hb.
  assert (c <> c_bslash) as Hne by (intros ->; vm_compute in Hc; done).
  inversion Hb; subst; try done. destruct (IH ltac:(done)) as [? E]. split; [done|]. cbn [unescape].
  by rewrite (proj2 (Ascii.eqb_neq _ _)), E by done.
Qed.

Lemma unescape_unicode a b c d cu s :
  hex4 a b c d cu -> ~ high_surrogate cu ->
  unescape (c_bslash :: "u"%char :: a :: b :: c :: d :: s) = utf8_encode cu ++ unescape s.
Proof.
  intros H%scan_hex4_spec Hh%is_high_false. cbn [unescape].
  change (Ascii.eqb c_bslash c_bslash) with true. change (Ascii.eqb "u" "u") with true. cbn [negb]. by rewrite H, Hh.
Qed.

Lemma unescape_pair a b c d hi a' b' c' d' lo s :
  hex4 a b c d hi -> high_surrogate hi -> hex4 a' b' c' d' lo ->
  unescape (c_bslash :: "u"%char :: a :: b :: c :: d :: c_bslash :: "u"%char :: a' :: b' :: c' :: d' :: s) =
    utf8_encode (0x10000 + (hi - 0xD800) * 1024 + (lo - 0xDC00)) ++ unescape s.
Proof.
  intros H%scan_hex4_spec Hh%is_high_iff H'%scan_hex4_spec. cbn [unescape].
  change (Ascii.eqb c_bslash c_bslash) with true. change (Ascii.eqb "u" "u") with true. cbn [negb]. by rewrite H, Hh, H'.
Qed.

Lemma unescape_text k : str_body k -> utf8_text k -> utf8_text (unescape k).
Proof.
  remember (length k) as n eqn:Hn. revert k Hn. induction n as [n IH] using lt_wf_ind. intros k -> Hb Hu.
  assert (forall p s, k = p ++ s -> (0 < length p)%nat -> str_body s -> utf8_text s -> utf8_text (unescape s)) as Hrec.
  { intros p s -> Hp Hs Ht. eapply IH; [|reflexivity|done|done]. rewrite length_app. lia. }
  clear IH. destruct Hu as (cps & Hall & E). destruct Hall as [|cp cps Hsc Hall]; [by subst; exists []|].
  cbn [map concat] in E. assert (utf8_text (concat (map utf8_encode cps))) as Hrest by (by exists cps).
  destruct (Z.lt_ge_cases cp 0x80) as [Hlt|Hge].
  - assert (utf8_encode cp = [chr cp]) as Ec by (unfold utf8_encode; by rewrite (proj2 (Z.ltb_lt cp 0x80)) by lia).
    rewrite Ec in E. cbn in E. assert (ord (chr cp) < 0x80) as Hc by (unfold scalar in Hsc; rewrite ord_chr; lia).
    clear Ec Hlt Hsc Hall. revert Hc E Hrest. generalize (chr cp), (concat (map utf8_encode cps)). clear cp cps.
    intros c s Hc -> Hs. inversion Hb; subst.
    + cbn [unescape]. rewrite (proj2 (Ascii.eqb_neq _ _)) by done. cbn [negb].
      apply (utf8_text_app [c]); [by apply utf8_text_ascii, Forall_singleton|]. by apply (Hrec [c]); [|cbn; lia|..].
    + destruct (simple_escape_facts e) as (He & Hnu & Hx); [done|]. apply (utf8_text_peel [e]) in Hs; [|by apply Forall_singleton].
      cbn [unescape]. rewrite Ascii.eqb_refl, Hnu. cbn [negb].
      apply (utf8_text_app [_]); [by apply utf8_text_ascii, Forall_singleton|].
      by apply (Hrec [c_bslash; e]); [|cbn; lia|..].
    + match goal with H : hex4 _ _ _ _ _ |- _ => destruct (hex4_facts _ _ _ _ _ H) end.
      apply (utf8_text_peel (_ :: [a; b; c0; d])) in Hs; [|by constructor].
      erewrite unescape_unicode by done.
      apply utf8_text_app; [apply utf8_text_scalar; unfold scalar, high_surrogate, low_surrogate in *; lia|].
      by apply (Hrec (c_bslash :: "u"%char :: [a; b; c0; d])); [|cbn; lia|..].
    + destruct (hex4_facts a b c0 d hi) as [Ha Hhi]; [done|]. destruct (hex4_facts a' b' c' d' lo) as [Ha' Hlo]; [done|].
      apply (utf8_text_peel ((_ :: [a; b; c0; d]) ++ c_bslash :: "u"%char :: [a'; b'; c'; d'])) in Hs;
        [|apply Forall_app; split; [by constructor|by do 2 constructor]].
      erewrite unescape_pair by done.
      apply utf8_text_app; [apply utf8_text_scalar; unfold scalar, high_surrogate, low_surrogate in *; lia|].
      by apply (Hrec ((c_bslash :: "u"%char :: [a; b; c0; d]) ++ c_bslash :: "u"%char :: [a'; b'; c'; d'])); [|cbn; lia|..].
  - pose proof (utf8_encode_high cp Hsc Hge) as Hh. rewrite E in Hb. destruct (high_body _ _ Hh Hb) as [Hb' Eu].
    rewrite E, Eu. apply utf8_text_app; [by apply utf8_text_scalar|].
    apply (Hrec (utf8_encode cp)); [done| |done|done]. unfold utf8_encode. repeat case_match; cbn; lia.
Qed.

(** ** String tokens *)

Lemma tok_str_text tok s : token tok -> tok_str tok = Some s -> utf8_text s.
Proof.
  intros [Hj Hu] Hs. destruct tok as [|c r]; [done|]. unfold tok_str in Hs.
  destruct (Ascii.eqb_spec c c_dquote) as [->|]; [|done]. simplify_eq/=.
  inversion Hj as [? k Hk E|? ? [E|[E|E]]|? ? Hn| |]; subst; try done.
  - rewrite removelast_snoc. apply unescape_text; [done|].
    apply (utf8_text_peel [c_dquote]) in Hu; [|by apply Forall_singleton]. by apply (utf8_text_prefix _ c_dquote []) in Hu.
  - destruct Hn as (m & i & f & x & E & [->| ->] & Hi & _); [|done].
    destruct Hi as [->|(c & s' & -> & _ & Hd)]; [done|]. simplify_eq/=. by apply Forall_cons in Hd as [Hd _].
Qed.

Lemma tok_string_text tok s : tok = [] \/ token tok -> tok_string tok = Some s -> utf8_string s.
Proof.
  intros [->|Ht]; [done|]. unfold tok_string, utf8_string. intros (b & E & ->)%fmap_Some.
  rewrite list_ascii_of_string_of_list_ascii. by eapply tok_str_text.
Qed.

(** ** ASCII strings *)

Definition ascii_string (s : string) : Prop := ascii_text (text s).

Lemma ascii_string_utf8 s : ascii_string s -> utf8_string s.
Proof. apply utf8_text_ascii. Qed.

Lemma text_app a b : text (a ++ b)%string = text a ++ text b.
Proof. induction a as [|c a IH]; [done|]. change (c :: text (a ++ b)%string = c :: (text a ++ text b)). by rewrite IH. Qed.

Lemma ascii_string_app a b : ascii_string a -> ascii_string b -> ascii_string (a ++ b)%string.
Proof. unfold ascii_string. rewrite text_app. intros. by apply Forall_app. Qed.

Lemma dec_string_ascii z : ascii_string (dec_string z).
Proof.
  unfold ascii_string, dec_string. rewrite list_ascii_of_string_of_list_ascii.
  assert (forall d, digits d -> ascii_text d) as Hdig.
  { intros d Hd. eapply Forall_impl; [exact Hd|]. cbn. intros c Hc%digit_ord. lia. }
  destruct (Z.lt_ge_cases z 0) as [H|H].
  - destruct (dec_bytes_neg z H) as (d & -> & [_ Hd] & _). constructor; [done|]. by apply Hdig.
  - destruct (dec_bytes_nonneg z H) as ([_ Hd] & _). by apply Hdig.
Qed.

(** A literal of the source. *)
Ltac ascii_literal := unfold ascii_string, ascii_text; apply (bool_decide_unpack _); vm_compute; exact I.

Lemma reject_at_ascii i what : ascii_string what -> ascii_string (de_detail (reject_at i what)).
Proof.
  intros H. cbn. apply ascii_string_app; [done|]. apply ascii_string_app; [ascii_literal|].
  apply ascii_string_app; [apply dec_string_ascii|ascii_literal].
Qed.

(** ** The preflight's verdicts *)

Definition ascii_error (e : DecodeError) : Prop := ascii_string (de_detail e).

Ltac ascii_reject := intros; simplify_eq; apply reject_at_ascii; first [ascii_literal | case_match; ascii_literal].

Lemma step_fail_ascii s e : step s = Fail e -> ascii_error e.
Proof.
  assert (forall s e, value_done s = Fail e -> ascii_error e) as Hdone.
  { intros s0 e0. unfold value_done. cbv zeta. repeat case_match; try done. ascii_reject. }
  assert (forall c s e, step_key c s = Fail e -> ascii_error e) as Hkey.
  { intros c s0 e0. unfold step_key. repeat (case_match; try done); ascii_reject. }
  assert (forall c s e, step_value c s = Fail e -> ascii_error e) as Hval.
  { intros c s0 e0. unfold step_value, open_container. cbv zeta.
    repeat (case_match; try done); first [apply Hdone | ascii_reject]. }
  unfold step. cbv zeta. case_match; [ascii_reject|]. case_match; [ascii_reject|].
  unfold dispatch, step_after, close_container. repeat (case_match; try done); eauto; ascii_reject.
Qed.

Lemma loop_fail_ascii fuel s e : loop fuel s = Some (Fail e) -> ascii_error e.
Proof.
  revert s. induction fuel as [|fuel IH]; intros s; cbn [loop]; (destruct (done_ s); [done|]); [done|].
  destruct (step s) as [s1|e1] eqn:E; [apply IH|]. intros [= <-]. by eapply step_fail_ascii.
Qed.

Lemma preflight_error_ascii frame e : frame_preflight frame = Some (inl e) -> ascii_error e.
Proof.
  unfold frame_preflight. case_bool_decide; [intros [= <-]; ascii_literal|].
  destruct (utf8_valid frame); cbn [negb]; [|intros [= <-]; ascii_literal].
  destruct (scan_frame frame) as [[e1|scan]|] eqn:Es; [| |done].
  - intros [= <-]. revert Es. unfold scan_frame. cbv zeta. case_match; [ascii_reject|].
    destruct (loop _ _) as [[s|e2]|] eqn:El; [| |done].
    + unfold finish. cbv zeta. intros [= E]. revert E. repeat case_match; try done; ascii_reject.
    + intros [= <-]. by eapply loop_fail_ascii.
  - repeat case_match; try done; intros [= <-]; ascii_literal.
Qed.

(** ** Decoding *)

(** What the server may count on: the identifier it echoes is text. *)
Definition text_result (r : DecodeError + InMsg) : Prop :=
  match r with inl e => utf8_string (de_detail e) | inr m => utf8_string (in_cl_id m) end.

Lemma unknown_type_text tag : utf8_text tag -> utf8_string (de_detail (unknown_type tag)).
Proof.
  intros Ht. unfold unknown_type, utf8_string. cbn [de_detail]. rewrite text_app, list_ascii_of_string_of_list_ascii.
  apply utf8_text_app; [apply utf8_text_ascii; change (ascii_string "unknown inbound t: "); ascii_literal|].
  by apply sanitized_tag_text.
Qed.

Lemma check_identifier_ascii v name cap e :
  ascii_string name -> check_identifier v name cap = Some e -> ascii_error e.
Proof.
  intros Hn. unfold check_identifier, ascii_error.
  repeat case_match; intros; simplify_eq; cbn [de_detail]; (apply ascii_string_app; [first [done|ascii_literal]..]).
Qed.

Lemma checked_text m detail :
  ascii_string detail -> (forall m', m = Some m' -> utf8_string (in_cl_id m')) -> text_result (checked m detail).
Proof.
  intros Hd Hm. destruct m as [m|]; cbn [checked]; [|by apply ascii_string_utf8].
  assert (forall v name cap, ascii_string name -> forall e, check_identifier v name cap = Some e -> utf8_string (de_detail e)) as Hc.
  { intros v name cap Hn e He. by eapply ascii_string_utf8, check_identifier_ascii. }
  assert (forall e, check_inbound_strings m = Some e -> utf8_string (de_detail e)) as He.
  { destruct m as [o|c]; cbn [check_inbound_strings]; intros e; repeat case_match; intros; simplify_eq;
      (eapply Hc; [|eassumption]; ascii_literal). }
  destruct (check_inbound_strings m); [by apply He|by apply Hm].
Qed.

Lemma spec_fields_text kvs :
  Forall (fun f : TopLevelField => token f.2) kvs -> text_result (spec_fields kvs).
Proof.
  intros Hall. pose proof (fun key => find_key_token key kvs Hall) as Hkey. unfold spec_fields.
  destruct (tok_str (find_key "t" kvs)) as [tag|] eqn:Et; [|apply ascii_string_utf8; ascii_literal].
  destruct (_ && _).
  { apply unknown_type_text. destruct (Hkey "t"%string) as [E|Ht]; [by rewrite E in Et|by eapply tok_str_text]. }
  destruct (tok_u64 (find_key "v" kvs)) as [v|]; [|apply ascii_string_utf8; ascii_literal].
  destruct (negb _); [apply ascii_string_utf8, ascii_string_app; [ascii_literal|apply dec_string_ascii]|].
  case_bool_decide; apply checked_text; try ascii_literal; intros m (x & Hx & ->)%fmap_Some.
  - unfold read_new in Hx. repeat (apply bind_Some in Hx as (? & ? & Hx)). injection Hx as <-. by eapply tok_string_text.
  - unfold read_cancel in Hx. repeat (apply bind_Some in Hx as (? & ? & Hx)). injection Hx as <-. by eapply tok_string_text.
Qed.

Lemma decode_spec_text frame r : decode_spec frame = Some r -> text_result r.
Proof.
  unfold decode_spec. destruct (frame_preflight frame) as [[e|kvs]|] eqn:E; [| |done]; intros [= <-].
  - by eapply ascii_string_utf8, preflight_error_ascii.
  - by eapply spec_fields_text, preflight_tokens.
Qed.
