(* ===== verification/CodecTuned.v ===== *)
(** * The tuned arm's encoder

    [GlazeCodec::encode] (src/codec_glaze.cpp) is one call of [glz::write] driven
    by the metadata tables of the file.  The tables and the failure path are
    modelled; the writer is a parameter, of which the theorems use only that it
    writes a tagged object compactly, integers in decimal and strings as JSON
    strings of the same text, the latter for control bytes only when the
    [escape_control_characters] option is on.  Frames of either arm are accepted
    by the preflight and read back as their message. *)

From Stdlib Require Import ZArith Ascii String List Lia.
From stdpp Require Import base tactics list option strings.
From S2P Require Import Prelude Types Protocol Utf8 Preflight JsonGrammar PreflightSound PreflightComplete.
From S2P Require Import PreflightProps Codec JsonTokens CodecProps CodecRoundtrip.

(** ** The metadata tables *)

(** A member as the writer sees it: the integers and strings of the wire structs. *)
Inductive GlzValue := GInt (z : Z) | GStr (s : string).
Definition GlzObject : Type := list (string * GlzValue).

Definition meta_tob (m : Tob) : GlzObject :=
  [("v", GInt (tob_v m)); ("seq", GInt (tob_seq m)); ("epoch", GInt (tob_epoch m)); ("md_seq", GInt (tob_md_seq m));
   ("symbol", GStr (tob_symbol m)); ("bid_px", GInt (tob_bid_px m)); ("bid_qty", GInt (tob_bid_qty m));
   ("ask_px", GInt (tob_ask_px m)); ("ask_qty", GInt (tob_ask_qty m))]%string.
Definition meta_ack (m : OrderAck) : GlzObject :=
  [("v", GInt (oa_v m)); ("seq", GInt (oa_seq m)); ("epoch", GInt (oa_epoch m)); ("cl_id", GStr (oa_cl_id m));
   ("eng_id", GInt (oa_eng_id m)); ("status", GStr (oa_status m)); ("svc_ns", GInt (oa_svc_ns m))]%string.
Definition meta_cancel_ack (m : CancelAck) : GlzObject :=
  [("v", GInt (ca_v m)); ("seq", GInt (ca_seq m)); ("epoch", GInt (ca_epoch m)); ("cl_id", GStr (ca_cl_id m));
   ("eng_id", GInt (ca_eng_id m)); ("status", GStr (ca_status m))]%string.
Definition meta_reject (m : Reject) : GlzObject :=
  [("v", GInt (rj_v m)); ("seq", GInt (rj_seq m)); ("epoch", GInt (rj_epoch m)); ("cl_id", GStr (rj_cl_id m));
   ("code", GStr (rj_code m)); ("reason", GStr (rj_reason m))]%string.
Definition meta_fill (m : Fill) : GlzObject :=
  [("v", GInt (fl_v m)); ("seq", GInt (fl_seq m)); ("epoch", GInt (fl_epoch m)); ("cl_id", GStr (fl_cl_id m));
   ("eng_id", GInt (fl_eng_id m)); ("px", GInt (fl_px m)); ("qty", GInt (fl_qty m)); ("leaves", GInt (fl_leaves m));
   ("exec_id", GInt (fl_exec_id m))]%string.

(** The variant's metadata: the tag key, and one id per alternative, in order. *)
Definition meta_tag : string := "t".
Definition meta_ids : list string := [kTagTob; kTagOrderAck; kTagCancelAck; kTagReject; kTagFill].

(** The index of the variant and the object of the active alternative. *)
Definition meta_out (m : OutMsg) : nat * GlzObject :=
  match m with
  | OutTob m => (0, meta_tob m) | OutAck m => (1, meta_ack m) | OutCancelAck m => (2, meta_cancel_ack m)
  | OutReject m => (3, meta_reject m) | OutFill m => (4, meta_fill m)
  end%nat.

Record WriteOpts := { escape_control_characters : bool }.
Definition write_opts : WriteOpts := {| escape_control_characters := true |}.

Section Encode.
(** [glz::write<opts>] of a tagged object: the frame, or [None] on an error code. *)
Context (glz_write : WriteOpts -> GlzObject -> option bytes).

(** In a build without assertions; a failed write leaves the buffer empty. *)
Definition encode_glaze (m : OutMsg) : bytes :=
  let '(i, object) := meta_out m in
  let id := default ""%string (meta_ids !! i) in
  match glz_write write_opts ((meta_tag, GStr id) :: object) with
  | Some out => out
  | None => []
  end.

Definition encode_by (tuned : bool) (m : OutMsg) : bytes := if tuned then encode_glaze m else encode m.
End Encode.

(** ** What the writer is trusted to do *)

Definition control_free (s : string) : Prop := Forall (fun c => 0x20 <= ord c) (text s).

Definition value_ok (opts : WriteOpts) (v : GlzValue) : Prop :=
  match v with
  | GInt z => is_u64 z \/ is_i64 z
  | GStr s => utf8_string s /\ (escape_control_characters opts = true \/ control_free s)
  end.
Definition member_ok (opts : WriteOpts) (f : string * GlzValue) : Prop :=
  forallb plain_char (text f.1) = true /\ value_ok opts f.2.

(** The token of a value: any JSON string of the text will do. *)
Definition writes (v : GlzValue) (tok : bytes) : Prop :=
  match v with
  | GInt z => tok = dec_bytes z
  | GStr s => exists k, tok = quoted k /\ str_body k /\ utf8_text k /\ unescape k = text s
  end.
Definition writes_member (f : string * GlzValue) (kv : TopLevelField) : Prop := kv.1 = text f.1 /\ writes f.2 kv.2.

Definition glaze_writes (glz_write : WriteOpts -> GlzObject -> option bytes) : Prop :=
  forall opts object, object <> [] -> Forall (member_ok opts) object ->
  exists kvs, glz_write opts object = Some ("{"%char :: joined kvs ++ ["}"%char]) /\ Forall2 writes_member object kvs.

(** ** Fields that read alike *)

Definition same_field (x y : TopLevelField) : Prop :=
  x.1 = y.1 /\ tok_u64 x.2 = tok_u64 y.2 /\ tok_i64 x.2 = tok_i64 y.2 /\ tok_string x.2 = tok_string y.2.

Lemma find_key_same key kvs kvs' :
  Forall2 same_field kvs kvs' ->
  tok_u64 (find_key key kvs) = tok_u64 (find_key key kvs') /\ tok_i64 (find_key key kvs) = tok_i64 (find_key key kvs') /\
  tok_string (find_key key kvs) = tok_string (find_key key kvs').
Proof.
  induction 1 as [|[k v] [k' v'] l l' (E & Hu & Hi & Hs) _ IH]; [done|]. cbn in E, Hu, Hi, Hs. subst k'.
  unfold find_key, find_field in *. cbn [List.find fst]. by case_bool_decide.
Qed.

#[export] Instance read_out_proper : Proper (Forall2 same_field ==> eq) read_out.
Proof.
  intros kvs kvs' H.
  assert (forall key, r_u64 kvs key = r_u64 kvs' key) as Hu by (intros; apply find_key_same; done).
  assert (forall key, r_i64 kvs key = r_i64 kvs' key) as Hi by (intros; apply find_key_same; done).
  assert (forall key, r_str kvs key = r_str kvs' key) as Hs by (intros; apply find_key_same; done).
  unfold read_out, read_tob, read_ack, read_cancel_ack, read_reject, read_fill. by rewrite ?Hu, ?Hi, ?Hs.
Qed.

(** ** The two encoders write the same members *)

Definition tagged (m : OutMsg) : GlzObject :=
  (meta_tag, GStr (default ""%string (meta_ids !! (meta_out m).1))) :: (meta_out m).2.

(** The direct serializer's token of a value. *)
Definition direct (f : string * GlzValue) : TopLevelField :=
  match f.2 with GInt z => int_f f.1 z | GStr s => str_f f.1 s end.

Lemma tagged_direct m : map direct (tagged m) = out_fields m.
Proof. by destruct m. Qed.

Lemma writes_like_direct f kv : writes_member f kv -> same_field kv (direct f).
Proof.
  destruct f as [k [z|s]], kv as [k' v]; intros [E Hw]; cbn in E, Hw; subst.
  - by repeat split.
  - destruct Hw as (b & -> & Hb & _ & Hu). unfold same_field, direct, str_f. cbn [fst snd].
    unfold tok_string. rewrite !tok_str_quoted, (proj2 (escape_body _)), Hu. by repeat split.
Qed.

Lemma writes_writable opts f kv : member_ok opts f -> writes_member f kv -> writable kv.
Proof.
  destruct f as [k [z|s]], kv as [k' v]; intros [Hk Hv] [E Hw]; cbn in Hk, Hv, E, Hw; subst; [by apply writable_int|].
  destruct Hw as (b & -> & Hb & Ht & _). split; [done|]. split; [by apply J_string|by apply quoted_text].
Qed.

Lemma tagged_ok m : wf_out m -> Forall (member_ok write_opts) (tagged m).
Proof.
  assert (forall s, control_free s -> utf8_string s -> member_ok write_opts (meta_tag, GStr s)) as Ht.
  { intros s Hc Hs. split; [done|]. split; [done|by left]. }
  destruct m; cbn [wf_out]; intros H; repeat match goal with H : _ /\ _ |- _ => destruct H end;
    repeat (apply List.Forall_cons); try apply List.Forall_nil;
    (split; [reflexivity|]); cbn [snd value_ok]; auto; split; auto.
  all: apply utf8_valid_spec; vm_compute; reflexivity.
Qed.

Lemma same_keys kvs kvs' : Forall2 same_field kvs kvs' -> kvs.*1 = kvs'.*1.
Proof. induction 1 as [|? ? ? ? [E _] _ IH]; [done|]. rewrite !fmap_cons. by rewrite E, IH. Qed.

(** The tuned arm's frame: accepted, and the same reading as the direct one's. *)
Lemma encode_glaze_accepted glz_write m :
  glaze_writes glz_write -> wf_out m ->
  exists kvs, frame_preflight (encode_glaze glz_write m) = Some (inr kvs) /\ Forall2 same_field kvs (out_fields m).
Proof.
  intros Hgw Hwf. pose proof (tagged_ok m Hwf) as Hok.
  destruct (Hgw write_opts (tagged m)) as (kvs & Hw & Hall); [by destruct m|done|]. exists kvs.
  assert (Forall2 same_field kvs (out_fields m)) as Hsame.
  { rewrite <- tagged_direct. apply Forall2_flip, Forall2_fmap_l. eapply Forall2_impl; [exact Hall|].
    intros. by apply writes_like_direct. }
  split; [|done]. replace (encode_glaze glz_write m) with ("{"%char :: joined kvs ++ ["}"%char]).
  - apply fields_accepted.
    + intros ->. by apply Forall2_length in Hall; destruct m.
    + apply Forall_lookup. intros i kv Hkv. destruct (Forall2_lookup_r _ _ _ _ _ Hall Hkv) as (f & Hf & ?).
      eapply writes_writable; [|done]. by eapply Forall_lookup_1.
    + rewrite (Forall2_length _ _ _ Hsame). destruct m; cbn; lia.
    + rewrite (same_keys _ _ Hsame). apply out_fields_keys_distinct.
  - unfold encode_glaze. unfold tagged in Hw. destruct (meta_out m). cbn [fst snd] in Hw. by rewrite Hw.
Qed.

(** C22 Whichever codec is chosen, every frame the server sends is strict UTF-8
    and one JSON object within the protocol's limits, carries the tag and then
    the message's members in wire order, and reads back as the message it was
    made from: nothing in a string, quote, backslash or control byte, can break
    the framing or be lost. *)
Theorem encode_roundtrip glz_write tuned m :
  glaze_writes glz_write -> wf_out m ->
  exists kvs, frame_preflight (encode_by glz_write tuned m) = Some (inr kvs) /\ read_out kvs = Some m /\
    map (fun f : TopLevelField => untext f.1) kvs =
      match m with
      | OutTob _ => ["t"; "v"; "seq"; "epoch"; "md_seq"; "symbol"; "bid_px"; "bid_qty"; "ask_px"; "ask_qty"]
      | OutAck _ => ["t"; "v"; "seq"; "epoch"; "cl_id"; "eng_id"; "status"; "svc_ns"]
      | OutCancelAck _ => ["t"; "v"; "seq"; "epoch"; "cl_id"; "eng_id"; "status"]
      | OutReject _ => ["t"; "v"; "seq"; "epoch"; "cl_id"; "code"; "reason"]
      | OutFill _ => ["t"; "v"; "seq"; "epoch"; "cl_id"; "eng_id"; "px"; "qty"; "leaves"; "exec_id"]
      end%string.
Proof.
  intros Hgw Hwf. destruct tuned; cbn [encode_by].
  - destruct (encode_glaze_accepted _ _ Hgw Hwf) as (kvs & Hp & Hsame). exists kvs. split; [done|].
    split; [by rewrite Hsame, read_out_fields|].
    transitivity (map untext kvs.*1); [symmetry; apply map_map|]. rewrite (same_keys _ _ Hsame).
    by destruct m.
  - exists (out_fields m). split_and!; [by apply encode_accepted|by apply read_out_fields|]. by destruct m.
Qed.

(** ** A concrete writer

    It escapes only when asked to, so the option matters. *)

Definition ref_token (opts : WriteOpts) (v : GlzValue) : bytes :=
  match v with
  | GInt z => dec_bytes z
  | GStr s =>
      let keep c := negb (escape_control_characters opts) && (ord c <? 0x20) in
      quoted (concat (map (fun c => if keep c then [c] else escape_byte c) (text s)))
  end.
Definition ref_write (opts : WriteOpts) (object : GlzObject) : option bytes :=
  Some ("{"%char :: joined (map (fun f => (text f.1, ref_token opts f.2)) object) ++ ["}"%char]).

Lemma ref_token_escape opts s :
  value_ok opts (GStr s) -> ref_token opts (GStr s) = quoted (escape (text s)).
Proof.
  intros [_ Hc]. cbn [ref_token]. unfold escape. do 2 f_equal. apply map_ext_in. intros c Hin.
  destruct Hc as [->|Hc]; [done|]. unfold control_free in Hc. rewrite List.Forall_forall in Hc.
  rewrite (proj2 (Z.ltb_ge _ _)) by (by apply Hc). by rewrite andb_false_r.
Qed.

Lemma ref_writes : glaze_writes ref_write.
Proof.
  intros opts object _ Hok. eexists. split; [reflexivity|]. apply Forall2_fmap_r, Forall_Forall2_diag.
  eapply Forall_impl; [exact Hok|]. intros [k [z|s]] [_ Hv]; split; try done.
  cbn [snd] in *. rewrite ref_token_escape by done. exists (escape (text s)).
  destruct (escape_body (text s)). split_and!; try done. by apply escape_text, Hv.
Qed.

(** With the option off, a control byte in a string makes the frame invalid. *)
Example raw_control_rejected :
  exists e, frame_preflight (default [] (ref_write {| escape_control_characters := false |}
    [("s", GStr (untext [chr 1]))]%string)) = Some (inl e).
Proof. eexists. vm_compute. reflexivity. Qed.

Definition demo_fill : OutMsg :=
  OutFill (mkFill 1 18446744073709551615 7 (untext (map chr [34; 92; 1; 0xC3; 0xA9])) 3 (-5) 10 0 1).

Lemma encode_roundtrip_witness :
  exists kvs, frame_preflight (encode_by ref_write true demo_fill) = Some (inr kvs) /\ read_out kvs = Some demo_fill.
Proof.
  assert (wf_out demo_fill) as Hwf.
  { cbn [wf_out demo_fill fl_v fl_seq fl_epoch fl_cl_id fl_eng_id fl_px fl_qty fl_leaves fl_exec_id].
    unfold is_u64, is_i64, utf8_string, two64, two63.
    split_and!; first [lia | apply utf8_valid_spec; vm_compute; reflexivity]. }
  destruct (encode_roundtrip ref_write true _ ref_writes Hwf) as (kvs & H1 & H2 & _). exact (ex_intro _ kvs (conj H1 H2)).
Defined.
