(* ===== verification/EngineText.v ===== *)
(** * What the engine reports can be sent

    [sendable] is well-formedness of an outbound message up to the service time
    an ack is stamped with later.  From an engine whose identifiers are text and
    whose instrument's bounds are 64-bit, every report of every entry point is
    sendable and the engine stays such an engine. *)

From Stdlib Require Import ZArith Ascii String List Lia.
From stdpp Require Import base tactics list option strings.
From S2P Require Import Prelude StdMap Types Protocol Engine EngineInv EngineSpec EngineBook Utf8 Preflight.
From S2P Require Import PreflightProps Codec JsonTokens CodecProps CodecRoundtrip CodecText.

Definition sendable (m : OutMsg) : Prop :=
  match m with
  | OutAck a => is_u64 (oa_v a) /\ is_u64 (oa_seq a) /\ is_u64 (oa_epoch a) /\ utf8_string (oa_cl_id a) /\
      is_u64 (oa_eng_id a) /\ utf8_string (oa_status a)
  | _ => wf_out m
  end.
Definition svc_fits (m : OutMsg) : Prop := match m with OutAck a => is_i64 (oa_svc_ns a) | _ => True end.

Lemma sendable_wf m : sendable m -> svc_fits m -> wf_out m.
Proof. destruct m as [|a| | |]; cbn [sendable svc_fits]; try done. unfold wf_out. intuition. Qed.

Lemma sendable_stamp seq epoch m : is_u64 seq -> is_u64 epoch -> sendable m -> sendable (stamp seq epoch m).
Proof. destruct m as [[]|[]|[]|[]|[]]; cbn; intuition. Qed.

Lemma small_u64 z : 0 <= z < 256 -> is_u64 z.
Proof. unfold is_u64, two64. lia. Qed.

Lemma sendable_reject cl_id code reason :
  utf8_string cl_id -> utf8_string reason -> sendable (OutReject (make_reject cl_id code reason)).
Proof.
  intros Hc Hr. cbn. split_and!; [by apply small_u64..|done| |done]. apply ascii_string_utf8.
  destruct code; ascii_literal.
Qed.

(** ** The engine's identifiers *)

Definition inst_wire (i : Instrument) : Prop :=
  utf8_string (symbol i) /\ - two63 <= min_price i /\ max_price i < two63 /\ max_order_qty i < two63.
Definition entry_text (x : OrderKey * Order) : Prop := utf8_string x.1.2 /\ is_u64 (eng_id x.2).

Record engine_text (e : OrderEngine) : Prop := {
  et_inv : engine_inv e;
  et_inst : inst_wire (inst e);
  et_entries : Forall entry_text (orders e);
}.

(** An operation that computes a specified result. *)
Lemma engine_text_abs {A} (x : A * EngineSpec) (P : A -> Prop) out e :
  engine_inv e -> x = (out, abs e) -> inst_wire (s_inst x.2) -> Forall entry_text (s_orders x.2) -> P x.1 ->
  engine_text e /\ P out.
Proof. intros He ->. by split. Qed.

Lemma emplace_text k o m : Forall entry_text m -> entry_text (k, o) -> Forall entry_text (emplace k o m).
Proof.
  intros Hm Ho. apply Forall_forall. intros [k' o'] Hin%emplace_keys. rewrite Forall_forall in Hm.
  destruct Hin as [?| ?]; [by simplify_eq|by apply Hm].
Qed.

Lemma find_text k o m : Forall entry_text m -> find k m = Some o -> entry_text (k, o).
Proof. intros Hm Hf%find_In. rewrite Forall_forall in Hm. by apply Hm. Qed.

Lemma validation_reason_text code o : utf8_string (validation_reason code o).
Proof.
  apply ascii_string_utf8. destruct code; cbn [validation_reason]; try ascii_literal. case_match; ascii_literal.
Qed.

Lemma spec_verdict_text s o sp code reason : spec_verdict s o sp = inl (code, reason) -> utf8_string reason.
Proof.
  unfold spec_verdict. case_match; [intros [= <- <-]; apply validation_reason_text|].
  repeat case_match; intros [= <- <-]; apply ascii_string_utf8; ascii_literal.
Qed.

Lemma on_new_text e s order :
  engine_text e -> utf8_string (no_cl_id order) ->
  exists out e', atomic e (on_new s order) e out e' /\ engine_text e' /\ Forall sendable out.
Proof.
  intros [He Hi Hm] Hc. destruct (on_new_refines e s order He) as (out & e' & Ha & He' & Hs).
  exists out, e'. split; [done|]. eapply engine_text_abs; [done|exact Hs|..]; clear Hs; unfold spec_new; cbn [abs s_orders].
  - destruct (find _ _); [done|]. by destruct (spec_verdict _ _ _) as [[]|].
  - destruct (find _ _); [done|]. destruct (spec_verdict _ _ _) as [[]|]; (apply emplace_text; [done|]).
    + split; [done|by apply small_u64].
    + split; [done|apply (inv_ids _ He)].
  - destruct (find _ _); [|destruct (spec_verdict _ _ _) as [[code reason]|] eqn:Ev]; apply Forall_singleton.
    + apply sendable_reject; [done|]. apply ascii_string_utf8. ascii_literal.
    + apply sendable_reject; [done|by eapply spec_verdict_text].
    + cbn. split_and!; [by apply small_u64..|done|apply (inv_ids _ He)|]. apply ascii_string_utf8. ascii_literal.
Qed.

Lemma on_cancel_text e s c :
  engine_text e -> utf8_string (co_cl_id c) ->
  exists out e', atomic e (on_cancel s c) e out e' /\ engine_text e' /\ Forall sendable out.
Proof.
  intros [He Hi Hm] Hc. destruct (on_cancel_refines e s c He) as (out & e' & Ha & He' & Hs).
  exists out, e'. split; [done|]. eapply engine_text_abs; [done|exact Hs|..]; clear Hs; unfold spec_cancel; cbn [abs s_orders].
  - destruct (find _ _) as [o|]; [|done]. by destruct (st o).
  - destruct (find _ _) as [o|] eqn:Hf; [|done]. destruct (st o); try done.
    destruct (find_text _ _ _ Hm Hf) as [Hk Ho]. apply Forall_fmap. eapply Forall_impl; [exact Hm|].
    intros [k' o'] Hx. cbn. case_bool_decide; [|done]. by subst.
  - destruct (find _ _) as [o|] eqn:Hf; [destruct (find_text _ _ _ Hm Hf) as [_ Ho]; destruct (st o)|]; apply Forall_singleton;
      try (apply sendable_reject; [done|]; apply ascii_string_utf8; ascii_literal).
    cbn. split_and!; [by apply small_u64..|done|done|]. apply ascii_string_utf8. ascii_literal.
Qed.

(** ** Fills *)

Lemma fill_sendable e b exec x :
  engine_text e -> is_u64 exec -> x ∈ hits (inst e) b (orders e) -> sendable (r_msg (fill_report (inst e) b exec x)).
Proof.
  intros [He (_ & Hmin & Hmax & Hqty) Hm] Hx [Hin Hh]%elem_of_hits. destruct (hit_facts _ _ _ Hh) as [Hlive Hp].
  assert (entry_text x) as [Hk Hid] by (rewrite Forall_forall in Hm; by apply Hm).
  assert (order_ok (inst e) x.2) as Hok.
  { destruct x as [k o]. apply (inv_orders _ He k). by apply sorted_find_In; [apply He|]. }
  unfold order_ok in Hok. rewrite Hlive in Hok. unfold present in Hp.
  apply andb_true_iff in Hp as [Hq%Z.ltb_lt _]. cbn. unfold fill_qty_of, is_i64.
  split_and!; try done; try (by apply small_u64); unfold two63 in *; lia.
Qed.

Lemma number_sendable e b l exec :
  engine_text e -> is_u64 exec -> (forall x, x ∈ l -> x ∈ hits (inst e) b (orders e)) ->
  Forall (fun r => sendable (r_msg r)) (number (inst e) b exec l).
Proof.
  intros He. revert exec. induction l as [|x l IH]; intros exec Hx Hl; cbn [number]; constructor.
  - apply fill_sendable; [done..|]. apply Hl. left.
  - apply IH; [apply u64_range|]. intros y Hy. apply Hl. by right.
Qed.

Lemma on_book_text e b :
  engine_text e ->
  exists out e', atomic e (on_book b) e out e' /\ engine_text e' /\ Forall (fun r => sendable (r_msg r)) out.
Proof.
  intros Ht. pose proof Ht as [He Hi Hm]. destruct (on_book_refines e b He) as (out & e' & Ha & He' & Hs).
  exists out, e'. split; [done|]. eapply (engine_text_abs _ (Forall (fun r => sendable (r_msg r)))); [done|exact Hs|..];
    clear Hs; unfold spec_on_book; destruct (spec_book_stale _ _); cbn; try done.
  - apply Forall_fmap. eapply Forall_impl; [exact Hm|]. intros [k o] Hx. cbn. by case_match.
  - by apply number_sendable; [|apply (inv_ids _ He)|].
Qed.

Lemma end_session_text e s :
  engine_text e -> exists out e', atomic e (end_session s) e out e' /\ engine_text e'.
Proof.
  intros [He Hi Hm]. destruct (end_session_refines e s He) as (out & e' & Ha & He' & Hs).
  exists out, e'. split; [done|]. eapply (engine_text_abs _ (fun _ => True)); [done|exact Hs|done| |done]. cbn.
  apply Forall_forall. intros x [Hx _]%filter_elem. rewrite Forall_forall in Hm. by apply Hm.
Qed.
