(* ===== verification/Feed.v ===== *)
(** * The scripted feed ([cpp/include/mm/feed.hpp], [cpp/src/feed.cpp])

    The loader of a scenario: one JSON object per line through the shared
    preflight, one event key each.  An exception is a left value carrying its
    message; [None] is the preflight out of fuel, which never happens. *)

From Stdlib Require Import ZArith Ascii String List Lia.
From stdpp Require Import base tactics list option strings.
From S2P Require Import Prelude Types Protocol Utf8 Preflight JsonGrammar PreflightSound PreflightComplete.
From S2P Require Import PreflightProps Codec JsonTokens CodecProps.

(** ** Events *)

Record FeedSet := mkFeedSet { fs_bid_px : Z; fs_bid_qty : Z; fs_ask_px : Z; fs_ask_qty : Z }.
Inductive FeedEvent := EvSet (s : FeedSet) | EvHalt (ms : Z) | EvDrop | EvEnd.

#[export] Instance FeedSet_eq_dec : EqDecision FeedSet. Proof. solve_decision. Defined.
#[export] Instance FeedEvent_eq_dec : EqDecision FeedEvent. Proof. solve_decision. Defined.

Definition is_end (e : FeedEvent) : bool := match e with EvEnd => true | _ => false end.

(** ** Diagnostics *)

Record Loc := mkLoc { source : string; line : Z }.

Definition feed_reject (loc : Loc) (why : string) : string :=
  (source loc ++ ": line " ++ dec_string (line loc) ++ ": " ++ why)%string.
Definition quoted_name (name : string) : string :=
  (String c_dquote name ++ String c_dquote EmptyString)%string.

Definition trim (s : bytes) : bytes :=
  match drop_while is_ws s with [] => [] | s' => rev (drop_while is_ws (rev s')) end.

(** [std::from_chars] of an integer token into a [std::int64_t]. *)
Definition from_chars_i64 (tok : bytes) : option Z :=
  let z := match tok with
           | c :: d => if Ascii.eqb c "-" then - dec_value d else dec_value tok
           | [] => 0
           end in
  if (- two63 <=? z) && (z <? two63) then Some z else None.

Definition to_i64 (loc : Loc) (token : bytes) (name : string) : string + Z :=
  if negb (is_integer_token token) then inl (feed_reject loc (quoted_name name ++ " is not an integer"))
  else
    match from_chars_i64 token with
    | None => inl (feed_reject loc (quoted_name name ++ " is out of range for a 64-bit integer"))
    | Some z => inr z
    end.

(** ** One line *)

Definition kNames : list string := ["bid_px"; "bid_qty"; "ask_px"; "ask_qty"].

Fixpoint split_commas (s : bytes) : list bytes :=
  match s with
  | [] => [[]]
  | c :: s' =>
      if Ascii.eqb c "," then [] :: split_commas s'
      else match split_commas s' with t :: ts => (c :: t) :: ts | [] => [] end
  end.

(** The first elements against their names; stops with either list. *)
Fixpoint walk_fields (loc : Loc) (names : list string) (tokens : list bytes) : string + list Z :=
  match names, tokens with
  | name :: names', t :: tokens' =>
      match to_i64 loc t name with
      | inl e => inl e
      | inr z =>
          if match t with c :: _ => Ascii.eqb c "-" | [] => false end then
            inl (feed_reject loc (quoted_name name ++ " must not be negative"))
          else match walk_fields loc names' tokens' with inl e => inl e | inr zs => inr (z :: zs) end
      end
  | _, _ => inr []
  end.

(** The preflight never records an empty value, so [front()] is defined. *)
Definition parse_set (loc : Loc) (value : bytes) : string + FeedSet :=
  let arity_error := (quoted_name "set" ++ " must have exactly four elements [bid_px, bid_qty, ask_px, ask_qty]")%string in
  if negb (match value with c :: _ => Ascii.eqb c "[" | [] => false end) then
    inl (feed_reject loc (quoted_name "set" ++
           " must be an array of four integers [bid_px, bid_qty, ask_px, ask_qty]"))
  else
    let body := trim (take (length value - 2) (drop 1 value)) in
    if bool_decide (body = []) then inl (feed_reject loc arity_error)
    else
      let tokens := map trim (split_commas body) in
      match walk_fields loc kNames tokens with
      | inl e => inl e
      | inr fields =>
          if negb (length tokens =? length kNames)%nat then inl (feed_reject loc arity_error)
          else inr (mkFeedSet (nth 0 fields 0) (nth 1 fields 0) (nth 2 fields 0) (nth 3 fields 0))
      end.

Definition kMaxHaltMs : Z := 24 * 60 * 60 * 1000.

Definition parse_halt (loc : Loc) (value : bytes) : string + Z :=
  match to_i64 loc value "halt_ms" with
  | inl e => inl e
  | inr ms =>
      if ms <=? 0 then
        inl (feed_reject loc (quoted_name "halt_ms" ++ " must be a positive integer (milliseconds)"))
      else if kMaxHaltMs <? ms then
        inl (feed_reject loc (quoted_name "halt_ms" ++ " must be at most " ++ dec_string kMaxHaltMs ++
                                " milliseconds (24 hours)"))
      else inr ms
  end.

Definition require_true (loc : Loc) (value : bytes) (name : string) : string + unit :=
  if negb (bool_decide (value = text "true")) then
    inl (feed_reject loc (quoted_name name ++ " must be the literal true"))
  else inr tt.

(** The dispatch of [parse_line] on the one recorded field. *)
Definition parse_event (loc : Loc) (key value : bytes) : string + FeedEvent :=
  if bool_decide (key = text "set") then
    match parse_set loc value with inl e => inl e | inr s => inr (EvSet s) end
  else if bool_decide (key = text "halt_ms") then
    match parse_halt loc value with inl e => inl e | inr ms => inr (EvHalt ms) end
  else if bool_decide (key = text "drop") then
    match require_true loc value "drop" with inl e => inl e | inr _ => inr EvDrop end
  else if bool_decide (key = text "end") then
    match require_true loc value "end" with inl e => inl e | inr _ => inr EvEnd end
  else inl (feed_reject loc ("unknown event key " ++ quoted_name (untext (sanitized_tag key)))).

Definition parse_line (loc : Loc) (txt : bytes) : option (string + FeedEvent) :=
  match frame_preflight txt with
  | None => None
  | Some (inl e) => Some (inl (feed_reject loc (de_detail e)))
  | Some (inr scan) =>
      Some match scan with
           | [(key, value)] => parse_event loc key value
           | _ => inl (feed_reject loc ("expected exactly one event key, found " ++
                                          dec_string (Z.of_nat (length scan))))
           end
  end.

(** ** The file *)

Definition newline : ascii := chr 10.

(** What successive [std::getline] calls deliver: a final line without its
    newline counts, unless reading it failed ([bad]). *)
Fixpoint getlines (contents : bytes) (bad : bool) (partial : bytes) : list bytes :=
  match contents with
  | [] => if bad || bool_decide (partial = []) then [] else [partial]
  | c :: contents' =>
      if Ascii.eqb c newline then partial :: getlines contents' bad []
      else getlines contents' bad (partial ++ [c])
  end.

(** The [while] loop, from line [line_no + 1] on. *)
Fixpoint load_lines (src : string) (lines : list bytes) (line_no : Z) (ended : bool) (events : list FeedEvent)
    : option (string + list FeedEvent) :=
  match lines with
  | [] => Some (inr events)
  | txt :: lines' =>
      let line_no := line_no + 1 in
      let loc := mkLoc src line_no in
      if ended then Some (inl (feed_reject loc ("content after the " ++ quoted_name "end" ++ " event")))
      else
        match parse_line loc txt with
        | None => None
        | Some (inl e) => Some (inl e)
        | Some (inr event) => load_lines src lines' line_no (is_end event) (events ++ [event])
        end
  end.

Definition load_feed_stream (contents : bytes) (bad : bool) (src : string) : option (string + list FeedEvent) :=
  match load_lines src (getlines contents bad []) 0 false [] with
  | None => None
  | Some (inl e) => Some (inl e)
  | Some (inr events) =>
      if bad then Some (inl ("error reading feed file " ++ src)%string)
      else if bool_decide (events = []) then Some (inl ("feed file " ++ src ++ " contains no events")%string)
      else Some (inr events)
  end.

(** What the file system says of the path. *)
Inductive FsEntry := Directory | Unopenable | File (contents : bytes) (bad : bool).

Definition load_feed (path : string) (entry : FsEntry) : option (string + list FeedEvent) :=
  match entry with
  | Directory => Some (inl (path ++ " is a directory, not a feed file")%string)
  | Unopenable => Some (inl ("cannot open feed file " ++ path)%string)
  | File contents bad => load_feed_stream contents bad path
  end.
