(* ===== verification/FeedProps.v ===== *)
(** * What a scenario file denotes

    [load_feed_stream] against a declarative reading of the file: it accepts
    exactly the files whose every line denotes an event, and otherwise names the
    first line that does not. *)

From Stdlib Require Import ZArith Ascii String List Lia.
From stdpp Require Import base tactics list option strings.
From S2P Require Import Prelude Types Protocol Utf8 Preflight JsonGrammar PreflightSound PreflightComplete.
From S2P Require Import PreflightProps Codec JsonTokens CodecProps Feed.

(** ** Trimming and splitting *)

Lemma drop_ws_app w s : ws w -> drop_while is_ws (w ++ s) = drop_while is_ws s.
Proof. induction 1 as [|c w Hc _ IH]; [done|]. cbn. by rewrite Hc. Qed.

Lemma drop_ws_all w : ws w -> drop_while is_ws w = [].
Proof. intros H. rewrite <- (app_nil_r w). by rewrite drop_ws_app. Qed.

Lemma drop_ws_nil s : drop_while is_ws s = [] -> ws s.
Proof.
  intros H. rewrite <- (take_drop_while is_ws s), H, app_nil_r. apply take_while_all.
Qed.

Lemma drop_ws_cons_app s w : drop_while is_ws s <> [] -> drop_while is_ws (s ++ w) = drop_while is_ws s ++ w.
Proof.
  induction s as [|c s IH]; [done|]. cbn. destruct (is_ws c); [done|]. done.
Qed.

Lemma ws_rev w : ws w -> ws (rev w).
Proof. unfold ws. intros H. by apply List.Forall_rev. Qed.

Lemma trim_ws_l w s : ws w -> trim (w ++ s) = trim s.
Proof. intros H. unfold trim. by rewrite drop_ws_app. Qed.

Lemma trim_ws_r s w : ws w -> trim (s ++ w) = trim s.
Proof.
  intros H. unfold trim. destruct (drop_while is_ws s) as [|c s'] eqn:E.
  - apply drop_ws_nil in E. rewrite drop_ws_all; [done|]. by apply ws_app.
  - rewrite drop_ws_cons_app by (by rewrite E). rewrite E. cbn [app]. rewrite app_comm_cons, rev_app_distr.
    by rewrite drop_ws_app by (by apply ws_rev).
Qed.

Lemma trim_spec s : exists w1 w2, ws w1 /\ ws w2 /\ s = w1 ++ trim s ++ w2.
Proof.
  unfold trim. destruct (drop_while is_ws s) as [|c s'] eqn:E.
  - exists s, []. split_and!; [by apply drop_ws_nil|apply ws_nil|by rewrite app_nil_r].
  - exists (take_while is_ws s), (rev (take_while is_ws (rev (c :: s')))).
    split_and!; [apply take_while_all|apply ws_rev, take_while_all|].
    rewrite <- rev_app_distr, take_drop_while, rev_involutive, <- E. by rewrite take_drop_while.
Qed.

Definition visible_text (t : bytes) : Prop := Forall (fun c => is_ws c = false) t.

Lemma trim_visible t : visible_text t -> trim t = t.
Proof.
  assert (forall t, visible_text t -> drop_while is_ws t = t) as Hd.
  { intros t' [|c t'' Hc _]; [done|]. cbn. by rewrite Hc. }
  intros H. unfold trim. rewrite Hd by done. destruct t; [done|].
  rewrite Hd, rev_involutive; [done|]. by apply List.Forall_rev.
Qed.

Lemma digits_visible t : digits t -> visible_text t.
Proof.
  intros H. eapply Forall_impl; [exact H|]. intros c Hc%digit_ord. unfold is_ws.
  by rewrite !(proj2 (Z.eqb_neq _ _)) by lia.
Qed.

(** A natural number within a 64-bit signed integer, with whitespace around. *)
Definition nat_field (s : bytes) (z : Z) : Prop :=
  exists w1 t w2, s = w1 ++ t ++ w2 /\ ws w1 /\ ws w2 /\ digits1 t /\ dec_value t = z /\ z < two63.

Lemma nat_field_trim s z : nat_field s z <-> digits1 (trim s) /\ dec_value (trim s) = z /\ z < two63.
Proof.
  split.
  - intros (w1 & t & w2 & -> & H1 & H2 & Ht & Hz). rewrite trim_ws_l, trim_ws_r, trim_visible; [done..| |done|done].
    apply digits_visible. apply Ht.
  - intros (Ht & Hv & Hz). destruct (trim_spec s) as (w1 & w2 & H1 & H2 & E). by exists w1, (trim s), w2.
Qed.

Fixpoint join_commas (l : list bytes) : bytes :=
  match l with [] => [] | [t] => t | t :: ts => t ++ ","%char :: join_commas ts end.

Lemma split_nonempty s : exists t ts, split_commas s = t :: ts.
Proof. induction s as [|c s (t & ts & E)]; cbn; [eauto|]. rewrite E. destruct (Ascii.eqb c ","); eauto. Qed.

Lemma join_split s : join_commas (split_commas s) = s.
Proof.
  induction s as [|c s IH]; [done|]. cbn [split_commas]. destruct (split_nonempty s) as (t & ts & E).
  rewrite E in *. destruct (Ascii.eqb_spec c ",") as [->|_]; [cbn in *; by rewrite IH|].
  destruct ts; cbn in *; by rewrite IH.
Qed.

Definition no_comma (t : bytes) : Prop := Forall (fun c => Ascii.eqb c "," = false) t.

Lemma split_plain t : no_comma t -> split_commas t = [t].
Proof. induction 1 as [|c t Hc _ IH]; [done|]. cbn. by rewrite Hc, IH. Qed.

Lemma split_comma t s : no_comma t -> split_commas (t ++ ","%char :: s) = t :: split_commas s.
Proof. induction 1 as [|c t Hc _ IH]; [done|]. cbn [app split_commas]. by rewrite Hc, IH. Qed.

Lemma ws_no_comma w : ws w -> no_comma w.
Proof.
  intros H. eapply Forall_impl; [exact H|]. intros c Hc. cbn. apply Ascii.eqb_neq. intros ->. done.
Qed.

(** Whitespace around the body does not change the trimmed elements. *)
Lemma split_ws_l w s : ws w -> map trim (split_commas (w ++ s)) = map trim (split_commas s).
Proof.
  induction 1 as [|c w Hc Hw IH]; [done|]. cbn [app split_commas]. destruct (split_nonempty (w ++ s)) as (t & ts & E).
  rewrite E in *. destruct (Ascii.eqb_spec c ",") as [->|_]; [done|]. rewrite <- IH. cbn [map]. f_equal.
  apply (trim_ws_l [c]). by apply Forall_singleton.
Qed.

Lemma split_ws_r s w : ws w -> map trim (split_commas (s ++ w)) = map trim (split_commas s).
Proof.
  intros Hw. assert (exists ts t, split_commas s = ts ++ [t] /\ split_commas (s ++ w) = ts ++ [t ++ w])
    as (ts & t & -> & ->).
  { induction s as [|c s (ts & t & E1 & E2)].
    - exists [], []. split; [done|]. cbn [app]. by rewrite (split_plain w) by (by apply ws_no_comma).
    - cbn [app split_commas]. rewrite E1, E2. destruct (Ascii.eqb c ","); [by exists ([] :: ts), t|].
      destruct ts as [|t0 ts]; [by exists [], (c :: t)|by exists ((c :: t0) :: ts), t]. }
  rewrite !map_app. f_equal. cbn. by rewrite trim_ws_r.
Qed.

Lemma split_trim s : map trim (split_commas (trim s)) = map trim (split_commas s).
Proof.
  destruct (trim_spec s) as (w1 & w2 & H1 & H2 & E). rewrite E at 2. by rewrite split_ws_l, split_ws_r.
Qed.

Lemma nat_field_no_comma s z : nat_field s z -> no_comma s.
Proof.
  intros (w1 & t & w2 & -> & H1 & H2 & [_ Ht] & _). unfold no_comma. rewrite !Forall_app.
  split_and!; [by apply ws_no_comma| |by apply ws_no_comma].
  eapply Forall_impl; [exact Ht|]. intros c Hc. by apply digit_neq.
Qed.

(** ** Numbers *)

Lemma from_chars_i64_spec tok : is_integer_token tok = true -> from_chars_i64 tok = tok_i64 tok.
Proof. intros H. unfold tok_i64. rewrite H. by destruct tok. Qed.

Definition negative (t : bytes) : bool := match t with c :: _ => Ascii.eqb c "-" | [] => false end.

Lemma to_i64_natural loc t name z :
  to_i64 loc t name = inr z /\ negative t = false <-> digits1 t /\ dec_value t = z /\ z < two63.
Proof.
  unfold to_i64. split.
  - intros [H Hn]. destruct (is_integer_token t) eqn:Hi; [|done]. cbn [negb] in H.
    apply is_integer_token_iff in Hi as [Hd|(d & -> & _)]; [|done]. split; [done|].
    unfold from_chars_i64 in H. destruct t as [|c d]; [by destruct Hd|]. cbn in Hn. rewrite Hn in H. cbv zeta in H.
    destruct (- two63 <=? dec_value (c :: d)); cbn [andb] in H; [|done].
    destruct (Z.ltb_spec (dec_value (c :: d)) two63); [|done]. by simplify_eq.
  - intros (Hd & <- & Hz). rewrite (proj2 (is_integer_token_iff t)) by auto. cbn [negb].
    destruct (digits1_not_minus _ Hd) as (c & s & -> & Hc). split; [|exact Hc]. unfold from_chars_i64.
    rewrite Hc. cbv zeta. assert (0 <= dec_value (c :: s)) by (apply dec_value_nonneg, Hd).
    by rewrite (proj2 (Z.leb_le _ _)), (proj2 (Z.ltb_lt _ _)) by (unfold two63 in *; lia).
Qed.

(** The elements have names, all are natural numbers. *)
Lemma walk_fields_iff loc names tokens zs :
  length names = length tokens ->
  walk_fields loc names tokens = inr zs <->
  Forall2 (fun t z => digits1 t /\ dec_value t = z /\ z < two63) tokens zs.
Proof.
  revert tokens zs. induction names as [|name names IH]; intros [|t tokens] zs Hlen; try done.
  - cbn. split; [by intros [= <-]|]. by intros ->%Forall2_nil_inv_l.
  - cbn [walk_fields]. fold (negative t). injection Hlen as Hlen. split.
    + destruct (to_i64 loc t name) as [e|z] eqn:E; [done|]. destruct (negative t) eqn:En; [done|].
      destruct (walk_fields loc names tokens) as [e|zs'] eqn:Ew; [done|]. intros [= <-]. constructor.
      * by eapply to_i64_natural.
      * by apply IH.
    + intros H. apply Forall2_cons_inv_l in H as (z & zs' & Hz & Hf & ->).
      apply (to_i64_natural loc t name) in Hz as [-> ->]. by rewrite (proj2 (IH tokens zs' Hlen) Hf).
Qed.

(** ** The events *)

Definition denotes (key value : bytes) (ev : FeedEvent) : Prop :=
  match ev with
  | EvSet s => key = text "set" /\ exists a b c d,
      value = "["%char :: a ++ ","%char :: b ++ ","%char :: c ++ ","%char :: d ++ ["]"%char] /\
      nat_field a (fs_bid_px s) /\ nat_field b (fs_bid_qty s) /\ nat_field c (fs_ask_px s) /\ nat_field d (fs_ask_qty s)
  | EvHalt ms => key = text "halt_ms" /\ digits1 value /\ dec_value value = ms /\ 1 <= ms <= 86400000
  | EvDrop => key = text "drop" /\ value = text "true"
  | EvEnd => key = text "end" /\ value = text "true"
  end.

(** The line is one object the preflight accepts, with the event's single field. *)
Definition line_event (txt : bytes) (ev : FeedEvent) : Prop :=
  exists key value, frame_preflight txt = Some (inr [(key, value)]) /\ denotes key value ev.

Lemma array_shape n v : json n ("["%char :: v) -> exists p, v = p ++ ["]"%char].
Proof.
  intros H. inversion H as [? k Hk E|? ? [E|[E|E]]|? ? Hn|? l kvs|? l Hl]; try done; [|by eexists].
  destruct Hn as (m & i & f & x & E & [->| ->] & Hi & _); [|done].
  destruct Hi as [->|(c & s' & -> & _ & Hd)]; [done|]. simplify_eq/=.
  apply Forall_cons in Hd as [Hd _]. done.
Qed.

Lemma parse_set_body loc p :
  parse_set loc ("["%char :: p ++ ["]"%char]) =
  let arity_error := (quoted_name "set" ++ " must have exactly four elements [bid_px, bid_qty, ask_px, ask_qty]")%string in
  let tokens := map trim (split_commas p) in
  if bool_decide (trim p = []) then inl (feed_reject loc arity_error)
  else
    match walk_fields loc kNames tokens with
    | inl e => inl e
    | inr fields =>
        if negb (length tokens =? length kNames)%nat then inl (feed_reject loc arity_error)
        else inr (mkFeedSet (nth 0 fields 0) (nth 1 fields 0) (nth 2 fields 0) (nth 3 fields 0))
    end.
Proof.
  assert (take (length ("["%char :: p ++ ["]"%char]) - 2) (drop 1 ("["%char :: p ++ ["]"%char])) = p) as E.
  { cbn [length skipn]. rewrite length_app. cbn. replace (length p + 1 - 1)%nat with (length p) by lia.
    apply take_app_length. }
  unfold parse_set. rewrite E. cbv zeta. rewrite split_trim. reflexivity.
Qed.

Lemma parse_set_iff loc value s :
  json 31 value -> parse_set loc value = inr s <-> denotes (text "set") value (EvSet s).
Proof.
  intros Hj. split.
  - intros H. split; [done|]. destruct value as [|c v]; [done|].
    destruct (Ascii.eqb_spec c "[") as [->|Hne].
    2: { unfold parse_set in H. by rewrite (proj2 (Ascii.eqb_neq _ _) Hne) in H. }
    destruct (array_shape _ _ Hj) as [p ->]. rewrite parse_set_body in H. cbv zeta in H.
    case_bool_decide; [done|]. destruct (walk_fields _ _ _) as [e|zs] eqn:Ew; [done|].
    destruct (Nat.eqb_spec (length (map trim (split_commas p))) (length kNames)) as [Hl|]; cbn [negb] in H; [|done].
    rewrite walk_fields_iff in Ew by done. rewrite length_map in Hl.
    destruct (split_commas p) as [|a [|b [|c [|d [|]]]]] eqn:Es; try done.
    cbn [map] in Ew. apply Forall2_cons_inv_l in Ew as (z1 & ? & Ha & Ew & ->).
    apply Forall2_cons_inv_l in Ew as (z2 & ? & Hb & Ew & ->). apply Forall2_cons_inv_l in Ew as (z3 & ? & Hc & Ew & ->).
    apply Forall2_cons_inv_l in Ew as (z4 & ? & Hd & Ew & ->). apply Forall2_nil_inv_l in Ew as ->.
    simplify_eq. cbn [nth fs_bid_px fs_bid_qty fs_ask_px fs_ask_qty]. exists a, b, c, d.
    rewrite !nat_field_trim. refine (conj _ (conj Ha (conj Hb (conj Hc Hd)))). rewrite <- (join_split p), Es. cbn [join_commas]. app_norm.
  - intros (_ & a & b & c & d & -> & Ha & Hb & Hc & Hd).
    replace ("["%char :: a ++ ","%char :: b ++ ","%char :: c ++ ","%char :: d ++ ["]"%char])
      with ("["%char :: (a ++ ","%char :: b ++ ","%char :: c ++ ","%char :: d) ++ ["]"%char]) by app_norm.
    assert (split_commas (a ++ ","%char :: b ++ ","%char :: c ++ ","%char :: d) = [a; b; c; d]) as Es.
    { rewrite !split_comma, split_plain by (by eapply nat_field_no_comma). done. }
    rewrite parse_set_body. cbv zeta. rewrite bool_decide_eq_false_2.
    2: { intros Ht. apply (f_equal (map trim)) in Es. by rewrite <- split_trim, Ht in Es. }
    rewrite Es. rewrite (proj2 (walk_fields_iff loc kNames (map trim [a; b; c; d])
      [fs_bid_px s; fs_bid_qty s; fs_ask_px s; fs_ask_qty s] eq_refl)).
    2: { cbn [map]. rewrite nat_field_trim in Ha, Hb, Hc, Hd. repeat (constructor; [eassumption|]). constructor. }
    cbn. by destruct s.
Qed.

Lemma parse_halt_iff loc value ms :
  parse_halt loc value = inr ms <-> denotes (text "halt_ms") value (EvHalt ms).
Proof.
  unfold parse_halt, denotes. split.
  - destruct (to_i64 loc value "halt_ms") as [e|z] eqn:E; [done|].
    destruct (Z.leb_spec z 0); [done|]. destruct (Z.ltb_spec kMaxHaltMs z); [done|]. intros [= <-].
    assert (negative value = false) as Hn.
    { destruct (negative value) eqn:En; [|done]. destruct value as [|c d]; [done|]. cbn in En.
      unfold to_i64 in E. destruct (is_integer_token (c :: d)) eqn:Hi; [|done]. cbn [negb] in E.
      unfold from_chars_i64 in E. rewrite En in E. cbv zeta in E.
      apply is_integer_token_iff in Hi as [Hd|(d' & [= -> <-] & Hd)].
      - destruct (digits1_not_minus _ Hd) as (? & ? & [= -> ->] & ?). congruence.
      - pose proof (dec_value_nonneg _ (proj2 Hd)). destruct (_ && _); simplify_eq. lia. }
    destruct (proj1 (to_i64_natural _ _ _ _) (conj E Hn)) as (? & ? & _). unfold kMaxHaltMs in *. split_and!; try done; lia.
  - intros (_ & Hd & Hv & Hms). destruct (proj2 (to_i64_natural loc value "halt_ms" ms)) as [-> _].
    { split_and!; [done|done|unfold two63; lia]. }
    by rewrite (proj2 (Z.leb_gt _ _)), (proj2 (Z.ltb_ge _ _)) by (unfold kMaxHaltMs; lia).
Qed.

Lemma parse_event_iff loc key value ev :
  json 31 value -> parse_event loc key value = inr ev <-> denotes key value ev.
Proof.
  intros Hj. unfold parse_event.
  case_bool_decide as H1; [subst key|case_bool_decide as H2; [subst key|case_bool_decide as H3;
    [subst key|case_bool_decide as H4; [subst key|]]]].
  - pose proof (parse_set_iff loc value) as Hs. destruct (parse_set loc value) as [e|s].
    + split; [done|]. destruct ev; try (by intros [? _]). intros Hd. by apply Hs in Hd.
    + split; [intros [= <-]; by apply Hs|]. destruct ev; try (by intros [? _]). intros Hd. f_equal. apply Hs in Hd; [|done]. by simplify_eq.
  - pose proof (parse_halt_iff loc value) as Hs. destruct (parse_halt loc value) as [e|ms].
    + split; [done|]. destruct ev; try (by intros [? _]). intros Hd. by apply Hs in Hd.
    + split; [intros [= <-]; by apply Hs|]. destruct ev; try (by intros [? _]). intros Hd. f_equal. apply Hs in Hd. by simplify_eq.
  - unfold require_true. case_bool_decide; cbn [negb].
    + split; [by intros [= <-]|]. destruct ev; by intros [? _].
    + split; [done|]. destruct ev; by intros [? ?].
  - unfold require_true. case_bool_decide; cbn [negb].
    + split; [by intros [= <-]|]. destruct ev; by intros [? _].
    + split; [done|]. destruct ev; by intros [? ?].
  - split; [done|]. destruct ev; by intros [? ?].
Qed.

Lemma parse_line_spec loc txt :
  exists r, parse_line loc txt = Some r /\ forall ev, line_event txt ev <-> r = inr ev.
Proof.
  unfold parse_line, line_event. destruct (proj1 (preflight_spec txt)) as [r E]. rewrite E.
  destruct r as [e|scan]; [eexists; split; [done|]; intros ev; split; [by intros (k & v & ? & _)|done]|].
  eexists. split; [done|]. pose proof (preflight_tokens _ _ E) as Htok. intros ev.
  destruct scan as [|[key value] [|]]; [split; [intros (k & v & ? & _); by simplify_eq|done]|
    |split; [intros (k & v & ? & _); by simplify_eq|done]].
  apply Forall_singleton in Htok as [Hj _]. cbn in Hj. rewrite (parse_event_iff loc) by done.
  split; [intros (k & v & ? & Hd); by simplify_eq|eauto].
Qed.

(** ** The whole file *)

(** A script: every line denotes its event, and [end] is the last one. *)
Definition script (lines : list bytes) (evs : list FeedEvent) : Prop :=
  Forall2 line_event lines evs /\ forall i, evs !! i = Some EvEnd -> S i = length evs.

Definition script_from (ended : bool) (lines : list bytes) (evs : list FeedEvent) : Prop :=
  script lines evs /\ (ended = true -> lines = []).

Lemma script_cons ended txt lines ev evs :
  script_from ended (txt :: lines) (ev :: evs) <->
  ended = false /\ line_event txt ev /\ script_from (is_end ev) lines evs.
Proof.
  unfold script_from, script. split.
  - intros [[Hf He] Hn]. apply Forall2_cons in Hf as [Hl Hf]. split_and!; try done.
    + destruct ended; [by specialize (Hn eq_refl)|done].
    + intros i Hi. specialize (He (S i) Hi). cbn in He. lia.
    + intros Hend. destruct ev; try done. specialize (He 0%nat eq_refl). apply Forall2_length in Hf.
      apply nil_length_inv. cbn in He. lia.
  - intros (-> & Hl & [Hf He] & Hn). split_and!; [by constructor| |done].
    intros [|i] Hi; cbn in *; [|f_equal; by apply He]. simplify_eq. specialize (Hn eq_refl).
    apply Forall2_length in Hf. rewrite Hn in Hf. cbn in Hf. lia.
Qed.

Lemma load_lines_total src lines n ended acc :
  exists r, load_lines src lines n ended acc = Some r /\
    forall out, r = inr out <-> exists evs, out = acc ++ evs /\ script_from ended lines evs.
Proof.
  revert n ended acc. induction lines as [|txt lines IH]; intros n ended acc; cbn [load_lines].
  - eexists. split; [done|]. intros out. split.
    + intros [= <-]. exists []. split; [by rewrite app_nil_r|]. split; [split; [constructor|done]|done].
    + intros (evs & -> & [Hf _] & _). apply Forall2_nil_inv_l in Hf as ->. by rewrite app_nil_r.
  - destruct ended.
    { eexists. split; [done|]. intros out. split; [done|]. intros (evs & _ & _ & H). by specialize (H eq_refl). }
    cbv zeta. destruct (parse_line_spec (mkLoc src (n + 1)) txt) as (r & -> & Hr).
    assert (forall evs, script_from false (txt :: lines) evs -> exists ev evs', evs = ev :: evs') as Hinv.
    { intros evs [[Hf _] _]. apply Forall2_cons_inv_l in Hf as (? & ? & _ & _ & ->). eauto. }
    destruct r as [e|ev].
    + eexists. split; [done|]. intros out. split; [done|]. intros (evs & _ & Hs).
      destruct (Hinv _ Hs) as (ev & evs' & ->). apply script_cons in Hs as (_ & Hl & _). by apply Hr in Hl.
    + destruct (IH (n + 1) (is_end ev) (acc ++ [ev])) as (r & -> & Hl). eexists. split; [done|].
      intros out. rewrite Hl. split.
      * intros (evs & -> & Hs). exists (ev :: evs). split; [app_norm|]. apply script_cons. split_and!; [done|by apply Hr|done].
      * intros (evs & -> & Hs). destruct (Hinv _ Hs) as (ev' & evs' & ->). apply script_cons in Hs as (_ & He & Hs).
        apply Hr in He. simplify_eq. exists evs'. split; [app_norm|done].
Qed.

Lemma load_feed_stream_spec contents bad src :
  (exists r, load_feed_stream contents bad src = Some r) /\
  forall evs, load_feed_stream contents bad src = Some (inr evs) <->
    bad = false /\ evs <> [] /\ script (getlines contents bad []) evs.
Proof.
  unfold load_feed_stream. destruct (load_lines_total src (getlines contents bad []) 0 false []) as (r & -> & Hr).
  assert (forall out, r = inr out <-> script (getlines contents bad []) out) as Hs.
  { intros out. rewrite Hr. unfold script_from. cbn. naive_solver. }
  clear Hr. destruct r as [e|events].
  - split; [eauto|]. intros evs. split; [done|]. intros (_ & _ & H). by apply Hs in H.
  - destruct bad; [split; [eauto|]; intros evs; split; [done|by intros (? & _)]|].
    case_bool_decide as Hne; (split; [eauto|]; intros evs; split).
    + done.
    + intros (_ & Hne' & H). apply Hs in H. by simplify_eq.
    + intros [= <-]. split_and!; [done|done|by apply Hs].
    + intros (_ & _ & H). apply Hs in H. by simplify_eq.
Qed.

(** C23 The loader is total, and loads a file as [evs] exactly when the read did
    not fail, there is at least one event, every line denotes its event
    (a set of four natural numbers, a halt of at most a day, a drop, an end)
    and nothing follows the end event. *)
Theorem feed_accepts_iff contents bad src :
  (exists r, load_feed_stream contents bad src = Some r) /\
  forall evs, load_feed_stream contents bad src = Some (inr evs) <->
    bad = false /\ evs <> [] /\ script (getlines contents bad []) evs.
Proof. apply load_feed_stream_spec. Qed.

(** Every diagnosis of a line names the line. *)
Lemma to_i64_error loc t name e : to_i64 loc t name = inl e -> exists why, e = feed_reject loc why.
Proof. unfold to_i64. repeat case_match; intros [= <-]; eauto. Qed.

Lemma walk_fields_error loc names tokens e :
  walk_fields loc names tokens = inl e -> exists why, e = feed_reject loc why.
Proof.
  revert tokens. induction names as [|name names IH]; intros [|t tokens]; try done. cbn [walk_fields].
  destruct (to_i64 loc t name) as [e'|z] eqn:E; [intros [= <-]; by eapply to_i64_error|].
  case_match; [intros [= <-]; eauto|]. destruct (walk_fields loc names tokens) eqn:Ew; [|done].
  intros [= <-]. by eapply IH.
Qed.

Lemma parse_set_error loc value e : parse_set loc value = inl e -> exists why, e = feed_reject loc why.
Proof.
  unfold parse_set. cbv zeta. destruct (negb (match value with [] => _ | _ => _ end)); [intros [= <-]; eauto|].
  case_bool_decide; [intros [= <-]; eauto|]. destruct (walk_fields loc kNames _) eqn:Ew; [intros [= <-]; by eapply walk_fields_error|].
  destruct (negb _); [intros [= <-]; eauto|done].
Qed.

Lemma parse_halt_error loc value e : parse_halt loc value = inl e -> exists why, e = feed_reject loc why.
Proof.
  unfold parse_halt. destruct (to_i64 loc value "halt_ms") eqn:E; [intros [= <-]; by eapply to_i64_error|].
  repeat case_match; intros [= <-]; eauto.
Qed.

Lemma parse_line_error loc txt e : parse_line loc txt = Some (inl e) -> exists why, e = feed_reject loc why.
Proof.
  unfold parse_line. destruct (frame_preflight txt) as [[err|scan]|]; [intros [= <-]; eauto| |done].
  destruct scan as [|[key value] [|]]; try (intros [= <-]; eauto). unfold parse_event, require_true. intros [= H].
  destruct (parse_set loc value) eqn:Es, (parse_halt loc value) eqn:Eh;
    try (apply parse_set_error in Es); try (apply parse_halt_error in Eh);
    repeat case_bool_decide; simplify_eq/=; eauto.
Qed.

Lemma load_lines_bad src txt rest good evs n ended acc :
  script_from ended good evs ->
  (forall ev, ~ line_event txt ev) \/ last evs = Some EvEnd \/ ended = true ->
  exists why, load_lines src (good ++ txt :: rest) n ended acc =
    Some (inl (feed_reject (mkLoc src (n + Z.of_nat (length good) + 1)) why)).
Proof.
  revert evs n ended acc. induction good as [|t0 good IH]; intros evs n ended acc Hs Hbad.
  - cbn [app load_lines length]. destruct Hs as [[Hf _] _]. apply Forall2_nil_inv_l in Hf as ->.
    replace (n + Z.of_nat 0 + 1) with (n + 1) by lia. destruct ended; [eauto|]. cbv zeta.
    destruct Hbad as [Hbad|[?|?]]; [|done..]. destruct (parse_line_spec (mkLoc src (n + 1)) txt) as (r & Hp & Hr).
    rewrite Hp. destruct r as [e|ev]; [apply parse_line_error in Hp as [why ->]; eauto|].
    exfalso. by apply (Hbad ev), Hr.
  - assert (exists ev evs', evs = ev :: evs') as (ev & evs' & ->).
    { destruct Hs as [[Hf _] _]. apply Forall2_cons_inv_l in Hf as (? & ? & _ & _ & ->). eauto. }
    apply script_cons in Hs as (-> & Hl & Hs). cbn [app load_lines length].
    cbv zeta. destruct (parse_line_spec (mkLoc src (n + 1)) t0) as (r & -> & Hr). apply Hr in Hl. subst r.
    replace (n + Z.of_nat (S (length good)) + 1) with (n + 1 + Z.of_nat (length good) + 1) by lia.
    apply (IH evs'); [done|]. destruct Hbad as [?|[Hbad|?]]; [by left| |done].
    right. destruct evs' as [|ev' evs']; [right|by left]. cbn in Hbad. by simplify_eq.
Qed.

(** C24 A file with a bad line is refused with a message naming the source and
    the number, from 1, of the first such line: one that denotes no event, or
    any line after the end event. *)
Theorem feed_names_first_bad_line contents bad src good evs txt rest :
  getlines contents bad [] = good ++ txt :: rest -> script good evs ->
  (forall ev, ~ line_event txt ev) \/ last evs = Some EvEnd ->
  exists why, load_feed_stream contents bad src =
    Some (inl (feed_reject (mkLoc src (Z.of_nat (length good) + 1)) why)).
Proof.
  intros E Hs Hbad. unfold load_feed_stream. rewrite E.
  destruct (load_lines_bad src txt rest good evs 0 false []) as [why ->]; [by split|naive_solver|by exists why].
Qed.

(** ** A scenario *)

Definition demo_feed : bytes :=
  requote (text "{'set':[ 499900,100 ,500000,0]}") ++ newline ::
  requote (text "{'halt_ms':1200}") ++ newline :: requote (text "{'drop':true}") ++ [newline] ++
  requote (text "{'end':true}").

Example demo_feed_loads :
  load_feed_stream demo_feed false "demo.feed" =
  Some (inr [EvSet (mkFeedSet 499900 100 500000 0); EvHalt 1200; EvDrop; EvEnd]).
Proof. vm_compute. reflexivity. Qed.

Lemma feed_names_first_bad_line_witness :
  exists why, load_feed_stream (demo_feed ++ [newline; "x"%char]) false "demo.feed" =
    Some (inl (feed_reject (mkLoc "demo.feed" 5) why)).
Proof.
  destruct (proj1 (proj2 (load_feed_stream_spec demo_feed false "demo.feed") _) demo_feed_loads) as (_ & _ & Hs).
  apply (feed_names_first_bad_line (demo_feed ++ [newline; "x"%char]) false "demo.feed"
    (getlines demo_feed false []) [EvSet (mkFeedSet 499900 100 500000 0); EvHalt 1200; EvDrop; EvEnd] ["x"%char] []);
    [vm_compute; reflexivity|exact Hs|right; reflexivity].
Defined.
