(* ===== verification/BenchRecorder.v ===== *)
(** * The latency recorder ([cpp/include/mm/bench_recorder.hpp])

    Four sample streams fed through a ring of correlation slots.  The model
    keeps the slot vector as a map from its indices, an absent index being the
    value-initialised slot; [reserve(n)] is taken to give a capacity of [n]. *)

From Stdlib Require Import ZArith Ascii String List Lia.
From stdpp Require Import base tactics list option strings gmap.
From S2P Require Import Prelude Utf8 Bytes.

Record Slot := mkSlot { s_md_seq : Z; m0_ns : Z; m0p_ns : Z; m3_taken : bool }.
Definition empty_slot : Slot := mkSlot 0 0 0 false.

Record BenchRecorder := mkRecorder {
  capacity : nat;
  slots_ : gmap Z Slot;
  svc_ : list Z;
  m0_m0p_ : list Z;
  m0p_m3_ : list Z;
  m0_m3_ : list Z;
  saturated_ : Z;
}.

Definition kDefaultCapacity : nat := Z.to_nat 1200000.
Definition kCorrelationSlots : Z := 65536.

Definition new_recorder (cap : nat) : outcome BenchRecorder :=
  if (cap =? 0)%nat then Throw (invalid_argument "BenchRecorder: capacity must be > 0")
  else Ret (mkRecorder cap ∅ [] [] [] [] 0).

(** The slot of a book: index [md_seq % slots_.size()]. *)
Definition slot_at (md_seq : Z) (r : BenchRecorder) : Slot :=
  default empty_slot (slots_ r !! (md_seq mod kCorrelationSlots)).
Definition set_slot (md_seq : Z) (s : Slot) (r : BenchRecorder) : BenchRecorder :=
  mkRecorder (capacity r) (<[md_seq mod kCorrelationSlots := s]> (slots_ r)) (svc_ r) (m0_m0p_ r)
    (m0p_m3_ r) (m0_m3_ r) (saturated_ r).

Definition find (md_seq : Z) (r : BenchRecorder) : option Slot :=
  if md_seq =? 0 then None
  else let slot := slot_at md_seq r in if s_md_seq slot =? md_seq then Some slot else None.

(** Capacity-guarded append: the stream, and the refused samples. *)
Definition append (cap : nat) (stream : list Z) (saturated : Z) (sample : Z) : list Z * Z :=
  if (length stream =? cap)%nat then (stream, u64 (saturated + 1)) else (stream ++ [sample], saturated).

Definition append_svc (x : Z) (r : BenchRecorder) : BenchRecorder :=
  let (l, n) := append (capacity r) (svc_ r) (saturated_ r) x in
  mkRecorder (capacity r) (slots_ r) l (m0_m0p_ r) (m0p_m3_ r) (m0_m3_ r) n.
Definition append_m0_m0p (x : Z) (r : BenchRecorder) : BenchRecorder :=
  let (l, n) := append (capacity r) (m0_m0p_ r) (saturated_ r) x in
  mkRecorder (capacity r) (slots_ r) (svc_ r) l (m0p_m3_ r) (m0_m3_ r) n.
Definition append_m0p_m3 (x : Z) (r : BenchRecorder) : BenchRecorder :=
  let (l, n) := append (capacity r) (m0p_m3_ r) (saturated_ r) x in
  mkRecorder (capacity r) (slots_ r) (svc_ r) (m0_m0p_ r) l (m0_m3_ r) n.
Definition append_m0_m3 (x : Z) (r : BenchRecorder) : BenchRecorder :=
  let (l, n) := append (capacity r) (m0_m3_ r) (saturated_ r) x in
  mkRecorder (capacity r) (slots_ r) (svc_ r) (m0_m0p_ r) (m0p_m3_ r) l n.

Definition md_published (md_seq m0 : Z) (r : BenchRecorder) : BenchRecorder :=
  if md_seq =? 0 then r else set_slot md_seq (mkSlot md_seq m0 0 false) r.

Definition md_written (md_seq m0p : Z) (r : BenchRecorder) : BenchRecorder :=
  match find md_seq r with
  | None => r
  | Some slot =>
      if negb (m0p_ns slot =? 0) then r
      else append_m0_m0p (m0p - m0_ns slot)
             (set_slot md_seq (mkSlot (s_md_seq slot) (m0_ns slot) m0p (m3_taken slot)) r)
  end.

Definition order_for (md_seq m3 : Z) (r : BenchRecorder) : BenchRecorder :=
  match find md_seq r with
  | None => r
  | Some slot =>
      if m3_taken slot then r
      else
        let r := set_slot md_seq (mkSlot (s_md_seq slot) (m0_ns slot) (m0p_ns slot) true) r in
        let r := if negb (m0p_ns slot =? 0) then append_m0p_m3 (m3 - m0p_ns slot) r else r in
        append_m0_m3 (m3 - m0_ns slot) r
  end.

Definition svc (d : Z) (r : BenchRecorder) : BenchRecorder := append_svc d r.

(** ** The dump *)

(** The eight bytes of a 64-bit word in memory, little-endian. *)
Definition le64 (z : Z) : bytes := le_bytes 8 (u64 z).

Definition streams (r : BenchRecorder) : list (list Z) := [svc_ r; m0_m0p_ r; m0p_m3_ r; m0_m3_ r].

Definition serialize (peak_sessions : Z) (r : BenchRecorder) : bytes :=
  let header := map (fun l : list Z => Z.of_nat (length l)) (streams r) ++ [saturated_ r; peak_sessions] in
  concat (map le64 header) ++ concat (map (fun l => concat (map le64 l)) (streams r)).

(** [dump]: the bytes, or a throw when the stream failed. *)
Definition dump (peak_sessions : Z) (write_ok : bool) (r : BenchRecorder) : outcome bytes :=
  if write_ok then Ret (serialize peak_sessions r)
  else Throw (runtime_error "BenchRecorder: write to the bench dump failed").

(** ** The specification: an unbounded table of published books *)

Section Spec.

Record Ideal := mkIdeal { last_md : Z; table : gmap Z Slot; ideal_rec : BenchRecorder }.

(** A published book is still correlated while fewer than 65536 books followed. *)
Definition in_window (md : Z) (i : Ideal) : bool :=
  (0 <? md) && (last_md i - kCorrelationSlots <? md) && (md <=? last_md i).

Definition lookup_ideal (md : Z) (i : Ideal) : option Slot :=
  if in_window md i then table i !! md else None.

Inductive RecOp := Publish (m0 : Z) | Write (md t : Z) | Echo (md t : Z) | Service (d : Z).

(** The driver numbers its books from 1. *)
Definition exec_ideal (op : RecOp) (i : Ideal) : Ideal :=
  match op with
  | Publish m0 =>
      mkIdeal (last_md i + 1) (<[last_md i + 1 := mkSlot (last_md i + 1) m0 0 false]> (table i)) (ideal_rec i)
  | Write md t =>
      match lookup_ideal md i with
      | Some s =>
          if m0p_ns s =? 0 then
            mkIdeal (last_md i) (<[md := mkSlot md (m0_ns s) t (m3_taken s)]> (table i))
              (append_m0_m0p (t - m0_ns s) (ideal_rec i))
          else i
      | None => i
      end
  | Echo md t =>
      match lookup_ideal md i with
      | Some s =>
          if m3_taken s then i
          else mkIdeal (last_md i) (<[md := mkSlot md (m0_ns s) (m0p_ns s) true]> (table i))
                 (append_m0_m3 (t - m0_ns s)
                    (if m0p_ns s =? 0 then ideal_rec i else append_m0p_m3 (t - m0p_ns s) (ideal_rec i)))
      | None => i
      end
  | Service d => mkIdeal (last_md i) (table i) (append_svc d (ideal_rec i))
  end.

(** The recorder, with the driver's counter beside it. *)
Definition exec_rec (op : RecOp) (st : Z * BenchRecorder) : Z * BenchRecorder :=
  match op with
  | Publish m0 => (st.1 + 1, md_published (st.1 + 1) m0 st.2)
  | Write md t => (st.1, md_written md t st.2)
  | Echo md t => (st.1, order_for md t st.2)
  | Service d => (st.1, svc d st.2)
  end.

Definition run_rec (ops : list RecOp) (st : Z * BenchRecorder) := fold_left (fun st op => exec_rec op st) ops st.
Definition run_ideal (ops : list RecOp) (i : Ideal) := fold_left (fun i op => exec_ideal op i) ops i.
End Spec.

(** The samples of a recorder, without its slots. *)
Definition samples (r : BenchRecorder) : list (list Z) * Z * nat := (streams r, saturated_ r, capacity r).

Record simulates (st : Z * BenchRecorder) (i : Ideal) : Prop := {
  sim_last : st.1 = last_md i;
  sim_nonneg : 0 <= last_md i;
  sim_samples : samples st.2 = samples (ideal_rec i);
  sim_table : forall md s, table i !! md = Some s -> s_md_seq s = md /\ 1 <= md <= last_md i;
  sim_full : forall md, 1 <= md <= last_md i -> is_Some (table i !! md);
  sim_slots : forall md, in_window md i = true -> table i !! md = Some (slot_at md st.2);
  sim_empty : forall k s, slots_ st.2 !! k = Some s -> exists md, in_window md i = true /\ k = md mod kCorrelationSlots;
}.

Lemma in_window_iff md i : in_window md i = true <-> 1 <= md /\ last_md i - kCorrelationSlots < md <= last_md i.
Proof. unfold in_window. rewrite !andb_true_iff, !Z.ltb_lt, Z.leb_le. lia. Qed.

(** Two books of the window share a slot only if they are the same. *)
Lemma window_inj a b n :
  n - kCorrelationSlots < a <= n -> n - kCorrelationSlots < b <= n ->
  a mod kCorrelationSlots = b mod kCorrelationSlots -> a = b.
Proof. unfold kCorrelationSlots. intros. Z.to_euclidean_division_equations. lia. Qed.

Lemma find_simulates st i md : simulates st i -> find md st.2 = lookup_ideal md i.
Proof.
  intros H. unfold find, lookup_ideal. destruct (Z.eqb_spec md 0) as [->|Hne].
  { destruct (in_window 0 i) eqn:E; [|done]. apply in_window_iff in E. lia. }
  cbv zeta. destruct (in_window md i) eqn:E.
  - pose proof (sim_slots _ _ H md E) as Ht. rewrite Ht. destruct (sim_table _ _ H _ _ Ht) as [-> _].
    by rewrite Z.eqb_refl.
  - unfold slot_at. destruct (slots_ st.2 !! (md mod kCorrelationSlots)) as [s|] eqn:Es.
    + cbn. destruct (Z.eqb_spec (s_md_seq s) md) as [Em|]; [|done]. exfalso.
      destruct (sim_empty _ _ H _ _ Es) as (md' & Hw & Hk). pose proof (sim_slots _ _ H md' Hw) as Ht.
      unfold slot_at in Ht. rewrite <- Hk, Es in Ht. destruct (sim_table _ _ H _ _ Ht) as [E' _].
      cbn in E'. congruence.
    + change (s_md_seq (default empty_slot None)) with 0. by rewrite (proj2 (Z.eqb_neq 0 md)) by lia.
Qed.

Lemma slot_at_set a b s r :
  slot_at a (set_slot b s r) =
  if bool_decide (a mod kCorrelationSlots = b mod kCorrelationSlots) then s else slot_at a r.
Proof.
  unfold slot_at, set_slot. cbn [slots_]. case_bool_decide as E; [by rewrite E, lookup_insert_eq|].
  by rewrite lookup_insert_ne by done.
Qed.

(** Updating a correlated slot on both sides. *)
Lemma simulates_update st i md s0 s i' r' :
  simulates st i -> lookup_ideal md i = Some s0 -> s_md_seq s = md ->
  last_md i' = last_md i -> table i' = <[md := s]> (table i) ->
  slots_ r' = slots_ (set_slot md s st.2) -> samples r' = samples (ideal_rec i') ->
  simulates (st.1, r') i'.
Proof.
  intros H Hl Hs Hlast Htab Hslots Hsam. unfold lookup_ideal in Hl.
  destruct (in_window md i) eqn:Hw; [|done]. pose proof (proj1 (in_window_iff _ _) Hw) as Hr.
  assert (forall x, in_window x i' = in_window x i) as Hwin by (intros; unfold in_window; by rewrite Hlast).
  assert (forall x, slot_at x r' = slot_at x (set_slot md s st.2)) as Hat by (intros; unfold slot_at; by rewrite Hslots).
  constructor; cbn [fst snd].
  - rewrite Hlast. apply H.
  - rewrite Hlast. apply H.
  - done.
  - intros x y. rewrite Htab, Hlast, lookup_insert_Some. intros [[-> ->]|[_ Hx]]; [split; [done|lia]|].
    by apply (sim_table _ _ H).
  - intros x Hx. rewrite Htab. rewrite Hlast in Hx. destruct (decide (md = x)) as [->|]; [rewrite lookup_insert_eq; eauto|].
    rewrite lookup_insert_ne by done. by apply (sim_full _ _ H).
  - intros x. rewrite Hwin, Htab, Hat, slot_at_set. intros Hx. pose proof (proj1 (in_window_iff _ _) Hx) as Hxr.
    case_bool_decide as Em.
    + assert (x = md) as -> by (apply (window_inj _ _ (last_md i)); [lia|lia|exact Em]). by rewrite lookup_insert_eq.
    + rewrite lookup_insert_ne by congruence. by apply (sim_slots _ _ H).
  - intros k y. rewrite Hslots. cbn [set_slot slots_]. rewrite lookup_insert_Some.
    intros [[<- _]|[_ Hk]]; [exists md; by rewrite Hwin|].
    destruct (sim_empty _ _ H _ _ Hk) as (x & Hx & ->). exists x. by rewrite Hwin.
Qed.

Lemma simulates_publish st i m0 : simulates st i -> simulates (exec_rec (Publish m0) st) (exec_ideal (Publish m0) i).
Proof.
  intros H. cbn [exec_rec exec_ideal]. pose proof (sim_nonneg _ _ H) as Hn. rewrite (sim_last _ _ H).
  set (n := last_md i) in *. unfold md_published. rewrite (proj2 (Z.eqb_neq (n + 1) 0)) by lia.
  set (s := mkSlot (n + 1) m0 0 false). constructor; cbn [fst snd last_md table ideal_rec].
  - done.
  - lia.
  - apply (sim_samples _ _ H).
  - intros x y. rewrite lookup_insert_Some. intros [[<- <-]|[_ Hx]]; [cbn; lia|].
    apply (sim_table _ _ H) in Hx as [E1 E2]. fold n in E2. split; [done|lia].
  - intros x Hx. destruct (decide (n + 1 = x)) as [->|]; [rewrite lookup_insert_eq; eauto|].
    rewrite lookup_insert_ne by done. apply (sim_full _ _ H). fold n. lia.
  - intros x Hx%in_window_iff. cbn [last_md] in Hx. rewrite slot_at_set. case_bool_decide as Em.
    + assert (x = n + 1) as -> by (eapply (window_inj _ _ (n + 1)); [lia| |exact Em]; unfold kCorrelationSlots; lia).
      by rewrite lookup_insert_eq.
    + rewrite lookup_insert_ne by congruence. apply (sim_slots _ _ H), in_window_iff. fold n.
      assert (x <> n + 1) by congruence. lia.
  - intros k y. cbn [set_slot slots_]. rewrite lookup_insert_Some. intros [[<- _]|[Hne Hk]].
    + exists (n + 1). split; [|done]. apply in_window_iff. cbn [last_md]. unfold kCorrelationSlots. lia.
    + destruct (sim_empty _ _ H _ _ Hk) as (x & Hx & ->). exists x. split; [|done].
      apply in_window_iff in Hx. apply in_window_iff. cbn [last_md]. fold n in Hx.
      destruct (decide (x = n + 1 - kCorrelationSlots)) as [->|]; [|lia]. exfalso. apply Hne.
      unfold kCorrelationSlots. Z.to_euclidean_division_equations. lia.
Qed.

Lemma append_samples r1 r2 :
  samples r1 = samples r2 ->
  (forall x, samples (append_svc x r1) = samples (append_svc x r2)) /\
  (forall x, samples (append_m0_m0p x r1) = samples (append_m0_m0p x r2)) /\
  (forall x, samples (append_m0p_m3 x r1) = samples (append_m0p_m3 x r2)) /\
  (forall x, samples (append_m0_m3 x r1) = samples (append_m0_m3 x r2)).
Proof.
  destruct r1, r2. unfold samples, streams. cbn. intros [= -> -> -> -> -> ->].
  split_and!; intros x; unfold append_svc, append_m0_m0p, append_m0p_m3, append_m0_m3, append; cbn;
    by destruct (length _ =? _)%nat.
Qed.

Lemma append_slots x r :
  slots_ (append_svc x r) = slots_ r /\ slots_ (append_m0_m0p x r) = slots_ r /\
  slots_ (append_m0p_m3 x r) = slots_ r /\ slots_ (append_m0_m3 x r) = slots_ r.
Proof.
  unfold append_svc, append_m0_m0p, append_m0p_m3, append_m0_m3, append.
  split_and!; by destruct (length _ =? _)%nat.
Qed.

Lemma samples_set_slot md s r : samples (set_slot md s r) = samples r.
Proof. done. Qed.

Lemma simulates_exec op st i : simulates st i -> simulates (exec_rec op st) (exec_ideal op i).
Proof.
  intros H. destruct op as [m0|md t|md t|d]; [by apply simulates_publish|..]; cbn [exec_rec exec_ideal].
  - unfold md_written. rewrite (find_simulates _ _ _ H). destruct (lookup_ideal md i) as [s|] eqn:El.
    2: { by destruct st. }
    destruct (Z.eqb_spec (m0p_ns s) 0); cbn [negb]; [|by destruct st].
    assert (s_md_seq s = md) as Es.
    { unfold lookup_ideal in El. destruct (in_window md i); [|done]. by apply (sim_table _ _ H) in El as [? _]. }
    eapply (simulates_update _ _ md s (mkSlot (s_md_seq s) (m0_ns s) t (m3_taken s))); [exact H|exact El|done|done| | |].
    + cbn. by rewrite Es.
    + by rewrite (proj1 (proj2 (append_slots _ _))).
    + cbn [ideal_rec]. apply append_samples. rewrite samples_set_slot. apply (sim_samples _ _ H).
  - unfold order_for. rewrite (find_simulates _ _ _ H). destruct (lookup_ideal md i) as [s|] eqn:El.
    2: { by destruct st. }
    destruct (m3_taken s) eqn:Em; [by destruct st|]. cbv zeta.
    assert (s_md_seq s = md) as Es.
    { unfold lookup_ideal in El. destruct (in_window md i); [|done]. by apply (sim_table _ _ H) in El as [? _]. }
    eapply (simulates_update _ _ md s (mkSlot (s_md_seq s) (m0_ns s) (m0p_ns s) true)); [exact H|exact El|done|done| | |].
    + cbn. by rewrite Es.
    + rewrite (proj2 (proj2 (proj2 (append_slots _ _)))).
      destruct (m0p_ns s =? 0); cbn [negb]; [done|]. by rewrite (proj1 (proj2 (proj2 (append_slots _ _)))).
    + cbn [ideal_rec]. apply append_samples. destruct (m0p_ns s =? 0); cbn [negb]; [apply (sim_samples _ _ H)|].
      apply append_samples. rewrite samples_set_slot. apply (sim_samples _ _ H).
  - destruct (append_samples _ _ (sim_samples _ _ H)) as [Hs _]. unfold svc.
    constructor; cbn [fst snd last_md table ideal_rec]; try apply H; [done| |].
    + intros x Hx. unfold slot_at. rewrite (proj1 (append_slots _ _)). by apply (sim_slots _ _ H).
    + intros k y. rewrite (proj1 (append_slots _ _)). intros Hk. by apply (sim_empty _ _ H) in Hk.
Qed.

Lemma recorder_simulates cap ops :
  let r := mkRecorder cap ∅ [] [] [] [] 0 in samples (run_rec ops (0, r)).2 = samples (ideal_rec (run_ideal ops (mkIdeal 0 ∅ r))).
Proof.
  intros r. assert (simulates (0, r) (mkIdeal 0 ∅ r)) as H.
  { constructor; cbn; try done.
    - intros md Hmd. lia.
    - intros md Hw%in_window_iff. cbn in Hw. lia. }
  revert H. generalize (0, r), (mkIdeal 0 ∅ r). unfold run_rec, run_ideal.
  induction ops as [|op ops IH]; intros st i H; [apply (sim_samples _ _ H)|].
  cbn [fold_left]. apply IH. by apply simulates_exec.
Qed.

(** ** What each book yields *)

(** The samples a call offers to the two streams of a book, with the book. *)
Definition hand_off (op : RecOp) (i : Ideal) : list (Z * Z) :=
  match op with
  | Write md t =>
      match lookup_ideal md i with Some s => if m0p_ns s =? 0 then [(md, t - m0_ns s)] else [] | None => [] end
  | _ => []
  end.
Definition reaction (op : RecOp) (i : Ideal) : list (Z * Z) :=
  match op with
  | Echo md t => match lookup_ideal md i with Some s => if m3_taken s then [] else [(md, t - m0_ns s)] | None => [] end
  | _ => []
  end.

Fixpoint collect (f : RecOp -> Ideal -> list (Z * Z)) (ops : list RecOp) (i : Ideal) : list (Z * Z) :=
  match ops with [] => [] | op :: ops' => f op i ++ collect f ops' (exec_ideal op i) end.

(** The publication times, the book numbered [md] being the [md]th. *)
Definition publications (ops : list RecOp) : list Z := omap (fun op => match op with Publish m0 => Some m0 | _ => None end) ops.

(** No hand-off reads a zero clock, the value the slot keeps for none. *)
Definition clocked (op : RecOp) : Prop := match op with Write _ t => t <> 0 | _ => True end.

(** A stream is what was offered to it, up to the capacity. *)
Record tallies (cap : nat) (handed reacted : list (Z * Z)) (pubs : list Z) (i : Ideal) : Prop := {
  ta_cap : capacity (ideal_rec i) = cap;
  ta_handed : m0_m0p_ (ideal_rec i) = take cap (map snd handed);
  ta_reacted : m0_m3_ (ideal_rec i) = take cap (map snd reacted);
  ta_last : last_md i = Z.of_nat (length pubs);
  ta_table : forall md s, table i !! md = Some s -> 1 <= md /\ pubs !! Z.to_nat (md - 1) = Some (m0_ns s);
}.

Lemma append_take cap l x n : append cap (take cap l) n x = (take cap (l ++ [x]), (append cap (take cap l) n x).2).
Proof.
  unfold append. rewrite length_take. destruct (Nat.eqb_spec (Nat.min cap (length l)) cap) as [E|E]; cbn [snd]; f_equal.
  - by rewrite take_app_le by lia.
  - rewrite take_ge by lia. rewrite take_ge; [done|]. rewrite length_app. cbn. lia.
Qed.

Lemma append_streams x r :
  (capacity (append_svc x r) = capacity r /\ m0_m0p_ (append_svc x r) = m0_m0p_ r /\ m0_m3_ (append_svc x r) = m0_m3_ r) /\
  (capacity (append_m0_m0p x r) = capacity r /\ m0_m3_ (append_m0_m0p x r) = m0_m3_ r) /\
  (capacity (append_m0p_m3 x r) = capacity r /\ m0_m0p_ (append_m0p_m3 x r) = m0_m0p_ r /\ m0_m3_ (append_m0p_m3 x r) = m0_m3_ r) /\
  (capacity (append_m0_m3 x r) = capacity r /\ m0_m0p_ (append_m0_m3 x r) = m0_m0p_ r).
Proof.
  unfold append_svc, append_m0_m0p, append_m0p_m3, append_m0_m3, append. repeat case_match; simplify_eq; by split_and!.
Qed.

Lemma append_handed cap l x r : capacity r = cap -> m0_m0p_ r = take cap l -> m0_m0p_ (append_m0_m0p x r) = take cap (l ++ [x]).
Proof. intros Hc Hl. unfold append_m0_m0p. rewrite Hc, Hl, append_take. done. Qed.
Lemma append_reacted cap l x r : capacity r = cap -> m0_m3_ r = take cap l -> m0_m3_ (append_m0_m3 x r) = take cap (l ++ [x]).
Proof. intros Hc Hl. unfold append_m0_m3. rewrite Hc, Hl, append_take. done. Qed.

(** The slot a call finds is of a published book. *)
Lemma lookup_table md i s : lookup_ideal md i = Some s -> table i !! md = Some s.
Proof. unfold lookup_ideal. by case_match. Qed.

Lemma tallies_slot cap hs rs pubs i md s s' :
  tallies cap hs rs pubs i -> table i !! md = Some s -> m0_ns s' = m0_ns s ->
  forall md' x, <[md := s']> (table i) !! md' = Some x -> 1 <= md' /\ pubs !! Z.to_nat (md' - 1) = Some (m0_ns x).
Proof.
  intros H Hs E md' x [[<- <-]|[_ Hx]]%lookup_insert_Some; [rewrite E|]; by apply (ta_table _ _ _ _ _ H).
Qed.

Lemma tallies_exec cap hs rs pubs op i :
  tallies cap hs rs pubs i ->
  tallies cap (hs ++ hand_off op i) (rs ++ reaction op i) (pubs ++ publications [op]) (exec_ideal op i).
Proof.
  intros H. pose proof H as [Hc Hh Hr Hl Ht]. destruct op as [m0|md t|md t|d]; cbn [hand_off reaction publications omap list_omap exec_ideal]; rewrite ?app_nil_r.
  - constructor; cbn [ideal_rec last_md table]; try done; [rewrite length_app; cbn; lia|].
    intros md s [[<- <-]|[_ Hs]]%lookup_insert_Some.
    + split; [lia|]. rewrite Hl. replace (Z.to_nat _) with (length pubs) by lia. by rewrite list_lookup_middle.
    + destruct (Ht md s Hs) as [? Hp]. split; [done|]. by apply lookup_app_l_Some.
  - destruct (lookup_ideal md i) as [s|] eqn:El; [|by rewrite app_nil_r]. apply lookup_table in El.
    destruct (m0p_ns s =? 0); [|by rewrite app_nil_r]. destruct (append_streams (t - m0_ns s) (ideal_rec i)) as (_ & [Ec E3] & _).
    constructor; cbn [ideal_rec last_md table]; [congruence| |congruence|done|by eapply tallies_slot].
    rewrite map_app. by apply append_handed.
  - destruct (lookup_ideal md i) as [s|] eqn:El; [|by rewrite app_nil_r]. apply lookup_table in El.
    destruct (m3_taken s); [by rewrite app_nil_r|]. set (r := if m0p_ns s =? 0 then _ else _).
    assert (capacity r = cap /\ m0_m0p_ r = take cap (map snd hs) /\ m0_m3_ r = take cap (map snd rs)) as (C1 & H1 & R1).
    { unfold r. destruct (append_streams (t - m0p_ns s) (ideal_rec i)) as (_ & _ & (? & ? & ?) & _). case_match; split_and!; congruence. }
    destruct (append_streams (t - m0_ns s) r) as (_ & _ & _ & Ec & E0).
    constructor; cbn [ideal_rec last_md table]; [congruence|congruence| |done|by eapply tallies_slot].
    rewrite map_app. by apply append_reacted.
  - destruct (append_streams d (ideal_rec i)) as ((? & ? & ?) & _). constructor; cbn [ideal_rec last_md table]; try done; congruence.
Qed.

(** A book that has yielded its sample is marked, and yields no other. *)
Definition spent (mark : Slot -> bool) (l : list (Z * Z)) (i : Ideal) : Prop :=
  NoDup (map fst l) /\ forall md, md ∈ map fst l -> exists s, table i !! md = Some s /\ mark s = true.

Definition written (s : Slot) : bool := negb (m0p_ns s =? 0).

Lemma marks_kept mark op i md s :
  (mark = m3_taken \/ mark = written) -> (forall x, is_Some (table i !! x) -> x <= last_md i) ->
  table i !! md = Some s -> mark s = true -> exists s', table (exec_ideal op i) !! md = Some s' /\ mark s' = true.
Proof.
  intros Hmark Hle Hs Hm. destruct op as [m0|md' t|md' t|d]; cbn [exec_ideal]; [| | |by exists s].
  - exists s. cbn. rewrite lookup_insert_ne; [done|]. specialize (Hle md (ex_intro _ s Hs)). lia.
  - destruct (lookup_ideal md' i) as [x|] eqn:El; [|by exists s]. apply lookup_table in El.
    destruct (Z.eqb_spec (m0p_ns x) 0) as [E|]; [|by exists s]. cbn. destruct (decide (md' = md)) as [->|]; [|exists s; by rewrite lookup_insert_ne].
    rewrite lookup_insert_eq. eexists. split; [done|]. assert (x = s) as -> by congruence.
    destruct Hmark as [->| ->]; [exact Hm|]. unfold written in Hm. by rewrite E in Hm.
  - destruct (lookup_ideal md' i) as [x|] eqn:El; [|by exists s]. apply lookup_table in El.
    destruct (m3_taken x); [by exists s|]. cbn. destruct (decide (md' = md)) as [->|]; [|exists s; by rewrite lookup_insert_ne].
    rewrite lookup_insert_eq. eexists. split; [done|]. assert (x = s) as -> by congruence. by destruct Hmark as [->| ->].
Qed.

Lemma spent_step mark l x op i :
  (mark = m3_taken \/ mark = written) -> (forall x, is_Some (table i !! x) -> x <= last_md i) -> spent mark l i ->
  (x = [] \/ exists md t s s', x = [(md, t)] /\ table i !! md = Some s /\ mark s = false /\
     table (exec_ideal op i) !! md = Some s' /\ mark s' = true) ->
  spent mark (l ++ x) (exec_ideal op i).
Proof.
  intros Hmark Hle [Hn Hk] Hx. unfold spent. rewrite map_app. split.
  - destruct Hx as [->|(md & t & s & s' & -> & Hs & Hm & _)]; [by rewrite app_nil_r|]. apply NoDup_app. split_and!; [done| |apply NoDup_singleton].
    intros a Ha [->|Hf]%elem_of_cons; [|by apply not_elem_of_nil in Hf]. destruct (Hk md Ha) as (s0 & Hs0 & Hm0). congruence.
  - intros md [Hin|Hin]%elem_of_app.
    + destruct (Hk md Hin) as (s & Hs & Hm). by eapply marks_kept.
    + destruct Hx as [->|(md' & t & s & s' & -> & _ & _ & Hs & Hm)]; [by apply not_elem_of_nil in Hin|].
      apply elem_of_cons in Hin as [->|Hf]; [|by apply not_elem_of_nil in Hf]. eauto.
Qed.

Lemma reaction_spent rs op i :
  (forall x, is_Some (table i !! x) -> x <= last_md i) -> spent m3_taken rs i -> spent m3_taken (rs ++ reaction op i) (exec_ideal op i).
Proof.
  intros Hle H. apply spent_step; [by left|done|done|]. destruct op as [m0|md t|md t|d]; cbn [reaction exec_ideal]; try by left.
  destruct (lookup_ideal md i) as [s|] eqn:El; [|by left]. destruct (m3_taken s) eqn:Em; [by left|]. apply lookup_table in El. right.
  do 4 eexists. split_and!; [done|done|done|by cbn; rewrite lookup_insert_eq|done].
Qed.

Lemma hand_off_spent hs op i :
  clocked op -> (forall x, is_Some (table i !! x) -> x <= last_md i) -> spent written hs i -> spent written (hs ++ hand_off op i) (exec_ideal op i).
Proof.
  intros Ho Hle H. apply spent_step; [by right|done|done|]. destruct op as [m0|md t|md t|d]; cbn [hand_off exec_ideal]; try by left.
  destruct (lookup_ideal md i) as [s|] eqn:El; [|by left]. destruct (Z.eqb_spec (m0p_ns s) 0) as [Em|]; [|by left]. apply lookup_table in El. right.
  exists md, (t - m0_ns s), s, (mkSlot md (m0_ns s) t (m3_taken s)). split_and!; [done|done|unfold written; by rewrite Em|by cbn; rewrite lookup_insert_eq|].
  unfold written. cbn. by apply negb_true_iff, Z.eqb_neq.
Qed.

(** A sample is measured from the publication of its book, by a call of the run. *)
Definition measured (call : Z -> Z -> RecOp) (ops : list RecOp) (pubs : list Z) (l : list (Z * Z)) : Prop :=
  Forall (fun x => exists t m0, call x.1 t ∈ ops /\ pubs !! Z.to_nat (x.1 - 1) = Some m0 /\ x.2 = t - m0) l.

Lemma measured_grows call ops ops' pubs pubs' l :
  measured call ops pubs l -> ops ⊆ ops' -> pubs `prefix_of` pubs' -> measured call ops' pubs' l.
Proof.
  intros H Ho Hp. eapply Forall_impl; [exact H|]. intros x (t & m0 & Hin & Hl & E). exists t, m0. split_and!; [by apply Ho| |done].
  by eapply prefix_lookup_Some.
Qed.

Lemma offers_measured cap hs rs pubs op i :
  tallies cap hs rs pubs i -> measured Write [op] pubs (hand_off op i) /\ measured Echo [op] pubs (reaction op i).
Proof.
  intros H. unfold measured. destruct op as [m0|md t|md t|d]; cbn [hand_off reaction]; split; try done;
    destruct (lookup_ideal md i) as [s|] eqn:El; try done; apply lookup_table in El; case_match; try done;
    apply Forall_singleton; exists t, (m0_ns s); split_and!; [by left|by apply (ta_table _ _ _ _ _ H)|done|by left|by apply (ta_table _ _ _ _ _ H)|done].
Qed.

Record yields (cap : nat) (done : list RecOp) (hs rs : list (Z * Z)) (i : Ideal) : Prop := {
  yi_tallies : tallies cap hs rs (publications done) i;
  yi_reacted : spent m3_taken rs i;
  yi_handed : Forall clocked done -> spent written hs i;
  yi_from : measured Write done (publications done) hs /\ measured Echo done (publications done) rs;
}.

Lemma publications_app a b : publications (a ++ b) = publications a ++ publications b.
Proof. apply omap_app. Qed.

Lemma yields_exec cap past hs rs op i :
  yields cap past hs rs i -> yields cap (past ++ [op]) (hs ++ hand_off op i) (rs ++ reaction op i) (exec_ideal op i).
Proof.
  intros [Ht Hr Hh [Fh Fr]]. assert (forall x, is_Some (table i !! x) -> x <= last_md i) as Hle.
  { intros x [s Hs]. destruct (ta_table _ _ _ _ _ Ht x s Hs) as [? Hp]. apply lookup_lt_Some in Hp. rewrite (ta_last _ _ _ _ _ Ht). lia. }
  destruct (offers_measured _ _ _ _ op i Ht) as [Oh Or]. constructor.
  - rewrite publications_app. by apply tallies_exec.
  - by apply reaction_spent.
  - intros [Hp [Ho _]%Forall_cons]%Forall_app. apply hand_off_spent; [done|done|by apply Hh].
  - rewrite !publications_app. assert (past ⊆ past ++ [op] /\ [op] ⊆ past ++ [op]) as [S1 S2] by (split; intros x Hx; apply elem_of_app; auto).
    assert (publications past `prefix_of` publications past ++ publications [op]) as Pp by by eexists.
    split; apply Forall_app_2; by eapply measured_grows.
Qed.

Lemma yields_run cap past hs rs ops i :
  yields cap past hs rs i ->
  yields cap (past ++ ops) (hs ++ collect hand_off ops i) (rs ++ collect reaction ops i) (run_ideal ops i).
Proof.
  revert past hs rs i. induction ops as [|op ops IH]; intros past hs rs i H; cbn [collect run_ideal fold_left]; [by rewrite !app_nil_r|].
  specialize (IH _ _ _ _ (yields_exec _ _ _ _ op _ H)). by rewrite <- !app_assoc in IH.
Qed.

(** C25 The slot ring loses nothing the correlation window promises: over any run
    of the recorder its four streams and its count of refused samples are those
    of an unbounded table of published books consulted only for the last 65536
    of them.  The reaction stream is, up to its capacity, the samples of distinct
    books, each measured from that book's own publication to an order echoing
    it; so is the hand-off stream, when no hand-off reads a clock of zero, the
    value a slot keeps for a book not handed off. *)
Theorem recorder_refines_table cap ops r :
  new_recorder cap = Ret r ->
  let final := (run_rec ops (0, r)).2 in
  let handed := collect hand_off ops (mkIdeal 0 ∅ r) in
  let reacted := collect reaction ops (mkIdeal 0 ∅ r) in
  samples final = samples (ideal_rec (run_ideal ops (mkIdeal 0 ∅ r))) /\
  m0_m0p_ final = take cap (map snd handed) /\ m0_m3_ final = take cap (map snd reacted) /\
  measured Write ops (publications ops) handed /\ measured Echo ops (publications ops) reacted /\
  NoDup (map fst reacted) /\ (Forall clocked ops -> NoDup (map fst handed)).
Proof.
  intros Hr final handed reacted. unfold new_recorder in Hr. destruct (cap =? 0)%nat; [done|]. injection Hr as <-.
  set (i0 := mkIdeal 0 ∅ _) in *. assert (samples final = samples (ideal_rec (run_ideal ops i0))) as E by by apply recorder_simulates.
  assert (yields cap [] [] [] i0) as Y.
  { constructor; [constructor; cbn; rewrite ?take_nil; done| | |by split; constructor]; try intros _; (split; [constructor|by intros ? ?%not_elem_of_nil]). }
  destruct (yields_run cap [] [] [] ops i0 Y) as [Ht Hre Hha [Fh Fr]]. pose proof Ht as [_ Hh Hr _ _].
  unfold samples, streams in E. injection E as E1 E2 E3 E4 E5 E6.
  split; [unfold samples, streams; congruence|]. split; [by rewrite E2|]. split; [by rewrite E4|].
  split_and!; [exact Fh|exact Fr|apply Hre|]. intros Hc. by apply Hha.
Qed.

Lemma recorder_refines_table_witness :
  exists r, new_recorder 2 = Ret r /\
    samples (run_rec [Publish 5; Write 1 9; Echo 1 20; Echo 1 30; Service 3] (0, r)).2 =
      ([[3]; [4]; [11]; [15]], 0, 2%nat) /\
    NoDup (map fst (collect hand_off [Publish 5; Write 1 9; Echo 1 20; Echo 1 30; Service 3] (mkIdeal 0 ∅ r))).
Proof.
  eexists. split; [reflexivity|].
  destruct (recorder_refines_table 2 [Publish 5; Write 1 9; Echo 1 20; Echo 1 30; Service 3] (mkRecorder 2 ∅ [] [] [] [] 0))
    as (-> & _ & _ & _ & _ & _ & Hn); [reflexivity|].
  split; [vm_compute; reflexivity|]. apply Hn. repeat constructor. discriminate.
Defined.

(** A hand-off whose clock reads zero is taken for none, and the book yields two. *)
Example zero_clock_hands_off_twice :
  m0_m0p_ (run_rec [Publish 5; Write 1 0; Write 1 0] (0, mkRecorder 9 ∅ [] [] [] [] 0)).2 = [-5; -5].
Proof. vm_compute. reflexivity. Qed.

(** ** Reading a dump back *)

Definition signed (z : Z) : Z := if z <? two63 then z else z - two64.

(** [n] consecutive 64-bit words. *)
Fixpoint words (n : nat) (bs : bytes) : list Z :=
  match n with O => [] | S n' => le_value (take 8 bs) :: words n' (drop 8 bs) end.

Fixpoint parse_streams (counts : list Z) (bs : bytes) : option (list (list Z)) :=
  match counts with
  | [] => if bool_decide (bs = []) then Some [] else None
  | n :: counts' =>
      let len := Z.to_nat n in
      if (length bs <? 8 * len)%nat then None
      else l ← parse_streams counts' (drop (8 * len) bs); Some (map signed (words len bs) :: l)
  end.

(** The streams, the refused samples and the peak session count. *)
Definition parse_dump (bs : bytes) : option (list (list Z) * Z * Z) :=
  if (length bs <? 48)%nat then None
  else
    let h := words 6 bs in
    l ← parse_streams (take 4 h) (drop 48 bs); Some (l, nth 4 h 0, nth 5 h 0).

Lemma le_value_le64 z : le_value (le64 z) = u64 z.
Proof. unfold le64. rewrite le_value_bytes. unfold u64. apply Zmod_mod. Qed.

Lemma length_le64 z : length (le64 z) = 8%nat.
Proof. apply length_le_bytes. Qed.

Lemma words_app l rest : words (length l) (concat (map le64 l) ++ rest) = map u64 l.
Proof.
  induction l as [|z l IH]; [done|]. cbn [length map concat words]. rewrite <- app_assoc.
  pose proof (length_le64 z) as Hl.
  rewrite <- Hl at 1. rewrite take_app_length, le_value_le64. f_equal.
  rewrite <- Hl, drop_app_length. exact IH.
Qed.

Lemma length_words l : length (concat (map le64 l)) = (8 * length l)%nat.
Proof.
  induction l as [|z l IH]; [done|]. cbn [map concat length]. rewrite length_app, IH, length_le64. lia.
Qed.

Lemma signed_u64 z : is_i64 z -> signed (u64 z) = z.
Proof.
  intros [Hlo Hhi]. unfold signed, u64. destruct (Z.lt_ge_cases z 0).
  - rewrite <- (Z_mod_plus_full z 1), Z.mod_small by (unfold two63, two64 in *; lia).
    rewrite (proj2 (Z.ltb_ge _ _)); unfold two63, two64 in *; lia.
  - rewrite Z.mod_small by (unfold two63, two64 in *; lia). by rewrite (proj2 (Z.ltb_lt _ _)).
Qed.

Lemma parse_streams_app ls :
  Forall (Forall is_i64) ls ->
  parse_streams (map (fun l : list Z => Z.of_nat (length l)) ls) (concat (map (fun l => concat (map le64 l)) ls)) = Some ls.
Proof.
  induction 1 as [|l ls Hl _ IH]; [done|]. cbn [map concat parse_streams]. cbv zeta. rewrite Nat2Z.id.
  rewrite (proj2 (Nat.ltb_ge _ _)) by (rewrite length_app, length_words; lia).
  rewrite <- length_words, drop_app_length, IH. cbn [mbind option_bind]. rewrite words_app, map_map.
  f_equal. f_equal. rewrite <- (map_id l) at 2. apply map_ext_Forall.
  eapply Forall_impl; [exact Hl|]. intros z Hz. by apply signed_u64.
Qed.

(** C26 The shutdown dump is faithful: whoever follows the documented layout
    reads back the four streams, the refused samples and the peak session
    count. *)
Theorem dump_roundtrip r peak :
  Forall (Forall is_i64) (streams r) -> Forall (fun l : list Z => is_u64 (Z.of_nat (length l))) (streams r) ->
  is_u64 (saturated_ r) -> is_u64 peak ->
  parse_dump (serialize peak r) = Some (streams r, saturated_ r, peak).
Proof.
  intros Hi Hl Hs Hp. unfold parse_dump, serialize. cbv zeta.
  set (header := map (fun l : list Z => Z.of_nat (length l)) (streams r) ++ [saturated_ r; peak]).
  set (body := concat (map (fun l => concat (map le64 l)) (streams r))).
  assert (length header = 6%nat) as H6 by done.
  assert (length (concat (map le64 header)) = 48%nat) as H48 by (by rewrite length_words, H6).
  rewrite (proj2 (Nat.ltb_ge _ _)) by (rewrite length_app, H48; lia).
  rewrite <- H48 at 1. rewrite drop_app_length. rewrite <- H6, words_app.
  assert (map u64 header = header) as ->.
  { rewrite <- (map_id header) at 2. apply map_ext_Forall. unfold header. apply Forall_app. split.
    - rewrite List.Forall_map. eapply Forall_impl; [exact Hl|]. intros l ?. by apply u64_small.
    - constructor; [by apply u64_small|]. constructor; [by apply u64_small|constructor]. }
  unfold header. change (take 4 _) with (map (fun l : list Z => Z.of_nat (length l)) (streams r)).
  unfold body. rewrite parse_streams_app by done. reflexivity.
Qed.

Lemma dump_roundtrip_witness :
  let r := mkRecorder 4 ∅ [3; -1] [4] [] [15] 2 in
  parse_dump (serialize 7 r) = Some ([[3; -1]; [4]; []; [15]], 2, 7).
Proof.
  cbv zeta. apply (dump_roundtrip (mkRecorder 4 ∅ [3; -1] [4] [] [15] 2) 7).
  - repeat constructor; vm_compute; congruence.
  - repeat constructor; vm_compute; congruence.
  - split; vm_compute; congruence.
  - split; vm_compute; congruence.
Defined.
