(* ===== verification/TelemetryRing.v ===== *)
(** * The telemetry ring ([cpp/include/mm/telemetry_ring.hpp])

    [SpscTelemetryRing] as two threads of atomic steps.  Each index is an atomic
    location given by its modification order, the list of the values stored to
    it; a load by the other thread may return any value from the last one that
    thread has observed onwards, however stale, which is what coherence allows.
    A call is split at its atomic accesses and its slot access, and a schedule
    interleaves the two calls in any order. *)

From Stdlib Require Import ZArith Ascii String List Lia.
From stdpp Require Import base tactics list option strings gmap.
From S2P Require Import Prelude.

(** ** Records *)

Inductive TelemetryKind := KCounters | KEvent.
Inductive CountersPart := Totals | Watermarks.
Inductive TelemetryEvent :=
| SessionOpen | SessionClose | HwmClose | EvReject | CmdIn | TobOut | AdmissionRefused | EntryCapClose
| UpgradeRefused | EngineFault.

#[export] Instance TelemetryEvent_eq_dec : EqDecision TelemetryEvent. Proof. solve_decision. Defined.

Definition kind_code (k : TelemetryKind) : Z := match k with KCounters => 0 | KEvent => 1 end.
Definition part_code (p : CountersPart) : Z := match p with Totals => 0 | Watermarks => 1 end.
Definition event_code (e : TelemetryEvent) : Z :=
  match e with
  | SessionOpen => 0 | SessionClose => 1 | HwmClose => 2 | EvReject => 3 | CmdIn => 4 | TobOut => 5
  | AdmissionRefused => 6 | EntryCapClose => 7 | UpgradeRefused => 8 | EngineFault => 9
  end.

(** [to_string] on any value cast into the enum: unnamed ones are empty. *)
Definition event_name (code : Z) : string :=
  if code =? 0 then "session_open" else if code =? 1 then "session_close" else if code =? 2 then "hwm_close"
  else if code =? 3 then "reject" else if code =? 4 then "cmd_in" else if code =? 5 then "tob_out"
  else if code =? 6 then "admission_refused" else if code =? 7 then "entry_cap_close"
  else if code =? 8 then "upgrade_refused" else if code =? 9 then "engine_fault" else "".

Record TelemetryRecord := mkRec { ts_ns : Z; kind : Z; code : Z; args : list Z }.
#[export] Instance TelemetryRecord_eq_dec : EqDecision TelemetryRecord. Proof. solve_decision. Defined.

(** ** Construction *)

Definition kDefaultCapacity : Z := 4096.

(** [std::bit_ceil]; [SIZE_MAX] is [2^64 - 1]. *)
Definition bit_ceil (n : Z) : Z := 2 ^ Z.log2_up n.

Definition checked_capacity (min_capacity : Z) : outcome Z :=
  if min_capacity =? 0 then Throw (invalid_argument "SpscTelemetryRing: capacity must be > 0")
  else if (two64 - 1) / 2 + 1 <? min_capacity then
    Throw (invalid_argument "SpscTelemetryRing: capacity rounds past size_t")
  else Ret (bit_ceil min_capacity).

(** ** The two threads

    The messages are of any type: the shared-memory ring and the cached-head
    variant are related to the same system. *)

Section Spsc.
Context {A : Type}.

Inductive Producer :=
| PIdle
| PLoaded (rec : A) (tail : Z)
| PChecked (rec : A) (tail head : Z)
| PWritten (tail : Z).

Inductive Consumer :=
| CIdle
| CLoaded (head : Z)
| CChecked (head tail : Z)
| CRead (rec : A) (head : Z).

Record Ring := mkRing {
  cap : Z;
  head_mo : list Z;   (* modification orders, oldest first *)
  tail_mo : list Z;
  dropped_ : Z;
  slots_ : gmap Z A;
  producer : Producer;
  consumer : Consumer;
  p_seen : nat;       (* position in [head_mo] the producer has observed *)
  c_seen : nat;
  pushed : list A;   (* what [try_push] accepted, and refused *)
  refused : Z;
  popped : list A;   (* what [try_pop] returned *)
}.

Definition new_ring (min_capacity : Z) : outcome Ring :=
  match checked_capacity min_capacity with
  | Ret c => Ret (mkRing c [0] [0] 0 ∅ PIdle CIdle 0 0 [] 0 [])
  | Throw e => Throw e
  | UB => UB
  end.

Inductive Action :=
| PushCall (rec : A)   (* tail_.load(relaxed): its own index *)
| PushLoadHead (k : nat)             (* head_.load(acquire) *)
| PushDecide                         (* full: count the drop; else write the slot *)
| PushPublish                        (* tail_.store(release) *)
| PopCall                            (* head_.load(relaxed) *)
| PopLoadTail (k : nat)              (* tail_.load(acquire) *)
| PopRead                            (* empty: return; else read the slot *)
| PopRelease.                        (* head_.store(release) *)

Definition slot_index (i : Z) (r : Ring) : Z := Z.land i (cap r - 1).
Definition is_full (tail head : Z) (r : Ring) : bool := u64 (tail - head) =? cap r.

Definition set_producer p r := mkRing (cap r) (head_mo r) (tail_mo r) (dropped_ r) (slots_ r) p (consumer r)
  (p_seen r) (c_seen r) (pushed r) (refused r) (popped r).
Definition set_consumer c r := mkRing (cap r) (head_mo r) (tail_mo r) (dropped_ r) (slots_ r) (producer r) c
  (p_seen r) (c_seen r) (pushed r) (refused r) (popped r).

(** One atomic step of one thread; [None] when that thread is elsewhere. *)
Definition ring_step (a : Action) (r : Ring) : option Ring :=
  match a with
  | PushCall rec =>
      match producer r with
      | PIdle => Some (set_producer (PLoaded rec (List.last (tail_mo r) 0)) r)
      | _ => None
      end
  | PushLoadHead k =>
      match producer r with
      | PLoaded rec tail =>
          if (k <? p_seen r)%nat then None
          else
            head ← head_mo r !! k;
            Some (mkRing (cap r) (head_mo r) (tail_mo r) (dropped_ r) (slots_ r) (PChecked rec tail head)
                    (consumer r) k (c_seen r) (pushed r) (refused r) (popped r))
      | _ => None
      end
  | PushDecide =>
      match producer r with
      | PChecked rec tail head =>
          Some (if is_full tail head r then
                  mkRing (cap r) (head_mo r) (tail_mo r) (u64 (dropped_ r + 1)) (slots_ r) PIdle (consumer r)
                    (p_seen r) (c_seen r) (pushed r) (refused r + 1) (popped r)
                else
                  mkRing (cap r) (head_mo r) (tail_mo r) (dropped_ r) (<[slot_index tail r := rec]> (slots_ r))
                    (PWritten tail) (consumer r) (p_seen r) (c_seen r) (pushed r ++ [rec]) (refused r) (popped r))
      | _ => None
      end
  | PushPublish =>
      match producer r with
      | PWritten tail =>
          Some (mkRing (cap r) (head_mo r) (tail_mo r ++ [u64 (tail + 1)]) (dropped_ r) (slots_ r) PIdle
                  (consumer r) (p_seen r) (c_seen r) (pushed r) (refused r) (popped r))
      | _ => None
      end
  | PopCall =>
      match consumer r with
      | CIdle => Some (set_consumer (CLoaded (List.last (head_mo r) 0)) r)
      | _ => None
      end
  | PopLoadTail k =>
      match consumer r with
      | CLoaded head =>
          if (k <? c_seen r)%nat then None
          else
            tail ← tail_mo r !! k;
            Some (mkRing (cap r) (head_mo r) (tail_mo r) (dropped_ r) (slots_ r) (producer r)
                    (CChecked head tail) (p_seen r) k (pushed r) (refused r) (popped r))
      | _ => None
      end
  | PopRead =>
      match consumer r with
      | CChecked head tail =>
          if tail =? head then Some (set_consumer CIdle r)
          else rec ← slots_ r !! slot_index head r; Some (set_consumer (CRead rec head) r)
      | _ => None
      end
  | PopRelease =>
      match consumer r with
      | CRead rec head =>
          Some (mkRing (cap r) (head_mo r ++ [u64 (head + 1)]) (tail_mo r) (dropped_ r) (slots_ r) (producer r)
                  CIdle (p_seen r) (c_seen r) (pushed r) (refused r) (popped r ++ [rec]))
      | _ => None
      end
  end.

Fixpoint ring_run (acts : list Action) (r : Ring) : option Ring :=
  match acts with [] => Some r | a :: acts' => r' ← ring_step a r; ring_run acts' r' end.

(** [pending()], with the position each load observes. *)
Definition pending (kh kt : nat) (r : Ring) : option Z :=
  head ← head_mo r !! kh; tail ← tail_mo r !! kt; Some (u64 (tail - head)).

(** ** The invariant

    Ghost counts: [np] publications, [nh] releases; the stored values are these
    counts modulo 2^64, so that the wrap-around of the indices is covered. *)

Definition counts (n : nat) : list Z := map (fun i => u64 (Z.of_nat i)) (seq 0 (S n)).

Record ring_inv (np nh : nat) (r : Ring) : Prop := {
  ri_pow : exists k, 0 <= k <= 63 /\ cap r = 2 ^ k;
  ri_tail : tail_mo r = counts np;
  ri_head : head_mo r = counts nh;
  ri_seen : (p_seen r <= nh)%nat /\ (nh <= c_seen r <= np)%nat;
  ri_order : Z.of_nat np - Z.of_nat (p_seen r) <= cap r;
  ri_popped : length (popped r) = nh /\ popped r = take nh (pushed r);
  ri_slots : forall j, (nh <= j < length (pushed r))%nat ->
    slots_ r !! (Z.of_nat j mod cap r) = pushed r !! j;
  ri_dropped : dropped_ r = u64 (refused r);
  ri_producer :
    match producer r with
    | PIdle => length (pushed r) = np
    | PLoaded _ tail => length (pushed r) = np /\ tail = u64 (Z.of_nat np)
    | PChecked _ tail head => length (pushed r) = np /\ tail = u64 (Z.of_nat np) /\ head = u64 (Z.of_nat (p_seen r))
    | PWritten tail => length (pushed r) = S np /\ tail = u64 (Z.of_nat np) /\
        Z.of_nat np - Z.of_nat (p_seen r) < cap r
    end;
  ri_consumer :
    match consumer r with
    | CIdle => True
    | CLoaded head => head = u64 (Z.of_nat nh)
    | CChecked head tail => head = u64 (Z.of_nat nh) /\ tail = u64 (Z.of_nat (c_seen r))
    | CRead rec head => head = u64 (Z.of_nat nh) /\ (nh < c_seen r)%nat /\ pushed r !! nh = Some rec
    end;
}.

(** ** Arithmetic of the indices *)

Lemma counts_last n : List.last (counts n) 0 = u64 (Z.of_nat n).
Proof.
  unfold counts. rewrite seq_S, map_app. cbn [map]. rewrite List.last_last. by rewrite Nat.add_0_l.
Qed.

Lemma counts_lookup n k x : counts n !! k = Some x -> (k <= n)%nat /\ x = u64 (Z.of_nat k).
Proof.
  unfold counts. intros H. apply list_lookup_fmap_Some in H as (i & -> & Hi).
  apply lookup_seq in Hi as [-> Hi]. split; [lia|done].
Qed.

Lemma counts_lookup_le n k : (k <= n)%nat -> counts n !! k = Some (u64 (Z.of_nat k)).
Proof.
  intros H. unfold counts. apply list_lookup_fmap_Some. exists k. split; [done|]. apply lookup_seq. lia.
Qed.

Lemma counts_snoc n : counts n ++ [u64 (Z.of_nat (S n))] = counts (S n).
Proof. unfold counts at 2. rewrite seq_S, map_app. reflexivity. Qed.

Lemma u64_succ n : u64 (u64 (Z.of_nat n) + 1) = u64 (Z.of_nat (S n)).
Proof. rewrite u64_add_l. f_equal. lia. Qed.

Section Invariant.
Context {np nh : nat} {r : Ring} (I : ring_inv np nh r).

Lemma inv_cap : exists k, 0 <= k <= 63 /\ cap r = 2 ^ k /\ 1 <= cap r /\ cap r <= two63.
Proof.
  destruct (ri_pow _ _ _ I) as (k & Hk & ->). exists k. split; [done|]. split; [done|].
  pose proof (Z.pow_le_mono_r 2 0 k). pose proof (Z.pow_le_mono_r 2 k 63). unfold two63. lia.
Qed.

Lemma inv_order : (nh <= np)%nat /\ Z.of_nat np - Z.of_nat nh <= cap r.
Proof. pose proof (ri_seen _ _ _ I). pose proof (ri_order _ _ _ I). lia. Qed.

Lemma slot_index_mod n : slot_index (u64 n) r = n mod cap r.
Proof.
  unfold slot_index. destruct inv_cap as (k & Hk & -> & _). apply u64_mask. lia.
Qed.

Lemma full_iff : is_full (u64 (Z.of_nat np)) (u64 (Z.of_nat (p_seen r))) r = true <->
  Z.of_nat np - Z.of_nat (p_seen r) = cap r.
Proof.
  unfold is_full. destruct inv_cap as (k & _ & _ & Hc). pose proof (ri_seen _ _ _ I). pose proof (ri_order _ _ _ I).
  rewrite u64_diff by (unfold two63, two64 in *; lia). by rewrite Z.eqb_eq.
Qed.

(** Records not yet consumed occupy different slots. *)
Lemma slot_distinct i j :
  Z.of_nat i - Z.of_nat j < cap r -> (j < i)%nat -> Z.of_nat i mod cap r <> Z.of_nat j mod cap r.
Proof.
  intros Hd Hlt E. destruct inv_cap as (k & _ & _ & Hc).
  assert ((Z.of_nat i - Z.of_nat j) mod cap r = 0) as E0 by (rewrite Zminus_mod, E, Z.sub_diag; apply Z.mod_0_l; lia).
  rewrite Z.mod_small in E0 by lia. lia.
Qed.
End Invariant.

Lemma inv_init n r : new_ring n = Ret r -> 0 < n -> ring_inv 0 0 r /\ n <= cap r.
Proof.
  unfold new_ring, checked_capacity. intros H Hn. rewrite (proj2 (Z.eqb_neq n 0)) in H by lia.
  destruct (Z.ltb_spec ((two64 - 1) / 2 + 1) n); [done|]. simplify_eq. change ((two64 - 1) / 2 + 1) with (2 ^ 63) in *.
  assert (n <= bit_ceil n) as Hc.
  { unfold bit_ceil. destruct (decide (n = 1)) as [->|]; [done|]. apply Z.log2_up_spec. lia. }
  split; [|done]. constructor; cbn; try done; try lia.
  exists (Z.log2_up n). split; [|done]. split; [apply Z.log2_up_nonneg|]. apply Z.log2_up_le_pow2; lia.
Qed.

(** ** Every step of either thread preserves the invariant *)

Ltac ring_solve I := constructor; cbn [cap head_mo tail_mo dropped_ slots_ producer consumer p_seen c_seen pushed refused
  popped set_producer set_consumer]; try exact (ri_pow _ _ _ I); try exact (ri_tail _ _ _ I); try exact (ri_head _ _ _ I);
  try exact (ri_popped _ _ _ I); try exact (ri_slots _ _ _ I); try exact (ri_dropped _ _ _ I);
  try exact (ri_producer _ _ _ I); try exact (ri_consumer _ _ _ I);
  try (pose proof (ri_seen _ _ _ I); pose proof (ri_order _ _ _ I); lia); try done.

Lemma publish_step np nh r r' :
  ring_inv np nh r -> ring_step PushPublish r = Some r' -> ring_inv (S np) nh r' /\ cap r' = cap r.
Proof.
  intros I H. pose proof (ri_producer _ _ _ I) as Hp. cbn [ring_step] in H.
  destruct (producer r) as [|rec tail|rec tail head|tail] eqn:Ep; try done. injection H as <-. destruct Hp as (Hl & -> & Hlt).
  split; [|done]. ring_solve I; try done. rewrite (ri_tail _ _ _ I), u64_succ. apply counts_snoc.
Qed.

Lemma decide_step np nh r r' :
  ring_inv np nh r -> ring_step PushDecide r = Some r' -> ring_inv np nh r' /\ cap r' = cap r.
Proof.
  intros I H. pose proof (ri_producer _ _ _ I) as Hp. pose proof (ri_seen _ _ _ I) as Hs. cbn [ring_step] in H.
  destruct (producer r) as [|rec tail|rec tail head|tail] eqn:Ep; try done. destruct Hp as (Hl & -> & ->). injection H as <-.
  destruct (is_full _ _ _) eqn:Ef; (split; [|done]).
  - ring_solve I; try done. rewrite (ri_dropped _ _ _ I). apply u64_add_l.
  - assert (Z.of_nat np - Z.of_nat (p_seen r) < cap r) as Hlt.
    { pose proof (ri_order _ _ _ I). destruct (Z.eq_dec (Z.of_nat np - Z.of_nat (p_seen r)) (cap r)) as [E|]; [|lia].
      apply (full_iff I) in E. congruence. }
    ring_solve I.
    + destruct (ri_popped _ _ _ I) as [? ?]. split; [done|]. by rewrite take_app_le by lia.
    + intros j. rewrite length_app. cbn. intros Hj. rewrite (slot_index_mod I). destruct (decide (j = np)) as [->|Hne].
      * rewrite lookup_insert_eq. by rewrite list_lookup_middle.
      * rewrite lookup_insert_ne by (apply (slot_distinct I); lia). rewrite lookup_app_l by lia.
        apply (ri_slots _ _ _ I). lia.
    + rewrite length_app. cbn. split_and!; [lia|done|done].
    + pose proof (ri_consumer _ _ _ I) as Hc. destruct (consumer r); try done.
      destruct Hc as (? & ? & ?). split_and!; [done|done|]. by apply lookup_app_l_Some.
Qed.

Lemma push_load_step np nh r r' a :
  ring_inv np nh r -> (exists rec, a = PushCall rec) \/ (exists k, a = PushLoadHead k) ->
  ring_step a r = Some r' -> ring_inv np nh r' /\ cap r' = cap r.
Proof.
  intros I Ha H. pose proof (ri_producer _ _ _ I) as Hp. destruct Ha as [[rec ->]|[k ->]]; cbn [ring_step] in H.
  - destruct (producer r) eqn:Ep; try done. injection H as <-. split; [|done]. ring_solve I.
    split; [done|]. rewrite (ri_tail _ _ _ I). apply counts_last.
  - destruct (producer r) as [|rec tail|rec tail head|tail] eqn:Ep; try done. destruct Hp as (Hl & ->).
    destruct (Nat.ltb_spec k (p_seen r)); [done|]. destruct (head_mo r !! k) as [head|] eqn:Eh; [|done].
    cbn in H. injection H as <-. rewrite (ri_head _ _ _ I) in Eh. apply counts_lookup in Eh as [Hk ->].
    split; [|done]. by ring_solve I.
Qed.

Lemma release_step np nh r r' :
  ring_inv np nh r -> ring_step PopRelease r = Some r' -> ring_inv np (S nh) r' /\ cap r' = cap r.
Proof.
  intros I H. pose proof (ri_consumer _ _ _ I) as Hc. pose proof (ri_seen _ _ _ I) as Hs. cbn [ring_step] in H.
  destruct (consumer r) as [|head|head tail|rec head] eqn:Ec; try done. injection H as <-. destruct Hc as (-> & Hlt & Hr).
  split; [|done]. ring_solve I.
  - rewrite (ri_head _ _ _ I), u64_succ. apply counts_snoc.
  - destruct (ri_popped _ _ _ I) as [Hl Hp]. rewrite length_app, Hl. cbn. split; [lia|].
    rewrite Hp. symmetry. by apply take_S_r.
  - intros j Hj. apply (ri_slots _ _ _ I). lia.
Qed.

Lemma pop_step np nh r r' a :
  ring_inv np nh r -> a = PopCall \/ a = PopRead \/ (exists k, a = PopLoadTail k) ->
  ring_step a r = Some r' -> ring_inv np nh r' /\ cap r' = cap r.
Proof.
  intros I Ha H. pose proof (ri_consumer _ _ _ I) as Hc. pose proof (ri_seen _ _ _ I) as Hs.
  pose proof (inv_order I) as [_ Ho]. destruct Ha as [->|[->|[k ->]]]; cbn [ring_step] in H.
  - destruct (consumer r); try done. injection H as <-. split; [|done]. ring_solve I. rewrite (ri_head _ _ _ I). apply counts_last.
  - destruct (consumer r) as [|head|head tail|rec head]; try done. destruct Hc as (-> & ->).
    destruct (Z.eqb_spec (u64 (Z.of_nat (c_seen r))) (u64 (Z.of_nat nh))) as [|Hne]; [injection H as <-; split; [|done]; by ring_solve I|].
    destruct (slots_ r !! _) as [rec|] eqn:Es; [|done]. cbn in H. injection H as <-. split; [|done]. ring_solve I.
    assert (nh < c_seen r)%nat by (destruct (decide (nh = c_seen r)); [congruence|lia]).
    split_and!; [done|done|]. rewrite (slot_index_mod I) in Es. rewrite <- Es. symmetry. apply (ri_slots _ _ _ I).
    pose proof (ri_producer _ _ _ I) as Hp. destruct (producer r); lia.
  - destruct (consumer r) as [|head|head tail|rec head]; try done. destruct (Nat.ltb_spec k (c_seen r)); [done|].
    destruct (tail_mo r !! k) as [tail|] eqn:Et; [|done]. cbn in H. injection H as <-. rewrite (ri_tail _ _ _ I) in Et.
    apply counts_lookup in Et as [Hk ->]. split; [|done]. by ring_solve I.
Qed.

Lemma ring_step_inv np nh r a r' :
  ring_inv np nh r -> ring_step a r = Some r' -> exists np' nh', ring_inv np' nh' r' /\ cap r' = cap r.
Proof.
  intros I H. destruct a.
  - exists np, nh. eapply push_load_step; [exact I|by left; eexists|exact H].
  - exists np, nh. eapply push_load_step; [exact I|by right; eexists|exact H].
  - exists np, nh. by eapply decide_step.
  - exists (S np), nh. by eapply publish_step.
  - exists np, nh. eapply pop_step; [exact I|by left|exact H].
  - exists np, nh. eapply pop_step; [exact I|by right; right; eexists|exact H].
  - exists np, nh. eapply pop_step; [exact I|by right; left|exact H].
  - exists np, (S nh). by eapply release_step.
Qed.

Lemma ring_run_inv acts np nh r r' :
  ring_inv np nh r -> ring_run acts r = Some r' -> exists np' nh', ring_inv np' nh' r' /\ cap r' = cap r.
Proof.
  revert np nh r. induction acts as [|a acts IH]; intros np nh r I H; cbn in H; [simplify_eq; eauto|].
  destruct (ring_step a r) as [r1|] eqn:E; [|done]. cbn in H.
  destruct (ring_step_inv _ _ _ _ _ I E) as (np1 & nh1 & I1 & <-). eapply IH; [exact I1|exact H].
Qed.

(** A schedule of the two threads from a fresh ring of at least [n] slots. *)
Definition reaches (n : Z) (r : Ring) : Prop :=
  exists acts r0, 0 < n /\ new_ring n = Ret r0 /\ ring_run acts r0 = Some r.

Lemma reaches_inv n r : reaches n r -> exists np nh, ring_inv np nh r /\ n <= cap r.
Proof.
  intros (acts & r0 & Hn & Hr0 & Hrun). destruct (inv_init _ _ Hr0 Hn) as [I Hc].
  destruct (ring_run_inv _ _ _ _ _ I Hrun) as (np & nh & I' & E). exists np, nh. rewrite E. done.
Qed.

(** What a load of an index says, whichever position it observed. *)
Section Decisions.
Context {np nh : nat} {r : Ring} (I : ring_inv np nh r).

Lemma pushed_bounds : Z.of_nat (length (pushed r)) - Z.of_nat (p_seen r) <= cap r /\ (nh <= length (pushed r))%nat.
Proof.
  pose proof (ri_producer _ _ _ I) as Hp. pose proof (ri_seen _ _ _ I). pose proof (ri_order _ _ _ I).
  destruct (producer r); lia.
Qed.

Lemma refused_iff rec tail head : producer r = PChecked rec tail head ->
  u64 (tail - head) = Z.of_nat (length (pushed r)) - Z.of_nat (p_seen r).
Proof.
  intros Ep. pose proof (ri_producer _ _ _ I) as Hp. rewrite Ep in Hp. destruct Hp as (-> & -> & ->).
  pose proof (ri_seen _ _ _ I). pose proof (ri_order _ _ _ I). destruct (inv_cap I) as (_ & _ & _ & _ & Hc).
  apply u64_diff. unfold two63, two64 in *. lia.
Qed.

Lemma empty_iff head tail : consumer r = CChecked head tail -> tail = head <-> c_seen r = length (popped r).
Proof.
  intros Ec. pose proof (ri_consumer _ _ _ I) as Hc. rewrite Ec in Hc. destruct Hc as (-> & ->).
  rewrite (proj1 (ri_popped _ _ _ I)). pose proof (ri_seen _ _ _ I). pose proof (ri_order _ _ _ I).
  destruct (inv_cap I) as (_ & _ & _ & _ & Hcap). split; [intros E|by intros ->].
  assert (u64 (u64 (Z.of_nat (c_seen r)) - u64 (Z.of_nat nh)) = 0) as E0 by (by rewrite E, Z.sub_diag).
  rewrite u64_diff in E0 by (unfold two63, two64 in *; lia). lia.
Qed.

(** The slot of a record the consumer knows to be published is filled. *)
Lemma read_ready head tail : consumer r = CChecked head tail -> tail <> head ->
  exists rec, slots_ r !! slot_index head r = Some rec /\ pushed r !! nh = Some rec.
Proof.
  intros Ec Hne. pose proof (ri_consumer _ _ _ I) as Hc. rewrite Ec in Hc. destruct Hc as (-> & ->).
  assert (nh < c_seen r)%nat by (pose proof (ri_seen _ _ _ I); destruct (decide (nh = c_seen r)); [congruence|lia]).
  pose proof (ri_producer _ _ _ I) as Hpr. pose proof (ri_seen _ _ _ I) as Hs.
  rewrite (slot_index_mod I), (ri_slots _ _ _ I) by (destruct (producer r); lia).
  destruct (lookup_lt_is_Some_2 (pushed r) nh) as [rec ->]; [destruct (producer r); lia|]. eauto.
Qed.

(** The slot about to be written is never the slot about to be read. *)
Lemma slots_apart rec tail head head' tail' :
  producer r = PChecked rec tail head -> is_full tail head r = false ->
  consumer r = CChecked head' tail' -> tail' <> head' -> slot_index tail r <> slot_index head' r.
Proof.
  intros Ep Hf Ec Hne. pose proof (refused_iff _ _ _ Ep) as Eu. unfold is_full in Hf. rewrite Eu in Hf. apply Z.eqb_neq in Hf.
  pose proof pushed_bounds as [Hb _]. pose proof (ri_producer _ _ _ I) as Hp. rewrite Ep in Hp. destruct Hp as (Hl & -> & _).
  destruct (empty_iff _ _ Ec) as [_ He]. pose proof (ri_consumer _ _ _ I) as Hc. rewrite Ec in Hc. destruct Hc as (-> & _).
  pose proof (ri_seen _ _ _ I). rewrite (proj1 (ri_popped _ _ _ I)) in He.
  assert (nh <> c_seen r) by (intros E; apply Hne, He; by symmetry).
  rewrite !(slot_index_mod I). apply (slot_distinct I); lia.
Qed.
End Decisions.

(** C27 Under every interleaving of the producer's and the consumer's steps, and
    however stale the indices they load, the consumer receives the accepted
    records in order, none lost, duplicated or torn; at most a capacity of them
    is outstanding, every refused push is counted, and the read of a slot never
    finds it empty. *)
Theorem ring_fifo n r :
  reaches n r ->
  popped r = take (length (popped r)) (pushed r) /\
  Z.of_nat (length (pushed r)) - Z.of_nat (length (popped r)) <= cap r /\
  n <= cap r /\ dropped_ r = u64 (refused r) /\
  (forall head tail, consumer r = CChecked head tail -> exists r', ring_step PopRead r = Some r').
Proof.
  intros (np & nh & I & Hn)%reaches_inv. destruct (ri_popped _ _ _ I) as [Hl Hp].
  pose proof (pushed_bounds I) as [Hb _]. pose proof (ri_seen _ _ _ I) as Hs.
  split_and!; [by rewrite Hl|lia|done|apply (ri_dropped _ _ _ I)|].
  intros head tail Ec. cbn [ring_step]. rewrite Ec. destruct (Z.eqb_spec tail head) as [|Hne]; [eauto|].
  destruct (read_ready I _ _ Ec Hne) as (rec & -> & _). cbn. eauto.
Qed.

(** C28 The slot accesses never race: when the producer is about to write a slot
    and the consumer to read one, the slots differ; the producer has observed
    the release of the record it overwrites, and the consumer the publication
    of the record it reads. *)
Theorem ring_race_free n r rec tail head :
  reaches n r -> producer r = PChecked rec tail head -> is_full tail head r = false ->
  Z.of_nat (length (pushed r)) - cap r < Z.of_nat (p_seen r) /\
  forall head' tail', consumer r = CChecked head' tail' -> tail' <> head' ->
    slot_index tail r <> slot_index head' r /\ (length (popped r) < c_seen r)%nat.
Proof.
  intros (np & nh & I & _)%reaches_inv Ep Hf. pose proof (pushed_bounds I) as [Hb _]. split.
  - pose proof (refused_iff I _ _ _ Ep) as Eu. unfold is_full in Hf. rewrite Eu in Hf. apply Z.eqb_neq in Hf. lia.
  - intros head' tail' Ec Hne. split; [exact (slots_apart I _ _ _ _ _ Ep Hf Ec Hne)|].
    destruct (empty_iff I _ _ Ec) as [_ He]. pose proof (ri_seen _ _ _ I). rewrite (proj1 (ri_popped _ _ _ I)) in *.
    destruct (decide (c_seen r = nh)) as [E|]; [by destruct (Hne (He E))|lia].
Qed.

(** [pending()] never underflows: read by the consumer it is at most the
    records it can still pop, and exactly the published ones when its load of
    the tail is the newest; read by the producer it is at least that many and at
    most the capacity. *)
Theorem ring_pending_bounds n r :
  reaches n r ->
  let published := Z.of_nat (length (tail_mo r)) - Z.of_nat (length (head_mo r)) in
  0 <= published <= cap r /\
  (forall kt p, (c_seen r <= kt)%nat -> pending (length (popped r)) kt r = Some p ->
     0 <= p <= published /\ (S kt = length (tail_mo r) -> p = published)) /\
  (forall kh p, (p_seen r <= kh)%nat -> pending kh (length (tail_mo r) - 1) r = Some p -> published <= p <= cap r).
Proof.
  intros (np & nh & I & _)%reaches_inv. pose proof (ri_seen _ _ _ I) as Hs. pose proof (ri_order _ _ _ I) as Ho.
  destruct (inv_cap I) as (_ & _ & _ & _ & Hc). unfold pending. rewrite (ri_tail _ _ _ I), (ri_head _ _ _ I).
  assert (forall m, length (counts m) = S m) as Hlen by (intros; unfold counts; by rewrite length_map, length_seq).
  rewrite !Hlen, (proj1 (ri_popped _ _ _ I)). cbv zeta. split; [lia|]. split.
  - intros kt p Hk. rewrite (counts_lookup_le nh nh) by done. cbn [mbind option_bind].
    destruct (counts np !! kt) as [t|] eqn:E; [|done]. apply counts_lookup in E as [Hle ->]. cbn [mbind option_bind].
    intros [= <-]. rewrite u64_diff by (unfold two63, two64 in *; lia). lia.
  - intros kh p Hk. destruct (counts nh !! kh) as [h|] eqn:E; [|done]. apply counts_lookup in E as [Hle ->].
    cbn [mbind option_bind]. replace (S np - 1)%nat with np by lia. rewrite counts_lookup_le by done. cbn [mbind option_bind].
    intros [= <-]. rewrite u64_diff by (unfold two63, two64 in *; lia). lia.
Qed.
End Spsc.
Arguments Ring : clear implicits.
Arguments Producer : clear implicits.
Arguments Consumer : clear implicits.
Arguments Action : clear implicits.

(** ** A schedule *)

Definition demo_rec (n : Z) : TelemetryRecord := mkRec n 1 0 [n; 0].
(** Two pushes fill a ring of two, a third is refused on a stale head, and the
    consumer takes the first record meanwhile. *)
Definition demo_acts : list (Action TelemetryRecord) :=
  [PushCall (demo_rec 1); PushLoadHead 0; PushDecide; PushPublish; PushCall (demo_rec 2); PopCall; PushLoadHead 0;
   PopLoadTail 1; PushDecide; PopRead; PushPublish; PushCall (demo_rec 3); PopRelease; PushLoadHead 0; PushDecide;
   PopCall; PopLoadTail 2; PushCall (demo_rec 4); PushLoadHead 1].
Definition demo_ring : option (Ring TelemetryRecord) :=
  match new_ring 2 with Ret r => ring_run demo_acts r | _ => None end.

Lemma demo_reaches : exists r, demo_ring = Some r /\ reaches 2 r.
Proof.
  destruct demo_ring as [r|] eqn:E; [|by vm_compute in E]. exists r. split; [done|]. unfold demo_ring in E.
  exists demo_acts. destruct (new_ring 2) as [r0| |] eqn:E0; [|done|done]. by exists r0.
Qed.

Lemma ring_fifo_witness :
  exists r, demo_ring = Some r /\ popped r = [demo_rec 1] /\ popped r = take (length (popped r)) (pushed r) /\ refused r = 1.
Proof.
  destruct demo_reaches as (r & E & H). exists r. pose proof (ring_fifo 2 r H) as (Hp & _).
  vm_compute in E. simplify_eq. exact (conj eq_refl (conj eq_refl (conj Hp eq_refl))).
Defined.

Lemma ring_race_free_witness :
  exists r, demo_ring = Some r /\ forall head' tail', consumer r = CChecked head' tail' -> tail' <> head' ->
    slot_index 2 r <> slot_index head' r.
Proof.
  destruct demo_reaches as (r & E & H). exists r.
  assert (producer r = PChecked (demo_rec 4) 2 1 /\ is_full 2 1 r = false) as [Hp Hf].
  { vm_compute in E. simplify_eq. split; reflexivity. }
  pose proof (proj2 (ring_race_free 2 r _ _ _ H Hp Hf)) as Hr. split; [exact E|]. intros h t Hc Hn. by apply (Hr h t).
Defined.

Lemma ring_pending_bounds_witness :
  exists r, demo_ring = Some r /\ pending 1 2 r = Some 1 /\ 0 <= Z.of_nat (length (tail_mo r)) - Z.of_nat (length (head_mo r)) <= cap r.
Proof.
  destruct demo_reaches as (r & E & H). exists r. pose proof (proj1 (ring_pending_bounds 2 r H)) as Hb.
  vm_compute in E. simplify_eq. exact (conj eq_refl (conj eq_refl Hb)).
Defined.
