(* ===== verification/Telemetry.v ===== *)
(** * Counters and the telemetry writer ([cpp/include/mm/telemetry.hpp])

    The writer's thread pass by pass: the producer publishes records into the FIFO
    that [TelemetryRing] proves the ring to be, and a flush may fail, which is the
    stream's sticky state.  [WriterThread] has the mutex, the condition variable
    and the interleaving, and shows that every run of the threads is one of these
    sequences of passes. *)

From Stdlib Require Import ZArith Ascii String List Lia.
From stdpp Require Import base tactics list option strings gmap.
From S2P Require Import Prelude Utf8 Preflight Codec TelemetryRing.

(** ** Counters and their ring form *)

Record Counters := mkCounters {
  ct_orders : Z; ct_fills : Z; ct_rejects : Z; ct_cancels : Z; ct_conflated : Z; outbox_depth_hw : Z;
  send_lag_max_ns : Z; ct_sessions : Z; telemetry_pending_hw : Z; ct_live_orders : Z; ct_stale_books_ignored : Z }.

Definition zero_counters : Counters := mkCounters 0 0 0 0 0 0 0 0 0 0 0.

(** Missing lanes of an aggregate initialiser are zero. *)
Definition lanes (l : list Z) : list Z := take 6 (l ++ replicate 6 0).

Definition snapshot_records (c : Counters) (ts : Z) : list TelemetryRecord :=
  [ mkRec ts (kind_code KCounters) (part_code Totals)
      (lanes [ct_orders c; ct_fills c; ct_rejects c; ct_cancels c; ct_conflated c; ct_sessions c]);
    mkRec ts (kind_code KCounters) (part_code Watermarks)
      (lanes [outbox_depth_hw c; send_lag_max_ns c; ct_stale_books_ignored c; telemetry_pending_hw c;
              ct_live_orders c]) ].

Definition event_record (event : TelemetryEvent) (ts a0 a1 : Z) : TelemetryRecord :=
  mkRec ts (kind_code KEvent) (event_code event) (lanes [a0; a1]).

(** ** Lines *)

(** A raw string literal of the source, an apostrophe standing for each double
    quote. *)
Definition lit (s : string) : bytes := map (fun c => if Ascii.eqb c "'" then c_dquote else c) (text s).

Definition lane (rec : TelemetryRecord) (i : nat) : Z := nth i (args rec) 0.

(** [<< R"(,"key":)" << value] *)
Definition put_num (key : string) (v : Z) (out : bytes) : bytes :=
  out ++ lit ",'" ++ text key ++ lit "':" ++ dec_bytes v.

Fixpoint emit_lane_list (first : bool) (l : list Z) (out : bytes) : bytes :=
  match l with
  | [] => out
  | v :: l' => emit_lane_list false l' (out ++ (if first then [] else [","%char]) ++ dec_bytes v)
  end.
Definition emit_lanes (rec : TelemetryRecord) (out : bytes) : bytes :=
  emit_lane_list true (args rec) (out ++ lit ",'args':[") ++ ["]"%char].

(** [dropped] is the ring's own count at emit time. *)
Definition emit_line (rec : TelemetryRecord) (dropped : Z) : bytes :=
  let out := lit "{'ts':" ++ dec_bytes (ts_ns rec) in
  let out :=
    if (kind rec =? kind_code KCounters) && (code rec =? part_code Totals) then
      put_num "telemetry_dropped" dropped (put_num "sessions" (lane rec 5) (put_num "conflated" (lane rec 4)
        (put_num "cancels" (lane rec 3) (put_num "rejects" (lane rec 2) (put_num "fills" (lane rec 1)
        (put_num "orders" (lane rec 0) out))))))
    else if (kind rec =? kind_code KCounters) && (code rec =? part_code Watermarks) then
      put_num "live_orders" (lane rec 4) (put_num "telemetry_pending_hw" (lane rec 3)
        (put_num "stale_books_ignored" (lane rec 2) (put_num "send_lag_max_ns" (lane rec 1)
        (put_num "outbox_depth_hw" (lane rec 0) out))))
    else if (kind rec =? kind_code KEvent) && negb (String.eqb (event_name (code rec)) "") then
      emit_lanes rec (out ++ lit ",'event':'" ++ text (event_name (code rec)) ++ lit "'")
    else emit_lanes rec (put_num "code" (code rec) (put_num "kind" (kind rec) out)) in
  out ++ lit "}" ++ [chr 10].

Definition emit_open_line (ts wall ring_capacity poll_ms dropped : Z) : bytes :=
  put_num "dropped_at_open" dropped (put_num "poll_ms" poll_ms (put_num "ring_capacity" ring_capacity
    (put_num "wall_ns" wall (lit "{'ts':" ++ dec_bytes ts)))) ++ lit "}" ++ [chr 10].
Definition emit_close_line (ts pending_left dropped : Z) (stream_ok : bool) : bytes :=
  put_num "dropped" dropped (put_num "pending_left" pending_left (lit "{'ts':" ++ dec_bytes ts)) ++
  lit ",'stream_ok':" ++ text (if stream_ok then "true" else "false") ++ lit "}" ++ [chr 10].

(** ** The writer *)

Record Writer := mkWriter {
  queue : list TelemetryRecord;      (* published in the ring, not yet popped *)
  out_lines : list bytes;            (* what was formatted into the stream *)
  stream_fail : bool;                (* out_.fail(): sticky *)
  output_failed_ : bool;
  failure_site_ : string;
  lost_lines_ : Z;
}.

Definition kDefaultPoll : Z := 10.

Definition checked_poll (poll : Z) : outcome Z :=
  if poll <=? 0 then Throw (invalid_argument "TelemetryWriter: poll interval must be > 0ms") else Ret poll.

(** [poll_] is validated before the truncating open; [marker_ok] is the fate of
    the open marker's write and flush. *)
Definition new_writer (poll : Z) (path : string) (opens marker_ok : bool) (open_line : bytes)
    (ring : list TelemetryRecord) : outcome Writer :=
  match checked_poll poll with
  | Throw e => Throw e
  | UB => UB
  | Ret _ =>
      if negb opens then Throw (runtime_error ("TelemetryWriter: cannot open telemetry output: " ++ path))
      else Ret (mkWriter ring [open_line] (negb marker_ok) (negb marker_ok)
                  (if marker_ok then "mid-run" else "at the open marker") 0)
  end.

Definition set_queue (q : list TelemetryRecord) (w : Writer) : Writer :=
  mkWriter q (out_lines w) (stream_fail w) (output_failed_ w) (failure_site_ w) (lost_lines_ w).

(** The producer's side of the FIFO. *)
Definition publish (rs : list TelemetryRecord) (w : Writer) : Writer := set_queue (queue w ++ rs) w.

(** The body of the loop of [drain], on the record popped. *)
Definition drain_one (dropped : Z) (rec : TelemetryRecord) (w : Writer) : Writer :=
  if output_failed_ w then
    mkWriter (queue w) (out_lines w) (stream_fail w) true (failure_site_ w) (u64 (lost_lines_ w + 1))
  else
    mkWriter (queue w) (out_lines w ++ [emit_line rec dropped]) (stream_fail w) false (failure_site_ w)
      (lost_lines_ w).

(** [dropped i] is the ring's drop count when the [i]th line is formatted. *)
Fixpoint drain_loop (budget : nat) (dropped : nat -> Z) (wrote : bool) (w : Writer) : bool * Writer :=
  match budget, queue w with
  | S budget, rec :: q =>
      drain_loop budget (fun i => dropped (S i)) (wrote || negb (output_failed_ w)) (drain_one (dropped 0%nat) rec (set_queue q w))
  | _, _ => (wrote, w)
  end.

(** The flush, when something was written, and the detection after it. *)
Definition end_batch (flush_ok wrote : bool) (w : Writer) : Writer :=
  let fail := stream_fail w || (wrote && negb flush_ok) in
  mkWriter (queue w) (out_lines w) fail (output_failed_ w || fail) (failure_site_ w) (lost_lines_ w).

(** [pending()] on the writer's thread: its load of the tail may be stale, so it
    counts [seen] of the queued records. *)
Definition pending (seen : nat) (w : Writer) : nat := Nat.min seen (length (queue w)).

Definition drain (seen : nat) (dropped : nat -> Z) (flush_ok : bool) (w : Writer) : Writer :=
  let '(wrote, w) := drain_loop (pending seen w) dropped false w in end_batch flush_ok wrote w.

(** What the environment does to one pass: the records published since the last
    batch was sampled, how many [pending()] sees, the drop counts, and the fate of
    the flush. *)
Record Pass := mkPass {
  ps_arrivals : list TelemetryRecord; ps_seen : nat; ps_dropped : nat -> Z; ps_flush_ok : bool }.

Definition run_pass (w : Writer) (p : Pass) : Writer :=
  drain (ps_seen p) (ps_dropped p) (ps_flush_ok p) (publish (ps_arrivals p) w).

(** The [for (;;)] of [run]: a busy ring and a timed wait both lead to the next
    pass; the file WriterThread says when the loop is left. *)
Definition passes (ps : list Pass) (w : Writer) : Writer := fold_left run_pass ps w.

(** What the environment does to the close marker. *)
Record Close := mkClose {
  cl_arrivals : list TelemetryRecord; cl_seen : nat; cl_ts : Z; cl_dropped : Z; cl_flush_ok : bool }.

(** After the final batch: the close marker, the last flush and the belt.  The
    second component is the run's one stderr line. *)
Definition close_run (c : Close) (w : Writer) : Writer * option (string * Z) :=
  let w := publish (cl_arrivals c) w in
  let marker := emit_close_line (cl_ts c) (Z.of_nat (pending (cl_seen c) w)) (cl_dropped c) (negb (output_failed_ w)) in
  let fail := stream_fail w || negb (cl_flush_ok c) in
  let w := mkWriter (queue w) (out_lines w ++ [marker]) fail (output_failed_ w || fail) (failure_site_ w) (lost_lines_ w) in
  (w, if output_failed_ w then Some (failure_site_ w, lost_lines_ w) else None).

Definition writer_run (ps : list Pass) (final : Pass) (c : Close) (w : Writer) : Writer * option (string * Z) :=
  close_run c (run_pass (passes ps w) final).
