(* ===== verification/WriterThread.v ===== *)
(** * The telemetry writer's threads ([cpp/include/mm/telemetry.hpp])

    [run], [stop_and_join] and the pushes they race with, as the turns of three
    threads over [mutex_], [cv_], [stop_] and [joined_].  A turn is what a thread
    does between two points where another may intervene: it takes or releases the
    mutex, pops one record, or samples [pending()].  A timed wait releases the mutex
    and parks; it is woken by the notification, by its deadline or for no reason,
    and must take the mutex again before it looks at [stop_].

    The shutdown is shown to converge in a bounded number of fair rounds whatever
    the producer pushes, with no help from the deadline, so no wake-up is lost; and
    every run to be one of the sequences of passes of [Telemetry]. *)

From Stdlib Require Import ZArith String List Lia.
From stdpp Require Import base tactics list option.
From S2P Require Import Prelude Rounds TelemetryRing Telemetry.

(** ** The threads *)

Inductive Holder := HWriter | HOwner.

(** [final]: the drain after the loop. *)
Inductive WriterAt :=
| WSample (final : bool)                             (* drain(): the entry sample *)
| WDrain (final : bool) (budget : nat) (wrote : bool)
| WLock                                              (* unique_lock lock{mutex_} *)
| WLocked
| WWait                                              (* parked in cv_.wait_for *)
| WRelock (timed_out : bool)
| WRecheck (timed_out : bool)                        (* the predicate, under the mutex *)
| WClose                                             (* the close marker and the report *)
| WDone.

Inductive OwnerAt := OIdle | OLock | OLocked | ONotify | OJoin.

Record Threads := mkThreads {
  writer : WriterAt;
  owner : OwnerAt;
  mutex_ : option Holder;
  stop_ : bool;
  joined_ : bool;
  calls : nat;                          (* of stop_and_join still to return, the destructor's last *)
  tw : Writer;
  ring_cap : nat;
  published : list TelemetryRecord;     (* all that was accepted, the ring's first contents included *)
  seen : nat;                           (* how many of them the writer has observed *)
  at_stop : nat;                        (* how many there were when stop_ was set *)
  joins : nat;                          (* thread_.join() that returned *)
  report : option (string * Z);
}.

Definition set_writer x s := mkThreads x (owner s) (mutex_ s) (stop_ s) (joined_ s) (calls s) (tw s) (ring_cap s)
  (published s) (seen s) (at_stop s) (joins s) (report s).
Definition set_owner x s := mkThreads (writer s) x (mutex_ s) (stop_ s) (joined_ s) (calls s) (tw s) (ring_cap s)
  (published s) (seen s) (at_stop s) (joins s) (report s).
Definition set_mutex x s := mkThreads (writer s) (owner s) x (stop_ s) (joined_ s) (calls s) (tw s) (ring_cap s)
  (published s) (seen s) (at_stop s) (joins s) (report s).
Definition set_tw x s := mkThreads (writer s) (owner s) (mutex_ s) (stop_ s) (joined_ s) (calls s) x (ring_cap s)
  (published s) (seen s) (at_stop s) (joins s) (report s).
Definition set_seen x s := mkThreads (writer s) (owner s) (mutex_ s) (stop_ s) (joined_ s) (calls s) (tw s) (ring_cap s)
  (published s) x (at_stop s) (joins s) (report s).

(** What the environment hands a turn of the writer: how many records its load of
    the tail could see, the drop count it reads, the clock, the fate of a flush, and
    whether a parked wait wakes ([Some true]: its deadline passed). *)
Record Env := mkEnv { look : nat; drops : Z; now_ns : Z; flush_ok : bool; wakes : option bool }.

Definition taken (s : Threads) : nat := length (published s) - length (queue (tw s)).

(** A load of the tail is never older than an earlier one of the same thread. *)
Definition sample (e : Env) (s : Threads) : nat := Nat.max (seen s) (Nat.min (look e) (length (published s))).

(** Taking the mutex: what was published before the owner released it is seen. *)
Definition acquire (h : Holder) (s : Threads) : option Threads :=
  match mutex_ s with
  | Some _ => None
  | None =>
      Some (set_mutex (Some h)
              (match h with HWriter => set_seen (Nat.max (seen s) (at_stop s)) s | HOwner => s end))
  end.

Definition release (s : Threads) : Threads := set_mutex None s.

Definition writer_step (e : Env) (s : Threads) : Threads :=
  match writer s with
  | WSample final => set_writer (WDrain final (sample e s - taken s) false) (set_seen (sample e s) s)
  | WDrain final budget wrote =>
      match budget, queue (tw s) with
      | S budget, rec :: q =>
          set_writer (WDrain final budget (wrote || negb (output_failed_ (tw s))))
            (set_tw (drain_one (drops e) rec (set_queue q (tw s))) s)
      | _, _ => set_writer (if final then WClose else WLock) (set_tw (end_batch (flush_ok e) wrote (tw s)) s)
      end
  | WLock => match acquire HWriter s with Some s => set_writer WLocked s | None => s end
  | WLocked =>
      if stop_ s then set_writer (WSample true) (release s)
      else
        let s' := release (set_seen (sample e s) s) in
        if (0 <? sample e s - taken s)%nat then set_writer (WSample false) s' else set_writer WWait s'
  | WWait => match wakes e with Some timed_out => set_writer (WRelock timed_out) s | None => s end
  | WRelock timed_out =>
      match acquire HWriter s with Some s => set_writer (WRecheck timed_out) s | None => s end
  | WRecheck timed_out =>
      set_writer (if stop_ s then WSample true else if timed_out then WSample false else WWait) (release s)
  | WClose =>
      let '(w, r) := close_run (mkClose [] (sample e s - taken s) (now_ns e) (drops e) (flush_ok e)) (tw s) in
      mkThreads WDone (owner s) (mutex_ s) (stop_ s) (joined_ s) (calls s) w (ring_cap s) (published s) (sample e s)
        (at_stop s) (joins s) r
  | WDone => s
  end.

(** The next of [calls] calls of [stop_and_join]. *)
Definition owner_step (s : Threads) : Threads :=
  match owner s with
  | OIdle => match calls s with O => s | S _ => set_owner OLock s end
  | OLock => match acquire HOwner s with Some s => set_owner OLocked s | None => s end
  | OLocked =>
      if joined_ s then
        mkThreads (writer s) OIdle None (stop_ s) (joined_ s) (pred (calls s)) (tw s) (ring_cap s) (published s) (seen s)
          (at_stop s) (joins s) (report s)
      else
        mkThreads (writer s) ONotify None true true (calls s) (tw s) (ring_cap s) (published s) (seen s)
          (length (published s)) (joins s) (report s)
  | ONotify => set_owner OJoin (match writer s with WWait => set_writer (WRelock false) s | _ => s end)
  | OJoin =>
      match writer s with
      | WDone =>
          mkThreads WDone OIdle (mutex_ s) (stop_ s) (joined_ s) (pred (calls s)) (tw s) (ring_cap s) (published s)
            (seen s) (at_stop s) (S (joins s)) (report s)
      | _ => s
      end
  end.

(** A push is refused when the ring is full, or when a stale load of the head
    makes it look so. *)
Definition producer_step (rec : TelemetryRecord) (looks_full : bool) (s : Threads) : Threads :=
  if looks_full || (ring_cap s <=? length (queue (tw s)))%nat then s
  else
    mkThreads (writer s) (owner s) (mutex_ s) (stop_ s) (joined_ s) (calls s) (publish [rec] (tw s)) (ring_cap s)
      (published s ++ [rec]) (seen s) (at_stop s) (joins s) (report s).

Inductive Turn :=
| WriterTurn (e : Env)
| OwnerTurn
| ProducerTurn (rec : TelemetryRecord) (looks_full : bool).

Inductive Thread := ThWriter | ThOwner | ThProducer.
#[export] Instance Thread_eq_dec : EqDecision Thread. Proof. solve_decision. Defined.

Definition who (t : Turn) : Thread :=
  match t with WriterTurn _ => ThWriter | OwnerTurn => ThOwner | ProducerTurn _ _ => ThProducer end.

Definition turn (t : Turn) (s : Threads) : Threads :=
  match t with
  | WriterTurn e => writer_step e s
  | OwnerTurn => owner_step s
  | ProducerTurn rec looks_full => producer_step rec looks_full s
  end.

(** The constructor has started the thread; [n] calls of [stop_and_join] follow. *)
Definition started (w : Writer) (cap n : nat) : Threads :=
  mkThreads (WSample false) OIdle None false false n w cap (queue w) 0 0 0 None.

(** ** The invariant *)

Definition w_holds (x : WriterAt) : bool := match x with WLocked | WRecheck _ => true | _ => false end.
Definition o_holds (x : OwnerAt) : bool := match x with OLocked => true | _ => false end.
Definition closing (x : OwnerAt) : bool := match x with ONotify | OJoin => true | _ => false end.
Definition calling (x : OwnerAt) : bool := match x with OIdle => false | _ => true end.
Definition final (x : WriterAt) : bool :=
  match x with WSample true | WDrain true _ _ | WClose | WDone => true | _ => false end.

(** How much of the ring the writer, where it is, is sure to take or to have seen. *)
Definition will_take (s : Threads) : option nat :=
  match writer s with
  | WLocked | WRecheck _ | WSample true => Some (seen s)
  | WDrain true budget _ => Some (taken s + budget)%nat
  | WClose | WDone => Some (taken s)
  | _ => None
  end.

Definition ring_ok (s : Threads) : Prop :=
  (length (queue (tw s)) <= ring_cap s)%nat /\ (length (queue (tw s)) <= length (published s))%nat /\
  (taken s <= seen s <= length (published s))%nat /\ (at_stop s <= length (published s))%nat /\
  match writer s with WDrain _ budget _ => (taken s + budget <= seen s)%nat | _ => True end /\
  from_option (fun n => (at_stop s <= n)%nat) True (will_take s).

Record threads_inv (s : Threads) : Prop := {
  ti_mutex : mutex_ s = if w_holds (writer s) then Some HWriter else if o_holds (owner s) then Some HOwner else None;
  ti_excl : w_holds (writer s) && o_holds (owner s) = false;
  ti_joined : joined_ s = stop_ s;
  ti_calls : calling (owner s) = true -> (0 < calls s)%nat;
  ti_closing : closing (owner s) = true -> stop_ s = true;
  ti_joins : joins s = if stop_ s && negb (closing (owner s)) then 1%nat else 0%nat;
  ti_running : stop_ s = true -> writer s <> WDone -> closing (owner s) = true;
  ti_wait : stop_ s = true -> writer s = WWait -> owner s = ONotify;
  ti_final : final (writer s) = true -> stop_ s = true;
  ti_ring : ring_ok s;
}.

Lemma started_inv w cap n : (length (queue w) <= cap)%nat -> threads_inv (started w cap n).
Proof. intros H. constructor; cbn; try done. unfold ring_ok, taken. cbn. lia. Qed.

(** Close the control part of the invariant: the program points and flags are
    constructors, or tied to one by an equation. *)
Ltac control :=
  cbn in *; intros; simplify_eq/=; try done; try lia; try congruence;
  repeat match goal with
  | H : ?P -> _, H' : ?P |- _ => specialize (H H')
  | H : ?x = ?x -> _ |- _ => specialize (H eq_refl)
  | H : ?x <> ?y -> _ |- _ => specialize (H ltac:(congruence))
  end; simplify_eq/=; try done; try congruence; try lia.
Ltac stopped s := destruct (stop_ s) eqn:?; control.

(** The lengths a turn leaves. *)
Lemma drain_one_queue d rec w : queue (drain_one d rec w) = queue w.
Proof. unfold drain_one. by case_match. Qed.

Lemma sample_between e s : (seen s <= length (published s))%nat -> (seen s <= sample e s <= length (published s))%nat.
Proof. unfold sample. lia. Qed.

Lemma producer_inv rec full s : threads_inv s -> threads_inv (producer_step rec full s).
Proof.
  intros I. unfold producer_step. destruct (full || _) eqn:E; [done|]. apply orb_false_iff in E as [_ E%Nat.leb_gt].
  destruct I as [? ? ? ? ? ? ? ? ? R]. constructor; try done. revert R. unfold ring_ok, will_take, taken. cbn.
  rewrite !length_app. cbn. intros (?&?&?&?&?&?). split_and!; try lia.
  - destruct (writer s); lia.
  - destruct (writer s) as [[]|[]| | | | | | |]; cbn in *; try done; lia.
Qed.

Lemma owner_inv s : threads_inv s -> threads_inv (owner_step s).
Proof.
  intros I. unfold owner_step, acquire. destruct I as [Im Ie Ij Ic Io In Ir Iw If R].
  unfold ring_ok, will_take, taken in R.
  destruct (owner s) eqn:Eo; [destruct (calls s) eqn:Ec|destruct (mutex_ s) eqn:Em|destruct (joined_ s) eqn:Ej|..].
  all: destruct (writer s) as [[]|[]| | | | | | |] eqn:Ew; try discriminate.
  all: constructor; unfold ring_ok, will_take, taken; cbn; rewrite ?Eo, ?Ec, ?Em, ?Ew in *; try done; first [solve [control]|stopped s].
Qed.

Lemma writer_inv e s : threads_inv s -> threads_inv (writer_step e s).
Proof.
  intros I. unfold writer_step, acquire. pose proof (ti_ring _ I) as (_ & _ & Hs & _).
  pose proof (sample_between e s ltac:(lia)) as Hb. destruct I as [Im Ie Ij Ic Io In Ir Iw If R].
  unfold ring_ok, will_take, taken in R, Hs. unfold taken. generalize dependent (sample e s). intros look Hb.
  destruct (writer s) as [[]|[] [|budget] wrote| | | |b|b| |] eqn:Ew;
    [..|destruct (queue (tw s)) as [|rec q] eqn:Eq| |destruct (queue (tw s)) as [|rec q] eqn:Eq|destruct (mutex_ s) eqn:Em|
     destruct (stop_ s) eqn:Es; [|destruct (Nat.ltb_spec 0 (look - (length (published s) - length (queue (tw s)))))]|
     destruct (wakes e)|destruct (mutex_ s) eqn:Em|destruct (stop_ s) eqn:Es; [|destruct b]| |].
  all: try (constructor; rewrite ?Ew; done).
  all: constructor; unfold ring_ok, will_take, taken; cbn; rewrite ?drain_one_queue, ?Ew, ?Em, ?Es in *; try done.
  all: cbn [queue set_queue length from_option] in *; rewrite ?app_nil_r in *.
  all: first [lia|solve [intros; apply Ir; done]|by destruct (owner s)].
Qed.

Lemma turn_inv t s : threads_inv s -> threads_inv (turn t s).
Proof. destruct t; [apply writer_inv|apply owner_inv|apply producer_inv]. Qed.

Lemma drive_inv ts w cap n : (length (queue w) <= cap)%nat -> threads_inv (drive turn ts (started w cap n)).
Proof. intros H. apply drive_keeps; [apply turn_inv|by apply started_inv]. Qed.

(** ** Convergence *)

Definition writer_left (cap : nat) (x : WriterAt) : nat :=
  match x with
  | WDone => 0
  | WClose => 1
  | WDrain true budget _ => budget + 2
  | WSample true => cap + 3
  | WLocked | WRecheck _ => cap + 4
  | WLock | WRelock _ => cap + 5
  | WWait => cap + 6
  | WDrain false budget _ => budget + cap + 6
  | WSample false => 2 * cap + 7
  end.

Definition owner_left (n : nat) (x : OwnerAt) : nat :=
  match x with
  | OIdle => 3 * n
  | OLock => 3 * n - 1
  | OLocked => 3 * n - 2
  | ONotify => 3 * n - 1
  | OJoin => 3 * n - 2
  end.

Definition left (s : Threads) : nat := writer_left (ring_cap s) (writer s) + owner_left (calls s) (owner s).

(** The writer's turns matter until it is done, except while it is parked. *)
Definition mover (s : Threads) : Thread := match writer s with WDone | WWait => ThOwner | _ => ThWriter end.

Lemma mover_listed s : mover s ∈ [ThWriter; ThOwner].
Proof. unfold mover. apply list_elem_of_In. destruct (writer s); cbn; auto. Qed.

Definition stopping (s : Threads) : Prop := threads_inv s /\ stop_ s = true.

Lemma stop_kept t s : stop_ s = true -> stop_ (turn t s) = true.
Proof.
  intros H. destruct t as [e| |rec full]; cbn [turn].
  - unfold writer_step, acquire. destruct (writer s) as [|f [|b] wrote| | | | | | |]; repeat case_match; by simplify_eq/=.
  - unfold owner_step, acquire. destruct (owner s); repeat case_match; by simplify_eq/=.
  - unfold producer_step. by case_match.
Qed.

Lemma writer_frame e s :
  owner (writer_step e s) = owner s /\ calls (writer_step e s) = calls s /\ ring_cap (writer_step e s) = ring_cap s.
Proof.
  unfold writer_step, acquire. destruct (writer s) as [|f [|b] wrote| | | | | | |]; repeat case_match; by simplify_eq/=.
Qed.

(** A turn of the writer brings it nearer its end, or finds it parked or done. *)
Lemma writer_nearer e s :
  stopping s ->
  (writer_left (ring_cap s) (writer (writer_step e s)) < writer_left (ring_cap s) (writer s))%nat \/
  writer_step e s = s /\ mover s = ThOwner.
Proof.
  intros [I Es]. pose proof (ti_ring _ I) as (Hc & Hp & Hs & _). pose proof (sample_between e s ltac:(lia)) as Hb.
  pose proof (ti_mutex _ I) as Im. pose proof (ti_running _ I Es) as Ir.
  unfold taken in Hs. unfold writer_step, acquire, mover, taken. generalize dependent (sample e s). intros look Hb.
  destruct (writer s) as [[]|[] [|budget] wrote| | | |b|b| |] eqn:Ew; rewrite ?Es; cbn; try (left; lia); try (right; split; done).
  - destruct (queue (tw s)); left; cbn; lia.
  - destruct (queue (tw s)); left; cbn; lia.
  - specialize (Ir ltac:(done)). rewrite Im. destruct (owner s); try done; left; cbn; lia.
  - destruct (wakes e); [left; cbn; lia|by right].
  - specialize (Ir ltac:(done)). rewrite Im. destruct (owner s); try done; left; cbn; lia.
Qed.

Lemma writer_turn e s :
  stopping s ->
  (left (writer_step e s) <= left s)%nat /\ (ThWriter = mover s -> left (writer_step e s) <= pred (left s))%nat /\
  (ThWriter <> mover s -> (left (writer_step e s) < left s)%nat \/ mover (writer_step e s) = mover s).
Proof.
  intros Hs. destruct (writer_frame e s) as (Eo & Ec & Er). unfold left. rewrite Eo, Ec, Er.
  destruct (writer_nearer e s Hs) as [?|[-> Hm]]; [split_and!; lia|]. split_and!; [lia|by rewrite Hm|by right].
Qed.

(** The owner's turn advances the call it is in, unless it waits for the writer. *)
Lemma owner_turn s :
  stopping s ->
  (left (owner_step s) <= left s)%nat /\ (ThOwner = mover s -> left (owner_step s) <= pred (left s))%nat /\
  (ThOwner <> mover s -> (left (owner_step s) < left s)%nat \/ mover (owner_step s) = mover s).
Proof.
  intros [I Es]. pose proof (ti_mutex _ I) as Im. pose proof (ti_running _ I Es) as Ir. pose proof (ti_joined _ I) as Ij.
  pose proof (ti_calls _ I) as Ic. pose proof (ti_wait _ I Es) as Iw. unfold owner_step, acquire, left, mover.
  destruct (writer s) eqn:Ew; try (specialize (Ir ltac:(done))); destruct (owner s) eqn:Eo; try done;
    try (specialize (Iw eq_refl)); try done; cbn in *; rewrite ?Im, ?Ij, ?Es; cbn; rewrite ?Ew, ?Eo; cbn.
  all: try (destruct (calls s) eqn:Ec; cbn; rewrite ?Ew, ?Eo, ?Ec; cbn).
  all: split_and!; try done; try lia; intros; try (left; lia); try by right.
Qed.

Lemma stopping_turn t s :
  stopping s -> stopping (turn t s) /\ (left (turn t s) <= left s)%nat /\
  (who t = mover s -> left (turn t s) <= pred (left s))%nat /\
  (who t <> mover s -> (left (turn t s) < left s)%nat \/ mover (turn t s) = mover s).
Proof.
  intros Hs. split; [split; [by apply turn_inv, Hs|by apply stop_kept, Hs]|].
  destruct t as [e| |rec full]; cbn [turn who]; [by apply writer_turn|by apply owner_turn|].
  assert (left (producer_step rec full s) = left s /\ mover (producer_step rec full s) = mover s) as [-> ->]
    by (unfold producer_step; by case_match).
  split_and!; [lia| |by right]. intros E. pose proof (mover_listed s) as H. rewrite <- E in H.
  by apply list_elem_of_In in H as [?|[?|?]].
Qed.

(** What no turn undoes. *)
Record later (s s' : Threads) : Prop := {
  la_cap : ring_cap s' = ring_cap s;
  la_calls : (calls s' <= calls s)%nat;
  la_published : published s `prefix_of` published s';
  la_at_stop : stop_ s = true -> joined_ s = true -> stop_ s' = true /\ joined_ s' = true /\ at_stop s' = at_stop s;
}.

#[export] Instance later_preorder : PreOrder later.
Proof.
  split; [by constructor|]. intros s1 s2 s3 [C1 N1 P1 A1] [C2 N2 P2 A2]. constructor; [congruence|lia|by etrans|].
  intros E J. destruct (A1 E J) as (E2 & J2 & <-). auto.
Qed.

Lemma turn_later t s : later s (turn t s).
Proof.
  destruct t as [e| |rec full]; cbn [turn].
  - unfold writer_step, acquire. destruct (writer s) as [|f [|b] wrote| | | | | | |]; repeat case_match; by constructor; simplify_eq/=.
  - unfold owner_step, acquire. destruct (owner s); repeat case_match; constructor; simplify_eq/=; try done; try lia; congruence.
  - unfold producer_step. case_match; [done|]. constructor; cbn; [done|done|by apply prefix_app_r|done].
Qed.

Lemma drive_later ts s : later s (drive turn ts s).
Proof. revert s. induction ts as [|t ts IH]; intros s; [done|]. etrans; [apply turn_later|apply IH]. Qed.

Lemma left_bound s : threads_inv s -> (left s <= 2 * ring_cap s + 7 + 3 * calls s)%nat.
Proof.
  intros I. pose proof (ti_ring _ I) as (Hc & _ & Hs & _ & Hd & _). unfold taken in *. unfold left.
  assert (owner_left (calls s) (owner s) <= 3 * calls s)%nat by (destruct (owner s); cbn; lia).
  assert (writer_left (ring_cap s) (writer s) <= 2 * ring_cap s + 7)%nat; [|lia].
  destruct (writer s) as [[]|[]| | | | | | |]; cbn; lia.
Qed.

Lemma stopped_left_none s : threads_inv s -> left s = 0%nat -> writer s = WDone /\ owner s = OIdle /\ calls s = 0%nat.
Proof.
  intros I H. pose proof (ti_calls _ I) as Ic. unfold left in H.
  assert (writer s = WDone) as Ew by (destruct (writer s) as [[]|[]| | | | | | |]; cbn in *; try done; lia).
  rewrite Ew in H. destruct (owner s); cbn in *; try (specialize (Ic eq_refl); lia). split_and!; try done. lia.
Qed.

(** C31 Once [stop_and_join] has set the stop flag, the run converges, at whatever
    moment it was set, whatever the producer still pushes and without the deadline
    of the timed wait ever passing: after two capacities of fair rounds, three for
    each call and seven more, the writer has ended and every call has returned, the
    thread was joined exactly once, and all that was published before the stop has
    been taken from the ring. *)
Theorem stop_and_join_converges w cap n turns blocks :
  (length (queue w) <= cap)%nat ->
  let s0 := drive turn turns (started w cap n) in
  stop_ s0 = false -> stop_ (owner_step s0) = true ->
  Forall (served who [ThWriter; ThOwner]) blocks -> (2 * cap + 7 + 3 * n <= length blocks)%nat ->
  let s := drive turn (OwnerTurn :: concat blocks) s0 in
  writer s = WDone /\ owner s = OIdle /\ calls s = 0%nat /\ joins s = 1%nat /\
  published s0 `prefix_of` published s /\ (length (published s0) <= taken s)%nat.
Proof.
  intros Hw s0 E0 E1 Hf Hlen. pose proof (drive_inv turns w cap n Hw) as I0. fold s0 in I0.
  pose proof (drive_later turns (started w cap n)) as L0. fold s0 in L0.
  pose proof (turn_later OwnerTurn s0) as L1. cbn [turn] in L1. pose proof (owner_inv s0 I0) as I1.
  destruct (drive_finishes turn who stopping left mover [ThWriter; ThOwner] mover_listed stopping_turn blocks (owner_step s0))
    as [[I Es] Hl]; [done|done| |].
  { pose proof (left_bound _ I1) as Hb. rewrite (la_cap _ _ L1), (la_cap _ _ L0) in Hb. cbn [ring_cap started] in Hb.
    pose proof (la_calls _ _ L1). pose proof (la_calls _ _ L0) as Hn. cbn [calls started] in Hn. lia. }
  pose proof (drive_later (concat blocks) (owner_step s0)) as L2. cbn [drive fold_left turn]. fold (drive turn (concat blocks) (owner_step s0)).
  set (s := drive turn (concat blocks) (owner_step s0)) in *. cbv zeta.
  destruct (stopped_left_none _ I Hl) as (Ew & Eo & Ec). split_and!; try done.
  - rewrite (ti_joins _ I), Es, Eo. done.
  - etrans; [apply (la_published _ _ L1)|apply (la_published _ _ L2)].
  - destruct (la_at_stop _ _ L2 E1) as (_ & _ & Ea); [by rewrite (ti_joined _ I1)|].
    assert (at_stop (owner_step s0) = length (published s0)) as Ep.
    { revert E1. unfold owner_step, acquire. destruct (owner s0); repeat case_match; intros; simplify_eq/=; congruence. }
    pose proof (ti_ring _ I) as (_ & _ & _ & _ & _ & Ht). unfold will_take in Ht. rewrite Ew in Ht. cbn in Ht. lia.
Qed.

(** ** Every run is a sequence of passes *)

Lemma publish_nil w : publish [] w = w.
Proof. unfold publish, set_queue. rewrite app_nil_r. by destruct w. Qed.

Lemma publish_publish a b w : publish b (publish a w) = publish (a ++ b) w.
Proof. unfold publish, set_queue. cbn. by rewrite <- app_assoc. Qed.

Lemma drain_one_publish d rec q late w :
  drain_one d rec (set_queue (q ++ late) w) = publish late (drain_one d rec (set_queue q w)).
Proof. unfold drain_one, publish, set_queue. cbn. by case_match. Qed.

Lemma end_batch_publish ok wrote late w : end_batch ok wrote (publish late w) = publish late (end_batch ok wrote w).
Proof. done. Qed.

(** The writer so far, but for what was published since: after whole passes, and in
    the middle of one. *)
Definition after_passes (w0 : Writer) (ps : list Pass) (s : Threads) : Prop :=
  exists rest, tw s = publish rest (passes ps w0) /\ published s = queue w0 ++ concat (map ps_arrivals ps) ++ rest.

Definition in_pass (w0 : Writer) (ps : list Pass) (budget : nat) (wrote : bool) (s : Threads) : Prop :=
  exists arrivals k wk rest,
    let w := publish arrivals (passes ps w0) in
    (forall d', exists d, drain_loop (pending k w) d false w = drain_loop budget d' wrote wk) /\
    (budget <= length (queue wk))%nat /\ tw s = publish rest wk /\
    published s = queue w0 ++ concat (map ps_arrivals ps) ++ arrivals ++ rest.

Definition run_so_far (w0 : Writer) (s : Threads) : Prop :=
  match writer s with
  | WSample false => exists ps, after_passes w0 ps s
  | WDrain final budget wrote => exists ps, (final = true -> ps <> []) /\ in_pass w0 ps budget wrote s
  | WClose => exists ps final, ps <> [] /\ after_passes w0 (ps ++ [final]) s
  | WDone => exists ps final c w rest, ps <> [] /\ writer_run ps final c w0 = (w, report s) /\ tw s = publish rest w /\
      published s = queue w0 ++ concat (map ps_arrivals (ps ++ [final])) ++ cl_arrivals c ++ rest
  | _ => exists ps, ps <> [] /\ after_passes w0 ps s
  end.

Lemma passes_snoc ps p w : passes (ps ++ [p]) w = run_pass (passes ps w) p.
Proof. unfold passes. by rewrite fold_left_app. Qed.

(** Turns of the other threads publish records, or nothing. *)
Definition extends (rs : list TelemetryRecord) (s s' : Threads) : Prop :=
  tw s' = publish rs (tw s) /\ published s' = published s ++ rs.

Lemma after_extends w0 ps rs s s' : extends rs s s' -> after_passes w0 ps s -> after_passes w0 ps s'.
Proof.
  intros [Et Ep] (rest & Hw & Hp). exists (rest ++ rs). by rewrite Et, Hw, publish_publish, Ep, Hp, <- !app_assoc.
Qed.

Lemma in_extends w0 ps b wr rs s s' : extends rs s s' -> in_pass w0 ps b wr s -> in_pass w0 ps b wr s'.
Proof.
  intros [Et Ep] (arr & k & wk & rest & Hd & Hb & Hw & Hp). exists arr, k, wk, (rest ++ rs).
  by rewrite Et, Hw, publish_publish, Ep, Hp, <- !app_assoc.
Qed.

Lemma so_far_extends w0 rs s s' :
  extends rs s s' -> report s' = report s ->
  writer s' = writer s \/ writer s = WWait /\ writer s' = WRelock false ->
  run_so_far w0 s -> run_so_far w0 s'.
Proof.
  intros Hx Er Hw. unfold run_so_far. destruct Hw as [->|[-> ->]]; [|intros (ps & ? & ?); exists ps; eauto using after_extends].
  destruct (writer s) as [[]|f b wr| | | | | | |].
  1, 4-8: intros (ps & ? & ?); exists ps; eauto using after_extends.
  - intros (ps & ?); exists ps; eauto using after_extends.
  - intros (ps & ? & ?); exists ps; eauto using in_extends.
  - intros (ps & fin & ? & ?); exists ps, fin; eauto using after_extends.
  - intros (ps & fin & c & w & rest & ? & ? & Hw & Hp). exists ps, fin, c, w, (rest ++ rs). destruct Hx as [Et Ep].
    by rewrite Er, Et, Hw, publish_publish, Ep, Hp, <- !app_assoc.
Qed.

(** The drain, turn by turn. *)
Lemma drain_begins w0 ps e s :
  threads_inv s -> after_passes w0 ps s -> in_pass w0 ps (sample e s - taken s) false (set_seen (sample e s) s).
Proof.
  intros I (rest & Hw & Hp). pose proof (ti_ring _ I) as (_ & Hq & Hs & _). pose proof (sample_between e s ltac:(lia)) as Hb.
  exists rest, (sample e s - taken s)%nat, (tw s), []. cbv zeta. rewrite <- Hw, publish_nil, app_nil_r.
  unfold taken in *. split_and!; [|lia|done|done]. intros d'. exists d'. unfold pending. by rewrite Nat.min_l by lia.
Qed.

Lemma drain_goes_on w0 ps b wr d rec q s :
  queue (tw s) = rec :: q -> in_pass w0 ps (S b) wr s ->
  in_pass w0 ps b (wr || negb (output_failed_ (tw s))) (set_tw (drain_one d rec (set_queue q (tw s))) s).
Proof.
  intros Eq (arr & k & wk & rest & Hd & Hb & Hw & Hp). destruct (queue wk) as [|rec' q'] eqn:Ek; cbn [length] in Hb; [lia|].
  rewrite Hw in Eq |- *. unfold publish in Eq |- *. cbn [queue set_queue output_failed_] in *. rewrite Ek in Eq. injection Eq as -> <-.
  exists arr, k, (drain_one d rec (set_queue q' wk)), rest. cbv zeta. cbn [tw set_tw published]. split_and!.
  - intros d'. destruct (Hd (fun i => match i with O => d | S i => d' i end)) as (d0 & E). exists d0. rewrite E. cbn [drain_loop].
    by rewrite Ek.
  - rewrite drain_one_queue. cbn. lia.
  - rewrite <- drain_one_publish. by unfold publish, set_queue.
  - exact Hp.
Qed.

Lemma drain_ends w0 ps b wr ok s :
  b = 0%nat \/ queue (tw s) = [] -> in_pass w0 ps b wr s ->
  exists p, after_passes w0 (ps ++ [p]) (set_tw (end_batch ok wr (tw s)) s).
Proof.
  intros H (arr & k & wk & rest & Hd & Hb & Hw & Hp).
  assert (b = 0%nat) as ->.
  { destruct H as [?|E]; [done|]. rewrite Hw in E. cbn in E. apply app_eq_nil in E as [E _]. rewrite E in Hb. cbn in Hb. lia. }
  destruct (Hd (fun _ => 0)) as (d & E). exists (mkPass arr k d ok), rest. cbn [tw set_tw published]. split.
  - rewrite Hw, end_batch_publish. f_equal. rewrite passes_snoc. unfold run_pass, drain. cbn [ps_arrivals ps_seen ps_dropped ps_flush_ok].
    by rewrite E.
  - rewrite map_app, concat_app. cbn. by rewrite app_nil_r, <- app_assoc.
Qed.

Lemma so_far_writer w0 e s : threads_inv s -> run_so_far w0 s -> run_so_far w0 (writer_step e s).
Proof.
  intros I. unfold run_so_far. unfold writer_step, acquire.
  destruct (writer s) as [f|f b wr| | | |t|t| |] eqn:Ew.
  - destruct f; [intros (ps & Hps & Ha)|intros (ps & Ha)]; exists ps; (split; [done|]); by apply drain_begins.
  - intros (ps & Hps & Hi).
    assert (b = 0%nat \/ queue (tw s) = [] ->
      run_so_far w0 (set_writer (if f then WClose else WLock) (set_tw (end_batch (flush_ok e) wr (tw s)) s))) as Hend.
    { intros H. destruct (drain_ends w0 ps b wr (flush_ok e) s H Hi) as (p & Ha). unfold run_so_far.
      destruct f; cbn; [exists ps, p; auto|exists (ps ++ [p])]. split; [by destruct ps|exact Ha]. }
    destruct b as [|b]; [apply Hend; auto|]. destruct (queue (tw s)) as [|rec q] eqn:Eq; [apply Hend; auto|].
    exists ps. split; [done|]. by apply drain_goes_on.
  - destruct (mutex_ s); cbn; by rewrite ?Ew.
  - destruct (stop_ s); [|destruct (0 <? sample e s - taken s)%nat]; cbn; [done| |done]. intros (ps & _ & H). by exists ps.
  - destruct (wakes e); cbn; by rewrite ?Ew.
  - destruct (mutex_ s); cbn; by rewrite ?Ew.
  - destruct (stop_ s); [|destruct t]; cbn; [done| |done]. intros (ps & _ & H). by exists ps.
  - intros (ps & fin & Hps & rest & Hw & Hp). destruct (close_run _ (tw s)) as [w r] eqn:Ec. cbn.
    exists ps, fin, (mkClose rest (sample e s - taken s) (now_ns e) (drops e) (flush_ok e)), w, []. split_and!; [done| | |].
    + unfold writer_run. rewrite <- passes_snoc, <- Ec, Hw. unfold close_run. cbn [cl_arrivals cl_seen cl_ts cl_dropped cl_flush_ok].
      by rewrite publish_nil.
    + by rewrite publish_nil.
    + cbn. by rewrite app_nil_r.
  - by rewrite Ew.
Qed.

Lemma so_far_turn w0 t s : threads_inv s -> run_so_far w0 s -> run_so_far w0 (turn t s).
Proof.
  intros I H. destruct t as [e| |rec full]; cbn [turn]; [by apply so_far_writer| |].
  - revert H. apply (so_far_extends w0 []); [unfold extends; rewrite publish_nil, app_nil_r| |]; unfold owner_step, acquire;
      destruct (owner s); repeat case_match; simplify_eq/=; auto.
  - unfold producer_step. case_match; [done|]. revert H. apply (so_far_extends w0 [rec]); [done|done|by left].
Qed.

Lemma drive_so_far w cap n turns : (length (queue w) <= cap)%nat -> run_so_far w (drive turn turns (started w cap n)).
Proof.
  intros Hw. apply (drive_keeps turn (fun s => threads_inv s /\ run_so_far w s)).
  - intros t s [I H]. split; [by apply turn_inv|by apply so_far_turn].
  - split; [by apply started_inv|]. exists [], []. split; [by rewrite publish_nil|cbn; by rewrite app_nil_r].
Qed.

(** C32 Whatever the interleaving of the writer's, the owner's and the producer's
    turns, however stale the writer's loads and whatever wakes its waits, a run that
    has ended is one of the sequences of passes of the sequential writer: at least
    one pass, the final batch and the close marker, over exactly the records
    published, in their order. *)
Theorem writer_thread_refines w cap n turns :
  (length (queue w) <= cap)%nat ->
  let s := drive turn turns (started w cap n) in
  writer s = WDone ->
  exists ps final c w' rest, ps <> [] /\ writer_run ps final c w = (w', report s) /\ tw s = publish rest w' /\
    published s = queue w ++ concat (map ps_arrivals (ps ++ [final])) ++ cl_arrivals c ++ rest.
Proof.
  intros Hw s Ew. pose proof (drive_so_far w cap n turns Hw) as H. fold s in H. unfold run_so_far in H. by rewrite Ew in H.
Qed.

(** ** A run *)

Definition demo_writer : Writer := mkWriter [mkRec 1 1 0 [7; 0; 0; 0; 0; 0]] [] false false "mid-run" 0.
Definition demo_env (woken : option bool) : Env := mkEnv 9 0 5 true woken.
Definition demo_push (ts : Z) : Turn := ProducerTurn (mkRec ts 1 0 [0; 0; 0; 0; 0; 0]) false.

(** The writer drains the first record and parks; two more are published, and the
    owner takes the mutex. *)
Definition demo_before : list Turn :=
  replicate 6 (WriterTurn (demo_env None)) ++ [OwnerTurn; demo_push 2; OwnerTurn; demo_push 3].
Definition demo_blocks : list (list Turn) := replicate 17 [demo_push 4; WriterTurn (demo_env None); OwnerTurn].

Lemma stop_and_join_converges_witness :
  let s0 := drive turn demo_before (started demo_writer 2 2) in
  writer s0 = WWait /\ length (published s0) = 3%nat /\
  let s := drive turn (OwnerTurn :: concat demo_blocks) s0 in writer s = WDone /\ joins s = 1%nat /\ (3 <= taken s)%nat.
Proof.
  cbv zeta. set (s0 := drive turn demo_before (started demo_writer 2 2)).
  assert (Forall (served who [ThWriter; ThOwner]) demo_blocks) as Hb by (apply Forall_replicate; repeat constructor).
  destruct (stop_and_join_converges demo_writer 2 2 demo_before demo_blocks) as (Hw & _ & _ & Hj & _ & Ht);
    [cbn; lia|reflexivity|reflexivity|exact Hb|unfold demo_blocks; rewrite length_replicate; lia|].
  fold s0 in Hw, Hj, Ht. assert (writer s0 = WWait /\ length (published s0) = 3%nat) as [H1 H2] by (split; reflexivity).
  rewrite H2 in Ht. exact (conj H1 (conj H2 (conj Hw (conj Hj Ht)))).
Defined.

Lemma writer_thread_refines_witness :
  let s := drive turn (demo_before ++ OwnerTurn :: concat demo_blocks) (started demo_writer 2 2) in
  writer s = WDone /\ exists ps final c w rest, writer_run ps final c demo_writer = (w, report s) /\ tw s = publish rest w.
Proof.
  cbv zeta. assert (writer (drive turn (demo_before ++ OwnerTurn :: concat demo_blocks) (started demo_writer 2 2)) = WDone) as E
    by (vm_compute; reflexivity).
  split; [exact E|]. destruct (writer_thread_refines demo_writer 2 2 (demo_before ++ OwnerTurn :: concat demo_blocks) ltac:(cbn; lia) E)
    as (ps & fin & c & w & rest & _ & H1 & H2 & _). exists ps, fin, c, w, rest. exact (conj H1 H2).
Defined.
