(* ===== verification/TelemetryProps.v ===== *)
(** * The telemetry file: what its lines are, and that none goes missing unseen *)

From Stdlib Require Import ZArith Ascii String List Lia.
From stdpp Require Import base tactics list option strings gmap.
From S2P Require Import Prelude Utf8 Preflight JsonGrammar PreflightSound PreflightComplete PreflightProps Codec.
From S2P Require Import JsonTokens CodecProps CodecRoundtrip Feed FeedProps TelemetryRing Telemetry.

(** ** Lines as fields *)

Definition member (f : TopLevelField) : bytes := quoted f.1 ++ ":"%char :: f.2.
Definition tail_fields (l : FrameScan) : bytes := concat (map (fun g => ","%char :: member g) l).

Lemma items_cons f l : items (f :: l) = member f ++ tail_fields l ++ [","%char].
Proof.
  unfold items, tail_fields. revert f. induction l as [|g l IH]; intros f.
  - cbn [map concat]. unfold item, member. app_norm.
  - change (concat (map item (f :: g :: l))) with (item f ++ concat (map item (g :: l))). rewrite IH.
    cbn [map concat]. unfold item, member. app_norm.
Qed.

Lemma joined_cons f l : joined (f :: l) = member f ++ tail_fields l.
Proof. unfold joined. rewrite items_cons, app_assoc. apply removelast_last. Qed.

Lemma tail_fields_app a b : tail_fields (a ++ b) = tail_fields a ++ tail_fields b.
Proof. unfold tail_fields. by rewrite map_app, concat_app. Qed.

Lemma put_num_snoc key v x l : put_num key v (x ++ tail_fields l) = x ++ tail_fields (l ++ [int_f key v]).
Proof.
  rewrite tail_fields_app. unfold put_num. cbn [tail_fields map concat]. unfold member, int_f, quoted. cbn [fst snd].
  cbn -[tail_fields]. app_norm.
Qed.

(** ** The event lanes *)

Fixpoint lanes_text (first : bool) (l : list Z) : bytes :=
  match l with [] => [] | v :: l' => (if first then [] else [","%char]) ++ dec_bytes v ++ lanes_text false l' end.

Lemma emit_lane_list_eq first l out : emit_lane_list first l out = out ++ lanes_text first l.
Proof.
  revert first out. induction l as [|v l IH]; intros first out; cbn; [by rewrite app_nil_r|]. rewrite IH. app_norm.
Qed.

Lemma lanes_text_snoc first l v :
  lanes_text first (l ++ [v]) =
  lanes_text first l ++ (if bool_decide (l = []) && first then [] else [","%char]) ++ dec_bytes v.
Proof.
  revert first. induction l as [|x l IH]; intros first; cbn [app lanes_text].
  - case_bool_decide; [|done]. destruct first; cbn; by rewrite app_nil_r.
  - rewrite IH. rewrite andb_false_r. rewrite (bool_decide_eq_false_2 (x :: l = [])) by done. cbn [andb]. app_norm.
Qed.

Lemma lanes_elements n l : l <> [] -> elements n (lanes_text true l).
Proof.
  induction l as [|v l IH] using rev_ind; [done|]. intros _. rewrite lanes_text_snoc.
  replace (lanes_text true l ++ (if bool_decide (l = []) && true then [] else [","%char]) ++ dec_bytes v)
    with ((lanes_text true l ++ (if bool_decide (l = []) && true then [] else [","%char])) ++ [] ++ dec_bytes v ++ [])
    by (rewrite app_nil_r; app_norm).
  constructor; auto using ws_nil; [|apply J_number, dec_bytes_number].
  case_bool_decide as Hl; cbn [andb]; [subst; constructor|]. constructor. auto.
Qed.

Definition args_f (rec : TelemetryRecord) : TopLevelField :=
  (text "args", "["%char :: lanes_text true (args rec) ++ ["]"%char]).

Lemma dec_bytes_ascii z : Forall (fun c => ord c < 0x80) (dec_bytes z).
Proof.
  destruct (Z.lt_ge_cases z 0) as [H|H].
  - destruct (dec_bytes_neg z H) as (d & -> & [_ Hd] & _). constructor; [done|].
    eapply Forall_impl; [exact Hd|]. cbn. intros c Hc%digit_ord. lia.
  - destruct (dec_bytes_nonneg z H) as ([_ Hd] & _). eapply Forall_impl; [exact Hd|].
    cbn. intros c Hc%digit_ord. lia.
Qed.

Lemma lanes_ascii first l : Forall (fun c => ord c < 0x80) (lanes_text first l).
Proof.
  revert first. induction l as [|v l IH]; intros first; cbn; [constructor|]. apply Forall_app. split.
  - destruct first; [constructor|]. by apply Forall_singleton.
  - apply Forall_app. split; [apply dec_bytes_ascii|apply IH].
Qed.

Lemma writable_args rec : writable (args_f rec).
Proof.
  split; [done|]. split.
  - apply J_array. destruct (args rec) as [|v l] eqn:E; [constructor; apply ws_nil|].
    apply AB_elements, lanes_elements. done.
  - apply utf8_text_ascii. constructor; [done|]. apply Forall_app. split; [apply lanes_ascii|by apply Forall_singleton].
Qed.

(** ** Every line is one strict JSON object *)

Definition line_fields (rec : TelemetryRecord) (dropped : Z) : FrameScan :=
  int_f "ts" (ts_ns rec) ::
  (if (kind rec =? 0) && (code rec =? 0) then
     [int_f "orders" (lane rec 0); int_f "fills" (lane rec 1); int_f "rejects" (lane rec 2);
      int_f "cancels" (lane rec 3); int_f "conflated" (lane rec 4); int_f "sessions" (lane rec 5);
      int_f "telemetry_dropped" dropped]
   else if (kind rec =? 0) && (code rec =? 1) then
     [int_f "outbox_depth_hw" (lane rec 0); int_f "send_lag_max_ns" (lane rec 1);
      int_f "stale_books_ignored" (lane rec 2); int_f "telemetry_pending_hw" (lane rec 3);
      int_f "live_orders" (lane rec 4)]
   else if (kind rec =? 1) && negb (String.eqb (event_name (code rec)) "") then
     [(text "event", plain_token (event_name (code rec))); args_f rec]
   else [int_f "kind" (kind rec); int_f "code" (code rec); args_f rec]).

Lemma ts_prefix ts : lit "{'ts':" ++ dec_bytes ts = ("{"%char :: member (int_f "ts" ts)) ++ tail_fields [].
Proof. unfold member, int_f, quoted. cbn. app_norm. Qed.

Lemma emit_lanes_snoc rec x l : emit_lanes rec (x ++ tail_fields l) = x ++ tail_fields (l ++ [args_f rec]).
Proof.
  unfold emit_lanes. rewrite emit_lane_list_eq, tail_fields_app. cbn [tail_fields map concat].
  unfold member, args_f, quoted. cbn -[lanes_text tail_fields]. app_norm.
Qed.

Lemma put_event_snoc name x l :
  (x ++ tail_fields l) ++ lit ",'event':'" ++ text name ++ lit "'" =
  x ++ tail_fields (l ++ [(text "event", plain_token name)]).
Proof.
  rewrite tail_fields_app. cbn [tail_fields map concat]. unfold member, quoted, plain_token.
  cbn -[tail_fields]. app_norm.
Qed.

Lemma emit_line_fields rec dropped :
  emit_line rec dropped = ("{"%char :: joined (line_fields rec dropped) ++ ["}"%char]) ++ [chr 10].
Proof.
  unfold emit_line, line_fields. cbv zeta. rewrite ts_prefix, joined_cons. cbn [kind_code part_code].
  destruct ((kind rec =? 0) && (code rec =? 0)); [rewrite !put_num_snoc; cbn [app lit]; app_norm|].
  destruct ((kind rec =? 0) && (code rec =? 1)); [rewrite !put_num_snoc; cbn [app lit]; app_norm|].
  destruct ((kind rec =? 1) && _).
  - rewrite put_event_snoc, emit_lanes_snoc. cbn [app lit]. app_norm.
  - rewrite !put_num_snoc, emit_lanes_snoc. cbn [app lit]. app_norm.
Qed.

Lemma event_name_plain c : forallb plain_char (text (event_name c)) = true.
Proof. unfold event_name. repeat (case_match; [by vm_compute|]). done. Qed.

Lemma line_fields_writable rec dropped : Forall writable (line_fields rec dropped).
Proof.
  unfold line_fields. constructor; [by apply writable_int|].
  repeat case_match; repeat (apply List.Forall_cons);
    first [apply List.Forall_nil | by apply writable_int | apply writable_args | idtac].
  destruct (plain_body _ (event_name_plain (code rec))) as (Hb & Hu & _). split; [done|].
  split; [by apply J_string|by apply quoted_text].
Qed.

(** A control byte can stand in a frame only as whitespace between tokens. *)
Definition clean (s : bytes) : Prop := Forall (fun c => ord c <> 10) s.

Lemma not_elem_of_clean s : clean s -> chr 10 ∉ s.
Proof. unfold clean. rewrite Forall_forall. intros H Hin. by apply (H _ Hin). Qed.

Lemma clean_app a b : clean (a ++ b) <-> clean a /\ clean b.
Proof. apply Forall_app. Qed.

Lemma clean_digits d : digits d -> clean d.
Proof. intros H. eapply Forall_impl; [exact H|]. cbn. intros c Hc%digit_ord. lia. Qed.

Lemma clean_dec z : clean (dec_bytes z).
Proof.
  destruct (Z.lt_ge_cases z 0) as [H|H].
  - destruct (dec_bytes_neg z H) as (d & -> & [_ Hd] & _). constructor; [done|by apply clean_digits].
  - destruct (dec_bytes_nonneg z H) as ([_ Hd] & _). by apply clean_digits.
Qed.

Lemma clean_lanes first l : clean (lanes_text first l).
Proof.
  revert first. induction l as [|v l IH]; intros first; cbn; [constructor|]. apply clean_app. split.
  - destruct first; [constructor|]. by apply Forall_singleton.
  - apply clean_app. split; [apply clean_dec|apply IH].
Qed.

Lemma clean_plain k : forallb plain_char k = true -> clean k.
Proof.
  rewrite forallb_forall. intros H. apply Forall_forall. intros c Hc%list_elem_of_In%H. unfold plain_char in Hc. zbool. lia.
Qed.

Definition clean_field (f : TopLevelField) : Prop := clean f.1 /\ clean f.2.

Lemma clean_quoted k : clean k -> clean (quoted k).
Proof. intros H. constructor; [done|]. apply clean_app. split; [done|by apply Forall_singleton]. Qed.

Lemma clean_member f : clean_field f -> clean (member f).
Proof. intros [H1 H2]. apply clean_app. split; [by apply clean_quoted|]. by constructor. Qed.

Lemma clean_joined f l : Forall clean_field (f :: l) -> clean (joined (f :: l)).
Proof.
  rewrite joined_cons. intros H. apply Forall_cons in H as [Hf Hl]. apply clean_app. split; [by apply clean_member|].
  induction Hl as [|g l Hg _ IH]; [constructor|]. cbn [tail_fields map concat app]. constructor; [done|].
  apply clean_app. split; [by apply clean_member|exact IH].
Qed.

Lemma line_fields_clean rec dropped : Forall clean_field (line_fields rec dropped).
Proof.
  assert (forall key z, forallb plain_char (text key) = true -> clean_field (int_f key z)) as Hi.
  { intros key z Hk. split; [by apply clean_plain|apply clean_dec]. }
  assert (clean_field (args_f rec)) as Ha.
  { split; [by apply clean_plain|]. constructor; [done|]. apply clean_app. split; [apply clean_lanes|by apply Forall_singleton]. }
  unfold line_fields. constructor; [by apply Hi|].
  repeat case_match; repeat (apply List.Forall_cons); first [apply List.Forall_nil | by apply Hi | exact Ha | idtac].
  split; [by apply clean_plain|]. apply (clean_quoted (text _)), clean_plain, event_name_plain.
Qed.

(** ** Reading a line back *)

(** What a member of a line stands for; a member is read by its type. *)
Inductive Value := VTime (z : Z) | VCount (z : Z) | VName (n : string) | VLanes (l : list Z).

(** An array of unsigned integers. *)
Definition read_lanes (tok : bytes) : option (list Z) :=
  match tok with
  | "["%char :: rest =>
      match rev rest with
      | "]"%char :: [] => Some []
      | "]"%char :: inner => mapM tok_u64 (split_commas (rev inner))
      | _ => None
      end
  | _ => None
  end.

Definition read_as (v : Value) (tok : bytes) : option Value :=
  match v with
  | VTime _ => VTime <$> tok_i64 tok
  | VCount _ => VCount <$> tok_u64 tok
  | VName _ => VName <$> tok_string tok
  | VLanes _ => VLanes <$> read_lanes tok
  end.

(** What the class comment of the writer says each record is written as. *)
Definition meaning (rec : TelemetryRecord) (dropped : Z) : list (string * Value) :=
  let name := event_name (code rec) in
  ("ts"%string, VTime (ts_ns rec)) ::
  (if decide (kind rec = kind_code KCounters /\ code rec = part_code Totals) then
     [("orders", VCount (lane rec 0)); ("fills", VCount (lane rec 1)); ("rejects", VCount (lane rec 2));
      ("cancels", VCount (lane rec 3)); ("conflated", VCount (lane rec 4)); ("sessions", VCount (lane rec 5));
      ("telemetry_dropped", VCount dropped)]
   else if decide (kind rec = kind_code KCounters /\ code rec = part_code Watermarks) then
     [("outbox_depth_hw", VCount (lane rec 0)); ("send_lag_max_ns", VCount (lane rec 1));
      ("stale_books_ignored", VCount (lane rec 2)); ("telemetry_pending_hw", VCount (lane rec 3));
      ("live_orders", VCount (lane rec 4))]
   else if decide (kind rec = kind_code KEvent /\ name <> ""%string) then
     [("event", VName name); ("args", VLanes (args rec))]
   else [("kind", VCount (kind rec)); ("code", VCount (code rec)); ("args", VLanes (args rec))])%string.

(** The values a record's members can have. *)
Definition record_ok (rec : TelemetryRecord) : Prop :=
  is_i64 (ts_ns rec) /\ is_u64 (kind rec) /\ is_u64 (code rec) /\ Forall is_u64 (args rec).

Definition reads (f : TopLevelField) (kv : string * Value) : Prop := f.1 = text kv.1 /\ read_as kv.2 f.2 = Some kv.2.

Lemma lane_u64 rec i : record_ok rec -> is_u64 (lane rec i).
Proof.
  intros (_ & _ & _ & Ha). unfold lane. destruct (nth_in_or_default i (args rec) 0) as [Hin| ->]; [|by vm_compute].
  rewrite Forall_forall in Ha. by apply Ha, list_elem_of_In.
Qed.

Lemma reads_time key z : is_i64 z -> reads (int_f key z) (key, VTime z).
Proof. intros H. split; [done|]. cbn. by rewrite tok_i64_dec. Qed.

Lemma reads_count key z : is_u64 z -> reads (int_f key z) (key, VCount z).
Proof. intros H. split; [done|]. cbn. by rewrite tok_u64_dec. Qed.

Lemma digits_no_comma d : digits d -> no_comma d.
Proof. intros H. eapply Forall_impl; [exact H|]. intros c Hc%digit_ord. apply Ascii.eqb_neq. intros ->. change (ord ",") with 44 in Hc. lia. Qed.

Lemma dec_no_comma z : no_comma (dec_bytes z).
Proof.
  destruct (Z.lt_ge_cases z 0) as [H|H].
  - destruct (dec_bytes_neg z H) as (d & -> & [_ Hd] & _). constructor; [done|by apply digits_no_comma].
  - destruct (dec_bytes_nonneg z H) as ([_ Hd] & _). by apply digits_no_comma.
Qed.

Lemma split_lanes v l : split_commas (lanes_text true (v :: l)) = map dec_bytes (v :: l).
Proof.
  revert v. induction l as [|x l IH]; intros v.
  - cbn. rewrite app_nil_r. apply split_plain, dec_no_comma.
  - change (lanes_text true (v :: x :: l)) with (dec_bytes v ++ ","%char :: lanes_text true (x :: l)).
    rewrite split_comma by apply dec_no_comma. by rewrite IH.
Qed.

Lemma dec_bytes_nonempty z : dec_bytes z <> [].
Proof.
  destruct (Z.lt_ge_cases z 0) as [H|H].
  - by destruct (dec_bytes_neg z H) as (d & -> & _).
  - by destruct (dec_bytes_nonneg z H) as ([? _] & _).
Qed.

Lemma read_lanes_text l : Forall is_u64 l -> read_lanes ("["%char :: lanes_text true l ++ ["]"%char]) = Some l.
Proof.
  intros Hl. cbn [read_lanes]. rewrite rev_app_distr. cbn [rev app].
  destruct l as [|v l]; [done|]. assert (rev (lanes_text true (v :: l)) <> []) as Hne.
  { intros E%(f_equal (@rev _)). rewrite rev_involutive in E. cbn in E. by apply app_eq_nil in E as [?%dec_bytes_nonempty _]. }
  destruct (rev _) as [|c inner] eqn:E; [done|]. rewrite <- E, rev_involutive, split_lanes.
  apply mapM_Some. apply Forall2_fmap_l. by apply Forall_Forall2_diag, (Forall_impl _ _ _ Hl), tok_u64_dec.
Qed.

Lemma reads_args rec : record_ok rec -> reads (args_f rec) ("args"%string, VLanes (args rec)).
Proof. intros (_ & _ & _ & Ha). split; [done|]. cbn [read_as fst snd args_f]. by rewrite read_lanes_text. Qed.

Lemma reads_name c : reads (text "event", plain_token (event_name c)) ("event"%string, VName (event_name c)).
Proof. split; [done|]. cbn [read_as snd]. by rewrite read_tag by apply event_name_plain. Qed.

Lemma fields_read rec dropped :
  record_ok rec -> is_u64 dropped -> Forall2 reads (line_fields rec dropped) (meaning rec dropped).
Proof.
  intros Hr Hd. pose proof Hr as (Hts & Hk & Hc & _). unfold line_fields, meaning. cbv zeta. cbn [kind_code part_code].
  constructor; [by apply reads_time|].
  destruct (Z.eqb_spec (kind rec) 0) as [E0|E0], (Z.eqb_spec (code rec) 0) as [E1|E1], (Z.eqb_spec (code rec) 1) as [E2|E2],
    (Z.eqb_spec (kind rec) 1) as [E3|E3], (String.eqb_spec (event_name (code rec)) "") as [E4|E4]; cbn [andb negb];
    repeat (case_decide; [try lia; try tauto|try tauto]);
    repeat constructor; cbn [fst snd]; try (by apply reads_count); try (by apply reads_count, lane_u64); try (by apply reads_args); apply reads_name.
Qed.

(** C29 Every record, recognised or not, becomes exactly one line: a strict JSON
    object (within the wire's own preflight) followed by one newline and containing
    none, whose members are, in order and with nothing between, the documented keys
    of the record; read by its type, each member gives back what the record holds:
    the timestamp, every counter, the event's name, kind and code, all the lanes of
    [args], and the ring's drop count. *)
Theorem emit_line_json rec dropped :
  exists l fields, emit_line rec dropped = l ++ [chr 10] /\ (chr 10 ∉ l) /\
    frame_preflight l = Some (inr fields) /\
    (record_ok rec -> is_u64 dropped -> Forall2 reads fields (meaning rec dropped)).
Proof.
  exists ("{"%char :: joined (line_fields rec dropped) ++ ["}"%char]), (line_fields rec dropped).
  assert (line_fields rec dropped <> []) as Hne by done.
  pose proof (line_fields_writable rec dropped) as Hw. split_and!; [apply emit_line_fields| | |apply fields_read].
  - apply not_elem_of_clean. constructor; [done|]. apply clean_app. split; [|by apply Forall_singleton].
    apply (clean_joined _ (tail (line_fields rec dropped))), line_fields_clean.
  - apply fields_accepted; [done|done| |].
    + unfold line_fields. repeat case_match; cbn; lia.
    + unfold line_fields. repeat case_match; cbn [fmap list_fmap fst int_f args_f];
        apply (bool_decide_unpack _); vm_compute; reflexivity.
Qed.

Lemma emit_line_json_witness :
  exists l fields, emit_line (mkRec 5 1 2 [1; 2; 3; 4; 5; 6]) 7 = l ++ [chr 10] /\ frame_preflight l = Some (inr fields) /\
    Forall2 reads fields [("ts", VTime 5); ("event", VName "hwm_close"); ("args", VLanes [1; 2; 3; 4; 5; 6])]%string.
Proof.
  destruct (emit_line_json (mkRec 5 1 2 [1; 2; 3; 4; 5; 6]) 7) as (l & fields & Hl & _ & Hp & Hr).
  exists l, fields. split; [exact Hl|]. split; [exact Hp|].
  apply Hr; [|by vm_compute]. split_and!; [by vm_compute..|]. repeat constructor; by vm_compute.
Defined.

(** ** Accounting *)

Definition tag (d : nat -> Z) (l : list TelemetryRecord) : list (TelemetryRecord * Z) := imap (fun i rec => (rec, d i)) l.

Lemma tag_fst d l : map fst (tag d l) = l.
Proof. unfold tag. revert d. induction l as [|x l IH]; intros d; [done|]. cbn. f_equal. apply (IH (d ∘ S)). Qed.

(** The records the passes drain, each with the drop count its line would carry. *)
Fixpoint deliveries (q : list TelemetryRecord) (ps : list Pass) : list (TelemetryRecord * Z) :=
  match ps with
  | [] => []
  | p :: ps' =>
      let q := q ++ ps_arrivals p in
      tag (ps_dropped p) (take (ps_seen p) q) ++ deliveries (drop (ps_seen p) q) ps'
  end.

Definition line_of (rd : TelemetryRecord * Z) : bytes := emit_line rd.1 rd.2.

(** What is left in the ring after them. *)
Fixpoint leftover (q : list TelemetryRecord) (ps : list Pass) : list TelemetryRecord :=
  match ps with [] => q | p :: ps' => leftover (drop (ps_seen p) (q ++ ps_arrivals p)) ps' end.

(** A pass with something to write whose flush fails: the stream's failure, as the
    environment decides it. *)
Definition loses (p : Pass) (q : list TelemetryRecord) : bool :=
  match take (ps_seen p) q with [] => false | _ => negb (ps_flush_ok p) end.
Fixpoint flush_failed (q : list TelemetryRecord) (ps : list Pass) : bool :=
  match ps with
  | [] => false
  | p :: ps' => let q := q ++ ps_arrivals p in loses p q || flush_failed (drop (ps_seen p) q) ps'
  end.

(** The deliveries up to and with those of the first failing pass. *)
Fixpoint formatted (q : list TelemetryRecord) (ps : list Pass) : list (TelemetryRecord * Z) :=
  match ps with
  | [] => []
  | p :: ps' =>
      let q := q ++ ps_arrivals p in
      tag (ps_dropped p) (take (ps_seen p) q) ++ if loses p q then [] else formatted (drop (ps_seen p) q) ps'
  end.

Lemma leftover_eq q ps : q ++ concat (map ps_arrivals ps) = map fst (deliveries q ps) ++ leftover q ps.
Proof.
  revert q. induction ps as [|p ps IH]; intros q; cbn; [by rewrite app_nil_r|].
  by rewrite map_app, tag_fst, <- app_assoc, <- IH, app_assoc, app_assoc, take_drop.
Qed.

Lemma formatted_prefix q ps : formatted q ps `prefix_of` deliveries q ps.
Proof.
  revert q. induction ps as [|p ps IH]; intros q; cbn [formatted deliveries]; [done|]. apply prefix_app.
  destruct (loses _ _); [apply prefix_nil|apply IH].
Qed.

Lemma formatted_all q ps : flush_failed q ps = false -> formatted q ps = deliveries q ps.
Proof.
  revert q. induction ps as [|p ps IH]; intros q; cbn [formatted deliveries flush_failed]; [done|].
  intros [-> H]%orb_false_iff. by rewrite IH.
Qed.

Lemma tag_length d l : length (tag d l) = length l.
Proof. unfold tag. apply length_imap. Qed.

(** The writer [w] after a stretch that left [q] in the ring, formatted [F], lost
    [n] records and set the stream's state and the latch to [f]. *)
Definition went (q : list TelemetryRecord) (F : list (TelemetryRecord * Z)) (f : bool) (n : nat) (w : Writer) : Writer :=
  mkWriter q (out_lines w ++ map line_of F) f f (failure_site_ w) (u64 (lost_lines_ w + Z.of_nat n)).

(** The latch and the stream agree, and the count is in range. *)
Definition settled (w : Writer) : Prop := stream_fail w = output_failed_ w /\ is_u64 (lost_lines_ w).

Lemma settled_went q F f n w : settled (went q F f n w).
Proof. split; [done|apply u64_range]. Qed.

Lemma went_went q F f n q' F' f' n' w : went q' F' f' n' (went q F f n w) = went q' (F ++ F') f' (n + n') w.
Proof. unfold went. cbn. rewrite map_app, app_assoc, u64_add_l. do 2 f_equal. lia. Qed.

Lemma drain_loop_eq n d wrote w :
  settled w -> (n <= length (queue w))%nat ->
  drain_loop n d wrote w =
    if output_failed_ w then (wrote, went (drop n (queue w)) [] true n w)
    else (wrote || (0 <? n)%nat, went (drop n (queue w)) (tag d (take n (queue w))) false 0 w).
Proof.
  revert d wrote w. induction n as [|n IH]; intros d wrote w [Hs Hu] Hn; cbn [drain_loop].
  { unfold went. destruct w as [q o sf f site lost]. cbn in *. rewrite Z.add_0_r, u64_small, Hs by done.
    destruct f; rewrite ?orb_false_r, app_nil_r; done. }
  destruct (queue w) as [|rec q] eqn:Eq; cbn [length] in Hn; [lia|].
  assert (drain_one (d 0%nat) rec (set_queue q w) =
    if output_failed_ w then went q [] true 1 w else went q [(rec, d 0%nat)] false 0 w) as E1.
  { unfold drain_one, went, set_queue. cbn. rewrite Hs. destruct (output_failed_ w) eqn:E; cbn; [by rewrite app_nil_r|].
    by rewrite Z.add_0_r, u64_small. }
  rewrite E1. destruct (output_failed_ w) eqn:E; rewrite IH by (apply settled_went || (cbn; lia)); cbn [output_failed_ went].
  - rewrite went_went. cbn. by rewrite orb_false_r.
  - rewrite went_went. cbn. by rewrite orb_true_r.
Qed.

Lemma run_pass_eq w p :
  settled w -> let q := queue w ++ ps_arrivals p in
  run_pass w p =
    if output_failed_ w then went (drop (ps_seen p) q) [] true (length (take (ps_seen p) q)) w
    else went (drop (ps_seen p) q) (tag (ps_dropped p) (take (ps_seen p) q)) (loses p q) 0 w.
Proof.
  intros Hs q. unfold run_pass, drain, pending. cbn [queue publish set_queue]. fold q.
  assert (take (Nat.min (ps_seen p) (length q)) q = take (ps_seen p) q /\
    drop (Nat.min (ps_seen p) (length q)) q = drop (ps_seen p) q) as [Et Ed].
  { destruct (decide (ps_seen p <= length q)%nat); [by rewrite Nat.min_l|].
    rewrite Nat.min_r, !take_ge, !drop_ge by lia. done. }
  rewrite drain_loop_eq by (exact Hs || cbn; fold q; lia). cbn [queue publish set_queue output_failed_]. fold q.
  rewrite Et, Ed, length_take. unfold loses. destruct (output_failed_ w); [done|]. unfold end_batch. cbn.
  destruct (ps_seen p) as [|n]; [done|]. destruct q as [|r q']; [done|]. cbn. by destruct (ps_flush_ok p).
Qed.

Lemma passes_eq ps w :
  settled w ->
  let D := deliveries (queue w) ps in
  let F := if output_failed_ w then [] else formatted (queue w) ps in
  passes ps w = went (leftover (queue w) ps) F (output_failed_ w || flush_failed (queue w) ps) (length D - length F) w.
Proof.
  cbv zeta. unfold passes. revert w. induction ps as [|p ps IH]; intros w [Hs Hu]; cbn [fold_left deliveries formatted leftover flush_failed].
  { unfold went. destruct w as [q o sf f site lost]. cbn in *. rewrite orb_false_r, Hs.
    destruct f; cbn; by rewrite app_nil_r, Z.add_0_r, u64_small. }
  rewrite run_pass_eq by by split. set (q := queue w ++ ps_arrivals p). set (B := tag _ _).
  assert (length (take (ps_seen p) q) = length B) as EB by (unfold B; by rewrite tag_length).
  destruct (output_failed_ w) eqn:E; [|destruct (loses p q)]; rewrite IH by apply settled_went;
    cbn [queue went output_failed_ orb]; rewrite went_went, ?EB, !length_app; f_equal; cbn; lia.
Qed.

(** C30 A finished run accounts for every record it took from the ring.  It takes
    them in order, none skipped or repeated; those up to and with the first pass
    whose flush fails, or all if none does, or none if the open marker's flush
    failed, are formatted into the stream, one line each between the two markers;
    every later one is counted as lost.  The close marker says whether the stream
    had failed before it, and the latch is set, and the one report made, with the
    site and the count, exactly when the open marker, a batch or the close marker
    failed to be flushed. *)
Theorem writer_accounts poll path opens marker_ok open_line ring w0 ps final c w report :
  new_writer poll path opens marker_ok open_line ring = Ret w0 ->
  writer_run ps final c w0 = (w, report) ->
  let all := ps ++ [final] in
  let D := deliveries ring all in
  let F := if marker_ok then formatted ring all else [] in
  let failed := negb marker_ok || flush_failed ring all in
  let left := leftover ring all ++ cl_arrivals c in
  ring ++ concat (map ps_arrivals all) = map fst D ++ leftover ring all /\
  F `prefix_of` D /\ (failed = false -> F = D) /\
  queue w = left /\
  out_lines w = open_line :: map line_of F ++
    [emit_close_line (cl_ts c) (Z.of_nat (Nat.min (cl_seen c) (length left))) (cl_dropped c) (negb failed)] /\
  lost_lines_ w = u64 (Z.of_nat (length D - length F)) /\
  output_failed_ w = (failed || negb (cl_flush_ok c)) /\
  report = if failed || negb (cl_flush_ok c)
           then Some (if marker_ok then "mid-run" else "at the open marker", lost_lines_ w)%string else None.
Proof.
  intros Hw Hrun all D F failed left. unfold new_writer in Hw. destruct (checked_poll poll) as [?|?|]; [|done..].
  destruct opens; [|done]. cbn [negb] in Hw. injection Hw as <-. set (w0 := mkWriter _ _ _ _ _ _) in *.
  split; [apply leftover_eq|]. split; [unfold F; destruct marker_ok; [apply formatted_prefix|apply prefix_nil]|].
  split; [unfold failed, F; destruct marker_ok; [apply formatted_all|done]|].
  assert (run_pass (passes ps w0) final = passes all w0) as E by (unfold passes, all; by rewrite fold_left_app).
  unfold writer_run in Hrun. rewrite E, passes_eq in Hrun by (split; [done|by vm_compute]).
  assert ((if output_failed_ w0 then [] else formatted (queue w0) all) = F) as EF by (unfold F; by destruct marker_ok).
  rewrite EF in Hrun. change (queue w0) with ring in Hrun. change (output_failed_ w0) with (negb marker_ok) in Hrun.
  fold D failed in Hrun. unfold close_run in Hrun. cbv zeta in Hrun.
  unfold pending in Hrun. cbn [publish set_queue went queue out_lines stream_fail output_failed_ failure_site_ lost_lines_] in Hrun.
  fold left in Hrun. change (lost_lines_ w0) with 0 in Hrun. rewrite Z.add_0_l, orb_assoc, orb_diag in Hrun.
  injection Hrun as <- <-. by destruct marker_ok.
Qed.

Definition demo_passes : list Pass :=
  [mkPass [] 0 (fun _ => 0) true; mkPass [mkRec 5 1 0 [1; 0; 0; 0; 0; 0]] 1 (fun _ => 0) true;
   mkPass [mkRec 6 0 0 [1; 2; 3; 4; 5; 6]] 1 (fun _ => 0) false].
Definition demo_final : Pass := mkPass [mkRec 7 7 7 [0; 0; 0; 0; 0; 0]; mkRec 8 7 7 [0; 0; 0; 0; 0; 0]] 2 (fun _ => 1) true.
Definition demo_close : Close := mkClose [] 0 9 2 true.

Lemma writer_accounts_witness :
  exists w0 w report, new_writer 10 "t.jsonl" true true (text "open") [] = Ret w0 /\
    writer_run demo_passes demo_final demo_close w0 = (w, report) /\
    lost_lines_ w = 2 /\ report = Some ("mid-run"%string, 2).
Proof.
  set (w0 := mkWriter [] [text "open"] false false "mid-run" 0).
  destruct (writer_run demo_passes demo_final demo_close w0) as [w report] eqn:E. exists w0, w, report.
  pose proof (writer_accounts 10 "t.jsonl" true true (text "open") [] w0 demo_passes demo_final demo_close w report
    eq_refl E) as (_ & _ & _ & _ & _ & Hl & _ & Hr).
  split; [reflexivity|]. split; [exact E|]. split; [rewrite Hl; vm_compute; reflexivity|].
  rewrite Hr, Hl. vm_compute. reflexivity.
Defined.
