(* ===== verification/ShmRing.v ===== *)
(** * The shared-memory ring ([cpp/include/mm/shm_ring.hpp])

    The 64-byte slots and the single-producer single-consumer ring over them.
    The segment is its header and its slot array; a slot is its bytes.  Each
    operation is first a whole function of the segment, then the sequence of
    shared accesses it makes, so that the two processes can interleave. *)

From Stdlib Require Import ZArith Ascii String List Lia.
From stdpp Require Import base tactics list option strings.
From S2P Require Import Prelude Utf8 Bytes TelemetryRing.

(** ** Message slots *)

Inductive ShmMsgType :=
| TopOfBook | NewOrder | CancelOrder | OrderAck | OrderFill | OrderReject | CancelReject | Heartbeat.

Definition type_code (t : ShmMsgType) : Z :=
  match t with
  | TopOfBook => 1 | NewOrder => 2 | CancelOrder => 3 | OrderAck => 4
  | OrderFill => 5 | OrderReject => 6 | CancelReject => 7 | Heartbeat => 8
  end.

Record ShmTopOfBook := mkShmTob {
  st_tag : Z; st_flags : Z; st_seq : Z; st_epoch : Z; st_md_seq : Z;
  st_bid_px : Z; st_bid_qty : Z; st_ask_px : Z; st_ask_qty : Z; st_venue_ns : Z }.
Record ShmNewOrder := mkShmNew {
  sn_tag : Z; sn_side : Z; sn_post_only : Z; sn_seq : Z; sn_epoch : Z; sn_md_seq : Z;
  sn_cl_id : Z; sn_px : Z; sn_qty : Z; sn_send_ts_ns : Z; sn_reserved : Z }.
Record ShmCancelOrder := mkShmCancel {
  sc_tag : Z; sc_pad : Z; sc_seq : Z; sc_epoch : Z; sc_cl_id : Z; sc_send_ts_ns : Z; sc_reserved : Z }.
Record ShmOrderAck := mkShmAck {
  sa_tag : Z; sa_pad : Z; sa_seq : Z; sa_epoch : Z; sa_cl_id : Z; sa_svc_ns : Z; sa_engine_ts_ns : Z; sa_reserved : Z }.
Record ShmOrderFill := mkShmFill {
  sf_tag : Z; sf_pad : Z; sf_seq : Z; sf_epoch : Z; sf_cl_id : Z; sf_md_seq : Z;
  sf_fill_px : Z; sf_fill_qty : Z; sf_reserved : Z }.
Record ShmOrderReject := mkShmReject {
  sr_tag : Z; sr_code : Z; sr_seq : Z; sr_epoch : Z; sr_cl_id : Z; sr_engine_ts_ns : Z; sr_reserved : Z }.

(** The default member initialisers of the two commands. *)
Definition default_new_order : ShmNewOrder := mkShmNew (type_code NewOrder) 1 0 0 0 0 0 0 0 0 0.
Definition default_cancel_order : ShmCancelOrder := mkShmCancel (type_code CancelOrder) 0 0 0 0 0 0.

(** *** Bytes of a slot

    A packed structure is its members, each little-endian in its own width; the
    members are all unsigned or 64-bit signed. *)

Inductive ShmMsg :=
| MsgTob (m : ShmTopOfBook)
| MsgNew (m : ShmNewOrder)
| MsgCancel (m : ShmCancelOrder)
| MsgAck (m : ShmOrderAck)
| MsgFill (m : ShmOrderFill)
| MsgReject (m : ShmOrderReject).

Inductive Width := U (bytes : nat) | I64.
Definition width_bytes (w : Width) : nat := match w with U n => n | I64 => 8 end.
Definition in_width (w : Width) (z : Z) : Prop :=
  match w with U n => 0 <= z < 256 ^ Z.of_nat n | I64 => is_i64 z end.

Definition layout (t : ShmMsgType) : list Width :=
  match t with
  | TopOfBook => [U 2; U 2; U 4; U 8; U 8; I64; I64; I64; I64; I64]
  | NewOrder => [U 2; U 1; U 1; U 4; U 8; U 8; U 8; I64; I64; I64; U 8]
  | CancelOrder => [U 2; U 2; U 4; U 8; U 8; I64; U 32]
  | OrderAck => [U 2; U 2; U 4; U 8; U 8; U 8; I64; U 24]
  | OrderFill => [U 2; U 2; U 4; U 8; U 8; U 8; I64; I64; U 16]
  | OrderReject => [U 2; U 2; U 4; U 8; U 8; I64; U 32]
  | CancelReject | Heartbeat => [U 2; U 62]
  end.

Definition msg_type (m : ShmMsg) : ShmMsgType :=
  match m with
  | MsgTob _ => TopOfBook | MsgNew _ => NewOrder | MsgCancel _ => CancelOrder
  | MsgAck _ => OrderAck | MsgFill _ => OrderFill | MsgReject _ => OrderReject
  end.

Definition members (m : ShmMsg) : list Z :=
  match m with
  | MsgTob (mkShmTob a b c d e f g h i j) => [a; b; c; d; e; f; g; h; i; j]
  | MsgNew (mkShmNew a b c d e f g h i j k) => [a; b; c; d; e; f; g; h; i; j; k]
  | MsgCancel (mkShmCancel a b c d e f g) => [a; b; c; d; e; f; g]
  | MsgAck (mkShmAck a b c d e f g h) => [a; b; c; d; e; f; g; h]
  | MsgFill (mkShmFill a b c d e f g h i) => [a; b; c; d; e; f; g; h; i]
  | MsgReject (mkShmReject a b c d e f g) => [a; b; c; d; e; f; g]
  end.

Definition write_members (ws : list Width) (zs : list Z) : bytes :=
  concat (zip_with (fun w z => le_bytes (width_bytes w) z) ws zs).

Definition read_width (w : Width) (bs : bytes) : Z :=
  let n := le_value bs in
  match w with U _ => n | I64 => if n <? two63 then n else n - two64 end.
Fixpoint read_members (ws : list Width) (bs : bytes) : list Z :=
  match ws with
  | [] => []
  | w :: ws' => read_width w (take (width_bytes w) bs) :: read_members ws' (drop (width_bytes w) bs)
  end.

(** The slot a message is written into, and the message a reader finds there by
    the tag. *)
Definition slot_bytes (m : ShmMsg) : bytes := write_members (layout (msg_type m)) (members m).

Definition read_slot_as (bs : bytes) : option ShmMsg :=
  let tag := le_value (take 2 bs) in
  let get t := read_members (layout t) bs in
  if tag =? type_code TopOfBook then
    match get TopOfBook with [a; b; c; d; e; f; g; h; i; j] => Some (MsgTob (mkShmTob a b c d e f g h i j)) | _ => None end
  else if tag =? type_code NewOrder then
    match get NewOrder with [a; b; c; d; e; f; g; h; i; j; k] => Some (MsgNew (mkShmNew a b c d e f g h i j k)) | _ => None end
  else if tag =? type_code CancelOrder then
    match get CancelOrder with [a; b; c; d; e; f; g] => Some (MsgCancel (mkShmCancel a b c d e f g)) | _ => None end
  else if tag =? type_code OrderAck then
    match get OrderAck with [a; b; c; d; e; f; g; h] => Some (MsgAck (mkShmAck a b c d e f g h)) | _ => None end
  else if tag =? type_code OrderFill then
    match get OrderFill with [a; b; c; d; e; f; g; h; i] => Some (MsgFill (mkShmFill a b c d e f g h i)) | _ => None end
  else if tag =? type_code OrderReject then
    match get OrderReject with [a; b; c; d; e; f; g] => Some (MsgReject (mkShmReject a b c d e f g)) | _ => None end
  else None.

(** Every member fits its width, and the tag names the structure. *)
Definition msg_ok (m : ShmMsg) : Prop :=
  Forall2 in_width (layout (msg_type m)) (members m) /\ hd_error (members m) = Some (type_code (msg_type m)).

Lemma read_written w z : in_width w z -> read_width w (le_bytes (width_bytes w) z) = z.
Proof.
  unfold read_width. rewrite le_value_bytes. destruct w as [n|]; cbn [in_width width_bytes]; intros Hz; [by apply Z.mod_small|].
  change (256 ^ Z.of_nat 8) with two64. unfold is_i64 in Hz. destruct (Z.ltb_spec z 0).
  - rewrite <- (Z_mod_plus_full z 1), Z.mod_small by (unfold two63, two64 in *; lia).
    rewrite (proj2 (Z.ltb_ge _ _)); unfold two63, two64 in *; lia.
  - rewrite Z.mod_small by (unfold two63, two64 in *; lia). by rewrite (proj2 (Z.ltb_lt _ _)) by lia.
Qed.

Lemma read_write_members ws zs : Forall2 in_width ws zs -> read_members ws (write_members ws zs) = zs.
Proof.
  induction 1 as [|w z ws zs Hz _ IH]; [done|]. unfold write_members in *. cbn [zip_with concat read_members].
  rewrite take_app_length', drop_app_length' by (symmetry; apply length_le_bytes). by rewrite read_written, IH.
Qed.

Lemma length_write_members ws zs :
  length ws = length zs -> length (write_members ws zs) = sum_list (map width_bytes ws).
Proof.
  revert zs. unfold write_members. induction ws as [|w ws IH]; intros [|z zs]; cbn; try done. intros [= Hl].
  by rewrite length_app, length_le_bytes, IH.
Qed.

(** Each structure fills its slot exactly, and reads back by its tag. *)
Theorem slot_roundtrip m : msg_ok m -> length (slot_bytes m) = 64%nat /\ read_slot_as (slot_bytes m) = Some m.
Proof.
  intros [Hf Htag]. pose proof (read_write_members _ _ Hf) as Hr. fold (slot_bytes m) in Hr. split.
  - unfold slot_bytes. rewrite length_write_members by (by eapply Forall2_length). by destruct m.
  - assert (le_value (take 2 (slot_bytes m)) = type_code (msg_type m)) as E.
    { assert (exists ws, layout (msg_type m) = U 2 :: ws) as [ws Ew] by (destruct m; by eexists).
      rewrite Ew in Hr. cbn [read_members width_bytes read_width] in Hr. rewrite <- Hr in Htag. by injection Htag. }
    unfold read_slot_as. rewrite E. destruct m as [[]|[]|[]|[]|[]|[]]; cbn [msg_type type_code] in *; cbn [Z.eqb Pos.eqb]; by rewrite Hr.
Qed.

(** ** The segment *)

Definition kMagic : Z := 0x53484D52.
Definition kSlotBytes : Z := 64.
Definition kHeaderBytes : Z := 192.
Definition kMaxCapacity : Z := 1048576.
Abbreviation ShmSlot := bytes.
Definition zero_slot : ShmSlot := repeat (chr 0) 64.

Record Segment := mkSegment {
  head : Z;
  tail : Z;
  dropped : Z;
  magic : Z;
  capacity : Z;
  capacity_mask : Z;
  slot_size : Z;
  slots : list ShmSlot;
}.
Definition set_head (f : Z -> Z) (r : Segment) : Segment :=
  mkSegment (f (head r)) (tail r) (dropped r) (magic r) (capacity r) (capacity_mask r) (slot_size r) (slots r).
Definition set_tail (f : Z -> Z) (r : Segment) : Segment :=
  mkSegment (head r) (f (tail r)) (dropped r) (magic r) (capacity r) (capacity_mask r) (slot_size r) (slots r).
Definition set_dropped (f : Z -> Z) (r : Segment) : Segment :=
  mkSegment (head r) (tail r) (f (dropped r)) (magic r) (capacity r) (capacity_mask r) (slot_size r) (slots r).
Definition set_slots (f : list ShmSlot -> list ShmSlot) (r : Segment) : Segment :=
  mkSegment (head r) (tail r) (dropped r) (magic r) (capacity r) (capacity_mask r) (slot_size r) (f (slots r)).

(** What [memset] and the header stores of [create] leave. *)
Definition blank (cap : Z) : Segment := mkSegment 0 0 0 kMagic cap (cap - 1) kSlotBytes (repeat zero_slot (Z.to_nat cap)).

Definition segment_bytes (r : Segment) : Z := kHeaderBytes + kSlotBytes * Z.of_nat (length (slots r)).

Definition normalize_name (name : string) : outcome string :=
  match name with
  | EmptyString => Throw (invalid_argument "ShmRing: name cannot be empty")
  | String "/" _ => Ret name
  | _ => Ret ("/" ++ name)%string
  end.

(** What the operating system answers. *)
Class Shm := {
  shm_creates : string -> bool;          (* [shm_open] with [O_CREAT | O_EXCL] *)
  shm_opens : string -> bool;            (* [shm_open] of an existing segment *)
  shm_truncates : bool;
  shm_maps : bool;
  strerror : string;
}.

Section Segment.
Context `{Shm}.

Definition create (name : string) (min_capacity : Z) : outcome Segment :=
  if min_capacity =? 0 then Throw (invalid_argument "ShmRing: capacity must be > 0")
  else if kMaxCapacity <? min_capacity then Throw (invalid_argument "ShmRing: capacity exceeds maximum 1048576")
  else
    let cap := bit_ceil min_capacity in
    match normalize_name name with
    | Ret posix_name =>
        if negb (shm_creates posix_name) && negb (shm_opens posix_name) then
          Throw (runtime_error ("ShmRing: failed to create shm segment " ++ posix_name ++ ": " ++ strerror))
        else if negb shm_truncates then
          Throw (runtime_error ("ShmRing: failed to ftruncate shm segment: " ++ strerror))
        else if negb shm_maps then
          Throw (runtime_error ("ShmRing: failed to mmap shm segment: " ++ strerror))
        else Ret (blank cap)
    | Throw e => Throw e
    | UB => UB
    end.

(** [None] is a segment smaller than a header. *)
Definition attach (name : string) (found : option Segment) : outcome Segment :=
  match normalize_name name with
  | Ret posix_name =>
      if negb (shm_opens posix_name) then
        Throw (runtime_error ("ShmRing: failed to attach to shm segment " ++ posix_name ++ ": " ++ strerror))
      else
        match found with
        | None => Throw (runtime_error ("ShmRing: invalid shm segment size for " ++ posix_name))
        | Some r =>
            if negb shm_maps then Throw (runtime_error ("ShmRing: failed to mmap shm segment: " ++ strerror))
            else if negb (magic r =? kMagic) || (capacity r =? 0) || negb (slot_size r =? kSlotBytes) then
              Throw (runtime_error ("ShmRing: corrupted header in shm segment " ++ posix_name))
            else Ret r
        end
  | Throw e => Throw e
  | UB => UB
  end.
End Segment.

(** ** The operations, each run to its end *)

(** [slots_[i & mask] = slot]: past the array the access is undefined. *)
Definition write_slot (i : Z) (slot : ShmSlot) : M Segment unit :=
  r ← get;
  let n := Z.to_nat (Z.land i (capacity_mask r)) in
  if (n <? length (slots r))%nat then modify (set_slots (<[n := slot]>)) else ub.
Definition read_slot (i : Z) : M Segment ShmSlot :=
  r ← get;
  deref (slots r !! Z.to_nat (Z.land i (capacity_mask r))).

Definition bump_dropped : M Segment unit := modify (set_dropped (fun n => u64 (n + 1))).

Definition try_push (slot : ShmSlot) (count_drop : bool) : M Segment bool :=
  r ← get;
  if capacity r <=? u64 (tail r - head r) then
    (if count_drop then bump_dropped else mret tt);;
    mret false
  else
    write_slot (tail r) slot;;
    modify (set_tail (fun _ => u64 (tail r + 1)));;
    mret true.

Definition push_overwrite (slot : ShmSlot) : M Segment unit :=
  r ← get;
  (if capacity r <=? u64 (tail r - head r) then
     modify (set_head (fun _ => u64 (head r + 1)));;
     bump_dropped
   else mret tt);;
  write_slot (tail r) slot;;
  modify (set_tail (fun _ => u64 (tail r + 1))).

Definition try_pop : M Segment (option ShmSlot) :=
  r ← get;
  if tail r =? head r then mret None
  else
    slot ← read_slot (head r);
    modify (set_head (fun _ => u64 (head r + 1)));;
    mret (Some slot).

Definition pending (r : Segment) : Z := u64 (tail r - head r).

(** ** A ring used by one side at a time is a bounded queue *)

Inductive ShmOp := OpPush (slot : ShmSlot) (count_drop : bool) | OpOverwrite (slot : ShmSlot) | OpPop | OpPending.
Inductive ShmRes := RPushed (ok : bool) | RDone | RPopped (slot : option ShmSlot) | RPending (n : Z).

Definition shm_op (op : ShmOp) : M Segment ShmRes :=
  match op with
  | OpPush slot count_drop => ok ← try_push slot count_drop; mret (RPushed ok)
  | OpOverwrite slot => push_overwrite slot;; mret RDone
  | OpPop => slot ← try_pop; mret (RPopped slot)
  | OpPending => r ← get; mret (RPending (pending r))
  end.

Fixpoint shm_run (ops : list ShmOp) : M Segment (list ShmRes) :=
  match ops with
  | [] => mret []
  | op :: ops' => res ← shm_op op; rest ← shm_run ops'; mret (res :: rest)
  end.

(** The specification: a bounded queue and the messages it dropped. *)
Definition queue_op (cap : nat) (op : ShmOp) (q : list ShmSlot) (lost : nat) : ShmRes * list ShmSlot * nat :=
  match op with
  | OpPush slot count_drop =>
      if (length q <? cap)%nat then (RPushed true, q ++ [slot], lost)
      else (RPushed false, q, if count_drop then S lost else lost)
  | OpOverwrite slot =>
      if (length q <? cap)%nat then (RDone, q ++ [slot], lost) else (RDone, List.tl q ++ [slot], S lost)
  | OpPop => match q with [] => (RPopped None, [], lost) | x :: q' => (RPopped (Some x), q', lost) end
  | OpPending => (RPending (Z.of_nat (length q)), q, lost)
  end.

Fixpoint queue_run (cap : nat) (ops : list ShmOp) (q : list ShmSlot) (lost : nat) : list ShmRes * list ShmSlot * nat :=
  match ops with
  | [] => ([], q, lost)
  | op :: ops' =>
      let '(res, q', lost') := queue_op cap op q lost in
      let '(rest, q'', lost'') := queue_run cap ops' q' lost' in
      (res :: rest, q'', lost'')
  end.

(** The queue [q] lies in the segment from the index [h] on. *)
Record holds (cap : nat) (h : Z) (q : list ShmSlot) (lost : nat) (r : Segment) : Prop := {
  ho_pow : exists k, 0 <= k <= 20 /\ Z.of_nat cap = 2 ^ k;
  ho_cap : capacity r = Z.of_nat cap;
  ho_mask : capacity_mask r = Z.of_nat cap - 1;
  ho_slots : length (slots r) = cap;
  ho_head : head r = u64 h;
  ho_tail : tail r = u64 (h + Z.of_nat (length q));
  ho_fits : (length q <= cap)%nat;
  ho_dropped : dropped r = u64 (Z.of_nat lost);
  ho_items : forall i x, q !! i = Some x -> slots r !! Z.to_nat ((h + Z.of_nat i) mod Z.of_nat cap) = Some x;
}.

Section Queue.
Context {cap : nat} {h : Z} {q : list ShmSlot} {lost : nat} {r : Segment} (Hr : holds cap h q lost r).

Lemma ho_cap_pos : 1 <= Z.of_nat cap <= 1048576.
Proof.
  destruct (ho_pow _ _ _ _ _ Hr) as (k & Hk & ->).
  split; [apply (Z.pow_le_mono_r 2 0 k)|apply (Z.pow_le_mono_r 2 k 20)]; lia.
Qed.

Lemma slot_at n : Z.land (u64 n) (capacity_mask r) = n mod Z.of_nat cap.
Proof. rewrite (ho_mask _ _ _ _ _ Hr). destruct (ho_pow _ _ _ _ _ Hr) as (k & Hk & ->). apply u64_mask. lia. Qed.

Lemma pending_length : u64 (tail r - head r) = Z.of_nat (length q).
Proof.
  rewrite (ho_tail _ _ _ _ _ Hr), (ho_head _ _ _ _ _ Hr). pose proof ho_cap_pos. pose proof (ho_fits _ _ _ _ _ Hr).
  rewrite u64_diff; unfold two64 in *; lia.
Qed.

Lemma full_test : (capacity r <=? u64 (tail r - head r)) = negb (length q <? cap)%nat.
Proof.
  rewrite pending_length, (ho_cap _ _ _ _ _ Hr). pose proof (ho_fits _ _ _ _ _ Hr).
  destruct (Nat.ltb_spec (length q) cap); cbn; [apply Z.leb_gt|apply Z.leb_le]; lia.
Qed.

Lemma empty_test : (tail r =? head r) = bool_decide (q = []).
Proof.
  pose proof pending_length as Hp. destruct q as [|x l]; cbn [length] in *.
  - rewrite (ho_tail _ _ _ _ _ Hr), (ho_head _ _ _ _ _ Hr). cbn [length]. rewrite Z.add_0_r. apply Z.eqb_refl.
  - rewrite bool_decide_eq_false_2 by done. apply Z.eqb_neq. intros E. rewrite E, Z.sub_diag in Hp. change (u64 0) with 0 in Hp. lia.
Qed.

(** The slot past the queue is free: none of its messages lies there. *)
Lemma append_item s i x :
  (length q < cap)%nat -> (q ++ [s]) !! i = Some x ->
  <[Z.to_nat ((h + Z.of_nat (length q)) mod Z.of_nat cap) := s]> (slots r) !! Z.to_nat ((h + Z.of_nat i) mod Z.of_nat cap) = Some x.
Proof.
  intros Hlt Hi. pose proof ho_cap_pos as Hc.
  pose proof (Z.mod_pos_bound (h + Z.of_nat (length q)) (Z.of_nat cap) ltac:(lia)) as Hb.
  apply lookup_app_Some in Hi as [Hi|[Hge Hi]].
  - rewrite list_lookup_insert_ne; [by apply (ho_items _ _ _ _ _ Hr)|]. apply lookup_lt_Some in Hi.
    pose proof (Z.mod_pos_bound (h + Z.of_nat i) (Z.of_nat cap) ltac:(lia)) as Hbi. intros E. apply Z2Nat.inj in E; [|lia..].
    assert ((Z.of_nat (length q) - Z.of_nat i) mod Z.of_nat cap = 0) as Hz.
    { replace (Z.of_nat (length q) - Z.of_nat i) with ((h + Z.of_nat (length q)) - (h + Z.of_nat i)) by lia.
      rewrite Zminus_mod, E, Z.sub_diag. apply Z.mod_0_l. lia. }
    rewrite Z.mod_small in Hz; lia.
  - apply list_lookup_singleton_Some in Hi as [Hi <-]. replace i with (length q) by lia.
    apply list_lookup_insert_eq. rewrite (ho_slots _ _ _ _ _ Hr). lia.
Qed.

(** Writing at the tail and advancing it appends to the queue. *)
Lemma write_tail s o :
  (length q < cap)%nat ->
  exists r1, write_slot (tail r) s r o = (Ret tt, r1, o) /\
    holds cap h (q ++ [s]) lost (set_tail (fun _ => u64 (tail r + 1)) r1).
Proof.
  intros Hlt. pose proof ho_cap_pos as Hc. unfold write_slot, modify, mbind, M_bind, get.
  rewrite (ho_tail _ _ _ _ _ Hr), slot_at, (ho_slots _ _ _ _ _ Hr).
  pose proof (Z.mod_pos_bound (h + Z.of_nat (length q)) (Z.of_nat cap) ltac:(lia)) as Hb.
  rewrite (proj2 (Nat.ltb_lt _ _)) by lia. eexists. split; [reflexivity|].
  destruct Hr as [P1 P2 P3 P4 P5 P6 P7 P8 P9]. constructor; cbn; try done.
  - by rewrite length_insert.
  - rewrite u64_add_l, length_app. f_equal. cbn. lia.
  - rewrite length_app. cbn. lia.
  - intros i x Hi. by apply append_item.
Qed.
End Queue.

(** Taking the oldest message away. *)
Lemma holds_tl cap h x q lost r :
  holds cap h (x :: q) lost r -> holds cap (h + 1) q lost (set_head (fun _ => u64 (head r + 1)) r).
Proof.
  intros [P1 P2 P3 P4 P5 P6 P7 P8 P9]. constructor; cbn [set_head capacity capacity_mask slots head tail dropped length] in *; try done.
  - by rewrite P5, u64_add_l.
  - rewrite P6. f_equal. lia.
  - lia.
  - intros i y Hi. rewrite <- (P9 (S i) y Hi). f_equal. f_equal. f_equal. lia.
Qed.

Lemma holds_drop cap h q lost r : holds cap h q lost r -> holds cap h q (S lost) (set_dropped (fun n => u64 (n + 1)) r).
Proof.
  intros [P1 P2 P3 P4 P5 P6 P7 P8 P9]. constructor; cbn [set_dropped capacity capacity_mask slots head tail dropped] in *; try done.
  rewrite P8, u64_add_l. f_equal. lia.
Qed.

(** What a push and a pop do to the queue. *)

Section Client.
Context {cap : nat} {h : Z} {q : list ShmSlot} {lost : nat} {r : Segment} (Hr : holds cap h q lost r).

Lemma push_room slot count o : (length q < cap)%nat ->
  exists r', try_push slot count r o = (Ret true, r', o) /\ holds cap h (q ++ [slot]) lost r'.
Proof.
  intros Hlt. unfold try_push, mbind, M_bind, get. rewrite (full_test Hr), (proj2 (Nat.ltb_lt _ _) Hlt). cbn [negb].
  destruct (write_tail Hr slot o Hlt) as (r1 & E & Hr'). rewrite E. eexists. by split; [|exact Hr'].
Qed.

Lemma push_full slot o : (cap <= length q)%nat -> try_push slot false r o = (Ret false, r, o).
Proof.
  intros Hge. unfold try_push, mbind, M_bind, get. by rewrite (full_test Hr), (proj2 (Nat.ltb_ge _ _) Hge).
Qed.

Lemma pop_none o : q = [] -> try_pop r o = (Ret None, r, o).
Proof. intros Hq. unfold try_pop, mbind, M_bind, get. by rewrite (empty_test Hr), bool_decide_eq_true_2. Qed.
End Client.

Lemma pop_first cap h slot q lost r o : holds cap h (slot :: q) lost r ->
  exists r', try_pop r o = (Ret (Some slot), r', o) /\ holds cap (h + 1) q lost r'.
Proof.
  intros Hr. unfold try_pop, mbind, M_bind, get. rewrite (empty_test Hr). cbn.
  rewrite (ho_head _ _ _ _ _ Hr). pose proof (ho_items _ _ _ _ _ Hr 0%nat slot eq_refl) as Hx.
  rewrite Z.add_0_r in Hx. unfold read_slot, mbind, M_bind, get. rewrite (slot_at Hr), Hx. cbn.
  eexists. split; [reflexivity|]. rewrite <- (ho_head _ _ _ _ _ Hr). by apply (holds_tl _ _ slot).
Qed.

Lemma op_refines cap h q lost r op o :
  holds cap h q lost r ->
  exists h' r', shm_op op r o = (Ret (queue_op cap op q lost).1.1, r', o) /\
    holds cap h' (queue_op cap op q lost).1.2 (queue_op cap op q lost).2 r'.
Proof.
  intros Hr. pose proof (ho_fits _ _ _ _ _ Hr) as Hfit. pose proof (ho_cap_pos Hr) as Hc.
  destruct op as [s count|s| |]; cbn [shm_op queue_op].
  - destruct (Nat.ltb_spec (length q) cap) as [Hlt|Hge].
    + destruct (push_room Hr s count o Hlt) as (r' & E & Hr'). unfold mbind, M_bind. rewrite E. by exists h, r'.
    + unfold try_push, mbind, M_bind, get. rewrite (full_test Hr), (proj2 (Nat.ltb_ge _ _)) by lia.
      destruct count; cbn; exists h; eexists; (split; [reflexivity|]); [by apply holds_drop|exact Hr].
  - unfold push_overwrite, mbind, M_bind, get. rewrite (full_test Hr). destruct (Nat.ltb_spec (length q) cap) as [Hlt|Hge]; cbn [negb].
    + destruct (write_tail Hr s o Hlt) as (r1 & E & Hr'). cbn. rewrite E. exists h. eexists. by split; [|exact Hr'].
    + destruct q as [|x l]; [cbn in Hge; lia|]. pose proof (holds_drop _ _ _ _ _ (holds_tl _ _ _ _ _ _ Hr)) as Hr1.
      set (r1 := set_dropped _ _) in Hr1. cbn [List.tl]. cbn [length] in Hfit.
      destruct (write_tail Hr1 s o ltac:(lia)) as (r2 & E & Hr'). change (tail r1) with (tail r) in E, Hr'.
      unfold bump_dropped, modify. fold r1. rewrite E. exists (h + 1). eexists. by split; [|exact Hr'].
  - destruct q as [|x l].
    + unfold mbind, M_bind. rewrite (pop_none Hr o eq_refl). by exists h, r.
    + destruct (pop_first _ _ _ _ _ _ o Hr) as (r' & E & Hr'). unfold mbind, M_bind. rewrite E. by exists (h + 1), r'.
  - exists h, r. split; [|exact Hr]. unfold mbind, M_bind, get, pending. by rewrite (pending_length Hr).
Qed.

Lemma run_refines cap ops h q lost r o :
  holds cap h q lost r ->
  exists h' r', shm_run ops r o = (Ret (queue_run cap ops q lost).1.1, r', o) /\
    holds cap h' (queue_run cap ops q lost).1.2 (queue_run cap ops q lost).2 r'.
Proof.
  revert h q lost r. induction ops as [|op ops IH]; intros h q lost r Hr; cbn [shm_run queue_run]; [by exists h, r|].
  destruct (op_refines _ _ _ _ _ op o Hr) as (h1 & r1 & E1 & Hr1).
  destruct (queue_op cap op q lost) as [[res q1] lost1]. cbn [fst snd] in *.
  destruct (IH _ _ _ _ Hr1) as (h2 & r2 & E2 & Hr2). exists h2, r2.
  destruct (queue_run cap ops q1 lost1) as [[rest q2] lost2]. cbn [fst snd] in *. split; [|exact Hr2].
  unfold mbind, M_bind. by rewrite E1, E2.
Qed.

Lemma blank_holds n : 0 < n <= kMaxCapacity -> holds (Z.to_nat (bit_ceil n)) 0 [] 0 (blank (bit_ceil n)).
Proof.
  intros [Hn Hmax].
  assert (0 <= Z.log2_up n <= 20) as Hk.
  { split; [apply Z.log2_up_nonneg|]. apply Z.log2_up_le_pow2; [lia|]. exact Hmax. }
  pose proof (Z.pow_pos_nonneg 2 (Z.log2_up n)). unfold bit_ceil, blank.
  constructor; cbn [capacity capacity_mask slots head tail dropped length]; rewrite ?Z2Nat.id by lia; try done.
  - by exists (Z.log2_up n).
  - by rewrite repeat_length.
  - lia.
Qed.

Lemma create_holds `{Shm} name n r :
  0 <= n -> create name n = Ret r -> holds (Z.to_nat (bit_ceil n)) 0 [] 0 r.
Proof.
  intros Hn. unfold create. destruct (Z.eqb_spec n 0); [done|]. destruct (Z.ltb_spec kMaxCapacity n) as [|Hmax]; [done|].
  destruct (normalize_name name); [|done..]. repeat (case_match; [done|]). intros [= <-]. apply blank_holds. lia.
Qed.

(** C34 A created ring whose operations do not overlap is a bounded queue: for
    every sequence of pushes, overwriting pushes, pops and size queries - across
    the wrap of the 64-bit indices - it answers as the queue of the capacity
    rounded up to a power of two does, an overwriting push dropping the oldest
    message, every drop counted modulo 2^64, and no slot outside the array
    touched. *)
Theorem shm_ring_refines_queue `{Shm} name n ops r :
  0 <= n -> create name n = Ret r ->
  let '(answers, q, lost) := queue_run (Z.to_nat (bit_ceil n)) ops [] 0 in
  exists r', run (shm_run ops) r = (Ret answers, r') /\
    pending r' = Z.of_nat (length q) /\ dropped r' = u64 (Z.of_nat lost).
Proof.
  intros Hn Hc. pose proof (create_holds name n r Hn Hc) as Hr.
  destruct (run_refines _ ops _ _ _ _ [] Hr) as (h' & r' & E & Hr').
  destruct (queue_run _ ops [] 0) as [[answers q] lost]. cbn [fst snd] in *. exists r'. unfold run. rewrite E.
  split; [done|]. split; [exact (pending_length Hr')|apply Hr'].
Qed.

(** ** The shared accesses of an overwriting push and of a pop *)

Inductive Pusher := UIdle | ULoaded (t : Z) | UChecked (t h : Z) | UAdvanced (t : Z) | UWritten (t : Z).
Inductive Popper := QIdle | QLoaded (h : Z) | QChecked (h : Z) | QRead (h : Z) (slot : ShmSlot).

(** One access of [push_overwrite(slot)]; [true] once it has returned. *)
Definition push_access (slot : ShmSlot) (u : Pusher) : M Segment (Pusher * bool) :=
  r ← get;
  match u with
  | UIdle => mret (ULoaded (tail r), false)
  | ULoaded t => mret (UChecked t (head r), false)
  | UChecked t h =>
      (if capacity r <=? u64 (t - h) then modify (set_head (fun _ => u64 (h + 1)));; bump_dropped else mret tt);;
      mret (UAdvanced t, false)
  | UAdvanced t => write_slot t slot;; mret (UWritten t, false)
  | UWritten t => modify (set_tail (fun _ => u64 (t + 1)));; mret (UIdle, true)
  end.

(** One access of [try_pop]; the message once it has returned one. *)
Definition pop_access (q : Popper) : M Segment (Popper * option ShmSlot) :=
  r ← get;
  match q with
  | QIdle => mret (QLoaded (head r), None)
  | QLoaded h => mret (if tail r =? h then QIdle else QChecked h, None)
  | QChecked h => slot ← read_slot h; mret (QRead h slot, None)
  | QRead h slot => modify (set_head (fun _ => u64 (h + 1)));; mret (QIdle, Some slot)
  end.

(** A schedule of the two processes: the producer's turns are [true]. *)
Fixpoint interleave (sched : list bool) (msgs : list ShmSlot) (u : Pusher) (q : Popper) : M Segment (list ShmSlot) :=
  match sched with
  | [] => mret []
  | true :: sched' =>
      match msgs with
      | [] => interleave sched' msgs u q
      | m :: msgs' =>
          ur ← push_access m u;
          interleave sched' (if snd ur : bool then msgs' else msgs) ur.1 q
      end
  | false :: sched' =>
      qr ← pop_access q;
      rest ← interleave sched' msgs u qr.1;
      mret (match qr.2 with Some slot => slot :: rest | None => rest end)
  end.

Definition turns (n : nat) (b : bool) : list bool := repeat b n.
Definition slot_of (c : ascii) : ShmSlot := repeat c 64.

(** Not interleaved, the accesses of a push are the push. *)
Lemma push_accesses slot r o :
  (a ← push_access slot UIdle; b ← push_access slot a.1; c ← push_access slot b.1; d ← push_access slot c.1;
   e ← push_access slot d.1; mret (snd e)) r o = (push_overwrite slot;; mret true) r o.
Proof.
  unfold push_overwrite, push_access, bump_dropped, mbind, M_bind, get, modify, mret, M_ret. cbn.
  destruct (capacity r <=? u64 (tail r - head r)); cbn; by destruct (write_slot _ _ _ _) as [[[] ?] ?].
Qed.

#[local] Instance demo_shm : Shm := {| shm_creates _ := true; shm_opens _ := true; shm_truncates := true; shm_maps := true; strerror := "" |}.

Definition demo_ring : Segment := match create "ring" 2 with Ret r => r | _ => mkSegment 0 0 0 0 0 0 0 [] end.

(** The producer's store of the consumer's index can move it back: a message
    consumed while an overwriting push is between its load and its store of
    [head] is delivered twice. *)
Theorem overwrite_rewinds_head :
  exists sched r', run (interleave sched (map slot_of ["A"; "B"; "C"]%char) UIdle QIdle) demo_ring =
    (Ret (map slot_of ["A"; "B"; "B"; "C"]%char), r').
Proof.
  exists (turns 10 true ++ turns 2 true ++ turns 8 false ++ turns 3 true ++ turns 8 false). eexists.
  vm_compute. reflexivity.
Qed.

(** A header that claims more slots than the segment holds is attached, and the
    first push past the mapping is undefined. *)
Theorem attach_trusts_capacity :
  exists r, segment_bytes r = kHeaderBytes /\ attach "ring" (Some r) = Ret r /\
    (run (try_push zero_slot false) r).1 = UB.
Proof. exists (mkSegment 0 0 0 kMagic 8 7 kSlotBytes []). split_and!; reflexivity. Qed.

(** A full ring of two, an overwriting push, and the pops that follow. *)
Lemma shm_ring_refines_queue_witness :
  create "ring" 2 = Ret demo_ring /\
  exists r', run (shm_run (map (fun c => OpOverwrite (slot_of c)) ["A"; "B"; "C"]%char ++
      [OpPush (slot_of "D") true; OpPop; OpPending; OpPop; OpPop])) demo_ring =
    (Ret [RDone; RDone; RDone; RPushed false; RPopped (Some (slot_of "B")); RPending 1; RPopped (Some (slot_of "C")); RPopped None], r') /\
    pending r' = 0 /\ dropped r' = 2.
Proof.
  split; [vm_compute; reflexivity|].
  exact (@shm_ring_refines_queue demo_shm "ring" 2 (map (fun c => OpOverwrite (slot_of c)) ["A"; "B"; "C"]%char ++
      [OpPush (slot_of "D") true; OpPop; OpPending; OpPop; OpPop]) demo_ring ltac:(lia) ltac:(vm_compute; reflexivity)).
Defined.
