(* ===== verification/ShmSpsc.v ===== *)
(** * Two processes on a shared-memory ring ([cpp/include/mm/shm_ring.hpp])

    [try_push] in one process against [try_pop] in the other, split at their
    accesses to the segment.  Stores act on the segment; the loads of the other
    side's index may return any value since the last one observed, so the two
    index histories are kept beside it.  Every access of this system is an access
    of the system of [TelemetryRing], whose invariant then speaks about the
    segment. *)

From Stdlib Require Import ZArith Ascii String List Lia.
From stdpp Require Import base tactics list option strings gmap.
From S2P Require Import Prelude Utf8 Bytes TelemetryRing ShmRing.

Record Shared := mkShared {
  seg : Segment;
  head_history : list Z;
  tail_history : list Z;
  pusher : Producer ShmSlot;
  popper : Consumer ShmSlot;
  seen_head : nat;              (* position the pusher has observed *)
  seen_tail : nat;
  accepted : list ShmSlot;      (* what [try_push] returned true for *)
  turned_away : list ShmSlot;   (* and false *)
  received : list ShmSlot;      (* what [try_pop] returned *)
}.

Definition shared (g : Segment) : Shared := mkShared g [head g] [tail g] PIdle CIdle 0 0 [] [] [].

Definition at_push (p : Producer ShmSlot) (s : Shared) : Shared :=
  mkShared (seg s) (head_history s) (tail_history s) p (popper s) (seen_head s) (seen_tail s) (accepted s)
    (turned_away s) (received s).
Definition at_pop (c : Consumer ShmSlot) (s : Shared) : Shared :=
  mkShared (seg s) (head_history s) (tail_history s) (pusher s) c (seen_head s) (seen_tail s) (accepted s)
    (turned_away s) (received s).

(** An operation on the segment, and the state it leaves. *)
Definition on_segment {B} (m : M Segment B) (k : B -> Segment -> Shared) (s : Shared) : outcome Shared :=
  match run m (seg s) with (Ret b, g) => Ret (k b g) | (Throw e, _) => Throw e | (UB, _) => UB end.

Section Shared.
(** Which messages the caller pushes with [count_drop]. *)
Context (count_drop : ShmSlot -> bool).

(** One access; [None] when that side is elsewhere. *)
Definition shm_access (a : Action ShmSlot) (s : Shared) : option (outcome Shared) :=
  match a with
  | PushCall slot =>
      match pusher s with PIdle => Some (Ret (at_push (PLoaded slot (tail (seg s))) s)) | _ => None end
  | PushLoadHead k =>
      match pusher s with
      | PLoaded slot t =>
          if (k <? seen_head s)%nat then None
          else
            h ← head_history s !! k;
            Some (Ret (mkShared (seg s) (head_history s) (tail_history s) (PChecked slot t h) (popper s) k (seen_tail s)
                         (accepted s) (turned_away s) (received s)))
      | _ => None
      end
  | PushDecide =>
      match pusher s with
      | PChecked slot t h =>
          Some
            (if capacity (seg s) <=? u64 (t - h) then
               on_segment (if count_drop slot then bump_dropped else mret tt)
                 (fun _ g => mkShared g (head_history s) (tail_history s) PIdle (popper s) (seen_head s) (seen_tail s)
                               (accepted s) (turned_away s ++ [slot]) (received s)) s
             else
               on_segment (write_slot t slot)
                 (fun _ g => mkShared g (head_history s) (tail_history s) (PWritten t) (popper s) (seen_head s)
                               (seen_tail s) (accepted s ++ [slot]) (turned_away s) (received s)) s)
      | _ => None
      end
  | PushPublish =>
      match pusher s with
      | PWritten t =>
          Some (Ret (mkShared (set_tail (fun _ => u64 (t + 1)) (seg s)) (head_history s)
                       (tail_history s ++ [u64 (t + 1)]) PIdle (popper s) (seen_head s) (seen_tail s) (accepted s)
                       (turned_away s) (received s)))
      | _ => None
      end
  | PopCall => match popper s with CIdle => Some (Ret (at_pop (CLoaded (head (seg s))) s)) | _ => None end
  | PopLoadTail k =>
      match popper s with
      | CLoaded h =>
          if (k <? seen_tail s)%nat then None
          else
            t ← tail_history s !! k;
            Some (Ret (mkShared (seg s) (head_history s) (tail_history s) (pusher s) (CChecked h t) (seen_head s) k
                         (accepted s) (turned_away s) (received s)))
      | _ => None
      end
  | PopRead =>
      match popper s with
      | CChecked h t =>
          Some (if t =? h then Ret (at_pop CIdle s)
                else on_segment (read_slot h) (fun slot _ => at_pop (CRead slot h) s) s)
      | _ => None
      end
  | PopRelease =>
      match popper s with
      | CRead slot h =>
          Some (Ret (mkShared (set_head (fun _ => u64 (h + 1)) (seg s)) (head_history s ++ [u64 (h + 1)])
                       (tail_history s) (pusher s) CIdle (seen_head s) (seen_tail s) (accepted s) (turned_away s)
                       (received s ++ [slot])))
      | _ => None
      end
  end.

Fixpoint shm_accesses (acts : list (Action ShmSlot)) (s : Shared) : option (outcome Shared) :=
  match acts with
  | [] => Some (Ret s)
  | a :: acts' => o ← shm_access a s; match o with Ret s' => shm_accesses acts' s' | _ => Some o end
  end.

(** ** The segment seen as the ring of the access system *)

Record mirrors (s : Shared) (r : Ring ShmSlot) : Prop := {
  mi_cap : capacity (seg s) = cap r;
  mi_mask : capacity_mask (seg s) = cap r - 1;
  mi_len : Z.of_nat (length (slots (seg s))) = cap r;
  mi_slots : forall i x, 0 <= i -> slots_ r !! i = Some x -> slots (seg s) !! Z.to_nat i = Some x;
  mi_heads : head_history s = head_mo r /\ head (seg s) = List.last (head_mo r) 0;
  mi_tails : tail_history s = tail_mo r /\ tail (seg s) = List.last (tail_mo r) 0;
  mi_pusher : pusher s = producer r /\ seen_head s = p_seen r /\ accepted s = pushed r;
  mi_popper : popper s = consumer r /\ seen_tail s = c_seen r /\ received s = popped r;
  mi_dropped : dropped (seg s) = u64 (Z.of_nat (length (List.filter count_drop (turned_away s))));
}.

Context {np nh : nat} {r : Ring ShmSlot} (I : ring_inv np nh r).

(** Every index both sides compute lies in the slot array. *)
Lemma index_in s n : mirrors s r -> Z.land (u64 n) (capacity_mask (seg s)) = slot_index (u64 n) r /\
  (Z.to_nat (slot_index (u64 n) r) < length (slots (seg s)))%nat /\ 0 <= slot_index (u64 n) r.
Proof.
  intros Hm. split; [by rewrite (mi_mask _ _ Hm)|]. rewrite (slot_index_mod I).
  destruct (inv_cap I) as (_ & _ & _ & Hc & _). pose proof (Z.mod_pos_bound n (cap r)). pose proof (mi_len _ _ Hm). lia.
Qed.

Ltac mirrored Hm :=
  destruct (mi_heads _ _ Hm), (mi_tails _ _ Hm), (mi_pusher _ _ Hm) as (? & ? & ?), (mi_popper _ _ Hm) as (? & ? & ?);
  constructor; cbn; rewrite ?List.last_last; first [exact (mi_slots _ _ Hm)|exact (mi_dropped _ _ Hm)|apply Hm|
    split_and!; congruence|idtac].

Lemma decide_mirrors s slot t h :
  mirrors s r -> pusher s = PChecked slot t h ->
  exists s' r', shm_access PushDecide s = Some (Ret s') /\ ring_step PushDecide r = Some r' /\ mirrors s' r'.
Proof.
  intros Hm Ep. destruct (mi_pusher _ _ Hm) as (Ep' & _). rewrite Ep in Ep'. symmetry in Ep'.
  pose proof (ri_producer _ _ _ I) as Hp. rewrite Ep' in Hp. destruct Hp as (_ & -> & _).
  pose proof (refused_iff I _ _ _ Ep') as Eu. pose proof (pushed_bounds I) as [Hb _].
  unfold shm_access. rewrite Ep. cbn [ring_step]. rewrite Ep'. unfold is_full. rewrite Eu, (mi_cap _ _ Hm).
  destruct (Z.leb_spec (cap r) (Z.of_nat (length (pushed r)) - Z.of_nat (p_seen r))) as [Hfull|Hroom].
  - rewrite (proj2 (Z.eqb_eq _ _)) by lia. unfold on_segment, run, bump_dropped, modify, mret, M_ret.
    destruct (count_drop slot) eqn:Ec; cbn; do 2 eexists; (split_and!; [done..|]); mirrored Hm.
    all: rewrite List.filter_app, (mi_dropped _ _ Hm); cbn; rewrite Ec, length_app; cbn [length].
    + rewrite u64_add_l. f_equal. lia.
    + by rewrite Nat.add_0_r.
  - rewrite (proj2 (Z.eqb_neq _ _)) by lia. unfold on_segment, run, write_slot, modify, get, mbind, M_bind.
    destruct (index_in s (Z.of_nat np) Hm) as (-> & Hin & Hpos). rewrite (proj2 (Nat.ltb_lt _ _) Hin).
    do 2 eexists. split_and!; [done..|]. mirrored Hm; [by rewrite length_insert; apply Hm|].
    intros i x Hi [[<- <-]|[Hne Hx]]%lookup_insert_Some; [by apply list_lookup_insert_eq|].
    rewrite list_lookup_insert_ne by (intros E; apply Z2Nat.inj in E; lia). by apply (mi_slots _ _ Hm).
Qed.

Lemma read_mirrors s h t :
  mirrors s r -> popper s = CChecked h t ->
  exists s' r', shm_access PopRead s = Some (Ret s') /\ ring_step PopRead r = Some r' /\ mirrors s' r'.
Proof.
  intros Hm Ec. destruct (mi_popper _ _ Hm) as (Ec' & _). rewrite Ec in Ec'. symmetry in Ec'.
  unfold shm_access. rewrite Ec. cbn [ring_step]. rewrite Ec'. destruct (Z.eqb_spec t h) as [->|Hne].
  - do 2 eexists. split_and!; [done..|]. mirrored Hm.
  - destruct (read_ready I _ _ Ec' Hne) as (x & Hx & _). rewrite Hx.
    pose proof (ri_consumer _ _ _ I) as Hc. rewrite Ec' in Hc. destruct Hc as (-> & _).
    destruct (index_in s (Z.of_nat nh) Hm) as (Ei & _ & Hpos).
    unfold on_segment, run, read_slot, get, mbind, M_bind. rewrite Ei, (mi_slots _ _ Hm _ _ Hpos Hx). cbn.
    do 2 eexists. split_and!; [done..|]. mirrored Hm.
Qed.

Lemma access_mirrors a s o :
  mirrors s r -> shm_access a s = Some o ->
  exists s' r', o = Ret s' /\ ring_step a r = Some r' /\ mirrors s' r'.
Proof.
  intros Hm Ha. destruct (mi_pusher _ _ Hm) as (Ep & Es & _), (mi_popper _ _ Hm) as (Ec & Et & _).
  destruct (mi_heads _ _ Hm) as (Eh & Ehd), (mi_tails _ _ Hm) as (El & Etl).
  destruct a as [slot|k| | | |k| |]; unfold shm_access in Ha; cbn [ring_step]; rewrite <- ?Ep, <- ?Ec, <- ?Es, <- ?Et, <- ?Eh, <- ?El.
  - destruct (pusher s); [|done..]. injection Ha as <-. do 2 eexists. split_and!; [done..|]. rewrite Etl, El. mirrored Hm.
  - destruct (pusher s) as [|slot t| |]; [done| |done..]. destruct (k <? seen_head s)%nat; [done|].
    destruct (head_history s !! k) as [h|]; [|done]. injection Ha as <-. do 2 eexists. split_and!; [done..|]. mirrored Hm.
  - destruct (pusher s) as [| |slot t h|] eqn:E; [done..| |done].
    destruct (decide_mirrors s slot t h Hm E) as (s' & r' & Hs & Hr & Hm').
    unfold shm_access in Hs. rewrite E, Ha in Hs. injection Hs as ->. cbn [ring_step] in Hr. rewrite <- Ep in Hr. exists s', r'. by rewrite Es, Ec, Et, Eh, El.
  - destruct (pusher s) as [| | |t]; [done..|]. injection Ha as <-. do 2 eexists. split_and!; [done..|]. mirrored Hm.
  - destruct (popper s); [|done..]. injection Ha as <-. do 2 eexists. split_and!; [done..|]. rewrite Ehd, Eh. mirrored Hm.
  - destruct (popper s) as [|h| |]; [done| |done..]. destruct (k <? seen_tail s)%nat; [done|].
    destruct (tail_history s !! k) as [t|]; [|done]. injection Ha as <-. do 2 eexists. split_and!; [done..|]. mirrored Hm.
  - destruct (popper s) as [| |h t|] eqn:E; [done..| |done].
    destruct (read_mirrors s h t Hm E) as (s' & r' & Hs & Hr & Hm').
    unfold shm_access in Hs. rewrite E, Ha in Hs. injection Hs as ->. cbn [ring_step] in Hr. rewrite <- Ec in Hr. exists s', r'. by rewrite ?Ep, ?Es, ?Et, ?Eh, ?El.
  - destruct (popper s) as [| | |slot h]; [done..|]. injection Ha as <-. do 2 eexists. split_and!; [done..|]. mirrored Hm.
Qed.
End Shared.

Lemma accesses_mirror count_drop acts np nh r s o :
  ring_inv np nh r -> mirrors count_drop s r -> shm_accesses count_drop acts s = Some o ->
  exists np' nh' s' r', o = Ret s' /\ ring_inv np' nh' r' /\ mirrors count_drop s' r' /\ cap r' = cap r.
Proof.
  revert np nh r s. induction acts as [|a acts IH]; intros np nh r s I Hm Ha; cbn in Ha; [injection Ha as <-; eauto 10|].
  destruct (shm_access count_drop a s) as [o1|] eqn:E; [|done]. cbn in Ha.
  destruct (access_mirrors count_drop I a s o1 Hm E) as (s1 & r1 & -> & Hr & Hm1).
  destruct (ring_step_inv _ _ _ _ _ I Hr) as (np1 & nh1 & I1 & <-). exact (IH _ _ _ _ I1 Hm1 Ha).
Qed.

Lemma shared_mirrors `{Shm} count_drop name n g :
  0 < n -> create name n = Ret g ->
  exists r, ring_inv 0 0 r /\ mirrors count_drop (shared g) r /\ cap r = bit_ceil n.
Proof.
  intros Hn. unfold create. destruct (Z.eqb_spec n 0); [lia|]. destruct (Z.ltb_spec kMaxCapacity n) as [|Hmax]; [done|].
  destruct (normalize_name name); [|done..]. repeat (case_match; [done|]). intros [= <-].
  assert (new_ring (A := ShmSlot) n = Ret (mkRing (bit_ceil n) [0] [0] 0 ∅ PIdle CIdle 0 0 [] 0 [])) as Hr.
  { unfold new_ring, checked_capacity. rewrite (proj2 (Z.eqb_neq n 0)) by lia.
    destruct (Z.ltb_spec ((two64 - 1) / 2 + 1) n) as [Hbig|]; [|done].
    change ((two64 - 1) / 2 + 1) with (2 ^ 63) in Hbig. unfold kMaxCapacity in Hmax. lia. }
  destruct (inv_init _ _ Hr Hn) as [I Hc]. eexists. split; [exact I|]. split; [|done].
  constructor; cbn; try done.
  - rewrite repeat_length, Z2Nat.id; [done|]. cbn in Hc. lia.
Qed.

(** C36 Two processes on one ring, under every interleaving of their accesses and
    however stale the indices they load: nothing is undefined; the consumer
    receives the accepted messages in order, none lost, duplicated or torn; at
    most a capacity of them is outstanding; a push is refused, or a pop answered
    empty, exactly when the ring is full, or empty, of what that side has
    observed; the slot about to be written is never the one about to be read;
    and the drops counted are the refused messages pushed with [count_drop]. *)
Theorem shm_ring_fifo `{Shm} count_drop name n g acts o :
  0 < n -> create name n = Ret g -> shm_accesses count_drop acts (shared g) = Some o ->
  exists s, o = Ret s /\
    received s = take (length (received s)) (accepted s) /\
    Z.of_nat (length (accepted s)) - Z.of_nat (length (received s)) <= bit_ceil n /\
    dropped (seg s) = u64 (Z.of_nat (length (List.filter count_drop (turned_away s)))) /\
    (forall slot t h, pusher s = PChecked slot t h ->
       capacity (seg s) <= u64 (t - h) <-> Z.of_nat (length (accepted s)) - Z.of_nat (seen_head s) = bit_ceil n) /\
    (forall h t, popper s = CChecked h t -> t = h <-> seen_tail s = length (received s)) /\
    (forall slot t h h' t', pusher s = PChecked slot t h -> u64 (t - h) < capacity (seg s) ->
       popper s = CChecked h' t' -> t' <> h' ->
       Z.land t (capacity_mask (seg s)) <> Z.land h' (capacity_mask (seg s))).
Proof.
  intros Hn Hg Ha. destruct (shared_mirrors count_drop _ _ _ Hn Hg) as (r0 & I0 & Hm0 & Hc0).
  destruct (accesses_mirror _ _ _ _ _ _ _ I0 Hm0 Ha) as (np & nh & s & r & -> & I & Hm & Hc). rewrite Hc0 in Hc.
  exists s. split; [done|]. destruct (mi_pusher _ _ _ Hm) as (Ep & Es & Ea), (mi_popper _ _ _ Hm) as (Ec & Et & Er).
  pose proof (pushed_bounds I) as [Hb _]. destruct (ri_popped _ _ _ I) as [Hl Hp]. pose proof (ri_seen _ _ _ I).
  rewrite Ea, Er, Es, Et, Ep, Ec, (mi_cap _ _ _ Hm), (mi_mask _ _ _ Hm), Hc in *. split_and!.
  - by rewrite Hl.
  - lia.
  - apply (mi_dropped _ _ _ Hm).
  - intros slot t h E. rewrite (refused_iff I _ _ _ E). lia.
  - intros h t E. exact (empty_iff I _ _ E).
  - intros slot t h h' t' E Hlt E' Hne.
    assert (is_full t h r = false) as Hf by (apply Z.eqb_neq; lia).
    pose proof (slots_apart I _ _ _ _ _ E Hf E' Hne) as Hs. unfold slot_index in Hs. by rewrite Hc in Hs.
Qed.

(** ** A schedule *)

(** Two pushes fill a ring of two; a third is refused on a stale head while the
    first message is taken; a fourth, which sees the release, and a pop are both
    about to touch their slots. *)
Definition demo_accesses : list (Action ShmSlot) :=
  let a := slot_of "A" in let b := slot_of "B" in let c := slot_of "C" in let d := slot_of "D" in
  [PushCall a; PushLoadHead 0; PushDecide; PushPublish; PushCall b; PopCall; PushLoadHead 0; PopLoadTail 1; PushDecide;
   PopRead; PushPublish; PushCall c; PopRelease; PushLoadHead 0; PushDecide; PopCall; PopLoadTail 2; PushCall d;
   PushLoadHead 1].

Lemma shm_ring_fifo_witness :
  exists s, shm_accesses (fun _ => true) demo_accesses (shared demo_ring) = Some (Ret s) /\
    received s = [slot_of "A"] /\ accepted s = [slot_of "A"; slot_of "B"] /\ dropped (seg s) = 1 /\
    pusher s = PChecked (slot_of "D") 2 1 /\ popper s = CChecked 1 2 /\
    Z.land 2 (capacity_mask (seg s)) <> Z.land 1 (capacity_mask (seg s)).
Proof.
  destruct (shm_accesses (fun _ => true) demo_accesses (shared demo_ring)) as [o|] eqn:E; [|by vm_compute in E].
  destruct (@shm_ring_fifo demo_shm (fun _ => true) "ring" 2 demo_ring demo_accesses o ltac:(lia) ltac:(vm_compute; reflexivity) E)
    as (s & -> & _ & _ & _ & _ & _ & Hapart).
  exists s. vm_compute in E. injection E as <-.
  exact (conj eq_refl (conj eq_refl (conj eq_refl (conj eq_refl (conj eq_refl (conj eq_refl
    (Hapart _ 2 1 1 2 eq_refl eq_refl eq_refl ltac:(discriminate)))))))).
Defined.
