(* ===== verification/CachedHead.v ===== *)
(** * The cached-head ring ([bench/probes/ring_push_probe.cpp])

    [CachedHeadRing], the variant of the telemetry ring the probe prices: the
    producer keeps the last head it saw and loads it again only when the ring
    looks full.  A remembered head is a stale load, which the shipped ring's
    system already allows, so the variant refines the shipped ring. *)

From Stdlib Require Import ZArith String List Lia.
From stdpp Require Import base tactics list option gmap.
From S2P Require Import Prelude TelemetryRing.

Inductive CachedProducer :=
| KIdle
| KFull (rec : TelemetryRecord) (tail : Z)    (* apparently full: reload *)
| KReady (rec : TelemetryRecord) (tail : Z)
| KWritten (tail : Z).

Record CachedHeadRing := mkCached {
  k_head : list Z;               (* modification orders *)
  k_tail : list Z;
  cached_head_ : Z;
  k_slots : list TelemetryRecord;
  k_producer : CachedProducer;
  k_consumer : Consumer TelemetryRecord;
  k_pseen : nat;
  k_cseen : nat;
  k_pushed : list TelemetryRecord;
  k_refused : Z;
  k_popped : list TelemetryRecord;
}.

Definition zero_record : TelemetryRecord := mkRec 0 0 0 [0; 0; 0; 0; 0; 0].
(** The constructor does not round its argument. *)
Definition cached_ring (capacity : nat) : CachedHeadRing :=
  mkCached [0] [0] 0 (repeat zero_record capacity) KIdle CIdle 0 0 [] 0 [].

Definition size (c : CachedHeadRing) : Z := Z.of_nat (length (k_slots c)).
Definition index (i : Z) (c : CachedHeadRing) : nat := Z.to_nat (Z.land i (u64 (size c - 1))).

Definition k_set_consumer (q : Consumer TelemetryRecord) (c : CachedHeadRing) : CachedHeadRing :=
  mkCached (k_head c) (k_tail c) (cached_head_ c) (k_slots c) (k_producer c) q (k_pseen c) (k_cseen c) (k_pushed c)
    (k_refused c) (k_popped c).
Definition k_set_producer (p : CachedProducer) (c : CachedHeadRing) : CachedHeadRing :=
  mkCached (k_head c) (k_tail c) (cached_head_ c) (k_slots c) p (k_consumer c) (k_pseen c) (k_cseen c) (k_pushed c)
    (k_refused c) (k_popped c).

Inductive CachedAction :=
| KCall (rec : TelemetryRecord)   (* tail_.load, and the test against the cache *)
| KReload (k : nat)               (* head_.load(acquire), and the second test *)
| KWrite                          (* the slot *)
| KPublish                        (* tail_.store(release) *)
| KPopCall | KPopLoad (k : nat) | KPopRead | KPopRelease.

Definition cached_step (a : CachedAction) (c : CachedHeadRing) : option (outcome CachedHeadRing) :=
  match a with
  | KCall rec =>
      match k_producer c with
      | KIdle =>
          let tail := List.last (k_tail c) 0 in
          Some (Ret (k_set_producer (if u64 (tail - cached_head_ c) =? size c then KFull rec tail else KReady rec tail) c))
      | _ => None
      end
  | KReload k =>
      match k_producer c with
      | KFull rec tail =>
          if (k <? k_pseen c)%nat then None
          else
            head ← k_head c !! k;
            let full := u64 (tail - head) =? size c in
            Some (Ret (mkCached (k_head c) (k_tail c) head (k_slots c) (if full then KIdle else KReady rec tail)
                         (k_consumer c) k (k_cseen c) (k_pushed c) (if full then k_refused c + 1 else k_refused c)
                         (k_popped c)))
      | _ => None
      end
  | KWrite =>
      match k_producer c with
      | KReady rec tail =>
          Some (if (index tail c <? length (k_slots c))%nat then
                  Ret (mkCached (k_head c) (k_tail c) (cached_head_ c) (<[index tail c := rec]> (k_slots c)) (KWritten tail)
                         (k_consumer c) (k_pseen c) (k_cseen c) (k_pushed c ++ [rec]) (k_refused c) (k_popped c))
                else UB)
      | _ => None
      end
  | KPublish =>
      match k_producer c with
      | KWritten tail =>
          Some (Ret (mkCached (k_head c) (k_tail c ++ [u64 (tail + 1)]) (cached_head_ c) (k_slots c) KIdle (k_consumer c)
                       (k_pseen c) (k_cseen c) (k_pushed c) (k_refused c) (k_popped c)))
      | _ => None
      end
  | KPopCall =>
      match k_consumer c with CIdle => Some (Ret (k_set_consumer (CLoaded (List.last (k_head c) 0)) c)) | _ => None end
  | KPopLoad k =>
      match k_consumer c with
      | CLoaded head =>
          if (k <? k_cseen c)%nat then None
          else
            tail ← k_tail c !! k;
            Some (Ret (mkCached (k_head c) (k_tail c) (cached_head_ c) (k_slots c) (k_producer c) (CChecked head tail)
                         (k_pseen c) k (k_pushed c) (k_refused c) (k_popped c)))
      | _ => None
      end
  | KPopRead =>
      match k_consumer c with
      | CChecked head tail =>
          Some (if tail =? head then Ret (k_set_consumer CIdle c)
                else match k_slots c !! index head c with Some rec => Ret (k_set_consumer (CRead rec head) c) | None => UB end)
      | _ => None
      end
  | KPopRelease =>
      match k_consumer c with
      | CRead rec head =>
          Some (Ret (mkCached (k_head c ++ [u64 (head + 1)]) (k_tail c) (cached_head_ c) (k_slots c) (k_producer c) CIdle
                       (k_pseen c) (k_cseen c) (k_pushed c) (k_refused c) (k_popped c ++ [rec])))
      | _ => None
      end
  end.

Fixpoint cached_run (acts : list CachedAction) (c : CachedHeadRing) : option (outcome CachedHeadRing) :=
  match acts with
  | [] => Some (Ret c)
  | a :: acts' => o ← cached_step a c; match o with Ret c' => cached_run acts' c' | _ => Some o end
  end.

(** ** The shipped ring's accesses for each of its own *)

(** Where the shipped producer is: past a test against a head it has seen. *)
Definition shipped_producer (c : CachedHeadRing) (r : Ring TelemetryRecord) : Prop :=
  match k_producer c, producer r with
  | KIdle, PIdle => True
  | KFull rec tail, PLoaded rec' tail' => rec = rec' /\ tail = tail'
  | KReady rec tail, PChecked rec' tail' head => rec = rec' /\ tail = tail' /\ is_full tail head r = false
  | KWritten tail, PWritten tail' => tail = tail'
  | _, _ => False
  end.

Record follows (c : CachedHeadRing) (r : Ring TelemetryRecord) : Prop := {
  fo_size : size c = cap r;
  fo_slots : forall i x, 0 <= i -> slots_ r !! i = Some x -> k_slots c !! Z.to_nat i = Some x;
  fo_orders : k_head c = head_mo r /\ k_tail c = tail_mo r;
  fo_cache : cached_head_ c = u64 (Z.of_nat (k_pseen c));
  fo_seen : k_pseen c = p_seen r /\ k_cseen c = c_seen r;
  fo_consumer : k_consumer c = consumer r;
  fo_log : k_pushed c = pushed r /\ k_refused c = refused r /\ k_popped c = popped r;
  fo_producer : shipped_producer c r;
}.

(** The schedule of the shipped ring that an access stands for. *)
Definition shipped (a : CachedAction) (c : CachedHeadRing) : list (Action TelemetryRecord) :=
  match a with
  | KCall rec =>
      PushCall rec :: (if u64 (List.last (k_tail c) 0 - cached_head_ c) =? size c then [] else [PushLoadHead (k_pseen c)])
  | KReload k =>
      PushLoadHead k ::
        match k_producer c, k_head c !! k with
        | KFull _ tail, Some head => if u64 (tail - head) =? size c then [PushDecide] else []
        | _, _ => []
        end
  | KWrite => [PushDecide]
  | KPublish => [PushPublish]
  | KPopCall => [PopCall]
  | KPopLoad k => [PopLoadTail k]
  | KPopRead => [PopRead]
  | KPopRelease => [PopRelease]
  end.

Section Follows.
Context {np nh : nat} {r : Ring TelemetryRecord} (I : ring_inv np nh r).

Lemma index_follows c n : follows c r ->
  index (u64 n) c = Z.to_nat (slot_index (u64 n) r) /\ (index (u64 n) c < length (k_slots c))%nat /\
  0 <= slot_index (u64 n) r.
Proof.
  intros F. destruct (inv_cap I) as (_ & _ & _ & Hc). unfold index. rewrite (fo_size _ _ F).
  assert (u64 (cap r - 1) = cap r - 1) as -> by (apply Z.mod_small; unfold two63, two64 in *; lia).
  fold (slot_index (u64 n) r). rewrite (slot_index_mod I). pose proof (fo_size _ _ F) as Hs. unfold size in Hs.
  pose proof (Z.mod_pos_bound n (cap r)). lia.
Qed.

Ltac following F :=
  destruct (fo_orders _ _ F), (fo_seen _ _ F), (fo_log _ _ F) as (? & ? & ?);
  constructor; cbn; first [exact (fo_size _ _ F)|exact (fo_slots _ _ F)|exact (fo_cache _ _ F)|exact (fo_consumer _ _ F)|
    split_and!; congruence|exact (fo_producer _ _ F)|done|idtac].

(** The two tests of a push, and its store. *)
Lemma call_follows c rec o :
  follows c r -> cached_step (KCall rec) c = Some o ->
  exists c' r', o = Ret c' /\ ring_run (shipped (KCall rec) c) r = Some r' /\ follows c' r'.
Proof.
  intros F Hs. pose proof (fo_producer _ _ F) as Hp. unfold shipped_producer in Hp. cbn [cached_step] in Hs.
  destruct (k_producer c) eqn:Ek; [|done..]. destruct (producer r) eqn:Er; [|done..]. injection Hs as <-.
  destruct (fo_orders _ _ F) as (Eh & Et), (fo_seen _ _ F) as (Ep & _). cbn [shipped ring_run ring_step]. rewrite Er. cbn -[Nat.ltb].
  destruct (u64 (List.last (k_tail c) 0 - cached_head_ c) =? size c) eqn:Ef.
  - do 2 eexists. split_and!; [done..|]. rewrite Et. following F.
  - cbn -[Nat.ltb]. rewrite Ep, Nat.ltb_irrefl, (ri_head _ _ _ I). pose proof (ri_seen _ _ _ I).
    rewrite counts_lookup_le by lia. cbn. do 2 eexists. split_and!; [done..|]. rewrite Et in *.
    following F; [by rewrite Eh, (ri_head _ _ _ I)|].
    unfold shipped_producer, is_full. cbn. split_and!; [done..|]. by rewrite <- Ep, <- (fo_cache _ _ F), <- (fo_size _ _ F).
Qed.

Lemma reload_follows c k o :
  follows c r -> cached_step (KReload k) c = Some o ->
  exists c' r', o = Ret c' /\ ring_run (shipped (KReload k) c) r = Some r' /\ follows c' r'.
Proof.
  intros F Hs. pose proof (fo_producer _ _ F) as Hp. unfold shipped_producer in Hp. cbn [cached_step shipped ring_run ring_step] in *.
  destruct (k_producer c) as [|rec tail| |] eqn:Ek; [done| |done..]. destruct (producer r) as [|rec' tail'| |] eqn:Er; [done| |done..].
  destruct Hp as [<- <-]. destruct (fo_orders _ _ F) as (Eh & Et), (fo_seen _ _ F) as (Ep & _), (fo_log _ _ F) as (_ & El & _).
  rewrite <- Ep, <- Eh. destruct (k <? k_pseen c)%nat; [done|]. destruct (k_head c !! k) as [head|] eqn:Ekh; [|done].
  cbn in Hs. injection Hs as <-. assert (head = u64 (Z.of_nat k)) as Ehd.
  { rewrite Eh, (ri_head _ _ _ I) in Ekh. by apply counts_lookup in Ekh as [_ ->]. }
  cbn [mbind option_bind]. destruct (u64 (tail - head) =? size c) eqn:Ef.
  - cbn. unfold is_full. cbn. rewrite <- (fo_size _ _ F), Ef. do 2 eexists. split_and!; [done..|].
    following F.
  - do 2 eexists. split_and!; [done..|]. following F. unfold shipped_producer, is_full. cbn. by rewrite <- (fo_size _ _ F), Ef.
Qed.

Lemma write_follows c o :
  follows c r -> cached_step KWrite c = Some o ->
  exists c' r', o = Ret c' /\ ring_run (shipped KWrite c) r = Some r' /\ follows c' r'.
Proof.
  intros F Hs. pose proof (fo_producer _ _ F) as Hp. unfold shipped_producer in Hp. cbn [cached_step shipped ring_run ring_step] in *.
  destruct (k_producer c) as [| |rec tail|] eqn:Ek; [done..| |done]. destruct (producer r) as [| |rec' tail' head|] eqn:Er; [done..| |done].
  destruct Hp as (<- & <- & Hf). pose proof (ri_producer _ _ _ I) as Hq. rewrite Er in Hq. destruct Hq as (_ & -> & _).
  destruct (index_follows c (Z.of_nat np) F) as (Ei & Hin & Hpos). rewrite (proj2 (Nat.ltb_lt _ _) Hin) in Hs. injection Hs as <-.
  rewrite Hf. cbn. do 2 eexists. split_and!; [done..|]. following F.
  - unfold size. cbn. rewrite length_insert. apply F.
  - intros i x Hi [[<- <-]|[Hne Hx]]%lookup_insert_Some; rewrite Ei.
    + apply list_lookup_insert_eq. by rewrite <- Ei.
    + rewrite list_lookup_insert_ne by (intros E; apply Z2Nat.inj in E; lia). by apply (fo_slots _ _ F).
Qed.

Lemma pop_read_follows c o :
  follows c r -> cached_step KPopRead c = Some o ->
  exists c' r', o = Ret c' /\ ring_run (shipped KPopRead c) r = Some r' /\ follows c' r'.
Proof.
  intros F Hs. pose proof (fo_consumer _ _ F) as Ec. cbn [cached_step shipped ring_run ring_step] in *.
  destruct (k_consumer c) as [| |head tail|] eqn:Ek; [done..| |done]. rewrite <- Ec.
  destruct (Z.eqb_spec tail head) as [->|Hne]; [injection Hs as <-; do 2 eexists; split_and!; [done..|]; by following F|].
  destruct (read_ready I head tail ltac:(by symmetry) Hne) as (rec & Hx & _). rewrite Hx.
  pose proof (ri_consumer _ _ _ I) as Hc. rewrite <- Ec in Hc. destruct Hc as (-> & _).
  destruct (index_follows c (Z.of_nat nh) F) as (Ei & _ & Hpos).
  rewrite Ei, (fo_slots _ _ F _ _ Hpos Hx) in Hs. injection Hs as <-. cbn. do 2 eexists. split_and!; [done..|]. by following F.
Qed.

Lemma step_follows a c o :
  follows c r -> cached_step a c = Some o ->
  exists c' r', o = Ret c' /\ ring_run (shipped a c) r = Some r' /\ follows c' r'.
Proof.
  intros F Hs. destruct a as [rec|k| | | |k| |].
  - by apply call_follows.
  - by apply reload_follows.
  - by apply write_follows.
  - pose proof (fo_producer _ _ F) as Hp. unfold shipped_producer in Hp. cbn [cached_step shipped ring_run ring_step] in *.
    destruct (k_producer c) as [| | |tail] eqn:Ek; [done..|]. destruct (producer r) as [| | |tail'] eqn:Er; [done..|].
    subst tail'. injection Hs as <-. do 2 eexists. split_and!; [done..|]. by following F.
  - pose proof (fo_consumer _ _ F) as Ec. cbn [cached_step shipped ring_run ring_step] in *. rewrite <- Ec.
    destruct (k_consumer c) eqn:Ek; [|done..]. injection Hs as <-. destruct (fo_orders _ _ F) as (Eh & _). rewrite Eh.
    do 2 eexists. split_and!; [done..|]. by following F.
  - pose proof (fo_consumer _ _ F) as Ec. cbn [cached_step shipped ring_run ring_step] in *. rewrite <- Ec.
    destruct (fo_orders _ _ F) as (_ & Et), (fo_seen _ _ F) as (_ & Es). rewrite <- Es, <- Et.
    destruct (k_consumer c) as [|head| |] eqn:Ek; [done| |done..]. destruct (k <? k_cseen c)%nat; [done|].
    destruct (k_tail c !! k); [|done]. injection Hs as <-. do 2 eexists. split_and!; [done..|]. by following F.
  - by apply pop_read_follows.
  - pose proof (fo_consumer _ _ F) as Ec. cbn [cached_step shipped ring_run ring_step] in *. rewrite <- Ec.
    destruct (k_consumer c) as [| | |rec head] eqn:Ek; [done..|]. injection Hs as <-.
    do 2 eexists. split_and!; [done..|]. by following F.
Qed.
End Follows.

Lemma ring_run_app {A} (xs ys : list (Action A)) r : ring_run (xs ++ ys) r = (ring_run xs r ≫= ring_run ys).
Proof. revert r. induction xs as [|x xs IH]; intros r; cbn; [done|]. destruct (ring_step x r); cbn; auto. Qed.

Lemma run_follows acts np nh c r o :
  ring_inv np nh r -> follows c r -> cached_run acts c = Some o ->
  exists acts' np' nh' c' r', o = Ret c' /\ ring_run acts' r = Some r' /\ ring_inv np' nh' r' /\ cap r' = cap r /\ follows c' r'.
Proof.
  revert np nh c r. induction acts as [|a acts IH]; intros np nh c r I F Hs; cbn in Hs.
  - injection Hs as <-. exists [], np, nh, c, r. done.
  - destruct (cached_step a c) as [o1|] eqn:E; [|done]. cbn in Hs. destruct (step_follows I a c o1 F E) as (c1 & r1 & -> & R1 & F1).
    destruct (ring_run_inv _ _ _ _ _ I R1) as (np1 & nh1 & I1 & E1).
    destruct (IH _ _ _ _ I1 F1 Hs) as (acts' & np' & nh' & c' & r' & -> & R' & I' & E' & F').
    exists (shipped a c ++ acts'), np', nh', c', r'. rewrite ring_run_app, R1, E', E1. done.
Qed.

Lemma cached_start k : (k <= 63)%nat ->
  exists r0, new_ring (2 ^ Z.of_nat k) = Ret r0 /\ ring_inv 0 0 r0 /\ cap r0 = 2 ^ Z.of_nat k /\ follows (cached_ring (2 ^ k)) r0.
Proof.
  intros Hk. assert (0 < 2 ^ Z.of_nat k) as Hpos by (apply Z.pow_pos_nonneg; lia).
  assert (2 ^ Z.of_nat k <= 2 ^ 63) by (apply Z.pow_le_mono_r; lia).
  assert (new_ring (A := TelemetryRecord) (2 ^ Z.of_nat k) =
    Ret (mkRing (2 ^ Z.of_nat k) [0] [0] 0 ∅ PIdle CIdle 0 0 [] 0 [])) as Hr.
  { unfold new_ring, checked_capacity, bit_ceil. rewrite (proj2 (Z.eqb_neq _ 0)), Z.log2_up_pow2 by lia.
    change ((two64 - 1) / 2 + 1) with (2 ^ 63). by rewrite (proj2 (Z.ltb_ge _ _)) by lia. }
  eexists. split; [exact Hr|]. split; [exact (proj1 (inv_init _ _ Hr Hpos))|]. split; [done|].
  constructor; cbn; try done. unfold size. cbn. rewrite repeat_length. by rewrite Nat2Z.inj_pow.
Qed.

(** The cached-head variant is the shipped ring: whatever its two threads do, a
    schedule of the shipped ring accepts, refuses and delivers the same records.
    So it too never touches a slot out of bounds, delivers in order with nothing
    lost or duplicated, and holds at most its capacity, when that is a power of
    two. *)
Theorem cached_head_refines_ring k acts o :
  (k <= 63)%nat -> cached_run acts (cached_ring (2 ^ k)) = Some o ->
  exists c r0 r acts', o = Ret c /\
    new_ring (2 ^ Z.of_nat k) = Ret r0 /\ ring_run acts' r0 = Some r /\
    k_pushed c = pushed r /\ k_refused c = refused r /\ k_popped c = popped r /\
    k_popped c = take (length (k_popped c)) (k_pushed c) /\
    Z.of_nat (length (k_pushed c)) - Z.of_nat (length (k_popped c)) <= 2 ^ Z.of_nat k.
Proof.
  intros Hk Hs. destruct (cached_start k Hk) as (r0 & Hr0 & I0 & Hc0 & F0).
  destruct (run_follows _ _ _ _ _ _ I0 F0 Hs) as (acts' & np & nh & c & r & -> & R & I & Hc & F).
  exists c, r0, r, acts'. destruct (fo_log _ _ F) as (El & Er & Ep). destruct (ri_popped _ _ _ I) as [Hl Hp].
  pose proof (pushed_bounds I) as [Hb _]. pose proof (ri_seen _ _ _ I). rewrite El, Ep. split_and!; try done.
  - by rewrite Hl.
  - rewrite <- Hc0, <- Hc. lia.
Qed.

(** A ring of one: the second push finds it full by the cache, reloads and sees
    the release; the third is refused after its reload. *)
Definition demo_cached : list CachedAction :=
  [KCall (demo_rec 1); KWrite; KPublish; KPopCall; KPopLoad 1; KPopRead; KPopRelease;
   KCall (demo_rec 2); KReload 1; KWrite; KPublish; KCall (demo_rec 3); KReload 1].

Lemma cached_head_refines_ring_witness :
  exists c, cached_run demo_cached (cached_ring (2 ^ 0)) = Some (Ret c) /\ k_popped c = [demo_rec 1] /\
    k_refused c = 1 /\ k_popped c = take (length (k_popped c)) (k_pushed c).
Proof.
  destruct (cached_run demo_cached (cached_ring (2 ^ 0))) as [o|] eqn:E; [|by vm_compute in E].
  destruct (cached_head_refines_ring 0 demo_cached o ltac:(lia) E) as (c & r0 & r & acts' & -> & _ & _ & _ & _ & _ & Hp & _).
  exists c. vm_compute in E. injection E as <-. exact (conj eq_refl (conj eq_refl (conj eq_refl Hp))).
Defined.

(** The constructor takes any size: with three slots the mask skips one, and a
    record still queued is overwritten. *)
Example three_slots_lose_a_record :
  match cached_run [KCall (demo_rec 1); KWrite; KPublish; KCall (demo_rec 2); KWrite; KPublish;
                    KPopCall; KPopLoad 2; KPopRead; KPopRelease] (cached_ring 3) with
  | Some (Ret c) => bool_decide (k_popped c = [demo_rec 2])
  | _ => false
  end = true.
Proof. vm_compute. reflexivity. Qed.
