(* ===== verification/ShmHandle.v ===== *)
(** * The handle of a shared-memory ring ([class ShmRing], include/mm/shm_ring.hpp)

    A ring object owns a descriptor and a mapping: [create] and [attach] acquire
    them, a move hands them over, [close] gives them back.  The process is the
    kernel's tables (names, objects, descriptors, mappings) and the live [ShmRing]
    variables; every system call may fail, and so may every allocation.  Closing
    what is not open and unmapping what is not mapped are undefined. *)

From Stdlib Require Import ZArith Ascii String List Lia.
From stdpp Require Import base tactics list option strings gmap fin_maps fin_map_dom.
From S2P Require Import Prelude Wp Utf8 Bytes TelemetryRing ShmRing.

(** ** The kernel *)

(** Its choices: an unused number for a descriptor, address or object. *)
Class Kernel := {
  pick : gset nat -> nat;
  pick_unused : forall X, pick X ∉ X;
  errno_text : string;
  moved_from : string -> string;   (* what a moved-from string holds *)
}.

(** An object without contents is shorter than a ring header. *)
Record Posix := mkPosix {
  names : gmap string nat;
  objects : gmap nat (option Segment);
  fds : gmap nat nat;
  maps : gmap nat (nat * Z);       (* by address: the object and the length mapped *)
}.
Definition set_names (f : gmap string nat -> gmap string nat) (p : Posix) : Posix :=
  mkPosix (f (names p)) (objects p) (fds p) (maps p).
Definition set_objects (f : gmap nat (option Segment) -> gmap nat (option Segment)) (p : Posix) : Posix :=
  mkPosix (names p) (f (objects p)) (fds p) (maps p).
Definition set_fds (f : gmap nat nat -> gmap nat nat) (p : Posix) : Posix :=
  mkPosix (names p) (objects p) (f (fds p)) (maps p).
Definition set_maps (f : gmap nat (nat * Z) -> gmap nat (nat * Z)) (p : Posix) : Posix :=
  mkPosix (names p) (objects p) (fds p) (f (maps p)).

Definition object_bytes (c : option Segment) : Z := match c with Some r => segment_bytes r | None => 0 end.

(** Growing an object appends zero bytes. *)
Definition truncated (cap : nat) (c : option Segment) : Segment :=
  match c with
  | Some r => set_slots (resize cap zero_slot) r
  | None => mkSegment 0 0 0 0 0 0 0 (repeat zero_slot cap)
  end.

Section Calls.
Context `{Kernel}.

(** Whether a system call succeeds: one boolean of the oracle, as for an
    allocation. *)
Definition syscall : M Posix bool := fun p o =>
  match o with b :: o' => (Ret (negb b), p, o') | [] => (Ret true, p, []) end.

Definition open_fd (ob : nat) : M Posix Z :=
  p ← get;
  let n := pick (dom (fds p)) in
  modify (set_fds <[n := ob]>);;
  mret (Z.of_nat n).

(** [O_CREAT | O_RDWR | O_EXCL] *)
Definition shm_open_excl (name : string) : M Posix Z :=
  ok ← syscall;
  p ← get;
  match names p !! name with
  | None =>
      if ok : bool then
        let ob := pick (dom (objects p)) in
        modify (set_objects <[ob := None]>);;
        modify (set_names <[name := ob]>);;
        open_fd ob
      else mret (-1)
  | Some _ => mret (-1)
  end.
(** [O_RDWR] *)
Definition shm_open (name : string) : M Posix Z :=
  ok ← syscall;
  p ← get;
  match names p !! name with
  | Some ob => if ok : bool then open_fd ob else mret (-1)
  | None => mret (-1)
  end.
Definition shm_unlink (name : string) : M Posix unit := modify (set_names (delete name)).

Definition object_of (fd : Z) : M Posix nat := p ← get; deref (fds p !! Z.to_nat fd).

(** To the size of a ring of [cap] slots. *)
Definition ftruncate (fd : Z) (cap : nat) : M Posix bool :=
  ob ← object_of fd;
  ok ← syscall;
  (if ok : bool then modify (set_objects (alter (fun c => Some (truncated cap c)) ob)) else mret tt);;
  mret ok.

Definition fstat_size (fd : Z) : M Posix (option Z) :=
  ob ← object_of fd;
  ok ← syscall;
  p ← get;
  c ← deref (objects p !! ob);
  mret (if ok : bool then Some (object_bytes c) else None).

(** [None] is [MAP_FAILED]. *)
Definition mmap (fd : Z) (len : Z) : M Posix (option nat) :=
  ob ← object_of fd;
  ok ← syscall;
  p ← get;
  let a := pick (dom (maps p)) in
  if ok : bool then modify (set_maps <[a := (ob, len)]>);; mret (Some a) else mret None.

Definition munmap (a : nat) (len : Z) : M Posix unit :=
  p ← get;
  m ← deref (maps p !! a);
  if m.2 =? len then modify (set_maps (delete a)) else ub.

Definition close_fd (fd : Z) : M Posix unit :=
  object_of fd;;
  modify (set_fds (delete (Z.to_nat fd))).

(** Reading and writing through a mapping: the slots it does not cover are out of
    reach. *)
Definition covered (len : Z) : nat := Z.to_nat ((len - kHeaderBytes) / kSlotBytes).
Definition through {A} (a : nat) (m : M Segment A) : M Posix A :=
  p ← get;
  x ← deref (maps p !! a);
  c ← deref (objects p !! x.1);
  r ← deref c;
  let n := covered x.2 in
  within (fun _ => set_slots (take n) r)
    (fun r' p' => set_objects <[x.1 := Some (set_slots (fun l => l ++ drop n (slots r)) r')]> p') m.
End Calls.

(** ** The ring object *)

(** [slots_] lies a header past [header_]: both are known by the mapping's address. *)
Record ShmRing := mkRing {
  name_ : string;
  fd_ : Z;
  shm_size_ : Z;
  header_ : option nat;
  slots_ : option nat;
  is_creator_ : bool;
}.
Definition default_ring : ShmRing := mkRing "" (-1) 0 None None false.

Section Ring.
Context `{Kernel}.

(** Building the text of an exception allocates. *)
Definition fail_with {A} (what : string) : M Posix A := may_alloc;; throw (runtime_error what).
Definition posix_name_of (name : string) : M Posix string :=
  may_alloc;;
  match normalize_name name with Ret n => mret n | Throw e => throw e | UB => ub end.

(** The ring object is built member by member; the first assignment copies a
    string. *)
Definition built (posix_name : string) (fd len : Z) (a : nat) (creator : bool) : M Posix ShmRing :=
  may_alloc;;
  mret (mkRing posix_name fd len (Some a) (Some a) creator).

Definition create (name : string) (min_capacity : Z) (unlink_first : bool) : M Posix ShmRing :=
  if min_capacity =? 0 then throw (invalid_argument "ShmRing: capacity must be > 0")
  else if kMaxCapacity <? min_capacity then throw (invalid_argument "ShmRing: capacity exceeds maximum 1048576")
  else
    let cap := bit_ceil min_capacity in
    let total_size := kHeaderBytes + cap * kSlotBytes in
    posix_name ← posix_name_of name;
    (if unlink_first then shm_unlink posix_name else mret tt);;
    fd0 ← shm_open_excl posix_name;
    fd ← (if fd0 <? 0 then shm_open posix_name else mret fd0);
    if fd <? 0 then fail_with ("ShmRing: failed to create shm segment " ++ posix_name ++ ": " ++ errno_text)
    else
      sized ← ftruncate fd (Z.to_nat cap);
      if negb sized then
        close_fd fd;; shm_unlink posix_name;;
        fail_with ("ShmRing: failed to ftruncate shm segment: " ++ errno_text)
      else
        addr ← mmap fd total_size;
        match addr with
        | None =>
            close_fd fd;; shm_unlink posix_name;;
            fail_with ("ShmRing: failed to mmap shm segment: " ++ errno_text)
        | Some a =>
            through a (put (blank cap));;
            built posix_name fd total_size a true
        end.

Definition attach (name : string) : M Posix ShmRing :=
  posix_name ← posix_name_of name;
  fd ← shm_open posix_name;
  if fd <? 0 then fail_with ("ShmRing: failed to attach to shm segment " ++ posix_name ++ ": " ++ errno_text)
  else
    st ← fstat_size fd;
    match st with
    | None => close_fd fd;; fail_with ("ShmRing: invalid shm segment size for " ++ posix_name)
    | Some st_size =>
        if st_size <? kHeaderBytes then
          close_fd fd;; fail_with ("ShmRing: invalid shm segment size for " ++ posix_name)
        else
          addr ← mmap fd st_size;
          match addr with
          | None => close_fd fd;; fail_with ("ShmRing: failed to mmap shm segment: " ++ errno_text)
          | Some a =>
              r ← through a get;
              if negb (magic r =? kMagic) || (capacity r =? 0) || negb (slot_size r =? kSlotBytes) then
                munmap a st_size;; close_fd fd;;
                fail_with ("ShmRing: corrupted header in shm segment " ++ posix_name)
              else built posix_name fd st_size a false
          end
    end.

(** [close()]: the object it leaves. *)
Definition close (this : ShmRing) : M Posix ShmRing :=
  this' ← match header_ this with
          | Some a =>
              if 0 <? shm_size_ this then
                munmap a (shm_size_ this);;
                mret (mkRing (name_ this) (fd_ this) 0 None None (is_creator_ this))
              else mret this
          | None => mret this
          end;
  if 0 <=? fd_ this' then
    close_fd (fd_ this');;
    mret (mkRing (name_ this') (-1) (shm_size_ this') (header_ this') (slots_ this') (is_creator_ this'))
  else mret this'.

(** [*this = std::move(other)] of two objects: what each holds afterwards. *)
Definition move_assign (this other : ShmRing) : M Posix (ShmRing * ShmRing) :=
  close this;;
  mret (other, mkRing (moved_from (name_ other)) (-1) 0 None None false).

Definition unlink (this : ShmRing) : M Posix unit :=
  if bool_decide (name_ this = ""%string) then mret tt else shm_unlink (name_ this).

(** The accessors, which answer zero without a mapping. *)
Definition accessor (f : Segment -> Z) (this : ShmRing) : M Posix Z :=
  match header_ this with Some a => r ← through a get; mret (f r) | None => mret 0 end.
Definition ring_pending : ShmRing -> M Posix Z := accessor pending.
Definition ring_dropped : ShmRing -> M Posix Z := accessor dropped.
Definition ring_capacity : ShmRing -> M Posix Z := accessor capacity.

(** The other operations assert the mapping. *)
Definition operate (this : ShmRing) (op : ShmOp) : M Posix ShmRes :=
  match op, header_ this with
  | OpPending, _ => n ← ring_pending this; mret (RPending n)
  | _, Some a => through a (shm_op op)
  | _, None => ub
  end.
End Ring.

(** ** A program's use of rings *)

Record Proc := mkProc { posix : Posix; vars : gmap nat ShmRing }.
Definition set_posix (p : Posix) (s : Proc) : Proc := mkProc p (vars s).
Definition set_vars (f : gmap nat ShmRing -> gmap nat ShmRing) (s : Proc) : Proc := mkProc (posix s) (f (vars s)).

Inductive RingOp :=
| Create (x : nat) (name : string) (min_capacity : Z) (unlink_first : bool)   (* auto x = ShmRing::create(...) *)
| Attach (x : nat) (name : string)
| MoveNew (x y : nat)         (* ShmRing x(std::move(y)) *)
| MoveAssign (x y : nat)      (* x = std::move(y) *)
| Destroy (x : nat)           (* x goes out of scope *)
| Unlink (x : nat)
| Operate (x : nat) (op : ShmOp).

#[export] Instance ShmOp_eq_dec : EqDecision ShmOp. Proof. solve_decision. Defined.

Inductive RingRes := Fine | Skipped | Threw (e : exn) | Answered (res : ShmRes).

Section Program.
Context `{Kernel}.

Definition on_posix {A} (m : M Posix A) : M Proc A := within posix set_posix m.

(** What a program may write: a name is introduced once, a variable used while
    it lives, and a slot operation needs a ring that was not moved from. *)
Definition allowed (op : RingOp) (s : Proc) : bool :=
  let live x := bool_decide (is_Some (vars s !! x)) in
  match op with
  | Create x _ n _ => negb (live x) && (0 <=? n)
  | Attach x _ => negb (live x)
  | MoveNew x y => negb (live x) && live y
  | MoveAssign x y => live x && live y
  | Destroy x | Unlink x => live x
  | Operate x op =>
      match vars s !! x with
      | Some r => bool_decide (op = OpPending) || bool_decide (is_Some (header_ r))
      | None => false
      end
  end.

Definition var (x : nat) : M Proc ShmRing := s ← get; deref (vars s !! x).
Definition store (x : nat) (r : ShmRing) : M Proc unit := modify (set_vars <[x := r]>).

Definition step (op : RingOp) : M Proc RingRes :=
  match op with
  | Create x name n unlink_first => r ← on_posix (create name n unlink_first); store x r;; mret Fine
  | Attach x name => r ← on_posix (attach name); store x r;; mret Fine
  | MoveNew x y => r ← var y; t ← on_posix (move_assign default_ring r); store y t.2;; store x t.1;; mret Fine
  | MoveAssign x y =>
      if bool_decide (x = y) then mret Fine
      else this ← var x; other ← var y; t ← on_posix (move_assign this other); store y t.2;; store x t.1;; mret Fine
  | Destroy x => r ← var x; on_posix (close r);; modify (set_vars (delete x));; mret Fine
  | Unlink x => r ← var x; on_posix (unlink r);; mret Fine
  | Operate x op => r ← var x; res ← on_posix (operate r op); mret (Answered res)
  end.

(** The program catches what an operation throws, and goes on. *)
Definition caught (m : M Proc RingRes) : M Proc RingRes := fun s o =>
  match m s o with (Throw e, s', o') => (Ret (Threw e), s', o') | r => r end.

Fixpoint proc_run (ops : list RingOp) : M Proc (list RingRes) :=
  match ops with
  | [] => mret []
  | op :: ops' =>
      s ← get;
      res ← (if allowed op s then caught (step op) else mret Skipped);
      rest ← proc_run ops';
      mret (res :: rest)
  end.
End Program.

(** ** What the tables mean *)

(** An object that holds a ring: its length, and a queue in its slots. *)
Definition ring_at (os : gmap nat (option Segment)) (ob : nat) (len : Z) : Prop :=
  exists r h q lost, os !! ob = Some (Some r) /\ holds (length (slots r)) h q lost r /\ segment_bytes r = len.

(** Every name leads to an empty object or to a ring. *)
Definition named_ok (ns : gmap string nat) (os : gmap nat (option Segment)) : Prop :=
  forall nm ob, ns !! nm = Some ob -> os !! ob = Some None \/ exists len, ring_at os ob len.

Definition keeps_rings (os os' : gmap nat (option Segment)) : Prop :=
  forall ob len, ring_at os ob len -> ring_at os' ob len.

Lemma named_ok_delete ns os nm : named_ok ns os -> named_ok (delete nm ns) os.
Proof. intros H nm' ob [_ Hob]%lookup_delete_Some. by eapply H. Qed.

Lemma keeps_fresh os ob c : os !! ob = None -> keeps_rings os (<[ob := c]> os).
Proof.
  intros Hf ob' len (r & h & q & lost & Hr & ?). exists r, h, q, lost. split; [|done].
  rewrite lookup_insert_ne; [done|congruence].
Qed.

Lemma named_ok_fresh ns os ob c : os !! ob = None -> named_ok ns os -> named_ok ns (<[ob := c]> os).
Proof.
  intros Hf H nm ob' Hn. destruct (H nm ob' Hn) as [E|[len Hr]].
  - left. rewrite lookup_insert_ne; [done|congruence].
  - right. exists len. by apply keeps_fresh.
Qed.

Lemma blank_at os ob n : 0 < n <= kMaxCapacity ->
  ring_at (<[ob := Some (blank (bit_ceil n))]> os) ob (kHeaderBytes + bit_ceil n * kSlotBytes).
Proof.
  intros Hn. pose proof (blank_holds n Hn) as Hb. exists (blank (bit_ceil n)), 0, [], 0%nat.
  split; [apply lookup_insert_eq|]. rewrite (ho_slots _ _ _ _ _ Hb). split; [done|].
  unfold segment_bytes. rewrite (ho_slots _ _ _ _ _ Hb), Z2Nat.id; [lia|]. apply Z.pow_nonneg. lia.
Qed.

(** A whole number of slots behind a header. *)
Lemma covered_slots r : covered (segment_bytes r) = length (slots r).
Proof.
  unfold covered, segment_bytes. rewrite Z.add_simpl_l, Z.mul_comm, Z.div_mul by done. apply Nat2Z.id.
Qed.

Section Specs.
Context `{Kernel}.
Implicit Types (p : Posix) (Q : outcome unit -> Posix -> Prop).

Lemma ends_syscall (Q : outcome bool -> Posix -> Prop) p : Q (Ret true) p -> Q (Ret false) p -> ends syscall Q p.
Proof. intros Ht Hf [|[] o]; done. Qed.

Lemma ends_fail {A} what (Q : outcome A -> Posix -> Prop) p :
  Q (Throw bad_alloc) p -> Q (Throw (runtime_error what)) p -> ends (fail_with what) Q p.
Proof. intros Ha Hr. unfold fail_with. estep. apply ends_alloc; [done|]. by estep. Qed.

Lemma ends_close_fd fd ob Q p :
  fds p !! Z.to_nat fd = Some ob -> Q (Ret tt) (set_fds (delete (Z.to_nat fd)) p) -> ends (close_fd fd) Q p.
Proof. intros Hfd HQ. unfold close_fd, object_of. do 2 estep. estep. eapply ends_deref; [done|]. by estep. Qed.

Lemma ends_object_of fd ob (Q : outcome nat -> Posix -> Prop) p :
  fds p !! Z.to_nat fd = Some ob -> Q (Ret ob) p -> ends (object_of fd) Q p.
Proof. intros Hfd HQ. unfold object_of. do 2 estep. by eapply ends_deref. Qed.

Lemma ends_munmap a ob len Q p :
  maps p !! a = Some (ob, len) -> Q (Ret tt) (set_maps (delete a) p) -> ends (munmap a len) Q p.
Proof.
  intros Ha HQ. unfold munmap. do 2 estep. estep. eapply ends_deref; [done|]. cbn [snd]. rewrite Z.eqb_refl. by estep.
Qed.

Lemma ends_unlink nm Q p : Q (Ret tt) (set_names (delete nm) p) -> ends (shm_unlink nm) Q p.
Proof. intros HQ. unfold shm_unlink. by estep. Qed.

(** The name in the kernel's table. *)
Lemma ends_posix_name name (Q : outcome string -> Posix -> Prop) p :
  Q (Throw bad_alloc) p -> (forall w, Q (Throw (invalid_argument w)) p) -> (forall nm, Q (Ret nm) p) ->
  ends (posix_name_of name) Q p.
Proof.
  intros Ha Hi Hr. unfold posix_name_of. estep. apply ends_alloc; [done|]. unfold normalize_name.
  destruct name as [|[[] [] [] [] [] [] [] []] s]; cbn; first [by apply ends_throw | by apply ends_ret].
Qed.

(** What opening a descriptor or an object by name can do. *)
Definition with_fd (n ob : nat) (p : Posix) : Posix := set_fds <[n := ob]> p.

Lemma ends_open_fd ob (Q : outcome Z -> Posix -> Prop) p :
  (forall n, fds p !! n = None -> Q (Ret (Z.of_nat n)) (with_fd n ob p)) -> ends (open_fd ob) Q p.
Proof.
  intros HQ. unfold open_fd. do 2 estep. cbv zeta. do 2 estep. estep. apply HQ, not_elem_of_dom, pick_unused.
Qed.

Lemma ends_shm_open nm (Q : outcome Z -> Posix -> Prop) p :
  Q (Ret (-1)) p ->
  (forall n ob, names p !! nm = Some ob -> fds p !! n = None -> Q (Ret (Z.of_nat n)) (with_fd n ob p)) ->
  ends (shm_open nm) Q p.
Proof.
  intros Hno Hyes. unfold shm_open. estep.
  apply ends_syscall; do 2 estep; destruct (names p !! nm) as [ob|] eqn:E; try by estep.
  apply ends_open_fd. intros n Hn. by apply Hyes.
Qed.

Lemma ends_shm_open_excl nm (Q : outcome Z -> Posix -> Prop) p :
  names p !! nm = None -> Q (Ret (-1)) p ->
  (forall n ob, fds p !! n = None -> objects p !! ob = None ->
     Q (Ret (Z.of_nat n)) (with_fd n ob (set_names <[nm := ob]> (set_objects <[ob := None]> p)))) ->
  ends (shm_open_excl nm) Q p.
Proof.
  intros Hnm Hno Hyes. unfold shm_open_excl. estep. apply ends_syscall; do 2 estep; rewrite Hnm; [|by estep].
  cbv zeta. do 2 estep. do 2 estep. apply ends_open_fd. intros n Hn. apply Hyes; [done|].
  apply not_elem_of_dom, pick_unused.
Qed.

Lemma ends_mmap fd ob len (Q : outcome (option nat) -> Posix -> Prop) p :
  fds p !! Z.to_nat fd = Some ob -> Q (Ret None) p ->
  (forall a, maps p !! a = None -> Q (Ret (Some a)) (set_maps <[a := (ob, len)]> p)) ->
  ends (mmap fd len) Q p.
Proof.
  intros Hfd Hno Hyes. unfold mmap. estep. eapply ends_object_of; [done|]. estep.
  apply ends_syscall; do 2 estep; cbv zeta; [|by estep]. do 2 estep. estep. apply Hyes, not_elem_of_dom, pick_unused.
Qed.

(** *** Through a mapping of a whole ring *)

Lemma through_eq {A} a ob r (m : M Segment A) p o out r' o' :
  maps p !! a = Some (ob, segment_bytes r) -> objects p !! ob = Some (Some r) -> m r o = (out, r', o') ->
  through a m p o = (out, set_objects <[ob := Some r']> p, o').
Proof.
  intros Ha Hob Hm. unfold through, mbind, M_bind, get, deref. rewrite Ha. cbv beta iota zeta delta [mret M_ret].
  cbn [fst snd]. rewrite Hob. cbv beta iota. unfold within. cbv beta. rewrite covered_slots.
  assert (set_slots (take (length (slots r))) r = r) as -> by (unfold set_slots; rewrite take_ge by lia; by destruct r).
  rewrite Hm. rewrite drop_ge by lia. repeat f_equal. unfold set_slots. rewrite app_nil_r. by destruct r'.
Qed.
Lemma ends_put a ob r r' Q p :
  maps p !! a = Some (ob, segment_bytes r) -> objects p !! ob = Some (Some r) ->
  Q (Ret tt) (set_objects <[ob := Some r']> p) -> ends (through a (put r')) Q p.
Proof. intros Ha Hob HQ o. by rewrite (through_eq _ _ _ _ _ _ _ _ _ Ha Hob eq_refl). Qed.

Lemma ends_peek a ob r (Q : outcome Segment -> Posix -> Prop) p :
  maps p !! a = Some (ob, segment_bytes r) -> objects p !! ob = Some (Some r) -> Q (Ret r) p -> ends (through a get) Q p.
Proof.
  intros Ha Hob HQ o. rewrite (through_eq _ _ _ _ _ _ _ _ _ Ha Hob eq_refl). unfold set_objects. rewrite insert_id by done.
  by destruct p.
Qed.

(** ** Acquiring a ring *)

(** A descriptor and a mapping more, of one object that holds a ring. *)
Record acquired (p : Posix) (r : ShmRing) (n a ob : nat) (p' : Posix) : Prop := {
  aq_fd : fd_ r = Z.of_nat n;
  aq_header : header_ r = Some a;
  aq_slots : slots_ r = Some a;
  aq_fd_new : fds p !! n = None;
  aq_map_new : maps p !! a = None;
  aq_fds : fds p' = <[n := ob]> (fds p);
  aq_maps : maps p' = <[a := (ob, shm_size_ r)]> (maps p);
  aq_ring : ring_at (objects p') ob (shm_size_ r);
}.

(** How acquiring ends: with a ring; with nothing; or out of memory at the last
    step, when the descriptor and the mapping have no owner yet. *)
Inductive opened (p : Posix) : outcome ShmRing -> Posix -> Prop :=
| opened_ring r n a ob p' : acquired p r n a ob p' -> opened p (Ret r) p'
| opened_none e p' : fds p' = fds p -> maps p' = maps p -> opened p (Throw e) p'
| opened_lost r n a ob p' : acquired p r n a ob p' -> opened p (Throw bad_alloc) p'.

Record call_ok (p : Posix) (out : outcome ShmRing) (p' : Posix) : Prop := {
  co_opened : opened p out p';
  co_named : named_ok (names p') (objects p');
  co_rings : keeps_rings (objects p) (objects p');
}.

Lemma failed_call p e p' :
  fds p' = fds p -> maps p' = maps p -> named_ok (names p') (objects p') -> keeps_rings (objects p) (objects p') ->
  call_ok p (Throw e) p'.
Proof. intros. split; [|done..]. by constructor. Qed.

Lemma failed_same p e p' :
  named_ok (names p) (objects p) -> names p' = names p -> objects p' = objects p -> fds p' = fds p -> maps p' = maps p ->
  call_ok p (Throw e) p'.
Proof. intros Hok En Eo ? ?. apply failed_call; [done|done|by rewrite En, Eo|]. by intros ob len; rewrite Eo. Qed.

(** Only the names differ before the call. *)
Lemma call_from p p0 out p' :
  fds p = fds p0 -> maps p = maps p0 -> objects p = objects p0 -> call_ok p out p' -> call_ok p0 out p'.
Proof.
  intros Ef Em Eo [Ho ? ?]. split; [|done|by rewrite <- Eo].
  destruct Ho as [r n a ob p' [] | e p' | r n a ob p' []];
    [eapply opened_ring|eapply opened_none|eapply opened_lost]; try constructor; try done; by rewrite <- ?Ef, <- ?Em.
Qed.

(** The last step. *)
Lemma ends_built p nm n len a creator ob p' :
  acquired p (mkRing nm (Z.of_nat n) len (Some a) (Some a) creator) n a ob p' ->
  named_ok (names p') (objects p') -> keeps_rings (objects p) (objects p') ->
  ends (built nm (Z.of_nat n) len a creator) (call_ok p) p'.
Proof.
  intros Ha Hn Hk. unfold built. estep. apply ends_alloc; [|estep]; split; try done; by econstructor.
Qed.

Lemma segment_bytes_truncated cap : segment_bytes (truncated cap None) = kHeaderBytes + kSlotBytes * Z.of_nat cap.
Proof. unfold segment_bytes, truncated. cbn [slots]. by rewrite repeat_length. Qed.

Lemma of_nat_not_neg n : (Z.of_nat n <? 0) = false.
Proof. apply Z.ltb_ge. lia. Qed.

(** A freshly named object, and what giving it up leaves. *)
Lemma abandoned p e nm n ob c :
  named_ok (names p) (objects p) -> fds p !! n = None -> objects p !! ob = None -> names p !! nm = None ->
  call_ok p (Throw e) (set_names (delete nm) (set_fds (delete n) (with_fd n ob (set_names <[nm := ob]>
    (set_objects <[ob := c]> p))))).
Proof.
  intros Hok Hn Hob Hnm. apply failed_call; cbn; [by rewrite delete_insert_id|done| |by apply keeps_fresh].
  rewrite delete_insert_id by done. by apply named_ok_fresh.
Qed.

(** The process once [create] has opened a new object. *)
Definition at_object (nm : string) (n ob : nat) (c : option Segment) (p : Posix) : Posix :=
  with_fd n ob (set_names <[nm := ob]> (set_objects <[ob := c]> p)).

Lemma ends_ftruncate nm n ob c cap (Q : outcome bool -> Posix -> Prop) p :
  Q (Ret false) (at_object nm n ob c p) -> Q (Ret true) (at_object nm n ob (Some (truncated cap c)) p) ->
  ends (ftruncate (Z.of_nat n) cap) Q (at_object nm n ob c p).
Proof.
  intros Hno Hyes. unfold ftruncate. estep. apply (ends_object_of _ ob); [rewrite Nat2Z.id; apply lookup_insert_eq|].
  estep. apply ends_syscall; do 2 estep; estep; [|done]. revert Hyes.
  unfold at_object, with_fd, set_fds, set_names, set_objects. cbn. by rewrite alter_insert_eq.
Qed.

Lemma abandon nm n ob c what p :
  named_ok (names p) (objects p) -> fds p !! n = None -> objects p !! ob = None -> names p !! nm = None ->
  ends (close_fd (Z.of_nat n);; shm_unlink nm;; fail_with what : M Posix ShmRing) (call_ok p) (at_object nm n ob c p).
Proof.
  intros Hok Hn Hob Hnm. estep. eapply ends_close_fd; [rewrite Nat2Z.id; apply lookup_insert_eq|].
  rewrite Nat2Z.id. estep. apply ends_unlink. apply ends_fail; by apply abandoned.
Qed.

Lemma create_open_ends p nm n cap len :
  named_ok (names p) (objects p) -> names p !! nm = None -> 0 < n <= kMaxCapacity ->
  cap = bit_ceil n -> len = kHeaderBytes + cap * kSlotBytes ->
  forall m ob, fds p !! m = None -> objects p !! ob = None ->
  ends (sized ← ftruncate (Z.of_nat m) (Z.to_nat cap);
        if negb sized then
          close_fd (Z.of_nat m);; shm_unlink nm;;
          fail_with ("ShmRing: failed to ftruncate shm segment: " ++ errno_text)
        else
          addr ← mmap (Z.of_nat m) len;
          match addr with
          | None =>
              close_fd (Z.of_nat m);; shm_unlink nm;;
              fail_with ("ShmRing: failed to mmap shm segment: " ++ errno_text)
          | Some a => through a (put (blank cap));; built nm (Z.of_nat m) len a true
          end) (call_ok p) (at_object nm m ob None p).
Proof.
  intros Hok Hnm Hn Hcap Hlen m ob Hm Hob. estep. apply ends_ftruncate; cbn [negb]; [by apply abandon|].
  assert (0 <= cap) by (subst; apply Z.pow_nonneg; lia).
  assert (len = segment_bytes (truncated (Z.to_nat cap) None)) as El by (rewrite segment_bytes_truncated, Z2Nat.id; lia).
  estep. eapply ends_mmap; [rewrite Nat2Z.id; apply lookup_insert_eq|by apply abandon|]. intros a Ha. cbn in Ha.
  estep. apply (ends_put _ ob (truncated (Z.to_nat cap) None)); cbn; [by rewrite lookup_insert_eq, El|apply lookup_insert_eq|].
  apply (ends_built _ _ _ _ _ _ ob).
  - constructor; try done. cbn. rewrite insert_insert_eq. subst cap len. by apply blank_at.
  - cbn. rewrite insert_insert_eq. intros nm' ob' [[<- <-]|[_ Hn']]%lookup_insert_Some.
    + right. eexists. subst cap. by apply blank_at.
    + by apply (named_ok_fresh (names p) _ _ _ Hob Hok nm').
  - cbn. rewrite insert_insert_eq. by apply keeps_fresh.
Qed.

Lemma create_ends name n p :
  named_ok (names p) (objects p) -> 0 <= n -> ends (create name n true) (call_ok p) p.
Proof.
  intros Hok Hn. unfold create. destruct (Z.eqb_spec n 0); [by estep; apply failed_same|].
  destruct (Z.ltb_spec kMaxCapacity n); [by estep; apply failed_same|]. cbv zeta. estep.
  apply ends_posix_name; [by apply failed_same|intros; by apply failed_same|]. intros nm.
  estep. apply ends_unlink. set (p1 := set_names (delete nm) p).
  assert (named_ok (names p1) (objects p1)) as Hok1 by (by apply named_ok_delete).
  assert (names p1 !! nm = None) as Hnm by apply lookup_delete_eq.
  apply (ends_mono _ (call_ok p1)); [|intros r p' Hc; by apply (call_from p1)].
  estep. apply ends_shm_open_excl; [done| |].
  - estep. change (-1 <? 0) with true. cbv iota. apply ends_shm_open; [|intros ? ? E; congruence].
    apply ends_fail; by apply failed_same.
  - intros m ob Hm Hob. rewrite of_nat_not_neg. estep. estep. rewrite of_nat_not_neg.
    apply (create_open_ends p1 nm n); [done|done|lia|done..].
Qed.

(** [attach] changes no object and no name. *)
Lemma attach_ends name p : named_ok (names p) (objects p) -> ends (attach name) (call_ok p) p.
Proof.
  intros Hok. unfold attach. estep. apply ends_posix_name; [by apply failed_same|intros; by apply failed_same|].
  intros nm. estep. apply ends_shm_open; [cbn; apply ends_fail; by apply failed_same|]. intros n ob Hnm Hn.
  rewrite of_nat_not_neg. assert (fds (with_fd n ob p) !! Z.to_nat (Z.of_nat n) = Some ob) as Hfd.
  { rewrite Nat2Z.id. apply lookup_insert_eq. }
  assert (forall what, ends (close_fd (Z.of_nat n);; fail_with what : M Posix ShmRing) (call_ok p) (with_fd n ob p)) as Hgive.
  { intros what. estep. eapply ends_close_fd; [done|].
    apply ends_fail; apply failed_same; try done; cbn; rewrite Nat2Z.id; by apply delete_insert_id. }
  assert (exists c, objects p !! ob = Some c) as [c Hob].
  { destruct (Hok nm ob Hnm) as [?|(len & r & ? & ? & ? & ? & _)]; eauto. }
  estep. unfold fstat_size. estep. eapply ends_object_of; [done|]. estep.
  apply ends_syscall; do 2 estep; estep; (eapply ends_deref; [exact Hob|]); estep; [|apply Hgive].
  case_match; [apply Hgive|]. zbool.
  assert (exists r, c = Some r) as [r ->] by (destruct c; [eauto|done]). cbn [object_bytes] in *.
  assert (ring_at (objects p) ob (segment_bytes r)) as Hring.
  { destruct (Hok nm ob Hnm) as [?|(len & r' & h & q & lost & E & ? & ?)]; [congruence|].
    rewrite Hob in E. injection E as <-. by exists r, h, q, lost. }
  estep. eapply ends_mmap; [done|apply Hgive|]. intros a Ha. estep.
  apply (ends_peek _ ob r); [apply lookup_insert_eq|done|]. case_match.
  - estep. eapply ends_munmap; [apply lookup_insert_eq|]. estep. eapply ends_close_fd; [done|].
    apply ends_fail; apply failed_same; try done; cbn; rewrite ?Nat2Z.id; by apply delete_insert_id.
  - apply (ends_built _ _ _ _ _ _ ob); [by constructor|done|by intros ? ?].
Qed.
End Specs.

(** ** Who owns what *)

(** A ring object with its descriptor and its mapping, and one without. *)
Record held (p : Posix) (r : ShmRing) (n a ob : nat) : Prop := {
  he_fd : fd_ r = Z.of_nat n;
  he_header : header_ r = Some a;
  he_fds : fds p !! n = Some ob;
  he_maps : maps p !! a = Some (ob, shm_size_ r);
  he_ring : ring_at (objects p) ob (shm_size_ r);
}.
Definition inert (r : ShmRing) : Prop := fd_ r = -1 /\ header_ r = None.

(** Live rings never share a descriptor or a mapping. *)
Record sound (s : Proc) : Prop := {
  so_named : named_ok (names (posix s)) (objects (posix s));
  so_ring : forall x r, vars s !! x = Some r -> inert r \/ exists n a ob, held (posix s) r n a ob;
  so_fds : forall x y r r', vars s !! x = Some r -> vars s !! y = Some r' -> fd_ r = fd_ r' -> 0 <= fd_ r -> x = y;
  so_maps : forall x y r r' a, vars s !! x = Some r -> vars s !! y = Some r' ->
    header_ r = Some a -> header_ r' = Some a -> x = y;
}.

(** Every open descriptor and every mapping belongs to a live ring. *)
Record tight (s : Proc) : Prop := {
  ti_fds : forall n, is_Some (fds (posix s) !! n) -> exists x r, vars s !! x = Some r /\ fd_ r = Z.of_nat n;
  ti_maps : forall a, is_Some (maps (posix s) !! a) -> exists x r, vars s !! x = Some r /\ header_ r = Some a;
}.

Lemma held_grows p p' r n a ob :
  fds p ⊆ fds p' -> maps p ⊆ maps p' -> keeps_rings (objects p) (objects p') -> held p r n a ob -> held p' r n a ob.
Proof. intros Hf Hm Hk []. constructor; [done|done| | |by apply Hk]; by eapply lookup_weaken. Qed.

Lemma sound_grows s p' :
  fds (posix s) ⊆ fds p' -> maps (posix s) ⊆ maps p' -> keeps_rings (objects (posix s)) (objects p') ->
  named_ok (names p') (objects p') -> sound s -> sound (mkProc p' (vars s)).
Proof.
  intros Hf Hm Hk Hn S. constructor; [done| |apply S|apply S]. intros x r Hx.
  destruct (so_ring _ S x r Hx) as [|(n & a & ob & ?)]; [by left|]. right. exists n, a, ob. by eapply held_grows.
Qed.

Lemma acquired_grows p r n a ob p' : acquired p r n a ob p' -> fds p ⊆ fds p' /\ maps p ⊆ maps p' /\ held p' r n a ob.
Proof.
  intros []. split_and!.
  - rewrite aq_fds0. by apply insert_subseteq.
  - rewrite aq_maps0. by apply insert_subseteq.
  - constructor; try done; [rewrite aq_fds0|rewrite aq_maps0]; apply lookup_insert_eq.
Qed.

(** A new ring enters the variables. *)
Lemma add_ring s x r n a ob p' :
  sound s -> vars s !! x = None -> acquired (posix s) r n a ob p' -> named_ok (names p') (objects p') ->
  keeps_rings (objects (posix s)) (objects p') ->
  sound (mkProc p' (<[x := r]> (vars s))) /\ (tight s -> tight (mkProc p' (<[x := r]> (vars s)))).
Proof.
  intros S Hx Ha Hn Hk. destruct (acquired_grows _ _ _ _ _ _ Ha) as (Hf & Hm & Hh).
  assert (forall y r', vars s !! y = Some r' -> 0 <= fd_ r' -> fd_ r' <> fd_ r) as Hfresh.
  { intros y r' Hy Hp. destruct (so_ring _ S y r' Hy) as [[E _]|(n' & a' & ob' & Hr)]; [lia|].
    rewrite (he_fd _ _ _ _ _ Hr), (aq_fd _ _ _ _ _ _ Ha). intros E. apply Nat2Z.inj in E as ->.
    pose proof (he_fds _ _ _ _ _ Hr). rewrite (aq_fd_new _ _ _ _ _ _ Ha) in *. done. }
  assert (forall y r', vars s !! y = Some r' -> header_ r' <> Some a) as Hfresh'.
  { intros y r' Hy E. destruct (so_ring _ S y r' Hy) as [[_ E']|(n' & a' & ob' & Hr)]; [congruence|].
    rewrite (he_header _ _ _ _ _ Hr) in E. injection E as ->.
    pose proof (he_maps _ _ _ _ _ Hr). rewrite (aq_map_new _ _ _ _ _ _ Ha) in *. done. }
  pose proof (sound_grows s p' Hf Hm Hk Hn S) as S'. split; [constructor; cbn|intros T; constructor; cbn].
  - done.
  - intros y r' [[<- <-]|[_ Hy]]%lookup_insert_Some; [right; by exists n, a, ob|by apply (so_ring _ S' y)].
  - intros y z r1 r2 [[<- <-]|[Hny Hy]]%lookup_insert_Some [[<- <-]|[Hnz Hz]]%lookup_insert_Some E Hp; try done.
    + destruct (Hfresh z r2 Hz); [lia|done].
    + by destruct (Hfresh y r1 Hy).
    + by eapply (so_fds _ S).
  - intros y z r1 r2 a' [[<- <-]|[Hny Hy]]%lookup_insert_Some [[<- <-]|[Hnz Hz]]%lookup_insert_Some E E'; try done.
    + rewrite (aq_header _ _ _ _ _ _ Ha) in E. injection E as <-. by destruct (Hfresh' z r2 Hz).
    + rewrite (aq_header _ _ _ _ _ _ Ha) in E'. injection E' as <-. by destruct (Hfresh' y r1 Hy).
    + by eapply (so_maps _ S).
  - intros m Hsome. rewrite (aq_fds _ _ _ _ _ _ Ha) in Hsome. destruct (decide (n = m)) as [<-|Hne].
    + exists x, r. split; [apply lookup_insert_eq|apply Ha].
    + rewrite lookup_insert_ne in Hsome by done. destruct (ti_fds _ T m Hsome) as (y & r' & Hy & ?). exists y, r'.
      split; [|done]. rewrite lookup_insert_ne; [done|congruence].
  - intros m Hsome. rewrite (aq_maps _ _ _ _ _ _ Ha) in Hsome. destruct (decide (a = m)) as [<-|Hne].
    + exists x, r. split; [apply lookup_insert_eq|apply Ha].
    + rewrite lookup_insert_ne in Hsome by done. destruct (ti_maps _ T m Hsome) as (y & r' & Hy & ?). exists y, r'.
      split; [|done]. rewrite lookup_insert_ne; [done|congruence].
Qed.

(** ** Giving a ring back *)

Definition released (p : Posix) (r : ShmRing) (p' : Posix) : Prop :=
  inert r /\ p' = p \/
  exists n a ob, held p r n a ob /\ p' = set_fds (delete n) (set_maps (delete a) p).

Lemma ring_at_size os ob len : ring_at os ob len -> 0 < len.
Proof. intros (r & h & q & lost & _ & _ & <-). unfold segment_bytes, kHeaderBytes, kSlotBytes. lia. Qed.

Lemma close_ends r p :
  (inert r \/ exists n a ob, held p r n a ob) ->
  ends (close r) (fun out p' => (exists r', out = Ret r') /\ released p r p') p.
Proof.
  intros [[Hfd Hh]|(n & a & ob & Hr)]; unfold close.
  - rewrite Hh. do 2 estep. rewrite Hfd. change (0 <=? -1) with false. cbv iota. estep. split; [eauto|by left].
  - rewrite (he_header _ _ _ _ _ Hr), (proj2 (Z.ltb_lt _ _)) by (eapply ring_at_size, Hr).
    estep. estep. eapply ends_munmap; [apply Hr|]. estep. cbn [fd_]. rewrite (he_fd _ _ _ _ _ Hr), (proj2 (Z.leb_le _ _)) by lia.
    estep. eapply ends_close_fd; [rewrite Nat2Z.id; apply Hr|]. estep. rewrite Nat2Z.id.
    split; [eauto|right; by exists n, a, ob].
Qed.

(** A ring leaves the variables with what it held. *)
Lemma drop_ring s x r p' :
  sound s -> vars s !! x = Some r -> released (posix s) r p' ->
  sound (mkProc p' (delete x (vars s))) /\ (tight s -> tight (mkProc p' (delete x (vars s)))).
Proof.
  intros S Hx [[[Hfd Hh] ->]|(n & a & ob & Hr & ->)].
  - split; [constructor; cbn|intros T; constructor; cbn]; [apply S|..].
    + intros y r' [_ Hy]%lookup_delete_Some. by apply (so_ring _ S y).
    + intros y z r1 r2 [_ Hy]%lookup_delete_Some [_ Hz]%lookup_delete_Some. by apply (so_fds _ S).
    + intros y z r1 r2 b [_ Hy]%lookup_delete_Some [_ Hz]%lookup_delete_Some. by apply (so_maps _ S).
    + intros m (y & r' & Hy & E)%(ti_fds _ T). exists y, r'. split; [|done]. apply lookup_delete_Some. split; [|done].
      intros <-. rewrite Hx in Hy. injection Hy as <-. lia.
    + intros m (y & r' & Hy & E)%(ti_maps _ T). exists y, r'. split; [|done]. apply lookup_delete_Some. split; [|done].
      intros <-. congruence.
  - destruct Hr. split; [constructor; cbn|intros T; constructor; cbn]; [apply S|..].
    + intros y r' [Hne Hy]%lookup_delete_Some. destruct (so_ring _ S y r' Hy) as [|(n' & a' & ob' & [])]; [by left|].
      right. exists n', a', ob'. constructor; cbn; try done; apply lookup_delete_Some; (split; [|done]); intros <-;
        apply Hne; [apply (so_fds _ S x y r r'); lia || congruence|by apply (so_maps _ S x y r r' a)].
    + intros y z r1 r2 [_ Hy]%lookup_delete_Some [_ Hz]%lookup_delete_Some. by apply (so_fds _ S).
    + intros y z r1 r2 b [_ Hy]%lookup_delete_Some [_ Hz]%lookup_delete_Some. by apply (so_maps _ S).
    + intros m [c [Hne Hm]%lookup_delete_Some]. destruct (ti_fds _ T m) as (y & r' & Hy & E); [by exists c|].
      exists y, r'. split; [|done]. apply lookup_delete_Some. split; [|done]. intros <-. rewrite Hx in Hy. injection Hy as <-. lia.
    + intros m [c [Hne Hm]%lookup_delete_Some]. destruct (ti_maps _ T m) as (y & r' & Hy & E); [by exists c|].
      exists y, r'. split; [|done]. apply lookup_delete_Some. split; [|done]. intros <-. congruence.
Qed.

(** A ring changes variables; the one it leaves is inert. *)
Lemma move_ring s x y r r0 :
  sound s -> vars s !! x = None -> vars s !! y = Some r -> inert r0 ->
  let s' := mkProc (posix s) (<[x := r]> (<[y := r0]> (vars s))) in
  sound s' /\ (tight s -> tight s').
Proof.
  intros S Hx Hy [Hfd0 Hh0]. assert (x <> y) as Hxy by congruence.
  assert (forall z r', <[x := r]> (<[y := r0]> (vars s)) !! z = Some r' ->
    r' = r0 \/ exists w, vars s !! w = Some r' /\ (z = x /\ w = y \/ z <> x /\ w <> y /\ z = w)) as Hfrom.
  { intros z r' [[<- <-]|[Hnx [[<- <-]|[Hny Hz]]%lookup_insert_Some]]%lookup_insert_Some; [right; exists y; by auto|by left|].
    right. exists z. split; [done|right]. by split_and!. }
  assert (forall w r', vars s !! w = Some r' -> exists z, <[x := r]> (<[y := r0]> (vars s)) !! z = Some r') as Hto.
  { intros w r' Hw. destruct (decide (w = y)) as [->|Hne].
    - exists x. rewrite Hy in Hw. injection Hw as <-. apply lookup_insert_eq.
    - exists w. rewrite !lookup_insert_ne; [done|done|congruence]. }
  cbv zeta. split; [constructor; cbn|intros T; constructor; cbn]; [apply S|..].
  - intros z r' [->|(w & Hw & _)]%Hfrom; [by left|]. by apply (so_ring _ S w).
  - intros z z' r1 r2 [->|(w & Hw & Hz)]%Hfrom [->|(w' & Hw' & Hz')]%Hfrom E Hp; [lia|lia|lia|].
    assert (w = w') by (by apply (so_fds _ S w w' r1 r2)). naive_solver.
  - intros z z' r1 r2 b [->|(w & Hw & Hz)]%Hfrom [->|(w' & Hw' & Hz')]%Hfrom E E'; [congruence|congruence|congruence|].
    assert (w = w') by (by apply (so_maps _ S w w' r1 r2 b)). naive_solver.
  - intros m (w & r' & Hw & E)%(ti_fds _ T). destruct (Hto w r' Hw) as [z Hz]. eauto.
  - intros m (w & r' & Hw & E)%(ti_maps _ T). destruct (Hto w r' Hw) as [z Hz]. eauto.
Qed.

(** ** Using a ring *)

Lemma ring_write os ob r r' :
  os !! ob = Some (Some r) -> length (slots r') = length (slots r) ->
  (exists h q lost, holds (length (slots r')) h q lost r') -> keeps_rings os (<[ob := Some r']> os).
Proof.
  intros Hob Hlen (h & q & lost & Hh) ob' len (r1 & h1 & q1 & lost1 & Hr1 & Hh1 & Hb).
  destruct (decide (ob = ob')) as [<-|Hne].
  - rewrite Hob in Hr1. injection Hr1 as <-. exists r', h, q, lost. split; [apply lookup_insert_eq|].
    split; [done|]. unfold segment_bytes in *. by rewrite Hlen.
  - exists r1, h1, q1, lost1. by rewrite lookup_insert_ne.
Qed.

Lemma named_write ns os ob r r' :
  named_ok ns os -> os !! ob = Some (Some r) -> keeps_rings os (<[ob := Some r']> os) -> named_ok ns (<[ob := Some r']> os).
Proof.
  intros Hok Hob Hk nm ob' Hn. destruct (Hok nm ob' Hn) as [E|[len Hr]]; [|right; exists len; by apply Hk].
  left. rewrite lookup_insert_ne; [done|congruence].
Qed.

(** An operation through a held ring is the ring's own; nothing else moves. *)
Definition only_contents (p : Posix) (p' : Posix) : Prop :=
  fds p' = fds p /\ maps p' = maps p /\ names p' = names p /\ keeps_rings (objects p) (objects p') /\
  named_ok (names p') (objects p').

Lemma operate_ends r n a ob p op :
  held p r n a ob -> named_ok (names p) (objects p) ->
  ends (operate r op) (fun out p' => (exists res, out = Ret res) /\ only_contents p p') p.
Proof.
  intros [_ Hh _ Hm (g & h & q & lost & Hob & Hg & Hlen)] Hok. rewrite <- Hlen in Hm.
  assert (ends (through a (shm_op op)) (fun out p' => (exists res, out = Ret res) /\ only_contents p p') p) as Hop.
  { intros o. destruct (op_refines _ _ _ _ _ op o Hg) as (h' & g' & E & Hg'). rewrite (through_eq _ _ _ _ _ _ _ _ _ Hm Hob E).
    split; [eauto|]. pose proof (ho_slots _ _ _ _ _ Hg') as El.
    assert (keeps_rings (objects p) (<[ob := Some g']> (objects p))) as Hk.
    { apply (ring_write _ _ g); [done|done|]. rewrite El. eauto. }
    split_and!; try done. cbn. by apply (named_write _ _ _ g). }
  unfold operate. destruct op as [s c|s| |]; rewrite ?Hh; try apply Hop.
  unfold ring_pending, accessor. rewrite Hh. estep. estep. apply (ends_peek _ ob g); [done|done|]. do 2 estep.
  split; [eauto|]. split_and!; try done. by intros ? ?.
Qed.

Lemma operate_inert r p : header_ r = None -> ends (operate r OpPending) (fun out p' => out = Ret (RPending 0) /\ p' = p) p.
Proof. intros Hh. unfold operate, ring_pending, accessor. rewrite Hh. do 2 estep. by estep. Qed.

(** ** A program's steps *)

(** The operation keeps the invariant, and exact ownership unless memory ran out. *)
Definition step_keeps (s : Proc) (res : RingRes) (s' : Proc) : Prop :=
  sound s' /\ (res <> Threw bad_alloc -> tight s -> tight s').

Definition outcome_keeps (s : Proc) (out : outcome RingRes) (s' : Proc) : Prop :=
  match out with Ret res => step_keeps s res s' | Throw e => step_keeps s (Threw e) s' | UB => False end.

(** The calls that create a ring unlink the name first, as every caller of the
    program does. *)
Definition unlinks_first (op : RingOp) : bool := match op with Create _ _ _ u => u | _ => true end.

Section Steps.
Context `{Kernel}.

Lemma ends_on_posix {A} (m : M Posix A) (Q : outcome A -> Proc -> Prop) s :
  ends m (fun out p' => Q out (set_posix p' s)) (posix s) -> ends (on_posix m) Q s.
Proof. intros Hm o. specialize (Hm o). unfold on_posix, within. destruct (m (posix s) o) as [[r p'] o']. exact Hm. Qed.

Lemma ends_var x r (Q : outcome ShmRing -> Proc -> Prop) s : vars s !! x = Some r -> Q (Ret r) s -> ends (var x) Q s.
Proof. intros Hx HQ. unfold var. do 2 estep. by eapply ends_deref. Qed.

Lemma ends_store x r (Q : outcome unit -> Proc -> Prop) s : Q (Ret tt) (set_vars <[x := r]> s) -> ends (store x r) Q s.
Proof. intros HQ. unfold store. by estep. Qed.

(** Acquiring into a new variable. *)
Lemma acquire_step x (m : M Posix ShmRing) s :
  sound s -> vars s !! x = None -> ends m (call_ok (posix s)) (posix s) ->
  ends (r ← on_posix m; store x r;; mret Fine) (outcome_keeps s) s.
Proof.
  intros S Hx Hm. estep. apply ends_on_posix. eapply ends_mono; [exact Hm|]. intros out p' [Ho Hn Hk].
  destruct Ho as [r n a ob p' Ha|e p' Ef Em|r n a ob p' Ha].
  - estep. apply ends_store. estep. cbn. destruct (add_ring s x r n a ob p') as [? Ht]; try done.
  - cbn. split.
    + apply (sound_grows s p'); try done; by rewrite ?Ef, ?Em.
    + intros _ []. constructor; cbn; rewrite ?Ef, ?Em; done.
  - cbn. destruct (acquired_grows _ _ _ _ _ _ Ha) as (? & ? & _). split; [by apply (sound_grows s p')|done].
Qed.

Lemma sound_contents s p' : sound s -> only_contents (posix s) p' -> step_keeps s Fine (set_posix p' s).
Proof.
  intros S (Ef & Em & En & Hk & Hn). split; [apply (sound_grows s p'); try done; by rewrite ?Ef, ?Em|].
  intros _ []. constructor; cbn; rewrite ?Ef, ?Em; done.
Qed.

(** A ring given back and another moved into its place. *)
Lemma move_step s x y this other :
  sound s -> x <> y -> (vars s !! x = Some this \/ vars s !! x = None /\ this = default_ring) -> vars s !! y = Some other ->
  ends (t ← on_posix (move_assign this other); store y t.2;; store x t.1;; mret Fine) (outcome_keeps s) s.
Proof.
  intros S Hne Hx Hy. estep. apply ends_on_posix. unfold move_assign. estep.
  assert (inert this \/ exists n a ob, held (posix s) this n a ob) as Hthis.
  { destruct Hx as [Hx|[_ ->]]; [by apply (so_ring _ S x)|by left]. }
  eapply ends_mono; [by apply close_ends|]. intros out p' [[r' ->] Hrel]. estep. estep. apply ends_store. estep.
  apply ends_store. estep. cbn.
  set (s1 := mkProc p' (delete x (vars s))).
  assert (sound s1 /\ (tight s -> tight s1)) as [S1 T1].
  { destruct Hx as [Hx|[Hx ->]]; [by eapply drop_ring|]. unfold s1. rewrite delete_id by done.
    destruct Hrel as [[_ ->]|(n & a & ob & [He _ _ _ _] & _)]; [by destruct s|]. cbn in He. lia. }
  set (r0 := mkRing _ _ _ _ _ _).
  destruct (move_ring s1 x y other r0 S1) as [S2 T2]; [apply lookup_delete_eq|by apply lookup_delete_Some|done|].
  cbn in S2, T2. rewrite <- delete_insert_ne, insert_delete_eq in S2, T2 by done. split; [exact S2|auto].
Qed.

Lemma step_ends op s : sound s -> allowed op s = true -> unlinks_first op = true -> ends (step op) (outcome_keeps s) s.
Proof.
  intros S Hal Hu. destruct op as [x name n u|x name|x y|x y|x|x|x op]; cbn [step allowed unlinks_first] in *; subst.
  - apply andb_true_iff in Hal as [Hx Hn]. zbool. rewrite bool_decide_eq_false, <- eq_None_not_Some in Hx.
    apply acquire_step; [done..|]. apply create_ends; [apply S|done].
  - zbool. rewrite bool_decide_eq_false, <- eq_None_not_Some in Hal. apply acquire_step; [done..|]. apply attach_ends, S.
  - apply andb_true_iff in Hal as [Hx [r Hy]%bool_decide_eq_true]. zbool. rewrite bool_decide_eq_false, <- eq_None_not_Some in Hx.
    estep. eapply ends_var; [done|]. apply move_step; [done|congruence|by right|done].
  - apply andb_true_iff in Hal as [[r Hx]%bool_decide_eq_true [r' Hy]%bool_decide_eq_true].
    case_bool_decide as E; [estep; by split|]. estep. eapply ends_var; [done|]. estep. eapply ends_var; [done|].
    apply move_step; auto.
  - apply bool_decide_eq_true in Hal as [r Hx]. estep. eapply ends_var; [done|]. estep. apply ends_on_posix.
    eapply ends_mono; [apply close_ends, (so_ring _ S x r Hx)|]. intros out p' [[r' ->] Hrel]. estep. estep. estep.
    destruct (drop_ring s x r p' S Hx Hrel). by split.
  - apply bool_decide_eq_true in Hal as [r Hx]. estep. eapply ends_var; [done|]. estep. apply ends_on_posix.
    unfold unlink. case_bool_decide; [estep; estep; destruct s; by split|]. apply ends_unlink. estep. cbn.
    split; [apply (sound_grows s); try done; [by intros ? ?|apply named_ok_delete, S]|]. intros _ []. by constructor.
  - destruct (vars s !! x) as [r|] eqn:Hx; [|done]. estep. eapply ends_var; [done|]. estep. apply ends_on_posix.
    destruct (so_ring _ S x r Hx) as [[_ Hh]|(n & a & ob & Hr)].
    + rewrite Hh in Hal. cbn in Hal. rewrite orb_false_r in Hal. apply bool_decide_eq_true in Hal as ->.
      eapply ends_mono; [by apply operate_inert|]. intros out p' [-> ->]. estep. destruct s. by split.
    + eapply ends_mono; [eapply operate_ends; [done|apply S]|]. intros out p' [[res ->] Hc]. estep.
      destruct (sound_contents s p' S Hc) as [? Ht]. split; [done|]. intros _. by apply Ht.
Qed.

Lemma proc_run_keeps ops s o :
  sound s -> Forall (fun op => unlinks_first op = true) ops ->
  exists res s' o', proc_run ops s o = (Ret res, s', o') /\ sound s' /\ (~ In (Threw bad_alloc) res -> tight s -> tight s').
Proof.
  intros S Hall. revert s o S. induction Hall as [|op ops Hop _ IH]; intros s o S; [by exists [], s, o|].
  cbn [proc_run]. unfold mbind, M_bind, get.
  assert (exists res1 s1 o1, (if allowed op s then caught (step op) else mret Skipped) s o = (Ret res1, s1, o1) /\
    step_keeps s res1 s1) as (res1 & s1 & o1 & E & S1 & T1).
  { destruct (allowed op s) eqn:Hal; [|exists Skipped, s, o; split; [done|split; [done|by intros _]]].
    pose proof (step_ends op s S Hal Hop o) as Hs. unfold caught.
    destruct (step op s o) as [[[res|e|] s1] o1]; [..|done]; do 3 eexists; by split. }
  rewrite E. destruct (IH s1 o1 S1) as (res & s2 & o2 & E2 & S2 & T2). rewrite E2.
  exists (res1 :: res), s2, o2. split; [done|split; [done|]]. intros Hno T. apply T2; [intros Hin; apply Hno; by right|].
  apply T1; [intros ->; apply Hno; by left|done].
Qed.
End Steps.

Section Claims.
Context `{Kernel}.

(** C35 Ring objects give back exactly what they took: for any program that
    creates, attaches, moves, uses, unlinks and destroys rings, whose creates all
    unlink first, over names that hold segments as large as their headers say,
    and whatever system calls and allocations fail, nothing is closed or unmapped
    twice and no operation reaches past its mapping.  (Without the first premise
    [regrown_ring_overruns] and without the second [attach_trusts_capacity] write
    past a mapping.)  Every live ring holds its own open
    descriptor and mapping of an object that contains a ring, or nothing; and
    unless memory ran out, every open descriptor and mapping belongs to a live
    ring, so that none is left once the last ring is gone. *)
Theorem handles_release_once ops p o :
  fds p = ∅ -> maps p = ∅ -> named_ok (names p) (objects p) ->
  Forall (fun op => unlinks_first op = true) ops ->
  exists res s o', proc_run ops (mkProc p ∅) o = (Ret res, s, o') /\
    (forall x r, vars s !! x = Some r -> inert r \/ exists n a ob, held (posix s) r n a ob) /\
    (forall x y r r', vars s !! x = Some r -> vars s !! y = Some r' -> x <> y -> 0 <= fd_ r ->
       fd_ r <> fd_ r' /\ header_ r <> header_ r') /\
    (~ In (Threw bad_alloc) res -> tight s /\ (vars s = ∅ -> fds (posix s) = ∅ /\ maps (posix s) = ∅)).
Proof.
  intros Hf Hm Hn Hall. assert (sound (mkProc p ∅)) as S by by constructor.
  assert (tight (mkProc p ∅)) as T.
  { constructor; cbn; rewrite ?Hf, ?Hm; intros ? [? E]; by rewrite lookup_empty in E. }
  destruct (proc_run_keeps ops _ o S Hall) as (res & s & o' & E & S' & T'). exists res, s, o'. split_and!; [done|apply S'| |].
  - intros x y r r' Hx Hy Hne Hp. split; [intros Ef; by apply Hne, (so_fds _ S' x y r r')|].
    intros Eh. destruct (so_ring _ S' x r Hx) as [[? _]|(n & a & ob & Hr)]; [lia|].
    apply Hne, (so_maps _ S' x y r r' a); try done; rewrite <- ?Eh; apply Hr.
  - intros Hno. specialize (T' Hno T). split; [done|]. intros Hv.
    split; apply map_eq; intros k; rewrite lookup_empty, eq_None_not_Some; intros Hk;
      [apply (ti_fds _ T') in Hk|apply (ti_maps _ T') in Hk]; destruct Hk as (x & r & Hx & _);
      rewrite Hv, lookup_empty in Hx; done.
Qed.
End Claims.

(** ** Concrete programs *)

Definition demo_kernel : Kernel := {| pick := fresh; pick_unused := is_fresh; errno_text := ""; moved_from _ := ""%string |}.
#[local] Existing Instance demo_kernel.

Definition idle : Posix := mkPosix ∅ ∅ ∅ ∅.

(** Two handles on one ring, one of them moved on, a message through them, and
    the end of both. *)
Definition demo_program : list RingOp :=
  [Create 0 "ring" 2 true; Attach 1 "/ring"; Operate 0 (OpPush (slot_of "A") false); MoveNew 2 1; Operate 1 OpPending;
   Operate 2 OpPop; MoveAssign 2 2; Unlink 0; Destroy 0; Destroy 1; Destroy 2].

Lemma handles_release_once_witness :
  exists s, run (proc_run demo_program) (mkProc idle ∅) =
      (Ret [Fine; Fine; Answered (RPushed true); Fine; Answered (RPending 0); Answered (RPopped (Some (slot_of "A")));
            Fine; Fine; Fine; Fine; Fine], s) /\
    fds (posix s) = ∅ /\ maps (posix s) = ∅.
Proof.
  destruct (handles_release_once demo_program idle []) as (res & s & o' & E & _ & _ & Ht);
    [done|done|by intros ? ?|by repeat constructor|].
  exists s. unfold run. rewrite E.
  assert (res = [Fine; Fine; Answered (RPushed true); Fine; Answered (RPending 0); Answered (RPopped (Some (slot_of "A")));
            Fine; Fine; Fine; Fine; Fine] /\ vars s = ∅) as [-> Hv].
  { assert (E' : run (proc_run demo_program) (mkProc idle ∅) = (Ret res, s)) by (unfold run; by rewrite E).
    vm_compute in E'. injection E' as <- <-. by split. }
  split; [done|]. apply Ht; [|done]. intros Hin. repeat destruct Hin as [Hin|Hin]; done.
Defined.

(** When the copy of the name into the new object throws, the descriptor and the
    mapping stay behind with no owner. *)
Example lost_to_bad_alloc :
  exists s, proc_run [Attach 0 "/r"] (mkProc (mkPosix {["/r"%string := 0%nat]} {[0%nat := Some (blank 1)]} ∅ ∅) ∅)
      [false; false; false; false; true] = (Ret [Threw bad_alloc], s, []) /\
    vars s = ∅ /\ size (fds (posix s)) = 1%nat /\ size (maps (posix s)) = 1%nat.
Proof. eexists. split; [vm_compute; reflexivity|]. split_and!; reflexivity. Qed.

(** Without the unlink, [create] resizes and clears a ring in use; its first owner
    reads the new capacity and writes past its own mapping. *)
Example regrown_ring_overruns :
  (run (proc_run [Create 0 "r" 1 true; Create 1 "r" 2 false; Operate 0 (OpPush (slot_of "A") false);
                  Operate 0 (OpPush (slot_of "B") false)]) (mkProc idle ∅)).1 = UB.
Proof. vm_compute. reflexivity. Qed.
