(* ===== verification/SimdPricing.v ===== *)
(** * Depth pricing ([cpp/include/mm/simd_pricing.hpp])

    [SimdPricingEngine::compute] over binary64, in the three builds the
    preprocessor chooses from: two-lane NEON and four-lane AVX2 with fused
    multiply-adds, and the scalar loop.  Every operation rounds once, to nearest
    even. *)

From Stdlib Require Import ZArith List Lia.
From Stdlib Require Import SpecFloat.
From stdpp Require Import base tactics list option.
From S2P Require Import Prelude.

Abbreviation double := spec_float.

Definition prec : Z := 53.
Definition emax : Z := 1024.

Definition fadd : double -> double -> double := SFadd prec emax.
Definition fsub : double -> double -> double := SFsub prec emax.
Definition fmul : double -> double -> double := SFmul prec emax.
Definition fdiv : double -> double -> double := SFdiv prec emax.

(** A fused multiply-add: [a * b + c] rounded once.  A product that is not
    finite, or zero, is exact. *)
Definition ffma (a b c : double) : double :=
  match a, b, c with
  | S754_finite sa ma ea, S754_finite sb mb eb, S754_finite sc mc ec =>
      let ez := Z.min (ea + eb) ec in
      binary_normalize prec emax
        (cond_Zopp (xorb sa sb) (Zpos (ma * mb)) * 2 ^ (ea + eb - ez) + cond_Zopp sc (Zpos mc) * 2 ^ (ec - ez)) ez false
  | S754_finite _ _ _, S754_finite _ _ _, S754_zero _ => fmul a b
  | S754_finite _ _ _, S754_finite _ _ _, _ => c
  | _, _, _ => fadd (fmul a b) c
  end.

(** [static_cast<double>] of a 64-bit integer. *)
Definition of_int (z : Z) : double := binary_normalize prec emax z 0 false.

Definition f0 : double := S754_zero false.
Definition f1 : double := of_int 1.
Definition f0_5 : double := binary_normalize prec emax 1 (-1) false.
Definition f0_25 : double := binary_normalize prec emax 1 (-2) false.
(** The double nearest to a tenth. *)
Definition f0_1 : double := fdiv (of_int 1) (of_int 10).

Record BookDepth4 := mkDepth {
  d_bid_px : list double; d_bid_qty : list double; d_ask_px : list double; d_ask_qty : list double }.

Record SimdPricingResult := mkPricing {
  micro_price : double; order_book_imbalance : double; vwap_bid : double; vwap_ask : double;
  target_bid : double; target_ask : double }.

(** A level of the book; the arrays hold four. *)
Definition level (l : list double) (i : nat) : double := nth i l f0.

Record Sums := mkSums { num : double; total_b_qty : double; total_a_qty : double; vwap_b_num : double; vwap_a_num : double }.

(** ** The scalar loop *)

(** One turn of the loop. *)
Definition sum_level (d : BookDepth4) (s : Sums) (i : nat) : Sums :=
  let bp := level (d_bid_px d) i in
  let bq := level (d_bid_qty d) i in
  let ap := level (d_ask_px d) i in
  let aq := level (d_ask_qty d) i in
  mkSums (fadd (num s) (fadd (fmul bp aq) (fmul ap bq)))
         (fadd (total_b_qty s) bq) (fadd (total_a_qty s) aq)
         (fadd (vwap_b_num s) (fmul bp bq)) (fadd (vwap_a_num s) (fmul ap aq)).

Definition sums_scalar (d : BookDepth4) : Sums :=
  fold_left (sum_level d) [0; 1; 2; 3]%nat (mkSums f0 f0 f0 f0 f0).

(** ** Vectors, by lane *)

Abbreviation vec := (nat -> double).
Definition vload (l : list double) (at_ : nat) : vec := fun i => level l (at_ + i).
Definition vadd (x y : vec) : vec := fun i => fadd (x i) (y i).
Definition vmul (x y : vec) : vec := fun i => fmul (x i) (y i).
(** [vfmaq_f64]: the accumulator comes first. *)
Definition vfmaq (acc x y : vec) : vec := fun i => ffma (x i) (y i) (acc i).
(** [_mm256_fmadd_pd]: it comes last. *)
Definition fmadd_pd (x y acc : vec) : vec := fun i => ffma (x i) (y i) (acc i).
Definition hsum2 (v : vec) : double := fadd (v 0%nat) (v 1%nat).
Definition hsum4 (v : vec) : double := fadd (fadd (fadd (v 0%nat) (v 1%nat)) (v 2%nat)) (v 3%nat).

Definition sums_neon (d : BookDepth4) : Sums :=
  let b_px_01 := vload (d_bid_px d) 0 in
  let b_px_23 := vload (d_bid_px d) 2 in
  let a_qty_01 := vload (d_ask_qty d) 0 in
  let a_qty_23 := vload (d_ask_qty d) 2 in
  let a_px_01 := vload (d_ask_px d) 0 in
  let a_px_23 := vload (d_ask_px d) 2 in
  let b_qty_01 := vload (d_bid_qty d) 0 in
  let b_qty_23 := vload (d_bid_qty d) 2 in
  let num_01 := vfmaq (vmul b_px_01 a_qty_01) a_px_01 b_qty_01 in
  let num_23 := vfmaq (vmul b_px_23 a_qty_23) a_px_23 b_qty_23 in
  let vwap_b_vec := vfmaq (vmul b_px_01 b_qty_01) b_px_23 b_qty_23 in
  let vwap_a_vec := vfmaq (vmul a_px_01 a_qty_01) a_px_23 a_qty_23 in
  mkSums (hsum2 (vadd num_01 num_23)) (hsum2 (vadd b_qty_01 b_qty_23)) (hsum2 (vadd a_qty_01 a_qty_23))
         (hsum2 vwap_b_vec) (hsum2 vwap_a_vec).

Definition sums_avx2 (d : BookDepth4) : Sums :=
  let b_px := vload (d_bid_px d) 0 in
  let b_qty := vload (d_bid_qty d) 0 in
  let a_px := vload (d_ask_px d) 0 in
  let a_qty := vload (d_ask_qty d) 0 in
  let num_vec := fmadd_pd b_px a_qty (vmul a_px b_qty) in
  mkSums (hsum4 num_vec) (hsum4 b_qty) (hsum4 a_qty) (hsum4 (vmul b_px b_qty)) (hsum4 (vmul a_px a_qty)).

(** ** The pricing *)

(** The branch the preprocessor took. *)
Inductive Build := Neon | Avx2 | Scalar.
Class Target := build : Build.

Definition sums (b : Build) (d : BookDepth4) : Sums :=
  match b with Neon => sums_neon d | Avx2 => sums_avx2 d | Scalar => sums_scalar d end.

Definition compute `{Target} (d : BookDepth4) (base_half_spread : double) (position : Z)
    (gamma_risk_aversion volatility : double) : SimdPricingResult :=
  let s := sums build d in
  let total_qty := fadd (total_b_qty s) (total_a_qty s) in
  let positive := SFltb f0 total_qty in
  let micro := if positive then fdiv (num s) total_qty
               else fmul (fadd (level (d_bid_px d) 0) (level (d_ask_px d) 0)) f0_5 in
  let obi := if positive then fdiv (fsub (total_b_qty s) (total_a_qty s)) total_qty else f0 in
  let vwap_b := if SFltb f0 (total_b_qty s) then fdiv (vwap_b_num s) (total_b_qty s) else level (d_bid_px d) 0 in
  let vwap_a := if SFltb f0 (total_a_qty s) then fdiv (vwap_a_num s) (total_a_qty s) else level (d_ask_px d) 0 in
  let inventory_skew := fmul (fmul (of_int position) gamma_risk_aversion) (fmul volatility volatility) in
  let reservation_price := fsub micro inventory_skew in
  let obi_spread_skew := fmul obi (fmul base_half_spread f0_25) in
  let optimal_half_spread := fmul base_half_spread (fadd f1 (fmul f0_1 volatility)) in
  mkPricing micro obi vwap_b vwap_a
    (fsub reservation_price (fsub optimal_half_spread obi_spread_skew))
    (fadd reservation_price (fadd optimal_half_spread obi_spread_skew)).

(** ** Conversions the strategy makes *)

(** The integer part, towards zero, of a finite double. *)
Definition trunc_mag (m : positive) (e : Z) : Z := if 0 <=? e then Zpos m * 2 ^ e else Zpos m / 2 ^ (- e).
Definition to_int (x : double) : option Z :=
  match x with
  | S754_zero _ => Some 0
  | S754_finite sign m e => Some (if sign then - trunc_mag m e else trunc_mag m e)
  | S754_infinity _ | S754_nan => None
  end.

(** [static_cast<std::int64_t>]: out of range is undefined. *)
Definition cast_i64 (x : double) : option Z :=
  match to_int x with Some z => if bool_decide (is_i64 z) then Some z else None | None => None end.

(** [std::round]: to the nearest integer, halves away from zero. *)
Definition round_mag (m : positive) (e : Z) : Z := if 0 <=? e then Zpos m * 2 ^ e else (2 * Zpos m + 2 ^ (- e)) / 2 ^ (1 - e).
Definition fround (x : double) : double :=
  match x with
  | S754_finite sign m e => 
      let n := round_mag m e in
      if n =? 0 then S754_zero sign else binary_normalize prec emax (if sign then - n else n) 0 sign
  | _ => x
  end.

(** A balanced book of one level prices at the mid, with a half-spread of 11. *)
Definition flat_depth (bid ask qty : Z) : BookDepth4 :=
  mkDepth [of_int bid; f0; f0; f0] [of_int qty; f0; f0; f0] [of_int ask; f0; f0; f0] [of_int qty; f0; f0; f0].

Example flat_depth_prices :
  forallb (fun b =>
    let r := @compute b (flat_depth 100 102 5) (of_int 10) 0 f0_1 f1 in
    bool_decide ((cast_i64 (micro_price r), cast_i64 (fround (target_bid r)), cast_i64 (fround (target_ask r))) =
      (Some 101, Some 90, Some 112))) [Neon; Avx2; Scalar] = true.
Proof. vm_compute. reflexivity. Qed.
