(* ===== verification/PricingProps.v ===== *)
(** * The three builds price alike on tick-sized books

    Integers below 2^53 are exact doubles, and so are their sums and products
    while they stay below; on a book of integral prices and quantities of the
    instrument's size every intermediate result of the three branches is such an
    integer, so rounding, the order of the sums and the fused operations make no
    difference. *)

From Stdlib Require Import ZArith List Lia.
From Stdlib Require Import SpecFloat.
From stdpp Require Import base tactics list option.
From S2P Require Import Prelude SimdPricing.

(** ** Digits and shifts *)

Lemma digits2_log2 p : Zpos (digits2_pos p) = Z.log2 (Zpos p) + 1.
Proof.
  induction p as [p IH|p IH|]; cbn [digits2_pos]; [| |done]; rewrite Pos2Z.inj_succ, IH.
  - rewrite Pos2Z.inj_xI, Z.log2_succ_double by lia. lia.
  - rewrite Pos2Z.inj_xO, Z.log2_double by lia. lia.
Qed.

Lemma iter_pos_iter {A} (f : A -> A) n x : SpecFloat.iter_pos f n x = Nat.iter (Pos.to_nat n) f x.
Proof.
  revert x. induction n as [n IH|n IH|]; intros x; cbn [SpecFloat.iter_pos]; [| |done]; rewrite !IH.
  - rewrite Pos2Nat.inj_xI, Nat.iter_succ_r, <- Nat.iter_add. f_equal. lia.
  - rewrite Pos2Nat.inj_xO, <- Nat.iter_add. f_equal. lia.
Qed.

Definition exact_record (m : Z) : shr_record := Build_shr_record m false false.

Lemma shr_1_double m : 0 < m -> shr_1 (exact_record (2 * m)) = exact_record m.
Proof. by destruct m. Qed.

(** Shifting out zeros loses nothing. *)
Lemma shr_exact m n : 0 < m -> SpecFloat.iter_pos shr_1 n (exact_record (m * 2 ^ Zpos n)) = exact_record m.
Proof.
  intros Hm. rewrite iter_pos_iter, <- (positive_nat_Z n). induction (Pos.to_nat n) as [|k IH]; [change (2 ^ Z.of_nat 0) with 1; by rewrite Z.mul_1_r|].
  rewrite Nat.iter_succ_r, Nat2Z.inj_succ, Z.pow_succ_r by lia.
  replace (m * (2 * 2 ^ Z.of_nat k)) with (2 * (m * 2 ^ Z.of_nat k)) by lia.
  rewrite shr_1_double; [exact IH|]. pose proof (Z.pow_pos_nonneg 2 (Z.of_nat k)). nia.
Qed.

Lemma shl_align_spec m e e' : e' <= e -> Zpos (shl_align m e e').1 = Zpos m * 2 ^ (e - e') /\ (shl_align m e e').2 = e'.
Proof.
  intros He. unfold shl_align. destruct (e' - e) as [|d|d] eqn:Ed; [|lia|].
  - assert (e = e') as -> by lia. rewrite Z.sub_diag. change (2 ^ 0) with 1. by rewrite Z.mul_1_r.
  - split; [|done]. assert (e - e' = Zpos d) as -> by lia. cbn [fst]. clear.
    induction d as [|d IH] using Pos.peano_ind; [cbn; lia|].
    rewrite Pos.iter_succ, Pos2Z.inj_succ, Z.pow_succ_r, Pos2Z.inj_xO, IH by lia. lia.
Qed.

Lemma shl_align_fst m e e' : e' <= e -> Zpos (shl_align m e e').1 = Zpos m * 2 ^ (e - e').
Proof. intros He. apply (shl_align_spec m e e' He). Qed.

Lemma shl_align_none m e e' : e <= e' -> shl_align m e e' = (m, e).
Proof. intros He. unfold shl_align. by destruct (e' - e) eqn:E; [| |lia]. Qed.

(** ** Integers below 2^53 *)

Definition small (z : Z) : Prop := 0 < z < 2 ^ 53.
Definition width (z : Z) : Z := Z.log2 z + 1.

(** The double of a small integer: its mantissa filled up to 53 bits. *)
Definition canon (z : Z) : double := S754_finite false (Z.to_pos (z * 2 ^ (53 - width z))) (width z - 53).

Lemma width_small z : small z -> 1 <= width z <= 53.
Proof.
  intros [H1 H2]. unfold width. pose proof (Z.log2_nonneg z). pose proof (proj1 (Z.log2_lt_pow2 z 53 H1) H2). lia.
Qed.

Lemma fexp_width z k : small z -> fexp prec emax (Zdigits2 (z * 2 ^ k) + - k) = width z - 53 \/ k < 0.
Proof.
  intros Hz. destruct (Z.lt_ge_cases k 0) as [|Hk]; [by right|left]. pose proof (width_small z Hz).
  assert (0 < z * 2 ^ k) as Hpos by (pose proof (Z.pow_pos_nonneg 2 k); unfold small in Hz; nia).
  assert (Zdigits2 (z * 2 ^ k) = Z.log2 (z * 2 ^ k) + 1) as ->.
  { destruct (z * 2 ^ k) as [|p|p]; try lia. apply digits2_log2. }
  rewrite Z.log2_mul_pow2 by (unfold small in Hz; lia). unfold fexp, emin, prec, emax, width in *. lia.
Qed.

Lemma shr_fexp_exact z k :
  small z -> 53 - width z <= k ->
  shr_fexp prec emax (z * 2 ^ k) (- k) loc_Exact = (exact_record (z * 2 ^ (53 - width z)), width z - 53).
Proof.
  intros Hz Hk. pose proof (width_small z Hz). unfold shr_fexp.
  destruct (fexp_width z k Hz) as [->|]; [|lia]. unfold shr, shr_record_of_loc. fold (exact_record (z * 2 ^ k)).
  destruct (width z - 53 - - k) as [|n|] eqn:En; [|f_equal; [|lia]|lia].
  - assert (k = 53 - width z) as -> by lia. f_equal. lia.
  - replace (z * 2 ^ k) with (z * 2 ^ (53 - width z) * 2 ^ Zpos n).
    + apply shr_exact. pose proof (Z.pow_pos_nonneg 2 (53 - width z)). unfold small in Hz. nia.
    + rewrite <- Z.mul_assoc, <- Z.pow_add_r by lia. do 2 f_equal. lia.
Qed.

Lemma round_aux_exact z k :
  small z -> 53 - width z <= k -> binary_round_aux prec emax false (z * 2 ^ k) (- k) loc_Exact = canon z.
Proof.
  intros Hz Hk. pose proof (width_small z Hz). unfold binary_round_aux. rewrite shr_fexp_exact by done.
  cbn [exact_record shr_m loc_of_shr_record round_nearest_even].
  replace (width z - 53) with (- (53 - width z)) by lia. rewrite shr_fexp_exact by (done || lia).
  cbn [exact_record shr_m]. unfold canon. assert (0 < z * 2 ^ (53 - width z)) as Hpos.
  { pose proof (Z.pow_pos_nonneg 2 (53 - width z)). unfold small in Hz. nia. }
  destruct (z * 2 ^ (53 - width z)) as [|p|p]; try lia. cbn [Z.to_pos].
  by rewrite (proj2 (Z.leb_le _ _)) by (unfold emax, prec; lia).
Qed.

Lemma normalize_exact z k : small z -> 0 <= k -> binary_normalize prec emax (z * 2 ^ k) (- k) false = canon z.
Proof.
  intros Hz Hk. pose proof (width_small z Hz). assert (0 < z * 2 ^ k) as Hpos.
  { pose proof (Z.pow_pos_nonneg 2 k). unfold small in Hz. nia. }
  unfold binary_normalize. pose proof (fexp_width z k Hz) as Hf. destruct (z * 2 ^ k) as [|p|p] eqn:Ep; try lia.
  unfold binary_round. destruct Hf as [Hf|]; [|lia]. cbn [Zdigits2] in Hf. rewrite Hf.
  destruct (Z.le_gt_cases (width z - 53) (- k)) as [Hle|Hgt].
  - destruct (shl_align_spec p (- k) (width z - 53) Hle) as [E1 E2].
    destruct (shl_align p (- k) (width z - 53)) as [m e]. cbn [fst snd] in *. subst e. rewrite E1, <- Ep.
    rewrite <- Z.mul_assoc, <- Z.pow_add_r by lia. replace (k + (- k - (width z - 53))) with (53 - width z) by lia.
    replace (width z - 53) with (- (53 - width z)) by lia. apply round_aux_exact; [done|lia].
  - rewrite shl_align_none by lia. rewrite <- Ep. apply round_aux_exact; [done|lia].
Qed.

Lemma normalize_at z ez : small z -> ez <= 0 -> binary_normalize prec emax (z * 2 ^ (- ez)) ez false = canon z.
Proof. intros Hz He. rewrite <- (normalize_exact z (- ez)) by (done || lia). by rewrite Z.opp_involutive. Qed.

Lemma of_int_small z : small z -> of_int z = canon z.
Proof. intros Hz. pose proof (normalize_exact z 0 Hz ltac:(lia)) as H. change (2 ^ 0) with 1 in H. by rewrite Z.mul_1_r in H. Qed.

(** ** Exact operations *)

Lemma pow_pos k : 0 <= k -> 0 < 2 ^ k.
Proof. intros. by apply Z.pow_pos_nonneg. Qed.

Lemma canon_mag z : small z -> Zpos (Z.to_pos (z * 2 ^ (53 - width z))) = z * 2 ^ (53 - width z).
Proof.
  intros Hz. pose proof (width_small z Hz). apply Z2Pos.id. pose proof (pow_pos (53 - width z)). unfold small in Hz. nia.
Qed.

(** A magnitude written at a common exponent. *)
Lemma aligned z ez : small z -> ez <= width z - 53 ->
  z * 2 ^ (53 - width z) * 2 ^ (width z - 53 - ez) = z * 2 ^ (- ez).
Proof.
  intros Hz He. pose proof (width_small z Hz). rewrite <- Z.mul_assoc, <- Z.pow_add_r by lia. do 2 f_equal. lia.
Qed.

(** The natural numbers the doubles hold exactly. *)
Definition exact (z : Z) : Prop := 0 <= z < 2 ^ 53.

Lemma exact_cases z : exact z -> z = 0 \/ small z.
Proof. unfold exact, small. lia. Qed.

Lemma fadd_exact a b : exact a -> exact b -> exact (a + b) -> fadd (of_int a) (of_int b) = of_int (a + b).
Proof.
  intros Ha Hb Hab. destruct (exact_cases a Ha) as [->|Sa], (exact_cases b Hb) as [->|Sb]; [done|..].
  - rewrite Z.add_0_l, (of_int_small b) by done. done.
  - rewrite Z.add_0_r, (of_int_small a) by done. done.
  - assert (small (a + b)) as Sab by (unfold small, exact in *; lia). rewrite !of_int_small by done.
    remember (canon (a + b)) as r eqn:Er. unfold fadd, SFadd, canon. subst r. cbv zeta. set (ez := Z.min (width a - 53) (width b - 53)). cbn [cond_Zopp].
    rewrite !shl_align_fst by lia. rewrite !canon_mag, !aligned by (done || lia).
    rewrite <- Z.mul_add_distr_r. pose proof (width_small a Sa). pose proof (width_small b Sb).
    apply normalize_at; [done|lia].
Qed.

Lemma width_mul a b : small a -> small b -> width a + width b - 1 <= width (a * b).
Proof. intros [? _] [? _]. unfold width. pose proof (Z.log2_mul_below a b). lia. Qed.

Lemma canon_mul a b : small a -> small b -> Zpos (Z.to_pos (a * 2 ^ (53 - width a)) * Z.to_pos (b * 2 ^ (53 - width b))) =
  a * b * 2 ^ (53 - width a + (53 - width b)).
Proof.
  intros Sa Sb. pose proof (width_small a Sa). pose proof (width_small b Sb).
  rewrite Pos2Z.inj_mul, !canon_mag, Z.pow_add_r by (done || lia). ring.
Qed.

Lemma fmul_exact a b : exact a -> exact b -> exact (a * b) -> fmul (of_int a) (of_int b) = of_int (a * b).
Proof.
  intros Ha Hb Hab. destruct (exact_cases a Ha) as [->|Sa], (exact_cases b Hb) as [->|Sb]; [done|..].
  - rewrite Z.mul_0_l, (of_int_small b) by done. done.
  - rewrite Z.mul_0_r, (of_int_small a) by done. done.
  - assert (small (a * b)) as Sab by (unfold small, exact in *; nia). rewrite !of_int_small by done.
    remember (canon (a * b)) as r eqn:Er. unfold fmul, SFmul, canon. subst r. cbn [xorb]. rewrite canon_mul by done.
    replace (width a - 53 + (width b - 53)) with (- (53 - width a + (53 - width b))) by lia.
    pose proof (width_mul a b Sa Sb). pose proof (width_small _ Sab). pose proof (width_small a Sa). pose proof (width_small b Sb).
    apply round_aux_exact; [done|lia].
Qed.

Lemma ffma_exact a b c :
  exact a -> exact b -> exact c -> exact (a * b) -> exact (a * b + c) ->
  ffma (of_int a) (of_int b) (of_int c) = of_int (a * b + c).
Proof.
  intros Ha Hb Hc Hab Habc.
  assert (fadd (fmul (of_int a) (of_int b)) (of_int c) = of_int (a * b + c)) as Htwo by (by rewrite fmul_exact, fadd_exact).
  destruct (exact_cases a Ha) as [->|Sa]; [exact Htwo|].
  destruct (exact_cases b Hb) as [->|Sb]; [rewrite <- Htwo, (of_int_small a Sa); done|].
  destruct (exact_cases c Hc) as [->|Sc].
  { rewrite Z.add_0_r, <- (fmul_exact a b) by done. rewrite (of_int_small a), (of_int_small b) by done. done. }
  assert (small (a * b + c)) as Sabc by (unfold small, exact in *; lia). rewrite !of_int_small by done.
  remember (canon (a * b + c)) as r eqn:Er. unfold ffma, canon. subst r. cbv zeta. cbn [xorb cond_Zopp].
  pose proof (width_small a Sa). pose proof (width_small b Sb). pose proof (width_small c Sc).
  set (ez := Z.min (width a - 53 + (width b - 53)) (width c - 53)). rewrite canon_mul, canon_mag, aligned by (done || lia).
  rewrite <- Z.mul_assoc, <- Z.pow_add_r by lia.
  replace (53 - width a + (53 - width b) + (width a - 53 + (width b - 53) - ez)) with (- ez) by lia.
  rewrite <- Z.mul_add_distr_r. apply normalize_at; [done|lia].
Qed.

(** ** Books of integral prices and quantities *)

Definition tick_depth (bid_px bid_qty ask_px ask_qty : list Z) : BookDepth4 :=
  mkDepth (map of_int bid_px) (map of_int bid_qty) (map of_int ask_px) (map of_int ask_qty).

Definition px_ok (p : Z) : Prop := 0 <= p <= 10000000.
Definition qty_ok (q : Z) : Prop := 0 <= q <= 2 ^ 26.

Definition sum4 (f : nat -> Z) : Z := f 0%nat + f 1%nat + f 2%nat + f 3%nat.
Definition at_ (l : list Z) (i : nat) : Z := nth i l 0.

(** The sums in exact arithmetic. *)
Definition exact_sums (bp bq ap aq : list Z) : Sums :=
  mkSums (of_int (sum4 (fun i => at_ bp i * at_ aq i + at_ ap i * at_ bq i)))
    (of_int (sum4 (at_ bq))) (of_int (sum4 (at_ aq)))
    (of_int (sum4 (fun i => at_ bp i * at_ bq i))) (of_int (sum4 (fun i => at_ ap i * at_ aq i))).

Lemma level_of_int l i : level (map of_int l) i = of_int (at_ l i).
Proof. unfold level, at_. exact (map_nth of_int l 0 i). Qed.

Lemma at_bound (P : Z -> Prop) l i : P 0 -> Forall P l -> P (at_ l i).
Proof.
  intros H0 Hl. unfold at_. destruct (nth_in_or_default i l 0) as [Hin| ->]; [|done].
  rewrite Forall_forall in Hl. by apply Hl, list_elem_of_In.
Qed.

Section Book.
Context (bp bq ap aq : list Z).
Context (Hbp : Forall px_ok bp) (Hap : Forall px_ok ap) (Hbq : Forall qty_ok bq) (Haq : Forall qty_ok aq).

Lemma px_bounds i : px_ok (at_ bp i) /\ px_ok (at_ ap i).
Proof. by split; apply at_bound. Qed.
Lemma qty_bounds i : qty_ok (at_ bq i) /\ qty_ok (at_ aq i).
Proof. by split; apply at_bound. Qed.

Lemma product_bound p q : px_ok p -> qty_ok q -> 0 <= p * q <= 671088640000000.
Proof. unfold px_ok, qty_ok. change (2 ^ 26) with 67108864. nia. Qed.
End Book.

(** Bounds of every quantity and product of a level. *)
Ltac level_bounds i :=
  match goal with
  | Hbp : Forall px_ok ?bp, Hap : Forall px_ok ?ap, Hbq : Forall qty_ok ?bq, Haq : Forall qty_ok ?aq |- _ =>
      let H1 := fresh in let H2 := fresh in let H3 := fresh in let H4 := fresh in
      destruct (px_bounds bp ap Hbp Hap i) as [H1 H2]; destruct (qty_bounds bq aq Hbq Haq i) as [H3 H4];
      pose proof (product_bound _ _ H1 H3); pose proof (product_bound _ _ H1 H4);
      pose proof (product_bound _ _ H2 H3); pose proof (product_bound _ _ H2 H4)
  end.

Ltac exact_bound := unfold exact, px_ok, qty_ok in *; change (2 ^ 26) with 67108864 in *; change (2 ^ 53) with 9007199254740992; lia.

Lemma sums_exact bp bq ap aq b :
  Forall px_ok bp -> Forall px_ok ap -> Forall qty_ok bq -> Forall qty_ok aq ->
  sums b (tick_depth bp bq ap aq) = exact_sums bp bq ap aq.
Proof.
  intros Hbp Hap Hbq Haq. level_bounds 0%nat. level_bounds 1%nat. level_bounds 2%nat. level_bounds 3%nat. clear Hbp Hap Hbq Haq.
  destruct b; cbn [sums]; unfold sums_neon, sums_avx2, sums_scalar, sum_level, exact_sums, sum4, hsum2, hsum4, vadd, vmul, vfmaq, fmadd_pd, vload;
    cbn [fold_left tick_depth d_bid_px d_bid_qty d_ask_px d_ask_qty num total_b_qty total_a_qty vwap_b_num vwap_a_num Nat.add];
    rewrite !level_of_int; change f0 with (of_int 0); f_equal;
    repeat first [rewrite fmul_exact by exact_bound | rewrite ffma_exact by exact_bound | rewrite fadd_exact by exact_bound];
    f_equal; lia.
Qed.

(** C33 The three builds of the pricing agree bit for bit on every book whose
    prices are integers up to the default [max_price] and whose quantities are
    integers up to 2^26: the vector branches' other order of summation and their
    fused multiply-adds change nothing, and each sum is the exact one. *)
Theorem builds_price_alike b bp bq ap aq spread position gamma vol :
  Forall px_ok bp -> Forall px_ok ap -> Forall qty_ok bq -> Forall qty_ok aq ->
  @compute b (tick_depth bp bq ap aq) spread position gamma vol =
    @compute Scalar (tick_depth bp bq ap aq) spread position gamma vol /\
  sums b (tick_depth bp bq ap aq) = exact_sums bp bq ap aq.
Proof.
  intros Hbp Hap Hbq Haq. split; [|by apply sums_exact]. unfold compute, build. by rewrite !sums_exact.
Qed.

Definition demo_bids : list Z := [9999995; 9999990; 9999985; 9999980].
Definition demo_asks : list Z := [10000000; 10000000; 7; 3].
Definition demo_bid_qty : list Z := [67108864; 10; 67108863; 1].
Definition demo_ask_qty : list Z := [1; 67108864; 30; 67108863].

Lemma builds_price_alike_witness :
  @compute Neon (tick_depth demo_bids demo_bid_qty demo_asks demo_ask_qty) (of_int 10) 3 f0_1 f1 =
    @compute Scalar (tick_depth demo_bids demo_bid_qty demo_asks demo_ask_qty) (of_int 10) 3 f0_1 f1.
Proof.
  apply (builds_price_alike Neon demo_bids demo_bid_qty demo_asks demo_ask_qty (of_int 10) 3 f0_1 f1);
    unfold px_ok, qty_ok; change (2 ^ 26) with 67108864; repeat constructor; discriminate.
Defined.

(** Off the grid they need not: tenths for prices. *)
Example builds_differ_off_grid :
  let tenths := map (fun z => fmul (of_int z) f0_1) in
  let d := mkDepth (tenths [1; 2; 3; 4]) (tenths [5; 6; 7; 8]) (tenths [2; 3; 4; 5]) (tenths [6; 7; 8; 1]) in
  num (sums Neon d) <> num (sums Scalar d).
Proof. vm_compute. discriminate. Qed.
