(* ===== verification/ShmClient.v ===== *)
(** * What the programs on the rings rely on ([cpp/include/mm/shm_ring.hpp])

    The structures read from a popped slot, whichever member of the union the
    reader names, and a ring operation as a step of a larger state. *)

From Stdlib Require Import ZArith Ascii String List Lia.
From stdpp Require Import base tactics list option strings.
From S2P Require Import Prelude Utf8 Bytes TelemetryRing ShmRing.

(** ** Members of a slot, read without looking at the tag *)

Definition as_tob (slot : ShmSlot) : ShmTopOfBook :=
  match read_members (layout TopOfBook) slot with
  | [a; b; c; d; e; f; g; h; i; j] => mkShmTob a b c d e f g h i j
  | _ => mkShmTob 0 0 0 0 0 0 0 0 0 0
  end.
Definition as_new_order (slot : ShmSlot) : ShmNewOrder :=
  match read_members (layout NewOrder) slot with
  | [a; b; c; d; e; f; g; h; i; j; k] => mkShmNew a b c d e f g h i j k
  | _ => default_new_order
  end.
Definition as_ack (slot : ShmSlot) : ShmOrderAck :=
  match read_members (layout OrderAck) slot with
  | [a; b; c; d; e; f; g; h] => mkShmAck a b c d e f g h
  | _ => mkShmAck 0 0 0 0 0 0 0 0
  end.
(** [slot.tag] *)
Definition slot_tag (slot : ShmSlot) : Z := le_value (take 2 slot).

(** Every member fits its width. *)
Definition fits (m : ShmMsg) : Prop := Forall2 in_width (layout (msg_type m)) (members m).

Lemma as_tob_slot m : fits (MsgTob m) -> as_tob (slot_bytes (MsgTob m)) = m.
Proof. intros Hf. unfold as_tob. change TopOfBook with (msg_type (MsgTob m)). unfold slot_bytes. rewrite read_write_members by done. by destruct m. Qed.
Lemma as_new_order_slot m : fits (MsgNew m) -> as_new_order (slot_bytes (MsgNew m)) = m.
Proof. intros Hf. unfold as_new_order. change NewOrder with (msg_type (MsgNew m)). unfold slot_bytes. rewrite read_write_members by done. by destruct m. Qed.
Lemma as_ack_slot m : fits (MsgAck m) -> as_ack (slot_bytes (MsgAck m)) = m.
Proof. intros Hf. unfold as_ack. change OrderAck with (msg_type (MsgAck m)). unfold slot_bytes. rewrite read_write_members by done. by destruct m. Qed.

Lemma slot_tag_read slot ws : slot_tag slot = hd 0 (read_members (U 2 :: ws) slot).
Proof. done. Qed.

Lemma slot_tag_slot m : fits m -> slot_tag (slot_bytes m) = hd 0 (members m).
Proof.
  intros Hf. assert (exists ws, layout (msg_type m) = U 2 :: ws) as [ws Ew] by (destruct m; by eexists).
  rewrite (slot_tag_read _ ws), <- Ew. unfold slot_bytes. by rewrite read_write_members.
Qed.

(** A computation on a member that returns leaves the rest alone. *)
Lemma within_ret {S T A} (lens : T -> S) (put : S -> T -> T) (m : M S A) t a s o :
  m (lens t) o = (Ret a, s, o) -> within lens put m t o = (Ret a, put s t, o).
Proof. intros E. unfold within. by rewrite E. Qed.

#[global] Arguments slot_bytes : simpl never.
#[global] Arguments as_tob : simpl never.
#[global] Arguments as_new_order : simpl never.
#[global] Arguments as_ack : simpl never.
#[global] Arguments slot_tag : simpl never.
