(* ===== verification/Clock.v ===== *)
(** * Clock calibration ([cpp/include/mm/clock_calibration.hpp])

    The proof sample that compares the two monotonic clocks, and the three legs
    of a round trip.  Signed overflow is undefined; the two readings are inputs. *)

From Stdlib Require Import ZArith List Lia.
From stdpp Require Import base tactics list option.
From S2P Require Import Prelude.

(** A signed 64-bit result. *)
Definition signed (z : Z) : outcome Z := if bool_decide (is_i64 z) then Ret z else UB.

#[export] Instance outcome_bind : MBind outcome := fun A B k x =>
  match x with Ret a => k a | Throw e => Throw e | UB => UB end.
#[export] Instance outcome_ret : MRet outcome := @Ret.

Lemma signed_ok z : is_i64 z -> signed z = Ret z.
Proof. intros Hz. unfold signed. by rewrite bool_decide_eq_true_2. Qed.

Record ClockProof := mkProof {
  steady_clock_ns : Z; posix_monotonic_ns : Z; offset_ns : Z; is_synchronized : bool }.

(** [clock_gettime] answers [(tv_sec, tv_nsec)], [steady_clock::now] [steady]. *)
Definition sample (tv_sec tv_nsec steady : Z) : outcome ClockProof :=
  secs ← signed (tv_sec * 1000000000);
  posix_ns ← signed (secs + tv_nsec);
  offset ← signed (steady - posix_ns);
  distance ← signed (Z.abs offset);
  mret (mkProof steady posix_ns offset (distance <? 1000)).

Record OneWayDecomposition := mkLegs {
  t0_client_send_ns : Z; e1_engine_ingress_ns : Z; e2_engine_egress_ns : Z; t3_client_ack_ns : Z }.

Definition leg1_ingress_wire_ns (d : OneWayDecomposition) : outcome Z := signed (e1_engine_ingress_ns d - t0_client_send_ns d).
Definition leg2_engine_service_ns (d : OneWayDecomposition) : outcome Z := signed (e2_engine_egress_ns d - e1_engine_ingress_ns d).
Definition leg3_egress_wire_ns (d : OneWayDecomposition) : outcome Z := signed (t3_client_ack_ns d - e2_engine_egress_ns d).
Definition total_rtt_ns (d : OneWayDecomposition) : outcome Z := signed (t3_client_ack_ns d - t0_client_send_ns d).

(** Readings of one clock, in the order they were taken. *)
Record in_turn (d : OneWayDecomposition) : Prop := {
  it_t0 : 0 <= t0_client_send_ns d;
  it_e1 : t0_client_send_ns d <= e1_engine_ingress_ns d;
  it_e2 : e1_engine_ingress_ns d <= e2_engine_egress_ns d;
  it_t3 : e2_engine_egress_ns d <= t3_client_ack_ns d < two63;
}.

(** The legs of readings taken in turn do not overflow, are not negative and add
    up to the round trip. *)
Lemma legs_add_up d : in_turn d ->
  exists l1 l2 l3, leg1_ingress_wire_ns d = Ret l1 /\ leg2_engine_service_ns d = Ret l2 /\ leg3_egress_wire_ns d = Ret l3 /\
    total_rtt_ns d = Ret (l1 + l2 + l3) /\ 0 <= l1 /\ 0 <= l2 /\ 0 <= l3.
Proof.
  intros [H0 H1 H2 H3]. do 3 eexists. unfold leg1_ingress_wire_ns, leg2_engine_service_ns, leg3_egress_wire_ns, total_rtt_ns.
  rewrite !signed_ok by (unfold is_i64, two63 in *; lia). split_and!; try done; try lia. f_equal. lia.
Qed.

(** For 292 years of uptime the sample is defined, keeps both readings, and is
    synchronised when they are less than a microsecond apart. *)
Lemma sample_ok tv_sec tv_nsec steady :
  0 <= tv_sec < 9223372036 -> 0 <= tv_nsec < 1000000000 -> 0 <= steady < two63 ->
  exists p, sample tv_sec tv_nsec steady = Ret p /\
    posix_monotonic_ns p / 1000000000 = tv_sec /\ posix_monotonic_ns p mod 1000000000 = tv_nsec /\
    steady_clock_ns p = posix_monotonic_ns p + offset_ns p /\
    (is_synchronized p = true <-> -1000 < steady - posix_monotonic_ns p < 1000).
Proof.
  intros Hs Hn Hc. unfold sample. do 4 (rewrite signed_ok by (unfold is_i64, two63 in *; lia); cbn [mbind outcome_bind]).
  eexists. split; [reflexivity|]. cbn. split_and!; [|rewrite Z.add_comm, Z.mod_add, Z.mod_small by lia; done|lia|rewrite Z.ltb_lt; lia].
  rewrite Z.add_comm, Z.div_add, Z.div_small by lia. lia.
Qed.
