(* ===== verification/Percentile.v ===== *)
(** * The probes' percentiles ([bench/probes/one_way_decomp_probe.cpp],
    [native_mm_probe.cpp])

    Both probes sort their samples and print the one at [p * (size - 1)], a
    product of doubles truncated to an index.  The product is rounded, so that
    the index stays in range is a fact about binary64: rounding to nearest
    never crosses an integer. *)

From Stdlib Require Import ZArith List Lia.
From Stdlib Require Import SpecFloat.
From stdpp Require Import base tactics list option sorting.
From S2P Require Import Prelude SimdPricing PricingProps.

Definition p50 : double := f0_5.
Definition p90 : double := fdiv (of_int 9) (of_int 10).
Definition p99 : double := fdiv (of_int 99) (of_int 100).
Definition p999 : double := fdiv (of_int 999) (of_int 1000).

(** [static_cast<std::size_t>(p * (data.size() - 1))]: the size wraps, and a
    product no index can hold is undefined. *)
Definition pct_index (p : double) (size : Z) : option Z :=
  match to_int (fmul p (of_int (u64 (size - 1)))) with
  | Some z => if bool_decide (0 <= z < two64) then Some z else None
  | None => None
  end.

Definition pct (p : double) (data : list Z) : outcome Z :=
  match pct_index p (Z.of_nat (length data)) with
  | Some i => match data !! Z.to_nat i with Some x => Ret x | None => UB end
  | None => UB
  end.

(** ** The product of a fraction and a count *)

Lemma shr_1_half r : 0 <= shr_m r -> shr_m (shr_1 r) = shr_m r / 2.
Proof. destruct r as [[|[p|p|]|p] ? ?]; intros H; cbn in *; try done; first [apply (Z.div_unique _ _ _ 1); lia|apply (Z.div_unique _ _ _ 0); lia]. Qed.

Lemma shr_m_iter r n : 0 <= shr_m r -> shr_m (SpecFloat.iter_pos shr_1 n r) = shr_m r / 2 ^ Zpos n.
Proof.
  intros Hr. rewrite iter_pos_iter, <- (positive_nat_Z n). induction (Pos.to_nat n) as [|k IH]; [by rewrite Z.div_1_r|].
  cbn [Nat.iter nat_rect]. change (nat_rect _ r (fun _ => shr_1) k) with (Nat.iter k shr_1 r).
  assert (0 <= shr_m (Nat.iter k shr_1 r)) as H0 by (rewrite IH; apply Z.div_pos; [lia|apply Z.pow_pos_nonneg; lia]).
  rewrite shr_1_half, IH, Z.div_div, Nat2Z.inj_succ, Z.pow_succ_r by (lia || (apply Z.pow_pos_nonneg; lia)). f_equal. lia.
Qed.

(** Rounding a mantissa shifted by [s] stays within one, and is exact when no
    bit is lost. *)
Lemma round_shifted m s : 0 < m -> 0 < s ->
  let r := fst (shr (shr_record_of_loc m loc_Exact) 0 s) in
  let z := round_nearest_even (shr_m r) (loc_of_shr_record r) in
  m / 2 ^ s <= z <= m / 2 ^ s + 1 /\ (m mod 2 ^ s = 0 -> z = m / 2 ^ s).
Proof.
  intros Hm Hs. destruct s as [|n|n]; [lia| |lia]. cbn [shr fst shr_record_of_loc]. fold (exact_record m). cbv zeta. split.
  - rewrite shr_m_iter by (cbn; lia). cbn [exact_record shr_m].
    generalize (loc_of_shr_record (SpecFloat.iter_pos shr_1 n (exact_record m))). intros l. unfold round_nearest_even.
    destruct l as [|[]]; try lia. destruct (Z.even _); lia.
  - intros Hz. assert (m = m / 2 ^ Zpos n * 2 ^ Zpos n) as E.
    { pose proof (Z.div_mod m (2 ^ Zpos n)). pose proof (Z.pow_pos_nonneg 2 (Zpos n)). lia. }
    rewrite E at 1 2. rewrite shr_exact; [done|]. pose proof (Z.pow_pos_nonneg 2 (Zpos n)). nia.
Qed.

(** A finite result of at most 53 bits whose exponent is not positive, and the
    integer part of it. *)
Lemma to_int_down m t : 0 <= t -> to_int (S754_finite false m (- t)) = Some (Zpos m / 2 ^ t).
Proof.
  intros Ht. cbn [to_int]. unfold trunc_mag. destruct (Z.leb_spec 0 (- t)); [|by rewrite Z.opp_involutive].
  assert (t = 0) as -> by lia. cbn. by rewrite Z.div_1_r, Z.mul_1_r.
Qed.

Lemma fexp_normal m e : 0 < m -> -1074 <= Z.log2 m + 1 + e - 53 -> fexp prec emax (Zdigits2 m + e) = Z.log2 m + 1 + e - 53.
Proof.
  intros Hm He. destruct m as [|p|p]; try lia. cbn [Zdigits2]. rewrite digits2_log2. unfold fexp, emin, prec, emax. lia.
Qed.

(** Rounding a 53-bit mantissa or [2^53] at a negative exponent. *)
Lemma finish_round z t : 2 ^ 52 <= z <= 2 ^ 53 -> 0 <= t <= 1000 -> (z = 2 ^ 53 -> 0 < t) ->
  exists m e, shr_fexp prec emax z (- t) loc_Exact = (exact_record (Zpos m), e) /\ e <= 0 /\
    to_int (S754_finite false m e) = Some (z / 2 ^ t).
Proof.
  intros Hz Ht Hend. change (2 ^ 52) with 4503599627370496 in *. change (2 ^ 53) with 9007199254740992 in *. unfold shr_fexp.
  destruct (decide (z = 9007199254740992)) as [->|Hne].
  - rewrite fexp_normal by (cbn; lia). change (Z.log2 9007199254740992) with 53. replace (53 + 1 + - t - 53 - - t) with 1 by lia.
    exists 4503599627370496%positive, (- (t - 1)). split_and!; [|lia|].
    + cbn [shr]. do 2 f_equal. lia.
    + rewrite to_int_down by (specialize (Hend eq_refl); lia). f_equal.
      replace t with (1 + (t - 1)) at 2 by lia. rewrite Z.pow_add_r, <- Z.div_div by (pose proof (Z.pow_pos_nonneg 2 (t - 1)); lia). done.
  - assert (Z.log2 z = 52) as Hlog by (apply Z.log2_unique; lia). rewrite fexp_normal, Hlog by lia.
    replace (52 + 1 + - t - 53 - - t) with 0 by lia. exists (Z.to_pos z), (- t). split_and!; [|lia|].
    + cbn [shr]. unfold shr_record_of_loc, exact_record. by rewrite Z2Pos.id by lia.
    + rewrite to_int_down, Z2Pos.id by lia. done.
Qed.

Lemma shr_split r e n : 0 < n -> shr r e n = (fst (shr r 0 n), e + n).
Proof. by destruct n. Qed.

(** What rounding at [s] and then truncating at [t] does to an exact quotient. *)
Lemma round_ranks m z s t :
  0 < s -> 0 <= t -> m / 2 ^ s <= z <= m / 2 ^ s + 1 -> (m mod 2 ^ s = 0 -> z = m / 2 ^ s) ->
  m / 2 ^ (s + t) <= z / 2 ^ t /\ forall c, m <= c * 2 ^ (s + t) -> z / 2 ^ t <= c.
Proof.
  intros Hs Ht Hz Hexact. pose proof (pow_pos s ltac:(lia)) as Ps. pose proof (pow_pos t Ht) as Pt. rewrite Z.pow_add_r by lia. split.
  - rewrite <- Z.div_div by lia. apply Z.div_le_mono; lia.
  - intros c Hc. assert (z <= c * 2 ^ t) as Hle.
    { pose proof (Z.div_mod m (2 ^ s) ltac:(lia)) as Hd. pose proof (Z.mod_pos_bound m (2 ^ s) Ps).
      destruct (decide (m / 2 ^ s < c * 2 ^ t)); [lia|]. assert (m mod 2 ^ s = 0) as H0 by nia. specialize (Hexact H0). nia. }
    apply (Z.div_le_mono _ _ (2 ^ t)) in Hle; [|lia]. by rewrite Z.div_mul in Hle by lia.
Qed.

Lemma product_log2 a b : 2 ^ 52 <= a < 2 ^ 53 -> 2 ^ 52 <= b < 2 ^ 53 -> 104 <= Z.log2 (a * b) <= 105.
Proof.
  intros Ha Hb. assert (2 ^ 104 <= a * b < 2 ^ 106) as Hm by (change (2 ^ 104) with (2 ^ 52 * 2 ^ 52); change (2 ^ 106) with (2 ^ 53 * 2 ^ 53); nia).
  split; [apply Z.log2_le_pow2; lia|]. assert (Z.log2 (a * b) < 106); [|lia]. apply Z.log2_lt_pow2; lia.
Qed.

Lemma filled k : small k -> 2 ^ 52 <= k * 2 ^ (53 - width k) < 2 ^ 53.
Proof.
  intros Hk. pose proof (width_small k Hk) as Hw. pose proof (Z.log2_spec k ltac:(unfold small in Hk; lia)) as Hl. unfold width in *.
  pose proof (pow_pos (53 - (Z.log2 k + 1)) ltac:(lia)).
  assert (2 ^ 52 = 2 ^ Z.log2 k * 2 ^ (53 - (Z.log2 k + 1))) as -> by (rewrite <- Z.pow_add_r by lia; f_equal; lia).
  assert (2 ^ 53 = 2 ^ Z.succ (Z.log2 k) * 2 ^ (53 - (Z.log2 k + 1))) as -> by (rewrite <- Z.pow_add_r by lia; f_equal; lia). nia.
Qed.

(** [p * k] truncated, for a fraction [p] in [1/2, 1) and a count [k]: the rank
    lies between the floor and the ceiling of the exact product. *)
Lemma fraction_index mp k :
  2 ^ 52 <= Zpos mp < 2 ^ 53 -> small k ->
  exists z, to_int (fmul (S754_finite false mp (-53)) (of_int k)) = Some z /\
    Zpos mp * k / 2 ^ 53 <= z /\ (forall c, Zpos mp * k <= c * 2 ^ 53 -> z <= c).
Proof.
  intros Hp Hk. rewrite of_int_small by done. pose proof (width_small k Hk) as Hw. pose proof (filled k Hk) as Hmx.
  unfold canon, fmul, SFmul. cbn [xorb]. rewrite <- (canon_mag k Hk) in Hmx. pose proof (canon_mag k Hk) as Hmag.
  set (mx := Z.to_pos _) in *. set (w := width k) in *. pose proof (product_log2 _ _ Hp Hmx) as Hl. rewrite <- Pos2Z.inj_mul in Hl.
  assert (Zpos (mp * mx) = Zpos mp * k * 2 ^ (53 - w)) as HM by lia. set (m := Zpos (mp * mx)) in *.
  set (s := Z.log2 m - 52). set (t := 106 - w - s). replace (-53 + (w - 53)) with (- (s + t)) by lia.
  unfold binary_round_aux, shr_fexp at 1. rewrite fexp_normal by lia.
  rewrite shr_split by lia. replace (- (s + t) + (Z.log2 m + 1 + - (s + t) - 53 - - (s + t))) with (- t) by lia.
  replace (Z.log2 m + 1 + - (s + t) - 53 - - (s + t)) with s by lia.
  destruct (round_shifted m s ltac:(lia) ltac:(lia)) as [Hz Hexact]. set (r := fst _) in *. set (z := round_nearest_even _ _) in *.
  destruct (round_ranks m z s t ltac:(lia) ltac:(lia) Hz Hexact) as [Hlow Hhigh].
  assert (s + t = 53 + (53 - w)) as Est by lia. rewrite Est, Z.pow_add_r in Hlow, Hhigh by lia.
  pose proof (pow_pos (53 - w) ltac:(lia)) as P2. rewrite HM, Z.div_mul_cancel_r in Hlow by lia.
  assert (forall c, Zpos mp * k <= c * 2 ^ 53 -> z / 2 ^ t <= c) as Htop by (intros c Hc; apply Hhigh; nia).
  assert (2 ^ 52 <= m / 2 ^ s < 2 ^ 53) as Hq.
  { pose proof (Z.log2_spec m ltac:(done)) as [H1 H2]. pose proof (pow_pos s ltac:(lia)) as Ps. split.
    - apply Z.div_le_lower_bound; [done|]. rewrite <- Z.pow_add_r by lia. by replace (s + 52) with (Z.log2 m) by lia.
    - apply Z.div_lt_upper_bound; [done|]. rewrite <- Z.pow_add_r by lia. by replace (s + 53) with (Z.succ (Z.log2 m)) by lia. }
  destruct (finish_round z t ltac:(lia) ltac:(lia)) as (f & e & Ef & He & Hi).
  { intros E. destruct (decide (t = 0)) as [E0|]; [|lia]. exfalso. specialize (Htop k). rewrite E0, Z.div_1_r in Htop.
    unfold small in Hk. nia. }
  rewrite Ef. cbn [exact_record shr_m]. rewrite (proj2 (Z.leb_le _ _)) by (unfold emax, prec; lia).
  exists (z / 2 ^ t). done.
Qed.

(** A double in [1/2, 1) with its mantissa. *)
Definition fraction (p : double) (mp : positive) : Prop := p = S754_finite false mp (-53) /\ 2 ^ 52 <= Zpos mp < 2 ^ 53.

Lemma pct_index_ok p mp n : fraction p mp -> 0 < n <= 2 ^ 53 ->
  exists i, pct_index p n = Some i /\ 0 <= i < n /\
    Zpos mp * (n - 1) / 2 ^ 53 <= i /\ (forall c, Zpos mp * (n - 1) <= c * 2 ^ 53 -> i <= c).
Proof.
  intros [-> Hp] Hn. unfold pct_index. assert (u64 (n - 1) = n - 1) as -> by (apply Z.mod_small; unfold two64; lia).
  destruct (decide (n = 1)) as [->|Hne].
  - change (1 - 1) with 0. change (fmul _ (of_int 0)) with f0. rewrite Z.mul_0_r. exists 0. split_and!; try done. intros c. change (2 ^ 53) with 9007199254740992. lia.
  - destruct (fraction_index mp (n - 1) Hp ltac:(unfold small; lia)) as (z & -> & Hlow & Hhigh). pose proof (Hhigh (n - 1) ltac:(rewrite (Z.mul_comm (n - 1)); apply Z.mul_le_mono_nonneg_r; lia)) as Htop.
    assert (0 <= z) by (pose proof (Z.div_pos (Zpos mp * (n - 1)) (2 ^ 53)); lia).
    rewrite bool_decide_eq_true_2 by (unfold two64; lia). exists z. split_and!; try done; lia.
Qed.

Lemma to_int_of_int k : small k -> to_int (of_int k) = Some k.
Proof.
  intros Hk. pose proof (width_small k Hk) as Hw. rewrite of_int_small by done. unfold canon.
  replace (width k - 53) with (- (53 - width k)) by lia. rewrite to_int_down, canon_mag by (done || lia).
  rewrite Z.div_mul; [done|]. pose proof (Z.pow_pos_nonneg 2 (53 - width k)). lia.
Qed.

(** The rank of one is the last. *)
Lemma pct_index_one n : 0 < n <= 2 ^ 53 -> pct_index f1 n = Some (n - 1).
Proof.
  intros Hn. unfold pct_index. assert (u64 (n - 1) = n - 1) as -> by (apply Z.mod_small; unfold two64; lia).
  destruct (decide (n = 1)) as [->|Hne]; [done|]. unfold f1. rewrite fmul_exact by (unfold exact; lia).
  rewrite Z.mul_1_l, to_int_of_int by (unfold small; lia). rewrite bool_decide_eq_true_2; [done|]. unfold two64. lia.
Qed.

Lemma fractions : fraction p50 4503599627370496 /\ fraction p90 8106479329266893 /\ fraction p99 8917127262193582 /\
  fraction p999 8998192055486251.
Proof. split_and!; (split; [vm_compute; reflexivity|lia]). Qed.

(** The ranks of the four percentiles are in order: beyond a thousand samples by
    their bounds, below by evaluation. *)
Definition ranks (n : Z) : list (option Z) := map (fun p => pct_index p n) [p50; p90; p99; p999].
Definition in_order (l : list (option Z)) : bool :=
  match l with [Some a; Some b; Some c; Some d] => (a <=? b) && (b <=? c) && (c <=? d) | _ => false end.

Lemma ranks_ordered n : 0 < n <= 2 ^ 53 -> exists a b c d, ranks n = [Some a; Some b; Some c; Some d] /\
  0 <= a /\ a <= b /\ b <= c /\ c <= d /\ d < n.
Proof.
  intros Hn. destruct fractions as (F1 & F2 & F3 & F4).
  destruct (pct_index_ok _ _ n F1 Hn) as (a & E1 & B1 & L1 & U1), (pct_index_ok _ _ n F2 Hn) as (b & E2 & B2 & L2 & U2).
  destruct (pct_index_ok _ _ n F3 Hn) as (c & E3 & B3 & L3 & U3), (pct_index_ok _ _ n F4 Hn) as (d & E4 & B4 & L4 & U4).
  assert (ranks n = [Some a; Some b; Some c; Some d]) as Er by (unfold ranks; cbn [map]; by rewrite E1, E2, E3, E4).
  exists a, b, c, d. split; [done|]. split; [lia|]. destruct (Z.le_gt_cases n 1000) as [Hle|Hgt].
  - assert (forallb (fun k => in_order (ranks (Z.of_nat k))) (seq 1 1000) = true) as Hall by (vm_compute; reflexivity).
    rewrite forallb_forall in Hall. specialize (Hall (Z.to_nat n) ltac:(apply in_seq; lia)). rewrite Z2Nat.id, Er in Hall by lia.
    cbn [in_order] in Hall. lia.
  - change (2 ^ 53) with 9007199254740992 in *. clear E1 E2 E3 E4 Er. pose proof (U1 (n / 2 + 1)).
    pose proof (U2 (n * 91 / 100)). pose proof (U3 (n * 994 / 1000)). clear U1 U2 U3 U4. Z.to_euclidean_division_equations. lia.
Qed.

(** ** The lines printed *)

(** [print_leg]: the samples are sorted in place; the front of none is undefined. *)
Definition print_leg (samples : list Z) : outcome (list Z) :=
  let data := merge_sort Z.le samples in
  match data with
  | [] => UB
  | front :: _ =>
      match pct p50 data, pct p90 data, pct p99 data, pct p999 data with
      | Ret a, Ret b, Ret c, Ret d => Ret [front; a; b; c; d]
      | _, _, _, _ => UB
      end
  end.

(** [summarize]: [None] when no sample was collected. *)
Definition summarize (samples : list Z) : outcome (option (list Z)) :=
  match samples with
  | [] => Ret None
  | x :: _ =>
      let data := merge_sort Z.le samples in
      match print_leg samples with Ret qs => Ret (Some (qs ++ [List.last data x])) | Throw e => Throw e | UB => UB end
  end.

Lemma sorted_le (l : list Z) i j x y : StronglySorted Z.le l -> (i <= j)%nat -> l !! i = Some x -> l !! j = Some y -> x <= y.
Proof.
  intros Hs. revert i j. induction Hs as [|z l Hs IH Hz]; intros i j Hij Hx Hy; [done|].
  destruct i as [|i], j as [|j]; cbn in Hx, Hy; [simplify_eq; lia| |lia|apply (IH i j); [lia|done..]].
  simplify_eq. rewrite Forall_forall in Hz. apply Hz. by eapply list_elem_of_lookup_2.
Qed.

(** A leg of at least one sample is reported: the least sample and four others,
    in increasing order. *)
Lemma print_leg_ok samples :
  samples <> [] -> Z.of_nat (length samples) <= 2 ^ 53 ->
  exists lo a b c d, print_leg samples = Ret [lo; a; b; c; d] /\
    Forall (fun x => lo <= x) samples /\ Forall (.∈ samples) [lo; a; b; c; d] /\
    lo <= a /\ a <= b /\ b <= c /\ c <= d.
Proof.
  intros Hne Hlen. unfold print_leg. pose proof (merge_sort_Permutation Z.le samples) as Hperm.
  pose proof (StronglySorted_merge_sort Z.le samples) as Hs. set (data := merge_sort Z.le samples) in *.
  assert (length data = length samples) as El by (by rewrite Hperm).
  assert (0 < Z.of_nat (length data) <= 2 ^ 53) as Hn by (rewrite El; split; [destruct samples; cbn [length]; [done|lia]|done]).
  destruct (ranks_ordered (Z.of_nat (length data)) Hn) as (a & b & c & d & Er & Ha & Hab & Hbc & Hcd & Hd).
  assert (forall i, 0 <= i < Z.of_nat (length data) -> exists x, data !! Z.to_nat i = Some x) as Hat.
  { intros i Hi. apply lookup_lt_is_Some_2. lia. }
  destruct (Hat 0 ltac:(lia)) as (lo & Elo), (Hat a ltac:(lia)) as (xa & Ea), (Hat b ltac:(lia)) as (xb & Eb).
  destruct (Hat c ltac:(lia)) as (xc & Ec), (Hat d ltac:(lia)) as (xd & Exd). exists lo, xa, xb, xc, xd.
  assert (forall i x, data !! i = Some x -> x ∈ samples) as Hin by (intros i x Hi; rewrite <- Hperm; by eapply list_elem_of_lookup_2).
  split; [|split; [|split]].
  - unfold ranks in Er. cbn [map] in Er. injection Er as E1 E2 E3 E4. unfold pct. rewrite E1, E2, E3, E4, Ea, Eb, Ec, Exd.
    destruct data; [done|]. by injection Elo as ->.
  - rewrite <- Hperm. apply Forall_forall. intros x (j & Hj)%list_elem_of_lookup_1. apply (sorted_le data 0 j lo x Hs); [lia|done..].
  - repeat constructor; by eapply Hin.
  - split_and!; (eapply (sorted_le data); [exact Hs| |eassumption|eassumption]; lia).
Qed.

(** A summary is always defined, and closes with the greatest sample. *)
Lemma summarize_ok samples :
  Z.of_nat (length samples) <= 2 ^ 53 ->
  exists r, summarize samples = Ret r /\
    match r with
    | None => samples = []
    | Some qs => exists hi, List.last qs 0 = hi /\ hi ∈ samples /\ Forall (fun x => x <= hi) samples
    end.
Proof.
  intros Hlen. unfold summarize. destruct samples as [|x rest] eqn:Es; [by eexists|]. rewrite <- Es in *.
  destruct (print_leg_ok samples) as (lo & a & b & c & d & E & _); [by rewrite Es|done|]. rewrite E. eexists. split; [reflexivity|].
  pose proof (merge_sort_Permutation Z.le samples) as Hperm. pose proof (StronglySorted_merge_sort Z.le samples) as Hs.
  set (data := merge_sort Z.le samples) in *. exists (List.last data x). split; [by rewrite List.last_last|].
  assert (data <> []) as Hne by (intros E0; rewrite E0 in Hperm; apply Permutation_nil_l in Hperm; by rewrite Es in Hperm).
  destruct (exists_last Hne) as (front & hi & Ed). assert (List.last data x = hi) as -> by (rewrite Ed; apply List.last_last).
  split; [rewrite <- Hperm, Ed; set_solver|]. rewrite <- Hperm. apply Forall_forall. intros y (j & Hj)%list_elem_of_lookup_1.
  apply (sorted_le data j (length front)); [done| |done|rewrite Ed; by apply list_lookup_middle].
  apply lookup_lt_Some in Hj. rewrite Ed, length_app in Hj. cbn in Hj. lia.
Qed.
