(* ===== verification/StrategyNative.v ===== *)
(** * The native strategy ([cpp/include/mm/strategy_native.hpp])

    One quote a side, replaced when its price moves.  The strategy is a state
    and its handlers are computations on it; an overflowing signed operation is
    undefined, sequence numbers wrap at 32 bits and order identifiers at 64. *)

From Stdlib Require Import ZArith List Lia.
From Stdlib Require Import SpecFloat.
From stdpp Require Import base tactics list option.
From S2P Require Import Prelude TelemetryRing ShmRing SimdPricing.

Record StrategyConfig := mkStrategyConfig {
  order_size : Z; max_position : Z; half_spread : Z; stale_timeout_ns : Z }.
Definition default_strategy : StrategyConfig := mkStrategyConfig 10 100 10 5000000000.

Record StrategyDecision := mkDecision {
  cancel_bid : option ShmCancelOrder;
  cancel_ask : option ShmCancelOrder;
  new_bid : option ShmNewOrder;
  new_ask : option ShmNewOrder;
}.
Definition no_decision : StrategyDecision := mkDecision None None None None.

Inductive QuoteSide := SideBid | SideAsk.

Record Strategy := mkStrategy {
  config_ : StrategyConfig;
  next_cl_id_ : Z;
  seq_ : Z;
  position_ : Z;
  realized_pnl_ : Z;
  active_bid_cl_id_ : Z;
  active_ask_cl_id_ : Z;
  active_bid_px_ : Z;
  active_ask_px_ : Z;
  last_md_seq_ : Z;
  last_tob_ns_ : Z;
  fill_count_ : Z;
  ack_count_ : Z;
  reject_count_ : Z;
}.
Definition new_strategy (c : StrategyConfig) : Strategy := mkStrategy c 1 1 0 0 0 0 0 0 0 0 0 0 0.

Definition u32 (z : Z) : Z := z mod 4294967296.

(** ** Updates *)

Definition set_ids (next seq : Z -> Z) (s : Strategy) : Strategy :=
  mkStrategy (config_ s) (next (next_cl_id_ s)) (seq (seq_ s)) (position_ s) (realized_pnl_ s) (active_bid_cl_id_ s)
    (active_ask_cl_id_ s) (active_bid_px_ s) (active_ask_px_ s) (last_md_seq_ s) (last_tob_ns_ s) (fill_count_ s)
    (ack_count_ s) (reject_count_ s).
Definition set_active (side : QuoteSide) (id px : Z) (s : Strategy) : Strategy :=
  match side with
  | SideBid =>
      mkStrategy (config_ s) (next_cl_id_ s) (seq_ s) (position_ s) (realized_pnl_ s) id (active_ask_cl_id_ s) px
        (active_ask_px_ s) (last_md_seq_ s) (last_tob_ns_ s) (fill_count_ s) (ack_count_ s) (reject_count_ s)
  | SideAsk =>
      mkStrategy (config_ s) (next_cl_id_ s) (seq_ s) (position_ s) (realized_pnl_ s) (active_bid_cl_id_ s) id
        (active_bid_px_ s) px (last_md_seq_ s) (last_tob_ns_ s) (fill_count_ s) (ack_count_ s) (reject_count_ s)
  end.
Definition set_position (pos pnl : Z) (s : Strategy) : Strategy :=
  mkStrategy (config_ s) (next_cl_id_ s) (seq_ s) pos pnl (active_bid_cl_id_ s) (active_ask_cl_id_ s)
    (active_bid_px_ s) (active_ask_px_ s) (last_md_seq_ s) (last_tob_ns_ s) (fill_count_ s) (ack_count_ s)
    (reject_count_ s).
Definition set_tick (md_seq ns : Z) (s : Strategy) : Strategy :=
  mkStrategy (config_ s) (next_cl_id_ s) (seq_ s) (position_ s) (realized_pnl_ s) (active_bid_cl_id_ s)
    (active_ask_cl_id_ s) (active_bid_px_ s) (active_ask_px_ s) md_seq ns (fill_count_ s) (ack_count_ s)
    (reject_count_ s).
Definition set_counts (f a r : Z -> Z) (s : Strategy) : Strategy :=
  mkStrategy (config_ s) (next_cl_id_ s) (seq_ s) (position_ s) (realized_pnl_ s) (active_bid_cl_id_ s)
    (active_ask_cl_id_ s) (active_bid_px_ s) (active_ask_px_ s) (last_md_seq_ s) (last_tob_ns_ s) (f (fill_count_ s))
    (a (ack_count_ s)) (r (reject_count_ s)).

Definition active_id (side : QuoteSide) (s : Strategy) : Z :=
  match side with SideBid => active_bid_cl_id_ s | SideAsk => active_ask_cl_id_ s end.
Definition active_px (side : QuoteSide) (s : Strategy) : Z :=
  match side with SideBid => active_bid_px_ s | SideAsk => active_ask_px_ s end.

(** A signed 64-bit result. *)
Definition i64 (z : Z) : M Strategy Z := if bool_decide (is_i64 z) then mret z else ub.

Definition count_up64 (n : Z) : Z := u64 (n + 1).
Definition same (n : Z) : Z := n.

(** ** Quotes *)

(** Cancel the side's quote and forget it. *)
Definition cancel_quote (side : QuoteSide) : M Strategy ShmCancelOrder :=
  s ← get;
  modify (set_ids same (fun n => u32 (n + 1)));;
  modify (set_active side 0 (active_px side s));;
  mret (mkShmCancel (type_code CancelOrder) 0 (seq_ s) 0 (active_id side s) (last_tob_ns_ s) 0).

Definition side_code (side : QuoteSide) : Z := match side with SideBid => 1 | SideAsk => 2 end.

(** Post a quote at [px]. *)
Definition post_quote (side : QuoteSide) (md_seq px : Z) : M Strategy ShmNewOrder :=
  s ← get;
  modify (set_ids count_up64 (fun n => u32 (n + 1)));;
  modify (set_active side (next_cl_id_ s) px);;
  mret (mkShmNew (type_code NewOrder) (side_code side) 1 (seq_ s) 0 md_seq (next_cl_id_ s) px
          (order_size (config_ s)) (last_tob_ns_ s) 0).

(** One side of a decision: requote, post or pull. *)
Definition manage (side : QuoteSide) (may_quote : bool) (md_seq target_px : Z)
    : M Strategy (option ShmCancelOrder * option ShmNewOrder) :=
  s ← get;
  if may_quote then
    cancelled ← (if negb (active_id side s =? 0) && negb (active_px side s =? target_px)
                 then c ← cancel_quote side; mret (Some c) else mret None);
    s ← get;
    posted ← (if active_id side s =? 0 then n ← post_quote side md_seq target_px; mret (Some n) else mret None);
    mret (cancelled, posted)
  else if negb (active_id side s =? 0) then
    c ← cancel_quote side;
    mret (Some c, None)
  else mret (None, None).

Definition cancel_all : M Strategy StrategyDecision :=
  b ← manage SideBid false 0 0;
  a ← manage SideAsk false 0 0;
  mret (mkDecision b.1 a.1 None None).

(** ** Handlers, in whichever build of the pricing *)

Section Strategy.
Context `{Target}.

Definition on_tob (tob : ShmTopOfBook) (now_ns : Z) : M Strategy StrategyDecision :=
  modify (set_tick (st_md_seq tob) (if 0 <? now_ns then now_ns else st_venue_ns tob));;
  if (st_bid_px tob <=? 0) || (st_ask_px tob <=? 0) || (st_ask_px tob <=? st_bid_px tob) then cancel_all
  else
    s ← get;
    total ← i64 (st_bid_px tob + st_ask_px tob);
    let mid_px := Z.quot total 2 in
    doubled ← i64 (position_ s * 2);
    let position_skew := Z.quot doubled 10 in
    below ← i64 (mid_px - half_spread (config_ s));
    target_bid_px ← i64 (below - position_skew);
    above ← i64 (mid_px + half_spread (config_ s));
    target_ask_px ← i64 (above - position_skew);
    b ← manage SideBid ((position_ s <? max_position (config_ s)) && (target_bid_px <? st_ask_px tob)) (st_md_seq tob) target_bid_px;
    floor ← i64 (- max_position (config_ s));
    a ← manage SideAsk ((floor <? position_ s) && (st_bid_px tob <? target_ask_px)) (st_md_seq tob) target_ask_px;
    mret (mkDecision b.1 a.1 b.2 a.2).

(** [clock] is [steady_clock::now()]. *)
Definition on_depth (depth : BookDepth4) (md_seq now_ns clock : Z) : M Strategy StrategyDecision :=
  modify (set_tick md_seq (if 0 <? now_ns then now_ns else clock));;
  let bid := level (d_bid_px depth) 0 in
  let ask := level (d_ask_px depth) 0 in
  if SFleb bid f0 || SFleb ask f0 || SFleb ask bid then cancel_all
  else
    s ← get;
    let priced := compute depth (of_int (half_spread (config_ s))) (position_ s) f0_1 f1 in
    target_bid_px ← deref (cast_i64 (fround (target_bid priced)));
    target_ask_px ← deref (cast_i64 (fround (target_ask priced)));
    ask_px ← (if position_ s <? max_position (config_ s) then deref (cast_i64 ask) else mret 0);
    b ← manage SideBid ((position_ s <? max_position (config_ s)) && (target_bid_px <? ask_px)) md_seq target_bid_px;
    floor ← i64 (- max_position (config_ s));
    bid_px ← (if floor <? position_ s then deref (cast_i64 bid) else mret 0);
    a ← manage SideAsk ((floor <? position_ s) && (bid_px <? target_ask_px)) md_seq target_ask_px;
    mret (mkDecision b.1 a.1 b.2 a.2).

Definition on_ack (ack : ShmOrderAck) : M Strategy unit := modify (set_counts same count_up64 same).

Definition on_fill (fill : ShmOrderFill) : M Strategy unit :=
  modify (set_counts count_up64 same same);;
  s ← get;
  if sf_cl_id fill =? active_bid_cl_id_ s then
    pos ← i64 (position_ s + sf_fill_qty fill);
    value ← i64 (sf_fill_px fill * sf_fill_qty fill);
    pnl ← i64 (realized_pnl_ s - value);
    modify (set_position pos pnl);;
    modify (set_active SideBid 0 (active_bid_px_ s))
  else if sf_cl_id fill =? active_ask_cl_id_ s then
    pos ← i64 (position_ s - sf_fill_qty fill);
    value ← i64 (sf_fill_px fill * sf_fill_qty fill);
    pnl ← i64 (realized_pnl_ s + value);
    modify (set_position pos pnl);;
    modify (set_active SideAsk 0 (active_ask_px_ s))
  else mret tt.

Definition on_reject (reject : ShmOrderReject) : M Strategy unit :=
  modify (set_counts same same count_up64);;
  s ← get;
  if sr_cl_id reject =? active_bid_cl_id_ s then modify (set_active SideBid 0 (active_bid_px_ s))
  else if sr_cl_id reject =? active_ask_cl_id_ s then modify (set_active SideAsk 0 (active_ask_px_ s))
  else mret tt.

Definition is_stale (s : Strategy) (now_ns : Z) : M Strategy bool :=
  if last_tob_ns_ s <? now_ns then
    age ← i64 (now_ns - last_tob_ns_ s);
    mret (stale_timeout_ns (config_ s) <? age)
  else mret false.

(** ** Runs *)

Inductive StratInput :=
| InTob (tob : ShmTopOfBook) (now_ns : Z)
| InDepth (depth : BookDepth4) (md_seq now_ns clock : Z)
| InAck (ack : ShmOrderAck)
| InFill (fill : ShmOrderFill)
| InReject (reject : ShmOrderReject)
| InCancelAll.

Definition strat_step (i : StratInput) : M Strategy StrategyDecision :=
  match i with
  | InTob tob now => on_tob tob now
  | InDepth depth md now clock => on_depth depth md now clock
  | InAck ack => on_ack ack;; mret no_decision
  | InFill fill => on_fill fill;; mret no_decision
  | InReject reject => on_reject reject;; mret no_decision
  | InCancelAll => cancel_all
  end.

Fixpoint strat_run (inputs : list StratInput) : M Strategy (list StrategyDecision) :=
  match inputs with
  | [] => mret []
  | i :: inputs' => d ← strat_step i; ds ← strat_run inputs'; mret (d :: ds)
  end.

(** ** The quotes the strategy may have working

    What the venue sees: the orders and cancels in the order of their sequence
    numbers, and the reports that end a quote. *)

Inductive QuoteEvent :=
| QNew (side : QuoteSide) (order : ShmNewOrder)
| QCancel (side : QuoteSide) (cancel : ShmCancelOrder)
| QFill (id qty : Z)
| QReject (id : Z).

Record Quotes := mkQuotes { w_bid : option Z; w_ask : option Z; w_pos : Z; w_next : Z; w_seq : Z }.

Definition working (side : QuoteSide) (w : Quotes) : option Z := match side with SideBid => w_bid w | SideAsk => w_ask w end.
Definition set_working (side : QuoteSide) (id : option Z) (w : Quotes) : Quotes :=
  match side with
  | SideBid => mkQuotes id (w_ask w) (w_pos w) (w_next w) (w_seq w)
  | SideAsk => mkQuotes (w_bid w) id (w_pos w) (w_next w) (w_seq w)
  end.

(** Whether the position still has room on a side. *)
Definition room (c : StrategyConfig) (side : QuoteSide) (pos : Z) : Prop :=
  match side with SideBid => pos < max_position c | SideAsk => - max_position c < pos end.
#[export] Instance room_dec c side pos : Decision (room c side pos).
Proof. destruct side; cbn [room]; apply _. Defined.

(** The discipline: one working quote a side, replaced only after its cancel;
    identifiers and sequence numbers consecutive; every order post-only, of the
    configured size, and with room on its side. *)
Definition quote_event (c : StrategyConfig) (w : Quotes) (ev : QuoteEvent) : option Quotes :=
  match ev with
  | QNew side o =>
      if bool_decide (working side w = None /\ sn_cl_id o = w_next w /\ sn_seq o = u32 (w_seq w) /\
                      sn_side o = side_code side /\ sn_post_only o = 1 /\ sn_qty o = order_size c /\ room c side (w_pos w))
      then Some (set_working side (Some (w_next w)) (mkQuotes (w_bid w) (w_ask w) (w_pos w) (w_next w + 1) (w_seq w + 1)))
      else None
  | QCancel side m =>
      if bool_decide (working side w = Some (sc_cl_id m) /\ sc_seq m = u32 (w_seq w))
      then Some (set_working side None (mkQuotes (w_bid w) (w_ask w) (w_pos w) (w_next w) (w_seq w + 1)))
      else None
  | QFill id qty =>
      Some (if bool_decide (w_bid w = Some id) then mkQuotes None (w_ask w) (w_pos w + qty) (w_next w) (w_seq w)
            else if bool_decide (w_ask w = Some id) then mkQuotes (w_bid w) None (w_pos w - qty) (w_next w) (w_seq w)
            else w)
  | QReject id =>
      Some (if bool_decide (w_bid w = Some id) then set_working SideBid None w
            else if bool_decide (w_ask w = Some id) then set_working SideAsk None w
            else w)
  end.

Fixpoint quote_run (c : StrategyConfig) (w : Quotes) (evs : list QuoteEvent) : option Quotes :=
  match evs with [] => Some w | ev :: evs' => w' ← quote_event c w ev; quote_run c w' evs' end.

Definition sent (side : QuoteSide) (c : option ShmCancelOrder) (n : option ShmNewOrder) : list QuoteEvent :=
  match c with Some m => [QCancel side m] | None => [] end ++ match n with Some m => [QNew side m] | None => [] end.
Definition seen (i : StratInput) (d : StrategyDecision) : list QuoteEvent :=
  match i with
  | InFill fill => [QFill (sf_cl_id fill) (sf_fill_qty fill)]
  | InReject reject => [QReject (sr_cl_id reject)]
  | _ => []
  end ++ sent SideBid (cancel_bid d) (new_bid d) ++ sent SideAsk (cancel_ask d) (new_ask d).

Lemma quote_run_app c w evs evs' : quote_run c w (evs ++ evs') = (quote_run c w evs ≫= fun w' => quote_run c w' evs').
Proof. revert w. induction evs as [|ev evs IH]; intros w; cbn; [done|]. destruct (quote_event c w ev); cbn; auto. Qed.

(** ** The strategy keeps the discipline *)

Definition id_opt (id : Z) : option Z := if id =? 0 then None else Some id.

Record tracks (s : Strategy) (w : Quotes) : Prop := {
  tr_bid : w_bid w = id_opt (active_bid_cl_id_ s);
  tr_ask : w_ask w = id_opt (active_ask_cl_id_ s);
  tr_pos : w_pos w = position_ s;
  tr_next : next_cl_id_ s = u64 (w_next w);
  tr_seq : seq_ s = u32 (w_seq w);
  tr_first : 1 <= w_next w;
}.

Lemma tr_working side s w : tracks s w -> working side w = id_opt (active_id side s).
Proof. intros []. by destruct side. Qed.

Lemma u32_add_l x y : u32 (u32 x + y) = u32 (x + y).
Proof. unfold u32. by rewrite Zplus_mod_idemp_l. Qed.

(** What a side's management sends is allowed. *)
Record managed (side : QuoteSide) (s s' : Strategy) (w w' : Quotes) : Prop := {
  ma_tracks : tracks s' w';
  ma_config : config_ s' = config_ s;
  ma_position : position_ s' = position_ s;
  ma_pnl : realized_pnl_ s' = realized_pnl_ s;
  ma_next : w_next w' <= w_next w + 1;
}.

Lemma cancel_quote_ok side s w o :
  tracks s w -> active_id side s <> 0 ->
  exists m s' w', cancel_quote side s o = (Ret m, s', o) /\ quote_event (config_ s) w (QCancel side m) = Some w' /\
    managed side s s' w w' /\ active_id side s' = 0 /\ w_next w' = w_next w.
Proof.
  intros Ht Hne. do 3 eexists. split; [reflexivity|]. cbn [quote_event sc_cl_id sc_seq].
  rewrite bool_decide_eq_true_2; [split; [reflexivity|]|].
  - destruct Ht. split; [split|]; destruct side; cbn; try done; try lia; split; cbn; try done; by rewrite tr_seq0, u32_add_l.
  - rewrite (tr_working side s w Ht). unfold id_opt. destruct (Z.eqb_spec (active_id side s) 0); [done|]. split; [done|apply Ht].
Qed.

Lemma post_quote_ok side md px s w o :
  tracks s w -> active_id side s = 0 -> room (config_ s) side (position_ s) -> w_next w < two64 ->
  exists m s' w', post_quote side md px s o = (Ret m, s', o) /\ quote_event (config_ s) w (QNew side m) = Some w' /\
    managed side s s' w w'.
Proof.
  intros Ht Hz Hroom Hlim. pose proof (tr_working side s w Ht) as Hw. rewrite Hz in Hw. do 3 eexists. split; [reflexivity|].
  destruct Ht. assert (u64 (w_next w) = w_next w) as Eid by (apply u64_small; split; lia).
  assert (id_opt (w_next w) = Some (w_next w)) as Eo by (unfold id_opt; destruct (Z.eqb_spec (w_next w) 0); [lia|done]).
  cbn [quote_event sn_cl_id sn_seq sn_side sn_post_only sn_qty].
  rewrite bool_decide_eq_true_2; [split; [reflexivity|]|].
  - split; try (destruct side; cbn; done || lia). split; destruct side; cbn; try done; try lia;
      first [by rewrite tr_next0, Eid | unfold count_up64; by rewrite tr_next0, u64_add_l | by rewrite tr_seq0, u32_add_l].
  - split_and!; try done; [by rewrite tr_next0|by rewrite tr_pos0].
Qed.

Lemma manage_ok side may_quote md px s w o :
  tracks s w -> (may_quote = true -> room (config_ s) side (position_ s)) -> w_next w < two64 ->
  exists c n s' w', manage side may_quote md px s o = (Ret (c, n), s', o) /\
    quote_run (config_ s) w (sent side c n) = Some w' /\ managed side s s' w w' /\ (may_quote = false -> n = None).
Proof.
  intros Ht Hroom Hlim. unfold manage, mbind, M_bind, get. destruct may_quote.
  - destruct (Z.eqb_spec (active_id side s) 0) as [Hz|Hne]; cbn [negb andb].
    + cbn [mret M_ret]. rewrite Hz. cbn [Z.eqb].
      destruct (post_quote_ok side md px s w o Ht Hz (Hroom eq_refl) Hlim) as (m & s' & w' & E & Eq & Hm). rewrite E.
      exists None, (Some m), s', w'. split_and!; [done| |done|done]. cbn [sent app quote_run]. by rewrite Eq.
    + destruct (Z.eqb_spec (active_px side s) px); cbn [negb].
      * cbn [mret M_ret]. rewrite (proj2 (Z.eqb_neq _ _) Hne). exists None, None, s, w. split_and!; try done. split; try done. lia.
      * destruct (cancel_quote_ok side s w o Ht Hne) as (m & s1 & w1 & E1 & Eq1 & [T1 C1 P1 L1 N1] & Z1 & W1). rewrite E1. cbn [mret M_ret].
        rewrite Z1. cbn [Z.eqb]. rewrite <- C1, <- P1 in Hroom.
        destruct (post_quote_ok side md px s1 w1 o T1 Z1 (Hroom eq_refl)) as (m' & s2 & w2 & E2 & Eq2 & [T2 C2 P2 L2 N2]); [lia|].
        rewrite E2. exists (Some m), (Some m'), s2, w2. split_and!; [done| | |done].
        { cbn [sent app quote_run]. rewrite Eq1. cbn [mbind option_bind]. rewrite <- C1, Eq2. done. }
        split; [done|congruence|congruence|congruence|lia].
  - destruct (Z.eqb_spec (active_id side s) 0) as [Hz|Hne]; cbn [negb].
    + exists None, None, s, w. split_and!; try done. split; try done. lia.
    + destruct (cancel_quote_ok side s w o Ht Hne) as (m & s1 & w1 & E1 & Eq1 & Hm & _). rewrite E1.
      exists (Some m), None, s1, w1. split_and!; [done| |done|done]. cbn [sent app quote_run]. by rewrite Eq1.
Qed.

(** A step allowed from [w], when nothing overflows. *)
Definition allowed (i : StratInput) (s : Strategy) (w : Quotes) (r : outcome StrategyDecision * Strategy * oracle) : Prop :=
  match r with
  | (Ret d, s', _) => exists w', quote_run (config_ s) w (seen i d) = Some w' /\ tracks s' w' /\
      config_ s' = config_ s /\ w_next w' <= w_next w + 2
  | (Throw _, _, _) => False
  | (UB, _, _) => True
  end.

(** The report an input carries, besides the orders it draws. *)
Definition silent (i : StratInput) : bool := match i with InFill _ | InReject _ => false | _ => true end.

Lemma ask_ok i s0 s1 w w1 (b2 : bool) md p2 cb nb o :
  silent i = true -> managed SideBid s0 s1 w w1 -> quote_run (config_ s0) w (sent SideBid cb nb) = Some w1 ->
  (b2 = true -> room (config_ s0) SideAsk (position_ s0)) -> w_next w + 2 < two64 ->
  allowed i s0 w ((a ← manage SideAsk b2 md p2; mret (mkDecision cb a.1 nb a.2)) s1 o).
Proof.
  intros Hi [T1 C1 P1 L1 N1] Hq Hroom Hlim. unfold mbind, M_bind.
  destruct (manage_ok SideAsk b2 md p2 s1 w1 o T1) as (c & n & s2 & w2 & E & Eq & [T2 C2 P2 L2 N2] & _); [by rewrite C1, P1|lia|].
  rewrite E. cbn [mret M_ret allowed fst snd]. exists w2. split; [|split; [done|split; [congruence|lia]]].
  assert (seen i (mkDecision cb c nb n) = sent SideBid cb nb ++ sent SideAsk c n) as -> by (by destruct i).
  rewrite quote_run_app, Hq. cbn [mbind option_bind]. by rewrite <- C1.
Qed.

Lemma cancel_all_ok i s w o :
  silent i = true -> tracks s w -> w_next w + 2 < two64 -> allowed i s w (cancel_all s o).
Proof.
  intros Hi Ht Hlim. unfold cancel_all, mbind at 1, M_bind at 1.
  destruct (manage_ok SideBid false 0 0 s w o Ht) as (c & n & s1 & w1 & E & Eq & Hm & Hn); [done|lia|].
  rewrite E. rewrite (Hn eq_refl) in *.
  pose proof (ask_ok i s s1 w w1 false 0 0 c None o Hi Hm Eq ltac:(done) Hlim) as Ha. unfold mbind, M_bind in *.
  destruct (manage_ok SideAsk false 0 0 s1 w1 o (ma_tracks _ _ _ _ _ Hm)) as (c2 & n2 & s2 & w2 & E2 & _ & _ & Hn2);
    [done|destruct Hm; lia|]. rewrite E2 in *. by rewrite (Hn2 eq_refl) in Ha.
Qed.

Lemma i64_bind {B} (P : outcome B * Strategy * oracle -> Prop) z (k : Z -> M Strategy B) s o :
  (forall s', P (UB, s', o)) -> (is_i64 z -> P (k z s o)) -> P ((i64 z ≫= k) s o).
Proof. intros HU HK. unfold i64, mbind, M_bind. case_bool_decide as Hz; cbn; [by apply HK|apply HU]. Qed.

Lemma deref_bind {A B} (P : outcome B * Strategy * oracle -> Prop) (x : option A) (k : A -> M Strategy B) s o :
  (forall s', P (UB, s', o)) -> (forall a, x = Some a -> P (k a s o)) -> P ((deref x ≫= k) s o).
Proof. intros HU HK. unfold deref, mbind, M_bind. destruct x; cbn; [by apply HK|apply HU]. Qed.

Lemma tracks_tick md ns s w : tracks s w -> tracks (set_tick md ns s) w.
Proof. by intros []. Qed.

Lemma on_tob_ok tob now s w o : tracks s w -> w_next w + 2 < two64 -> allowed (InTob tob now) s w (on_tob tob now s o).
Proof.
  intros Ht Hlim. unfold on_tob. unfold mbind at 1, M_bind at 1. cbn [modify]. set (s1 := set_tick _ _ s).
  pose proof (tracks_tick (st_md_seq tob) (if 0 <? now then now else st_venue_ns tob) s w Ht) as Ht1. fold s1 in Ht1.
  change (allowed (InTob tob now) s w) with (allowed (InTob tob now) s1 w).
  destruct (_ || _); [by apply cancel_all_ok|]. unfold mbind at 1, M_bind at 1. cbn [get].
  repeat (apply i64_bind; [done|intros _]). unfold mbind at 1, M_bind at 1.
  match goal with |- context [manage SideBid ?b ?md ?p] =>
    destruct (manage_ok SideBid b md p s1 w o Ht1) as (c & n & s2 & w2 & E & Eq & Hm & _) end; [|lia|].
  { intros [Hx%Z.ltb_lt _]%andb_true_iff. exact Hx. }
  rewrite E. cbn [fst snd]. apply i64_bind; [done|intros _]. apply ask_ok with w2; try done.
  intros [Hx%Z.ltb_lt _]%andb_true_iff. exact Hx.
Qed.

Lemma guarded_bind {B} (P : outcome B * Strategy * oracle -> Prop) (g : bool) (x : option Z) (k : Z -> M Strategy B) s o :
  (forall s', P (UB, s', o)) -> (forall z, P (k z s o)) -> P (((if g then deref x else mret 0) ≫= k) s o).
Proof. intros HU HK. destruct g; [by apply deref_bind|apply HK]. Qed.

Lemma on_depth_ok d md now clock s w o :
  tracks s w -> w_next w + 2 < two64 -> allowed (InDepth d md now clock) s w (on_depth d md now clock s o).
Proof.
  intros Ht Hlim. unfold on_depth. unfold mbind at 1, M_bind at 1. cbn [modify]. set (s1 := set_tick _ _ s).
  pose proof (tracks_tick md (if 0 <? now then now else clock) s w Ht) as Ht1. fold s1 in Ht1.
  change (allowed (InDepth d md now clock) s w) with (allowed (InDepth d md now clock) s1 w).
  destruct (_ || _); [by apply cancel_all_ok|]. unfold mbind at 1, M_bind at 1. cbn [get].
  do 2 (apply deref_bind; [done|intros ? _]). apply guarded_bind; [done|intros ask_px]. unfold mbind at 1, M_bind at 1.
  match goal with |- context [manage SideBid ?b ?md ?p] =>
    destruct (manage_ok SideBid b md p s1 w o Ht1) as (c & n & s2 & w2 & E & Eq & Hm & _) end; [|lia|].
  { intros [Hx%Z.ltb_lt _]%andb_true_iff. exact Hx. }
  rewrite E. cbn [fst snd]. apply i64_bind; [done|intros _]. apply guarded_bind; [done|intros bid_px]. apply ask_ok with w2; try done.
  intros [Hx%Z.ltb_lt _]%andb_true_iff. exact Hx.
Qed.

(** A report names the quote the strategy believes it has. *)
Lemma names_active id active : id <> 0 -> (id =? active) = bool_decide (id_opt active = Some id).
Proof.
  intros Hid. unfold id_opt. destruct (Z.eqb_spec active 0) as [->|Hne].
  - by rewrite (proj2 (Z.eqb_neq _ _) Hid).
  - destruct (Z.eqb_spec id active) as [->|Hx]; symmetry; [by apply bool_decide_eq_true|]. apply bool_decide_eq_false. congruence.
Qed.

Lemma on_fill_ok fill s w o :
  tracks s w -> sf_cl_id fill <> 0 -> allowed (InFill fill) s w ((on_fill fill;; mret no_decision) s o).
Proof.
  intros Ht Hid. unfold on_fill. assert (forall s' w', tracks s' w' -> config_ s' = config_ s -> w_next w' = w_next w ->
    quote_event (config_ s) w (QFill (sf_cl_id fill) (sf_fill_qty fill)) = Some w' ->
    allowed (InFill fill) s w (Ret no_decision, s', o)) as Hdone.
  { intros s' w' Ht' Hc Hn Hq. exists w'. split; [|split_and!; [done..|lia]]. cbn [seen app sent no_decision cancel_bid new_bid cancel_ask new_ask quote_run].
    by rewrite Hq. }
  cbn [quote_event] in Hdone. rewrite (tr_bid _ _ Ht), (tr_ask _ _ Ht), <- !names_active in Hdone by done.
  unfold modify, mbind, M_bind, get, mret, M_ret, i64. cbn [set_counts active_bid_cl_id_ active_ask_cl_id_ position_ realized_pnl_ active_bid_px_ active_ask_px_].
  destruct (sf_cl_id fill =? active_bid_cl_id_ s), (sf_cl_id fill =? active_ask_cl_id_ s).
  1-3: do 3 (case_bool_decide; [|done]; cbn [mret M_ret]).
  1-3: eapply Hdone; [..|reflexivity]; [destruct Ht; split; cbn; congruence|done..].
  eapply Hdone; [..|reflexivity]; [by destruct Ht|done..].
Qed.

Lemma on_reject_ok reject s w o :
  tracks s w -> sr_cl_id reject <> 0 -> allowed (InReject reject) s w ((on_reject reject;; mret no_decision) s o).
Proof.
  intros Ht Hid. unfold on_reject. assert (forall s' w', tracks s' w' -> config_ s' = config_ s -> w_next w' = w_next w ->
    quote_event (config_ s) w (QReject (sr_cl_id reject)) = Some w' ->
    allowed (InReject reject) s w (Ret no_decision, s', o)) as Hdone.
  { intros s' w' Ht' Hc Hn Hq. exists w'. split; [|split_and!; [done..|lia]]. cbn [seen app sent no_decision cancel_bid new_bid cancel_ask new_ask quote_run].
    by rewrite Hq. }
  cbn [quote_event] in Hdone. rewrite (tr_bid _ _ Ht), (tr_ask _ _ Ht), <- !names_active in Hdone by done.
  unfold modify, mbind, M_bind, get, mret, M_ret. cbn [set_counts active_bid_cl_id_ active_ask_cl_id_ active_bid_px_ active_ask_px_].
  destruct (sr_cl_id reject =? active_bid_cl_id_ s), (sr_cl_id reject =? active_ask_cl_id_ s);
    (eapply Hdone; [..|reflexivity]; [destruct Ht; split; cbn; congruence|done..]).
Qed.

Lemma strat_step_ok i s w o :
  tracks s w -> w_next w + 2 < two64 ->
  match i with InFill f => sf_cl_id f <> 0 | InReject r => sr_cl_id r <> 0 | _ => True end ->
  allowed i s w (strat_step i s o).
Proof.
  intros Ht Hlim Hid. destruct i; cbn [strat_step].
  - by apply on_tob_ok.
  - by apply on_depth_ok.
  - exists w. split; [done|]. split; [by destruct Ht|]. split; [done|lia].
  - by apply on_fill_ok.
  - by apply on_reject_ok.
  - by apply cancel_all_ok.
Qed.

Definition named (i : StratInput) : Prop :=
  match i with InFill f => sf_cl_id f <> 0 | InReject r => sr_cl_id r <> 0 | _ => True end.

Lemma strat_run_ok inputs s w o :
  tracks s w -> Forall named inputs -> w_next w + 2 * Z.of_nat (length inputs) < two64 ->
  match strat_run inputs s o with
  | (Ret ds, s', _) => exists w', quote_run (config_ s) w (concat (zip_with seen inputs ds)) = Some w' /\ tracks s' w'
  | (Throw _, _, _) => False
  | (UB, _, _) => True
  end.
Proof.
  intros Ht Hn. revert s w o Ht. induction Hn as [|i inputs Hi _ IH]; intros s w o Ht Hlim; cbn [strat_run]; [by exists w|].
  cbn [length] in Hlim. pose proof (strat_step_ok i s w o Ht ltac:(lia) Hi) as Ha. unfold mbind, M_bind.
  destruct (strat_step i s o) as [[[d| |] s1] o1]; [|done..]. destruct Ha as (w1 & Eq & Ht1 & Hc & Hnx).
  specialize (IH s1 w1 o1 Ht1 ltac:(lia)). destruct (strat_run inputs s1 o1) as [[[ds| |] s2] o2]; [|done..].
  destruct IH as (w2 & Eq2 & Ht2). exists w2. split; [|done]. cbn [zip_with concat]. rewrite quote_run_app, Eq. cbn [mbind option_bind].
  by rewrite <- Hc.
Qed.

(** ** No overflow on bounded inputs *)

Definition tame (i : StratInput) : Prop :=
  match i with
  | InTob t _ => Z.abs (st_bid_px t) <= 2 ^ 60 /\ Z.abs (st_ask_px t) <= 2 ^ 60
  | InDepth _ _ _ _ => False
  | InFill f => sf_cl_id f <> 0 /\ Z.abs (sf_fill_px f) <= 2 ^ 20 /\ Z.abs (sf_fill_qty f) <= 2 ^ 20
  | InReject r => sr_cl_id r <> 0
  | _ => True
  end.
Definition tame_config (c : StrategyConfig) : Prop := Z.abs (half_spread c) <= 2 ^ 60 /\ Z.abs (max_position c) < 2 ^ 63.

Definition bounded (n : Z) (s : Strategy) : Prop :=
  tame_config (config_ s) /\ Z.abs (position_ s) <= n * 2 ^ 20 /\ Z.abs (realized_pnl_ s) <= n * 2 ^ 40.

Definition money (s : Strategy) := (config_ s, position_ s, realized_pnl_ s).
Lemma bounded_money n s s' : money s' = money s -> bounded n s -> bounded n s'.
Proof. unfold money, bounded. by intros [= -> -> ->]. Qed.

Lemma manage_returns side b md px s o : exists r s', manage side b md px s o = (Ret r, s', o) /\ money s' = money s.
Proof.
  unfold manage, cancel_quote, post_quote, mbind, M_bind, get, modify, mret, M_ret. 
  destruct b, side; cbn;
    repeat match goal with |- context [if ?c then _ else _] => destruct c; cbn end; by do 2 eexists.
Qed.

Lemma i64_returns {B} z (k : Z -> M Strategy B) s o : is_i64 z -> (i64 z ≫= k) s o = k z s o.
Proof. intros Hz. unfold i64, mbind, M_bind. by rewrite bool_decide_eq_true_2. Qed.

Definition returns (n : Z) (r : outcome StrategyDecision * Strategy * oracle) : Prop :=
  exists d s' o', r = (Ret d, s', o') /\ bounded n s'.

Lemma manage_bind n side b md px (k : option ShmCancelOrder * option ShmNewOrder -> M Strategy StrategyDecision) s o :
  bounded n s -> (forall r s', money s' = money s -> bounded n s' -> returns n (k r s' o)) ->
  returns n ((manage side b md px ≫= k) s o).
Proof.
  intros Hb Hk. destruct (manage_returns side b md px s o) as (r & s' & E & Em). unfold mbind, M_bind. rewrite E.
  apply Hk; [done|by eapply bounded_money].
Qed.

Lemma ret_returns n d s o : bounded n s -> returns n ((mret d : M Strategy StrategyDecision) s o).
Proof. intros Hb. by exists d, s, o. Qed.

Lemma on_tob_returns n t now s o :
  bounded n s -> 0 <= n <= 2 ^ 20 -> tame (InTob t now) -> returns n (on_tob t now s o).
Proof.
  intros Hb Hn [Hbid Hask]. unfold on_tob, modify. unfold mbind at 1, M_bind at 1. set (s1 := set_tick _ _ s).
  assert (bounded n s1) as Hb1 by exact Hb. destruct (_ || _).
  - unfold cancel_all. do 2 (apply manage_bind; [done|intros ? ? _ ?]). by apply ret_returns.
  - unfold mbind at 1, M_bind at 1. cbn [get]. destruct Hb as ([Hhs Hmax] & Hpos & _).
    change (position_ s1) with (position_ s). change (config_ s1) with (config_ s).
    pose proof (Z.quot_rem' (st_bid_px t + st_ask_px t) 2). pose proof (Z.rem_bound_abs (st_bid_px t + st_ask_px t) 2 ltac:(lia)).
    pose proof (Z.quot_rem' (position_ s * 2) 10). pose proof (Z.rem_bound_abs (position_ s * 2) 10 ltac:(lia)).
    assert (Z.abs (position_ s) <= 2 ^ 40) by lia. change (2 ^ 60) with 1152921504606846976 in *. change (2 ^ 40) with 1099511627776 in *.
    change (2 ^ 63) with 9223372036854775808 in *.
    do 6 (rewrite i64_returns; [|unfold is_i64, two63; lia]). apply manage_bind; [done|intros ? ? ? ?].
    rewrite i64_returns by (unfold is_i64, two63; lia). apply manage_bind; [done|intros ? ? _ ?]. by apply ret_returns.
Qed.

Lemma on_fill_returns n f s o :
  bounded n s -> 0 <= n < 2 ^ 20 -> tame (InFill f) -> returns (n + 1) ((on_fill f;; mret no_decision) s o).
Proof.
  intros (Hc & Hpos & Hpnl) Hn (_ & Hpx & Hqty). assert (Z.abs (sf_fill_px f * sf_fill_qty f) <= 2 ^ 40) as Hv.
  { rewrite Z.abs_mul. change (2 ^ 40) with (2 ^ 20 * 2 ^ 20). apply Z.mul_le_mono_nonneg; lia. }
  unfold on_fill, modify, mbind, M_bind, get, mret, M_ret, i64. 
  change (2 ^ 40) with 1099511627776 in *. change (2 ^ 20) with 1048576 in *.
  cbn [set_counts active_bid_cl_id_ active_ask_cl_id_ position_ realized_pnl_ active_bid_px_ active_ask_px_].
  destruct (sf_cl_id f =? active_bid_cl_id_ s); [|destruct (sf_cl_id f =? active_ask_cl_id_ s)].
  1-2: do 3 (rewrite bool_decide_eq_true_2 by (unfold is_i64, two63; lia); cbn [mret M_ret]).
  all: do 3 eexists; split; [reflexivity|]; (split; [exact Hc|]); cbn; change (Z.pow_pos 2 20) with 1048576; change (Z.pow_pos 2 40) with 1099511627776; lia.
Qed.

Lemma bounded_weaken n s : bounded n s -> bounded (n + 1) s.
Proof. intros (Hc & Hp & Hl). split; [done|]. lia. Qed.

Lemma strat_step_returns n i s o : bounded n s -> 0 <= n < 2 ^ 20 -> tame i -> returns (n + 1) (strat_step i s o).
Proof.
  intros Hb Hn Ht. pose proof (bounded_weaken n s Hb) as Hb'. destruct i; cbn [strat_step]; try done.
  - apply on_tob_returns; [done|lia|done].
  - by do 3 eexists.
  - by apply on_fill_returns.
  - unfold on_reject, modify, mbind, M_bind, get, mret, M_ret. cbn.
    destruct (_ =? _); [|destruct (_ =? _)]; do 3 eexists; (split; [reflexivity|]); exact Hb'.
  - unfold cancel_all. do 2 (apply manage_bind; [done|intros ? ? _ ?]). by apply ret_returns.
Qed.

Lemma strat_run_returns n inputs s o :
  bounded n s -> 0 <= n -> n + Z.of_nat (length inputs) <= 2 ^ 20 -> Forall tame inputs ->
  exists ds s' o', strat_run inputs s o = (Ret ds, s', o').
Proof.
  intros Hb Hn Hlen Ht. revert n s o Hb Hn Hlen. induction Ht as [|i inputs Hi _ IH]; intros n s o Hb Hn Hlen; [by do 3 eexists|].
  cbn [length] in Hlen. destruct (strat_step_returns n i s o Hb ltac:(lia) Hi) as (d & s1 & o1 & E & Hb1).
  destruct (IH (n + 1) s1 o1 Hb1 ltac:(lia) ltac:(lia)) as (ds & s2 & o2 & E2). cbn [strat_run]. unfold mbind, M_bind. rewrite E, E2. by do 3 eexists.
Qed.

(** ** The theorem *)

(** C37 For any stream of ticks, depth books, acks, and fills and rejects that
    name an order (whose identifier is not 0), the strategy's orders and cancels
    follow the one-quote discipline: a side's new order only once its
    previous quote was cancelled, reported filled or rejected; every cancel names
    the side's working quote; identifiers and sequence numbers consecutive; every
    order post-only, of the configured size and with room under the position
    limit; and the two identifiers and the position the strategy keeps are those
    of that account.  Within the stated bounds, and without depth books, nothing
    overflows; of the conversions a depth book asks for nothing is said. *)
Theorem strategy_quotes_disciplined c inputs :
  Forall named inputs -> 2 * Z.of_nat (length inputs) + 1 < two64 ->
  match run (strat_run inputs) (new_strategy c) with
  | (Ret ds, s) => exists w,
      quote_run c (mkQuotes None None 0 1 1) (concat (zip_with seen inputs ds)) = Some w /\
      w_bid w = id_opt (active_bid_cl_id_ s) /\ w_ask w = id_opt (active_ask_cl_id_ s) /\ w_pos w = position_ s
  | (Throw _, _) => False
  | (UB, _) => ~ (tame_config c /\ Forall tame inputs /\ Z.of_nat (length inputs) <= 2 ^ 20)
  end.
Proof.
  intros Hn Hlen. assert (tracks (new_strategy c) (mkQuotes None None 0 1 1)) as Ht by (by split).
  pose proof (strat_run_ok inputs _ _ [] Ht Hn) as Hr. cbn [w_next] in Hr. specialize (Hr ltac:(lia)).
  pose proof (strat_run_returns 0 inputs (new_strategy c) []) as Hret. unfold run.
  destruct (strat_run inputs (new_strategy c) []) as [[[ds| |] s] o]; [|done|].
  - destruct Hr as (w & Hq & [T1 T2 T3 _ _ _]). by exists w.
  - intros (Hc & Htame & Hl). destruct Hret as (? & ? & ? & ?); try done.
Qed.

End Strategy.

Definition scalar_build : Target := Scalar.
#[local] Existing Instance scalar_build.

Definition demo_tick (bid ask : Z) : StratInput := InTob (mkShmTob 1 0 0 0 7 bid 50 ask 50 0) 1000.
Definition demo_fill (id qty : Z) : StratInput := InFill (mkShmFill (type_code OrderFill) 0 0 0 id 7 90 qty 0).

Lemma strategy_quotes_disciplined_witness :
  exists ds s, run (strat_run [demo_tick 99 101; demo_tick 199 201; demo_fill 3 10; demo_tick 199 201]) (new_strategy default_strategy) = (Ret ds, s) /\
  position_ s = 10 /\ exists w,
    quote_run default_strategy (mkQuotes None None 0 1 1)
      (concat (zip_with seen [demo_tick 99 101; demo_tick 199 201; demo_fill 3 10; demo_tick 199 201] ds)) = Some w /\ w_pos w = 10.
Proof.
  pose proof (strategy_quotes_disciplined default_strategy [demo_tick 99 101; demo_tick 199 201; demo_fill 3 10; demo_tick 199 201]) as H.
  destruct (run _ _) as [r s] eqn:E in H. assert (exists ds, r = Ret ds) as [ds ->] by (vm_compute in E; injection E as <- _; eexists; reflexivity).
  assert (position_ s = 10) as Hp by (vm_compute in E; injection E as _ <-; reflexivity).
  destruct H as (w & Hq & _ & _ & Hw); [repeat constructor; discriminate|vm_compute; reflexivity|].
  exists ds, s. split; [exact E|]. split; [exact Hp|]. exists w. split; [exact Hq|]. congruence.
Defined.

(** ** What the discipline does not cover *)

(** A partial fill makes the strategy forget the rest of the order: the next
    tick posts a second bid and never cancels the first. *)
Theorem partial_fill_forgets_order :
  exists d1 d2 o1 o2 s,
    run (strat_run [demo_tick 99 101; demo_fill 1 4; demo_tick 99 101]) (new_strategy default_strategy) = (Ret [d1; no_decision; d2], s) /\
    new_bid d1 = Some o1 /\ sn_cl_id o1 = 1 /\ 4 < sn_qty o1 /\
    new_bid d2 = Some o2 /\ sn_cl_id o2 <> 1 /\ cancel_bid d2 = None.
Proof. do 5 eexists. split; [vm_compute; reflexivity|]. split_and!; (reflexivity || (vm_compute; congruence)). Qed.

(** A fill that crosses its cancel on the wire leaves the position unchanged. *)
Theorem late_fill_not_counted :
  exists ds s, run (strat_run [demo_tick 99 101; demo_tick 199 201; demo_fill 1 10]) (new_strategy default_strategy) = (Ret ds, s) /\
    position_ s = 0.
Proof. do 2 eexists. split; vm_compute; reflexivity. Qed.

(** A side without a working order has the identifier 0, and a fill that names no
    order is booked on it. *)
Theorem unnamed_fill_moves_position :
  exists ds s, run (strat_run [demo_fill 0 10]) (new_strategy default_strategy) = (Ret ds, s) /\ position_ s = 10.
Proof. do 2 eexists. split; vm_compute; reflexivity. Qed.

(** The position limit ignores the size of the order it admits. *)
Theorem limit_overshoots :
  exists ds s, run (strat_run [demo_tick 99 101; demo_fill 1 10]) (new_strategy (mkStrategyConfig 10 1 10 0)) = (Ret ds, s) /\
    max_position (config_ s) < position_ s.
Proof. do 2 eexists. split; vm_compute; reflexivity. Qed.
