(* ===== verification/Decomp.v ===== *)
(** * The one-way decomposition probe ([bench/probes/one_way_decomp_probe.cpp])

    Two threads and two rings: the client sends an order and waits for its
    acknowledgement, the engine stamps each order on the way in and on the way
    out, and the main thread stops the engine once the client has joined.  A step
    is one turn of a thread up to its next access to what the threads share,
    with the clock reading it takes; a thread that finds its ring full or empty
    spins in place. *)

From Stdlib Require Import ZArith Ascii String List Lia.
From stdpp Require Import base tactics list option strings.
From S2P Require Import Prelude Rounds Utf8 Bytes TelemetryRing ShmRing ShmClient SimdPricing PricingProps Percentile Clock StrategyNative.

Definition kWarmup : nat := 1000.
Definition kRing : Z := 4096.

(** Where the threads are in their loops. *)
Inductive ClientAt :=
| CWarm (i : nat)              (* top of the warm-up loop *)
| CWarmWait (i : nat)
| CRun (i : nat)               (* top of the benchmark loop *)
| CPush (i : nat) (t0 : Z)
| CWait (i : nat) (t0 : Z)
| CAcked (i : nat) (t0 : Z)    (* before the reading of t3 *)
| CDone.
Inductive EngineAt :=
| EPoll                        (* top of the loop *)
| EPopped                      (* before the reading of e1 *)
| EStamped                     (* before the reading of e2 *)
| ESend
| EStopped.

Record Decomp := mkDecomp {
  oe : Segment;
  rep : Segment;
  running : bool;
  client : ClientAt;
  order : ShmNewOrder;
  ack : ShmSlot;
  engine : EngineAt;
  in_order : ShmSlot;
  out_ack : ShmOrderAck;
  leg1_ingress : list Z;
  leg2_engine : list Z;
  leg3_egress : list Z;
  total_rtt : list Z;
}.

Definition set_oe (g : Segment) (s : Decomp) : Decomp :=
  mkDecomp g (rep s) (running s) (client s) (order s) (ack s) (engine s) (in_order s) (out_ack s) (leg1_ingress s)
    (leg2_engine s) (leg3_egress s) (total_rtt s).
Definition set_rep (g : Segment) (s : Decomp) : Decomp :=
  mkDecomp (oe s) g (running s) (client s) (order s) (ack s) (engine s) (in_order s) (out_ack s) (leg1_ingress s)
    (leg2_engine s) (leg3_egress s) (total_rtt s).
Definition set_running (b : bool) (s : Decomp) : Decomp :=
  mkDecomp (oe s) (rep s) b (client s) (order s) (ack s) (engine s) (in_order s) (out_ack s) (leg1_ingress s)
    (leg2_engine s) (leg3_egress s) (total_rtt s).
Definition go (c : ClientAt) (s : Decomp) : Decomp :=
  mkDecomp (oe s) (rep s) (running s) c (order s) (ack s) (engine s) (in_order s) (out_ack s) (leg1_ingress s)
    (leg2_engine s) (leg3_egress s) (total_rtt s).
Definition set_order (m : ShmNewOrder) (s : Decomp) : Decomp :=
  mkDecomp (oe s) (rep s) (running s) (client s) m (ack s) (engine s) (in_order s) (out_ack s) (leg1_ingress s)
    (leg2_engine s) (leg3_egress s) (total_rtt s).
Definition set_ack (slot : ShmSlot) (s : Decomp) : Decomp :=
  mkDecomp (oe s) (rep s) (running s) (client s) (order s) slot (engine s) (in_order s) (out_ack s) (leg1_ingress s)
    (leg2_engine s) (leg3_egress s) (total_rtt s).
Definition set_engine (e : EngineAt) (s : Decomp) : Decomp :=
  mkDecomp (oe s) (rep s) (running s) (client s) (order s) (ack s) e (in_order s) (out_ack s) (leg1_ingress s)
    (leg2_engine s) (leg3_egress s) (total_rtt s).
Definition set_in_order (slot : ShmSlot) (s : Decomp) : Decomp :=
  mkDecomp (oe s) (rep s) (running s) (client s) (order s) (ack s) (engine s) slot (out_ack s) (leg1_ingress s)
    (leg2_engine s) (leg3_egress s) (total_rtt s).
Definition set_out_ack (m : ShmOrderAck) (s : Decomp) : Decomp :=
  mkDecomp (oe s) (rep s) (running s) (client s) (order s) (ack s) (engine s) (in_order s) m (leg1_ingress s)
    (leg2_engine s) (leg3_egress s) (total_rtt s).
Definition push_legs (l1 l2 l3 rtt : Z) (s : Decomp) : Decomp :=
  mkDecomp (oe s) (rep s) (running s) (client s) (order s) (ack s) (engine s) (in_order s) (out_ack s)
    (leg1_ingress s ++ [l1]) (leg2_engine s ++ [l2]) (leg3_egress s ++ [l3]) (total_rtt s ++ [rtt]).

(** Assigning an unsigned 64-bit value to a signed one, and the signed
    subtraction, undefined when it overflows. *)
Definition to_i64 (z : Z) : Z := let n := u64 z in if n <? two63 then n else n - two64.
Definition minus (x y : Z) : M Decomp Z := if bool_decide (is_i64 (x - y)) then mret (x - y) else ub.

(** ** The client *)

(** The fields of the order the loops set. *)
Definition numbered (n ts : Z) (m : ShmNewOrder) : ShmNewOrder :=
  mkShmNew (sn_tag m) (sn_side m) (sn_post_only m) (u32 n) (sn_epoch m) (sn_md_seq m) (u64 n) (sn_px m) (sn_qty m) ts
    (sn_reserved m).
Definition number_order (n ts : Z) : M Decomp unit := s ← get; modify (set_order (numbered n ts (order s))).

Definition push_order : M Decomp bool :=
  s ← get; within oe set_oe (try_push (slot_bytes (MsgNew (order s))) false).

Definition pop_ack : M Decomp bool :=
  slot ← within rep set_rep try_pop;
  match slot with Some x => modify (set_ack x);; mret true | None => mret false end.

(** [e1] is unsigned, and so are the differences it takes part in. *)
Definition record_legs (t0 t3 : Z) : M Decomp unit :=
  s ← get;
  let e1 := sa_svc_ns (as_ack (ack s)) in
  let e2 := sa_engine_ts_ns (as_ack (ack s)) in
  let l1 := to_i64 (e1 - t0) in
  let l2 := to_i64 (e2 - e1) in
  l3 ← minus t3 e2;
  rtt ← minus t3 t0;
  modify (push_legs l1 l2 l3 rtt).

Definition client_step (iterations : nat) (now : Z) : M Decomp unit :=
  s ← get;
  match client s with
  | CWarm i =>
      if (i <? kWarmup)%nat then
        number_order (Z.of_nat i + 1) now;;
        pushed ← push_order;   (* the verdict is not looked at *)
        modify (go (CWarmWait i))
      else modify (go (CRun 0))
  | CWarmWait i => got ← pop_ack; if got : bool then modify (go (CWarm (S i))) else mret tt
  | CRun i =>
      if (i <? iterations)%nat then
        number_order (Z.of_nat i + 2000) now;;
        modify (go (CPush i now))
      else modify (go CDone)
  | CPush i t0 => pushed ← push_order; if pushed : bool then modify (go (CWait i t0)) else mret tt
  | CWait i t0 => got ← pop_ack; if got : bool then modify (go (CAcked i t0)) else mret tt
  | CAcked i t0 => record_legs t0 now;; modify (go (CRun (S i)))
  | CDone => mret tt
  end.

(** ** The engine and the main thread *)

(** The fields of the acknowledgement the loop sets. *)
Definition answer (m : ShmNewOrder) (e1 : Z) (a : ShmOrderAck) : ShmOrderAck :=
  mkShmAck (sa_tag a) (sa_pad a) (sn_seq m) (sa_epoch a) (sn_cl_id m) (u64 e1) (sa_engine_ts_ns a) (sa_reserved a).
Definition sign_out (e2 : Z) (a : ShmOrderAck) : ShmOrderAck :=
  mkShmAck (sa_tag a) (sa_pad a) (sa_seq a) (sa_epoch a) (sa_cl_id a) (sa_svc_ns a) e2 (sa_reserved a).

Definition engine_step (now : Z) : M Decomp unit :=
  s ← get;
  match engine s with
  | EPoll =>
      if running s then
        slot ← within oe set_oe try_pop;
        match slot with Some x => modify (set_in_order x);; modify (set_engine EPopped) | None => mret tt end
      else modify (set_engine EStopped)
  | EPopped =>
      modify (set_out_ack (answer (as_new_order (in_order s)) now (out_ack s)));;
      modify (set_engine EStamped)
  | EStamped =>
      modify (set_out_ack (sign_out now (out_ack s)));;
      modify (set_engine ESend)
  | ESend =>
      pushed ← within rep set_rep (try_push (slot_bytes (MsgAck (out_ack s))) false);
      if pushed : bool then modify (set_engine EPoll) else mret tt
  | EStopped => mret tt
  end.

(** The main thread joins the client before it clears [running]. *)
Definition main_step : M Decomp unit :=
  s ← get;
  match client s with CDone => modify (set_running false) | _ => mret tt end.

Inductive Thread := ClientThread | EngineThread | MainThread.
#[export] Instance Thread_eq_dec : EqDecision Thread. Proof. solve_decision. Defined.

Definition decomp_step (iterations : nat) (turn : Thread * Z) : M Decomp unit :=
  match turn.1 with
  | ClientThread => client_step iterations turn.2
  | EngineThread => engine_step turn.2
  | MainThread => main_step
  end.

Definition decomp_run (iterations : nat) : list (Thread * Z) -> M Decomp unit := run_turns (decomp_step iterations).

(** The slots before the loops: the members the code does not set hold anything. *)
Definition start (oe_ring rep_ring : Segment) (order0 : ShmNewOrder) (ack0 : ShmOrderAck) : Decomp :=
  let m := order0 in
  mkDecomp oe_ring rep_ring true (CWarm 0)
    (mkShmNew (type_code NewOrder) 1 (sn_post_only m) (sn_seq m) (sn_epoch m) (sn_md_seq m) (sn_cl_id m) 500000 10
       (sn_send_ts_ns m) (sn_reserved m))
    zero_slot EPoll zero_slot
    (mkShmAck (type_code OrderAck) (sa_pad ack0) (sa_seq ack0) (sa_epoch ack0) (sa_cl_id ack0) (sa_svc_ns ack0)
       (sa_engine_ts_ns ack0) (sa_reserved ack0))
    [] [] [] [].

(** What [main] prints once the threads have joined. *)
Definition print_legs (s : Decomp) : outcome (list (list Z)) :=
  a ← print_leg (leg1_ingress s);
  b ← print_leg (leg2_engine s);
  c ← print_leg (leg3_egress s);
  d ← print_leg (total_rtt s);
  mret [a; b; c; d].

(** ** The invariant: one message in flight *)

(** Where the message of the current turn of the client is. *)
Inductive Leg := Home | Sent | Taken | Timed (e1 : Z) | Answered (e1 e2 : Z) | Back (e1 e2 : Z).
#[export] Instance Leg_eq_dec : EqDecision Leg. Proof. solve_decision. Defined.

(** The answer names the order, with the engine's stamps. *)
Definition answers (a : ShmOrderAck) (m : ShmNewOrder) : Prop := sa_cl_id a = sn_cl_id m /\ sa_seq a = sn_seq m.
Definition stamped (a : ShmOrderAck) (e1 e2 t0 now : Z) : Prop :=
  sa_svc_ns a = e1 /\ sa_engine_ts_ns a = e2 /\ t0 <= e1 /\ e1 <= e2 /\ e2 <= now.

Definition carried (l : Leg) (t0 now : Z) (s : Decomp) (qo qr : list ShmSlot) : Prop :=
  match l with
  | Home => qo = [] /\ qr = [] /\ (engine s = EPoll \/ engine s = EStopped /\ running s = false)
  | Sent => qo = [slot_bytes (MsgNew (order s))] /\ qr = [] /\ engine s = EPoll
  | Taken => qo = [] /\ qr = [] /\ engine s = EPopped /\ in_order s = slot_bytes (MsgNew (order s))
  | Timed e1 => qo = [] /\ qr = [] /\ engine s = EStamped /\ answers (out_ack s) (order s) /\
      sa_svc_ns (out_ack s) = e1 /\ t0 <= e1 <= now
  | Answered e1 e2 => qo = [] /\ qr = [] /\ engine s = ESend /\ answers (out_ack s) (order s) /\ stamped (out_ack s) e1 e2 t0 now
  | Back e1 e2 => qo = [] /\ qr = [slot_bytes (MsgAck (out_ack s))] /\ engine s = EPoll /\ answers (out_ack s) (order s) /\
      stamped (out_ack s) e1 e2 t0 now
  end.

Definition sent_at (c : ClientAt) : Z := match c with CPush _ t0 | CWait _ t0 | CAcked _ t0 => t0 | _ => 0 end.
Definition waits (c : ClientAt) : bool := match c with CWarmWait _ | CWait _ _ => true | _ => false end.

(** The number of samples taken, and the bound of the loop's counter. *)
Definition taken (iterations : nat) (c : ClientAt) : nat :=
  match c with CWarm _ | CWarmWait _ => 0 | CRun i | CPush i _ | CWait i _ | CAcked i _ => i | CDone => iterations end.
Definition counted (iterations : nat) (c : ClientAt) : Prop :=
  match c with
  | CWarm i => (i <= kWarmup)%nat
  | CWarmWait i => (i < kWarmup)%nat
  | CRun i => (i <= iterations)%nat
  | CPush i _ | CWait i _ | CAcked i _ => (i < iterations)%nat
  | CDone => True
  end.

(** The samples are the legs of readings taken in turn, one round trip after the
    other. *)
Record sampled (now : Z) (ds : list OneWayDecomposition) (s : Decomp) : Prop := {
  sm_turn : Forall in_turn ds;
  sm_apart : forall i d d', ds !! i = Some d -> ds !! S i = Some d' -> t3_client_ack_ns d <= t0_client_send_ns d';
  sm_last : forall d, last ds = Some d -> t3_client_ack_ns d <= now;
  sm_leg1 : Forall2 (fun d l => leg1_ingress_wire_ns d = Ret l) ds (leg1_ingress s);
  sm_leg2 : Forall2 (fun d l => leg2_engine_service_ns d = Ret l) ds (leg2_engine s);
  sm_leg3 : Forall2 (fun d l => leg3_egress_wire_ns d = Ret l) ds (leg3_egress s);
  sm_total : Forall2 (fun d l => total_rtt_ns d = Ret l) ds (total_rtt s);
}.

(** The reading before which the last round trip ended. *)
Definition since (now : Z) (c : ClientAt) : Z := match c with CPush _ t0 | CWait _ t0 | CAcked _ t0 => t0 | _ => now end.

Section Invariant.
Context (cap : nat) (Hcap : (1 <= cap)%nat) (iterations : nat).

Record decomp_inv (now : Z) (l : Leg) (s : Decomp) : Prop := {
  di_now : 0 <= now < two63;
  di_rings : exists ho qo no hr qr nr, holds cap ho qo no (oe s) /\ holds cap hr qr nr (rep s) /\
    carried l (sent_at (client s)) now s qo qr;
  di_home : l = Home <-> waits (client s) = false;
  di_sent : 0 <= sent_at (client s) <= now;
  di_running : running s = false -> client s = CDone;
  di_count : counted iterations (client s);
  di_order : fits (MsgNew (order s));
  di_ack : fits (MsgAck (out_ack s));
  di_acked : forall i t0, client s = CAcked i t0 -> exists a e1 e2, ack s = slot_bytes (MsgAck a) /\ fits (MsgAck a) /\
    answers a (order s) /\ stamped a e1 e2 t0 now;
  di_samples : exists ds, sampled (since now (client s)) ds s /\ length ds = taken iterations (client s);
}.

(** *** Turns left: ten for a round trip, fewer as its message advances *)

Definition advance (l : Leg) : nat :=
  match l with Home => 0 | Sent => 1 | Taken => 2 | Timed _ => 3 | Answered _ _ => 4 | Back _ _ => 5 end.
Definition turns_left (l : Leg) (c : ClientAt) : nat :=
  match c with
  | CWarm i => 9 * (kWarmup - i) + 9 * iterations + 2
  | CWarmWait i => 9 * (kWarmup - i) + 9 * iterations + 2 - advance l
  | CRun i => 9 * (iterations - i) + 1
  | CPush i _ => 9 * (iterations - i)
  | CWait i _ => 9 * (iterations - i) - advance l
  | CAcked i _ => 9 * (iterations - i) - 7
  | CDone => 0
  end.

(** Whose turn moves the system on. *)
Definition mover (l : Leg) (c : ClientAt) : Thread :=
  match l with Home | Back _ _ => ClientThread | _ => EngineThread end.

(** A later reading spoils nothing. *)
Lemma inv_later now now' l s : decomp_inv now l s -> now <= now' < two63 -> decomp_inv now' l s.
Proof.
  intros I Hle. destruct I. constructor; try done; try lia.
  - destruct di_rings0 as (ho & qo & no & hr & qr & nr & Ho & Hr & Hc). exists ho, qo, no, hr, qr, nr.
    split; [done|split; [done|]]. destruct l; cbn [carried] in *; unfold stamped in *; naive_solver lia.
  - intros i t0 E. destruct (di_acked0 i t0 E) as (a & e1 & e2 & ? & ? & ? & Hs). exists a, e1, e2. unfold stamped in *. naive_solver lia.
  - destruct di_samples0 as (ds & Hs & Hl). exists ds. split; [|done]. destruct Hs. constructor; try done.
    intros d Hd. specialize (sm_last0 d Hd). destruct (client s); cbn [since] in *; lia.
Qed.
Lemma fits_numbered n ts m : fits (MsgNew m) -> is_i64 ts -> fits (MsgNew (numbered n ts m)).
Proof.
  unfold fits. destruct m. cbn. rewrite !Forall2_cons. intros H Hts.
  assert (in_width (U 4) (u32 n)) by (cbn; apply Z.mod_pos_bound; lia).
  assert (in_width (U 8) (u64 n)) by (cbn; apply Z.mod_pos_bound; done). naive_solver.
Qed.

(** *** The client's turns *)

(** A computation on one ring, from the outside. *)
Lemma push_order_ok s o ho no : holds cap ho [] no (oe s) ->
  exists g, push_order s o = (Ret true, set_oe g s, o) /\ holds cap ho [slot_bytes (MsgNew (order s))] no g.
Proof.
  intros Hr. destruct (push_room Hr (slot_bytes (MsgNew (order s))) false o ltac:(cbn; lia)) as (g & E & Hg).
  exists g. split; [|exact Hg]. unfold push_order, mbind, M_bind, get. by apply within_ret.
Qed.

Lemma pop_ack_ok s o hr slot nr : holds cap hr [slot] nr (rep s) ->
  exists g, pop_ack s o = (Ret true, set_ack slot (set_rep g s), o) /\ holds cap (hr + 1) [] nr g.
Proof.
  intros Hr. destruct (pop_first _ _ _ _ _ _ o Hr) as (g & E & Hg). exists g. split; [|exact Hg].
  unfold pop_ack, mbind, M_bind. by rewrite (within_ret _ _ _ _ _ _ _ E).
Qed.

Lemma pop_ack_none s o hr nr : holds cap hr [] nr (rep s) -> pop_ack s o = (Ret false, s, o).
Proof.
  intros Hr. unfold pop_ack, mbind, M_bind. rewrite (within_ret _ _ _ _ _ _ _ (pop_none Hr o eq_refl)). cbn. by destruct s.
Qed.

(** At home the rings are empty and, while the client runs, the engine polls. *)
Lemma at_home now s : decomp_inv now Home s -> client s <> CDone ->
  exists ho no hr nr, holds cap ho [] no (oe s) /\ holds cap hr [] nr (rep s) /\ engine s = EPoll.
Proof.
  intros I Hc. destruct (di_rings _ _ _ I) as (ho & qo & no & hr & qr & nr & Ho & Hr & -> & -> & He).
  exists ho, no, hr, nr. split; [done|split; [done|]]. destruct He as [|[_ Hf]]; [done|]. by apply (di_running _ _ _ I) in Hf.
Qed.

(** What a turn that takes no sample leaves to check. *)
Lemma sampled_keep n n' ds s s' :
  sampled n ds s -> n <= n' -> leg1_ingress s' = leg1_ingress s -> leg2_engine s' = leg2_engine s ->
  leg3_egress s' = leg3_egress s -> total_rtt s' = total_rtt s -> sampled n' ds s'.
Proof. intros [] Hn E1 E2 E3 E4. constructor; rewrite ?E1, ?E2, ?E3, ?E4; try done. intros d Hd. specialize (sm_last0 d Hd). lia. Qed.

Ltac keep_samples :=
  match goal with H : exists ds, sampled _ ds _ /\ _ |- _ =>
    let ds := fresh "ds" in let Hs := fresh in let Hl := fresh in
    destruct H as (ds & Hs & Hl); exists ds; split; [eapply sampled_keep; [exact Hs|cbn; lia|done..]|cbn; lia] end.
Ltac fields :=
  constructor; cbn in *; try done; try lia;
  try (by let Hf := fresh in intros Hf; match goal with H : running _ = false -> _ |- _ => specialize (H Hf) end);
  try (by apply fits_numbered; [|unfold is_i64, two63 in *; lia]); try keep_samples;
  try (match goal with H : _ = Home <-> _ |- _ = Home <-> _ =>
         split; [done|let E := fresh in intros E; apply H in E; done] end).
Ltac turn_fields E := match goal with I : decomp_inv _ _ _ |- _ => destruct I end; rewrite E in *; fields.

Lemma warm_push now s i o :
  decomp_inv now Home s -> client s = CWarm i -> (i < kWarmup)%nat ->
  exists s', client_step iterations now s o = (Ret tt, s', o) /\ decomp_inv now Sent s' /\ client s' = CWarmWait i.
Proof.
  intros I Ec Hi. destruct (at_home _ _ I ltac:(congruence)) as (ho & no & hr & nr & Ho & Hr & He).
  unfold client_step, mbind, M_bind, get. rewrite Ec, (proj2 (Nat.ltb_lt _ _) Hi).
  change (number_order (Z.of_nat i + 1) now s o) with (Ret tt, set_order (numbered (Z.of_nat i + 1) now (order s)) s, o). cbv iota beta.
  set (s1 := set_order _ s). destruct (push_order_ok s1 o ho no Ho) as (g & -> & Hg). eexists. split; [reflexivity|]. split; [|done].
  turn_fields Ec. by exists ho, [slot_bytes (MsgNew (order s1))], no, hr, [], nr.
Qed.

Lemma run_push now s i t0 o :
  decomp_inv now Home s -> client s = CPush i t0 ->
  exists s', client_step iterations now s o = (Ret tt, s', o) /\ decomp_inv now Sent s' /\ client s' = CWait i t0.
Proof.
  intros I Ec. destruct (at_home _ _ I ltac:(congruence)) as (ho & no & hr & nr & Ho & Hr & He).
  unfold client_step, mbind, M_bind, get. rewrite Ec.
  destruct (push_order_ok s o ho no Ho) as (g & -> & Hg). eexists. split; [reflexivity|]. split; [|done].
  turn_fields Ec. by exists ho, [slot_bytes (MsgNew (order s))], no, hr, [], nr.
Qed.

(** Turns that touch no ring. *)
Lemma client_local now s o c :
  decomp_inv now Home s -> client s = c -> (match c with CWarm i => i = kWarmup | CRun _ => True | _ => False end) ->
  exists s', client_step iterations now s o = (Ret tt, s', o) /\ decomp_inv now Home s' /\
    client s' = match c with CWarm _ => CRun 0 | CRun i => if (i <? iterations)%nat then CPush i now else CDone | _ => CDone end.
Proof.
  intros I Ec Hc. destruct (at_home _ _ I ltac:(by intros E; rewrite <- Ec, E in Hc)) as (ho & no & hr & nr & Ho & Hr & He).
  unfold client_step, mbind, M_bind, get. rewrite Ec. destruct c as [i| |i| | | |]; try done.
  - subst i. rewrite Nat.ltb_irrefl. eexists. split; [reflexivity|]. split; [|done].
    turn_fields Ec.
  - destruct (Nat.ltb_spec i iterations) as [Hi|Hi]; (eexists; split; [reflexivity|]; split; [|done]).
    + turn_fields Ec.
    + turn_fields Ec.
Qed.

Lemma receive now s e1 e2 o :
  decomp_inv now (Back e1 e2) s -> waits (client s) = true ->
  exists s', client_step iterations now s o = (Ret tt, s', o) /\ decomp_inv now Home s' /\
    client s' = match client s with CWarmWait i => CWarm (S i) | CWait i t0 => CAcked i t0 | c => c end.
Proof.
  intros I Hw. destruct (di_rings _ _ _ I) as (ho & qo & no & hr & qr & nr & Ho & Hr & -> & -> & He & Ha & Hs).
  destruct (pop_ack_ok s o hr _ nr Hr) as (g & Eg & Hg). unfold client_step, mbind, M_bind, get.
  destruct (client s) as [|i| | |i t0| |] eqn:Ec; try done; rewrite Eg; (eexists; split; [reflexivity|]; split; [|done]).
  - turn_fields Ec. exists ho, [], no, (hr + 1), [], nr. auto 10.
  - turn_fields Ec.
    + exists ho, [], no, (hr + 1), [], nr. auto 10.
    + intros j t [= <- <-]. by exists (out_ack s), e1, e2.
Qed.

Lemma spin now l s o :
  decomp_inv now l s -> waits (client s) = true -> mover l (client s) = EngineThread ->
  client_step iterations now s o = (Ret tt, s, o).
Proof.
  intros I Hw Hm. destruct (di_rings _ _ _ I) as (ho & qo & no & hr & qr & nr & Ho & Hr & Hc).
  assert (qr = []) as -> by (destruct l; cbn in *; naive_solver). pose proof (pop_ack_none s o hr nr Hr) as Hp.
  unfold client_step, mbind, M_bind, get. destruct (client s); try done; by rewrite Hp.
Qed.

Lemma to_i64_small z : 0 <= z < two63 -> to_i64 z = z.
Proof. intros Hz. unfold to_i64, u64. rewrite Z.mod_small by (unfold two63, two64 in *; lia). by rewrite (proj2 (Z.ltb_lt _ _)) by lia. Qed.

Lemma last_snoc_turn (ds : list OneWayDecomposition) d i x y :
  (forall i x y, ds !! i = Some x -> ds !! S i = Some y -> t3_client_ack_ns x <= t0_client_send_ns y) ->
  (forall x, last ds = Some x -> t3_client_ack_ns x <= t0_client_send_ns d) ->
  (ds ++ [d]) !! i = Some x -> (ds ++ [d]) !! S i = Some y -> t3_client_ack_ns x <= t0_client_send_ns y.
Proof.
  intros Hin Hl Hx Hy. destruct (Nat.lt_ge_cases (S i) (length ds)) as [Hlt|Hge].
  - rewrite lookup_app_l in Hx, Hy by lia. by apply (Hin i).
  - pose proof (lookup_lt_Some _ _ _ Hy) as Hb. rewrite length_app in Hb. cbn in Hb.
    rewrite lookup_app_r in Hy by lia. replace (S i - length ds)%nat with 0%nat in Hy by lia. injection Hy as <-.
    rewrite lookup_app_l in Hx by lia. apply Hl. rewrite last_lookup. replace (pred (length ds)) with i by lia. done.
Qed.

Lemma leg_snoc (f : OneWayDecomposition -> outcome Z) ds ls d l :
  Forall2 (fun d l => f d = Ret l) ds ls -> f d = Ret l -> Forall2 (fun d l => f d = Ret l) (ds ++ [d]) (ls ++ [l]).
Proof. intros Hf Hl. apply Forall2_app; [done|]. by repeat constructor. Qed.

Lemma sampled_snoc n ds t0 e1 e2 t3 s :
  sampled n ds s -> n <= t0 -> in_turn (mkLegs t0 e1 e2 t3) ->
  sampled t3 (ds ++ [mkLegs t0 e1 e2 t3]) (push_legs (e1 - t0) (e2 - e1) (t3 - e2) (t3 - t0) s).
Proof.
  intros [] Hn Hd. destruct Hd as [? ? ? ?] eqn:Ed; clear Ed. cbn in *.
  constructor; cbn; [| | |apply leg_snoc; [done|]; apply signed_ok; unfold is_i64, two63 in *; cbn; lia..].
  - apply Forall_app_2; [done|]. by apply Forall_singleton.
  - intros i x y. apply last_snoc_turn; [done|]. intros z Hz. specialize (sm_last0 z Hz). cbn. lia.
  - intros x. rewrite last_snoc. by intros [= <-].
Qed.

Lemma take_sample now s i t0 o :
  decomp_inv now Home s -> client s = CAcked i t0 ->
  exists s', client_step iterations now s o = (Ret tt, s', o) /\ decomp_inv now Home s' /\ client s' = CRun (S i).
Proof.
  intros I Ec. destruct (at_home _ _ I ltac:(congruence)) as (ho & no & hr & nr & Ho & Hr & He).
  destruct (di_acked _ _ _ I i t0 Ec) as (a & e1 & e2 & Ea & Hf & _ & E1 & E2 & H01 & H12 & H23).
  pose proof (di_sent _ _ _ I) as H0. pose proof (di_now _ _ _ I) as Hn. rewrite Ec in H0. cbn in H0.
  unfold client_step, record_legs, minus, mbind, M_bind, get. rewrite Ec, Ea, (as_ack_slot a Hf), E1, E2.
  rewrite !bool_decide_eq_true_2 by (unfold is_i64, two63 in *; lia). rewrite !to_i64_small by (unfold two63 in *; lia). cbn.
  eexists. split; [reflexivity|]. split; [|done]. destruct (di_samples _ _ _ I) as (ds & Hs & Hl). rewrite Ec in Hs, Hl. cbn in Hs, Hl.
  turn_fields Ec. exists (ds ++ [mkLegs t0 e1 e2 now]). split; [|rewrite length_app; cbn; lia].
  assert (in_turn (mkLegs t0 e1 e2 now)) as Hd by (constructor; cbn; lia).
  pose proof (sampled_snoc t0 ds t0 e1 e2 now s Hs ltac:(lia) Hd) as Hs'. by eapply sampled_keep; [exact Hs'|lia|..].
Qed.

(** *** The engine's turns *)

Lemma engine_pops now s o :
  decomp_inv now Sent s ->
  exists s', engine_step now s o = (Ret tt, s', o) /\ decomp_inv now Taken s' /\ client s' = client s.
Proof.
  intros I. destruct (di_rings _ _ _ I) as (ho & qo & no & hr & qr & nr & Ho & Hr & -> & -> & He).
  destruct (pop_first _ _ _ _ _ _ o Ho) as (g & E & Hg). unfold engine_step, mbind, M_bind, get. rewrite He.
  assert (running s = true) as -> .
  { destruct (running s) eqn:Er; [done|]. pose proof (di_running _ _ _ I Er) as Ec. pose proof (di_home _ _ _ I) as Hh.
    rewrite Ec in Hh. cbn in Hh. destruct Hh as [_ Hh]. by specialize (Hh eq_refl). }
  rewrite (within_ret _ _ _ _ _ _ _ E). eexists. split; [reflexivity|]. split; [|done].
  destruct I. fields. by exists (ho + 1), [], no, hr, [], nr.
Qed.

Lemma fits_answer m e1 a : fits (MsgNew m) -> fits (MsgAck a) -> fits (MsgAck (answer m e1 a)).
Proof.
  unfold fits. destruct m, a. cbn. rewrite !Forall2_cons. intros H H'.
  assert (in_width (U 8) (u64 e1)) by (cbn; apply Z.mod_pos_bound; done). naive_solver.
Qed.

Lemma fits_sign_out e2 a : is_i64 e2 -> fits (MsgAck a) -> fits (MsgAck (sign_out e2 a)).
Proof. unfold fits. destruct a. cbn. rewrite !Forall2_cons. naive_solver. Qed.

Lemma engine_stamps_in now s o :
  decomp_inv now Taken s ->
  exists s', engine_step now s o = (Ret tt, s', o) /\ decomp_inv now (Timed now) s' /\ client s' = client s.
Proof.
  intros I. destruct (di_rings _ _ _ I) as (ho & qo & no & hr & qr & nr & Ho & Hr & -> & -> & He & Hi).
  pose proof (di_sent _ _ _ I) as H0. pose proof (di_now _ _ _ I) as Hn.
  unfold engine_step, mbind, M_bind, get. rewrite He, Hi, (as_new_order_slot _ (di_order _ _ _ I)).
  eexists. split; [reflexivity|]. split; [|done]. destruct I. fields; [|by apply fits_answer].
  exists ho, [], no, hr, [], nr. split_and!; try done; try lia. cbn. apply Z.mod_small. unfold two63, two64 in *. lia.
Qed.

Lemma engine_stamps_out now s e1 o :
  decomp_inv now (Timed e1) s ->
  exists s', engine_step now s o = (Ret tt, s', o) /\ decomp_inv now (Answered e1 now) s' /\ client s' = client s.
Proof.
  intros I. destruct (di_rings _ _ _ I) as (ho & qo & no & hr & qr & nr & Ho & Hr & -> & -> & He & Ha & E1 & Hle).
  pose proof (di_now _ _ _ I) as Hn. unfold engine_step, mbind, M_bind, get. rewrite He.
  eexists. split; [reflexivity|]. split; [|done]. destruct I. fields; [|apply fits_sign_out; [unfold is_i64, two63 in *; lia|done]].
  exists ho, [], no, hr, [], nr. unfold stamped. cbn. split_and!; try done; lia.
Qed.

Lemma engine_sends now s e1 e2 o :
  decomp_inv now (Answered e1 e2) s ->
  exists s', engine_step now s o = (Ret tt, s', o) /\ decomp_inv now (Back e1 e2) s' /\ client s' = client s.
Proof.
  intros I. destruct (di_rings _ _ _ I) as (ho & qo & no & hr & qr & nr & Ho & Hr & -> & -> & He & Ha & Hs).
  destruct (push_room Hr (slot_bytes (MsgAck (out_ack s))) false o ltac:(cbn; lia)) as (g & E & Hg).
  unfold engine_step, mbind, M_bind, get. rewrite He, (within_ret _ _ _ _ _ _ _ E).
  eexists. split; [reflexivity|]. split; [|done]. destruct I. fields.
  by exists ho, [], no, hr, [slot_bytes (MsgAck (out_ack s))], nr.
Qed.

(** With nothing to take the engine spins, or stops once it has been told to. *)
Lemma engine_idle now l s o :
  decomp_inv now l s -> mover l (client s) = ClientThread ->
  exists s', engine_step now s o = (Ret tt, s', o) /\ decomp_inv now l s' /\ client s' = client s /\
    (running s = false -> engine s' = EStopped) /\ running s' = running s /\ leg1_ingress s' = leg1_ingress s.
Proof.
  intros I Hm. destruct (di_rings _ _ _ I) as (ho & qo & no & hr & qr & nr & Ho & Hr & Hc).
  assert (qo = [] /\ (engine s = EPoll \/ l = Home /\ engine s = EStopped /\ running s = false)) as [-> He].
  { destruct l; cbn in *; naive_solver. }
  unfold engine_step, mbind, M_bind, get. destruct He as [He|(-> & He & Er)]; rewrite He; [|by exists s].
  destruct (running s) eqn:Er.
  - rewrite (within_ret _ _ _ _ _ _ _ (pop_none Ho o eq_refl)). exists s. split_and!; try done. cbn. by destruct s.
  - pose proof (di_running _ _ _ I Er) as Ec. pose proof (proj2 (di_home _ _ _ I) ltac:(by rewrite Ec)) as ->.
    eexists. split; [reflexivity|]. split; [|done]. destruct I. fields. exists ho, [], no, hr, qr, nr. naive_solver.
Qed.

Lemma main_ok now l s o :
  decomp_inv now l s ->
  exists s', main_step s o = (Ret tt, s', o) /\ decomp_inv now l s' /\ client s' = client s /\
    (client s = CDone -> running s' = false).
Proof.
  intros I. unfold main_step, mbind, M_bind, get. destruct (client s) eqn:Ec; try by exists s.
  pose proof (proj2 (di_home _ _ _ I) ltac:(by rewrite Ec)) as ->. eexists. split; [reflexivity|]. split; [|done].
  destruct (di_rings _ _ _ I) as (ho & qo & no & hr & qr & nr & Ho & Hr & Hqo & Hqr & He).
  destruct I. fields. exists ho, qo, no, hr, qr, nr. cbn in *. naive_solver.
Qed.

(** *** Every turn is defined, and the mover's makes progress *)

Ltac count := cbn [turns_left advance counted] in *; lia.

Lemma client_turn now l s o :
  decomp_inv now l s ->
  exists l' s', client_step iterations now s o = (Ret tt, s', o) /\ decomp_inv now l' s' /\
    (mover l (client s) = ClientThread -> turns_left l' (client s') <= pred (turns_left l (client s)))%nat /\
    (mover l (client s) <> ClientThread -> client s' = client s /\ l' = l).
Proof.
  intros I. pose proof (di_count _ _ _ I) as Hn. pose proof (di_home _ _ _ I) as Hh. destruct (waits (client s)) eqn:Ew.
  - destruct (mover l (client s)) eqn:Em; [|exists l, s; split; [by eapply spin|done]|by destruct l].
    destruct l as [| | | | |e1 e2]; try done; [by destruct Hh as [Hh _]; specialize (Hh eq_refl)|].
    destruct (receive now s e1 e2 o I Ew) as (s' & E & I' & Ec'). exists Home, s'. split_and!; [done..| |done].
    intros _. rewrite Ec'. clear - Hn Ew. destruct (client s); try done; count.
  - destruct Hh as [_ Hh]. specialize (Hh eq_refl). subst l. cbn [mover].
    destruct (client s) as [i| |i|i t0| |i t0|] eqn:Ec; try done.
    + destruct (Nat.lt_ge_cases i kWarmup) as [Hi|Hi].
      * destruct (warm_push now s i o I Ec Hi) as (s' & E & I' & Ec'). exists Sent, s'. split_and!; [done..| |done]. rewrite Ec'. count.
      * destruct (client_local now s o _ I Ec) as (s' & E & I' & Ec'); [count|]. exists Home, s'. split_and!; [done..| |done].
        rewrite Ec'. count.
    + destruct (client_local now s o _ I Ec Logic.I) as (s' & E & I' & Ec'). exists Home, s'. split_and!; [done..| |done].
      rewrite Ec'. destruct (Nat.ltb_spec i iterations); count.
    + destruct (run_push now s i t0 o I Ec) as (s' & E & I' & Ec'). exists Sent, s'. split_and!; [done..| |done]. rewrite Ec'. count.
    + destruct (take_sample now s i t0 o I Ec) as (s' & E & I' & Ec'). exists Home, s'. split_and!; [done..| |done].
      rewrite Ec'. count.
    + exists Home, s. unfold client_step, mbind, M_bind, get. rewrite Ec. by split_and!.
Qed.

Lemma engine_turn now l s o :
  decomp_inv now l s ->
  exists l' s', engine_step now s o = (Ret tt, s', o) /\ decomp_inv now l' s' /\ client s' = client s /\
    (mover l (client s) = EngineThread -> turns_left l' (client s) <= pred (turns_left l (client s)))%nat /\
    (mover l (client s) <> EngineThread -> l' = l).
Proof.
  intros I. pose proof (di_count _ _ _ I) as Hn. pose proof (di_home _ _ _ I) as Hh.
  assert (l <> Home -> waits (client s) = true) as Hw.
  { intros Hne. destruct (waits (client s)) eqn:E; [done|]. destruct Hne. by apply Hh. }
  destruct l as [| | |e1|e1 e2|e1 e2].
  - destruct (engine_idle now _ s o I eq_refl) as (s' & E & I' & Ec & _). by exists Home, s'.
  - destruct (engine_pops now s o I) as (s' & E & I' & Ec). exists Taken, s'. split_and!; try done.
    intros _. specialize (Hw ltac:(done)). clear - Hn Hw. destruct (client s); try done; count.
  - destruct (engine_stamps_in now s o I) as (s' & E & I' & Ec). exists (Timed now), s'. split_and!; try done.
    intros _. specialize (Hw ltac:(done)). clear - Hn Hw. destruct (client s); try done; count.
  - destruct (engine_stamps_out now s e1 o I) as (s' & E & I' & Ec). exists (Answered e1 now), s'. split_and!; try done.
    intros _. specialize (Hw ltac:(done)). clear - Hn Hw. destruct (client s); try done; count.
  - destruct (engine_sends now s e1 e2 o I) as (s' & E & I' & Ec). exists (Back e1 e2), s'. split_and!; try done.
    intros _. specialize (Hw ltac:(done)). clear - Hn Hw. destruct (client s); try done; count.
  - destruct (engine_idle now _ s o I eq_refl) as (s' & E & I' & Ec & _). by exists (Back e1 e2), s'.
Qed.

(** *** Runs *)

Lemma turn_ok now l s t o :
  decomp_inv now l s -> now <= t.2 < two63 ->
  exists l' s', decomp_step iterations t s o = (Ret tt, s', o) /\ decomp_inv t.2 l' s' /\
    (turns_left l' (client s') <= turns_left l (client s))%nat /\
    (t.1 = mover l (client s) -> turns_left l' (client s') <= pred (turns_left l (client s)))%nat /\
    (t.1 <> mover l (client s) -> mover l' (client s') = mover l (client s)).
Proof.
  intros I Ht. pose proof (inv_later _ _ _ _ I Ht) as I'. destruct t as [[] r]; cbn [fst snd decomp_step] in *; unfold decomp_step; cbn [fst snd].
  - destruct (client_turn r l s o I') as (l' & s' & E & I2 & Hm & Ho). exists l', s'. split; [done|split; [done|]].
    destruct (decide (mover l (client s) = ClientThread)) as [Ed|Ed].
    + specialize (Hm Ed). split_and!; [lia|done|]. intros Hne. by rewrite Ed in Hne.
    + destruct (Ho Ed) as [-> ->]. split_and!; [done|by intros Em; rewrite <- Em in Ed|done].
  - destruct (engine_turn r l s o I') as (l' & s' & E & I2 & Ec & Hm & Ho). exists l', s'. rewrite Ec. split; [done|split; [done|]].
    destruct (decide (mover l (client s) = EngineThread)) as [Ed|Ed].
    + specialize (Hm Ed). split_and!; [lia|done|]. intros Hne. by rewrite Ed in Hne.
    + rewrite (Ho Ed). split_and!; [done|by intros Em; rewrite <- Em in Ed|done].
  - destruct (main_ok r l s o I') as (s' & E & I2 & Ec & _). exists l, s'. rewrite Ec.
    split_and!; [done|done|done|by destruct l|done].
Qed.

(** A round: both threads get a turn. *)
Definition fair_round : list (Thread * Z) -> Prop := fair [ClientThread; EngineThread].

Lemma left_none l s now : decomp_inv now l s -> turns_left l (client s) = 0%nat -> client s = CDone.
Proof.
  intros I Hl. pose proof (di_count _ _ _ I) as Hn. clear - Hl Hn. assert (advance l <= 5)%nat by (destruct l; cbn; lia).
  destruct (client s); try done; count.
Qed.
End Invariant.

Lemma mover_plays l (s : Decomp) : mover l (client s) ∈ [ClientThread; EngineThread].
Proof. destruct l; set_solver. Qed.

(** ** The probe *)

Section Probe.
Context `{Shm} (oe_name rep_name : string) (oe_ring rep_ring : Segment) (order0 : ShmNewOrder) (ack0 : ShmOrderAck).
Context (Hoe : create oe_name kRing = Ret oe_ring) (Hrep : create rep_name kRing = Ret rep_ring).
Context (Horder : fits (MsgNew order0)) (Hack : fits (MsgAck ack0)).

Definition ring_cap : nat := Z.to_nat (bit_ceil kRing).

Lemma ring_cap_pos : (1 <= ring_cap)%nat.
Proof. unfold ring_cap. assert (bit_ceil kRing = 4096) as -> by done. lia. Qed.

Lemma start_inv iterations : decomp_inv ring_cap iterations 0 Home (start oe_ring rep_ring order0 ack0).
Proof.
  constructor; cbn; try done.
  - exists 0, [], 0%nat, 0, [], 0%nat. split; [by eapply create_holds; [|exact Hoe]|].
    split; [by eapply create_holds; [|exact Hrep]|]. auto.
  - unfold kWarmup. lia.
  - revert Horder. unfold fits. destruct order0. cbn. rewrite !Forall2_cons.
    intros (?&?&?&?&?&?&?&?&?&?&?&?). by split_and!.
  - revert Hack. unfold fits. destruct ack0. cbn. rewrite !Forall2_cons.
    intros (?&?&?&?&?&?&?&?&?). by split_and!.
  - exists []. split; [|done]. constructor; try done; constructor.
Qed.

(** The decomposition probe measures what it says: under every interleaving of
    its threads on one monotonic clock nothing is undefined and no push finds a
    ring full, so no order is lost; every sample is the three legs of one order's
    own round trip, none negative, adding up to its total, and the round trips
    follow one another. *)
Theorem decomp_samples_add_up iterations turns :
  clocked 0 turns ->
  exists s ds, run (decomp_run iterations turns) (start oe_ring rep_ring order0 ack0) = (Ret tt, s) /\
    Forall in_turn ds /\ (length ds <= iterations)%nat /\
    (forall i d d', ds !! i = Some d -> ds !! S i = Some d' -> t3_client_ack_ns d <= t0_client_send_ns d') /\
    Forall2 (fun d l => leg1_ingress_wire_ns d = Ret l) ds (leg1_ingress s) /\
    Forall2 (fun d l => leg2_engine_service_ns d = Ret l) ds (leg2_engine s) /\
    Forall2 (fun d l => leg3_egress_wire_ns d = Ret l) ds (leg3_egress s) /\
    Forall2 (fun d l => total_rtt_ns d = Ret l) ds (total_rtt s) /\
    forall i a b c t, leg1_ingress s !! i = Some a -> leg2_engine s !! i = Some b -> leg3_egress s !! i = Some c ->
      total_rtt s !! i = Some t -> 0 <= a /\ 0 <= b /\ 0 <= c /\ t = a + b + c.
Proof.
  intros Hc. destruct (turns_ok _ _ (fun l s => turns_left iterations l (client s)) (fun l s => mover l (client s))
    (turn_ok ring_cap ring_cap_pos iterations) turns 0 Home _ [] (start_inv iterations) Hc)
    as (now & l & s & E & I & _). destruct (di_samples _ _ _ _ _ I) as (ds & [Ht Ha _ H1 H2 H3 H4] & Hl).
  exists s, ds. unfold run, decomp_run. rewrite E. split_and!; try done.
  - pose proof (di_count _ _ _ _ _ I) as Hn. rewrite Hl. destruct (client s); cbn in *; lia.
  - intros i a b c t Ea Eb Ec Et. destruct (Forall2_lookup_r _ _ _ _ _ H1 Ea) as (d & Ed & L1).
    pose proof (Forall2_lookup_lr _ _ _ _ _ _ H2 Ed Eb) as L2. pose proof (Forall2_lookup_lr _ _ _ _ _ _ H3 Ed Ec) as L3.
    pose proof (Forall2_lookup_lr _ _ _ _ _ _ H4 Ed Et) as L4. cbn in *.
    rewrite Forall_forall in Ht. destruct (legs_add_up d) as (x & y & z & E1 & E2 & E3 & E4 & ? & ? & ?).
    { apply Ht. by eapply list_elem_of_lookup_2. }
    rewrite E1 in L1. rewrite E2 in L2. rewrite E3 in L3. rewrite E4 in L4. simplify_eq. done.
Qed.

(** C39 The decomposition probe ends: once both threads have had as many rounds as
    nine for each round trip and two more, in whatever order, the client has
    joined with a sample for every iteration, and a turn of the main thread and
    one of the engine later the engine has stopped; [main] then prints four lines
    of order statistics, unless it was asked for no iteration, when it reads the
    front of an empty vector. *)
Theorem decomp_terminates iterations blocks t1 t2 :
  Forall fair_round blocks -> (9 * (kWarmup + iterations) + 2 <= length blocks)%nat ->
  clocked 0 (concat blocks ++ [(MainThread, t1); (EngineThread, t2)]) ->
  exists s, run (decomp_run iterations (concat blocks ++ [(MainThread, t1); (EngineThread, t2)])) (start oe_ring rep_ring order0 ack0) =
      (Ret tt, s) /\
    client s = CDone /\ engine s = EStopped /\ length (total_rtt s) = iterations /\
    (iterations = 0%nat -> print_legs s = UB) /\
    (0 < Z.of_nat iterations <= 2 ^ 53 -> exists lines, print_legs s = Ret lines /\ length lines = 4%nat).
Proof.
  intros Hf Hlen Hc. pose proof ring_cap_pos as Hcap.
  destruct (rounds_finish _ _ (fun l s => turns_left iterations l (client s)) (fun l s => mover l (client s)) [ClientThread; EngineThread]
    mover_plays (turn_ok ring_cap Hcap iterations) blocks 0 Home _ [] (start_inv iterations) (clocked_app _ _ _ Hc) Hf)
    as (now & l & s & E & I & Hleft & Hmore).
  { cbn [start client turns_left]. lia. }
  pose proof (left_none _ _ _ _ _ I Hleft) as Ec.
  destruct (Hmore _ Hc) as (H1 & H2 & _). cbn [snd] in *.
  assert (decomp_inv ring_cap iterations t1 l s) as I0 by (by eapply inv_later).
  destruct (main_ok ring_cap Hcap iterations t1 l s [] I0) as (s1 & E1 & I1 & Ec1 & Hr).
  assert (mover l (client s1) = ClientThread) as Hm.
  { pose proof (di_home _ _ _ _ _ I1) as Hh. rewrite Ec1, Ec in Hh. destruct Hh as [_ Hh]. by rewrite (Hh eq_refl). }
  assert (decomp_inv ring_cap iterations t2 l s1) as I1' by (by eapply inv_later).
  destruct (engine_idle ring_cap Hcap iterations t2 l s1 [] I1' Hm) as (s2 & E2 & I2 & Ec2 & Hstop & _).
  exists s2. unfold run, decomp_run. rewrite run_turns_app. unfold mbind, M_bind. rewrite E. cbn [run_turns]. unfold mbind, M_bind, decomp_step. cbn [fst snd].
  rewrite E1, E2. destruct (di_samples _ _ _ _ _ I2) as (ds & [_ _ _ F1 F2 F3 F4] & Hl). rewrite Ec2, Ec1, Ec in Hl. cbn in Hl.
  apply Forall2_length in F1, F2, F3, F4. rewrite Hl in *. split_and!; [done|by rewrite Ec2, Ec1|by apply Hstop, Hr|done|..].
  - intros E0. unfold print_legs. destruct (leg1_ingress s2); [done|]. cbn in F1. lia.
  - intros Hit. assert (forall x, iterations = length x -> exists qs, print_leg x = Ret qs) as Hp.
    { intros x Hx. destruct (print_leg_ok x) as (lo & a & b & c & d & Ep & _); [intros ->; cbn in Hx; lia|lia|eauto]. }
    destruct (Hp _ F1) as (q1 & P1), (Hp _ F2) as (q2 & P2), (Hp _ F3) as (q3 & P3), (Hp _ F4) as (q4 & P4).
    unfold print_legs. rewrite P1, P2, P3, P4. by eexists.
Qed.
End Probe.

(** ** A run *)

(** One warm-up round trip at the reading [n]. *)
Definition warm_turns (n : Z) : list (Thread * Z) :=
  [(ClientThread, n); (EngineThread, n); (EngineThread, n); (EngineThread, n); (EngineThread, n); (ClientThread, n)].
(** The warm-up, and a round trip whose legs take 30, 7 and 40. *)
Definition demo_turns : list (Thread * Z) :=
  concat (map (fun i => warm_turns (Z.of_nat i)) (seq 0 kWarmup)) ++
  [(ClientThread, 1000); (ClientThread, 1000); (ClientThread, 1010); (EngineThread, 1020); (EngineThread, 1030);
   (EngineThread, 1037); (EngineThread, 1050); (ClientThread, 1060); (ClientThread, 1077); (ClientThread, 1078)].

Definition demo_order : ShmNewOrder := default_new_order.
Definition demo_ack : ShmOrderAck := mkShmAck 4 0 0 0 0 0 0 0.
Definition demo_segment : Segment := match @create demo_shm "decomp" kRing with Ret g => g | _ => mkSegment 0 0 0 0 0 0 0 [] end.

Lemma demo_created : @create demo_shm "decomp" kRing = Ret demo_segment.
Proof.
  unfold demo_segment. destruct (@create demo_shm "decomp" kRing) as [g|e|] eqn:E; [done|exfalso..]; unfold create in E; cbn in E; done.
Qed.

Lemma demo_fits : fits (MsgNew demo_order) /\ fits (MsgAck demo_ack).
Proof. split; unfold fits; cbn; rewrite !Forall2_cons; by split_and!. Qed.

Lemma demo_clocked : clocked 0 demo_turns.
Proof. apply clockedb_ok. vm_compute. reflexivity. Qed.

Lemma decomp_samples_add_up_witness :
  exists s, run (decomp_run 1 demo_turns) (start demo_segment demo_segment demo_order demo_ack) = (Ret tt, s) /\
    leg1_ingress s = [30] /\ leg2_engine s = [7] /\ leg3_egress s = [40] /\ total_rtt s = [77] /\ 77 = 30 + 7 + 40.
Proof.
  destruct (@decomp_samples_add_up demo_shm "decomp" "decomp" demo_segment demo_segment demo_order demo_ack demo_created demo_created
    (proj1 demo_fits) (proj2 demo_fits) 1%nat demo_turns demo_clocked) as (s & ds & E & _ & _ & _ & _ & _ & _ & _ & Hsum).
  assert (let s' := (run (decomp_run 1 demo_turns) (start demo_segment demo_segment demo_order demo_ack)).2 in
    leg1_ingress s' = [30] /\ leg2_engine s' = [7] /\ leg3_egress s' = [40] /\ total_rtt s' = [77]) as Hv by (vm_compute; auto).
  rewrite E in Hv. cbv zeta in Hv. cbn [snd] in Hv. destruct Hv as (H1 & H2 & H3 & H4). exists s.
  specialize (Hsum 0%nat 30 7 40 77). rewrite H1, H2, H3, H4 in Hsum.
  exact (conj E (conj H1 (conj H2 (conj H3 (conj H4 (proj2 (proj2 (proj2 (Hsum eq_refl eq_refl eq_refl eq_refl))))))))).
Defined.

Definition demo_rounds : list (list (Thread * Z)) := repeat [(EngineThread, 5); (ClientThread, 5)] (9 * (kWarmup + 1) + 2).

Lemma decomp_terminates_witness :
  exists s, run (decomp_run 1 (concat demo_rounds ++ [(MainThread, 5); (EngineThread, 5)]))
      (start demo_segment demo_segment demo_order demo_ack) = (Ret tt, s) /\
    client s = CDone /\ engine s = EStopped /\ length (total_rtt s) = 1%nat /\ exists lines, print_legs s = Ret lines /\ length lines = 4%nat.
Proof.
  destruct (@decomp_terminates demo_shm "decomp" "decomp" demo_segment demo_segment demo_order demo_ack demo_created demo_created
    (proj1 demo_fits) (proj2 demo_fits) 1%nat demo_rounds 5 5) as (s & E & Hc & He & Hl & _ & Hp).
  - apply Forall_forall. intros b Hb%list_elem_of_In%repeat_spec. subst b. repeat constructor; cbn; set_solver.
  - unfold demo_rounds. by rewrite repeat_length.
  - apply clockedb_ok. vm_compute. reflexivity.
  - assert (0 < Z.of_nat 1 <= 2 ^ 53) as Hone by (change (2 ^ 53) with 9007199254740992; lia).
    exists s. exact (conj E (conj Hc (conj He (conj Hl (Hp Hone))))).
Defined.
