(* ===== verification/RttProbe.v ===== *)
(** * The round-trip probe ([bench/probes/shm_rtt_probe.cpp])

    The main thread sends an order through one ring and spins on the other for
    its answer; the engine thread copies the order's numbers into the answer and
    sends it back.  A step is one turn of a thread up to its next access to what
    the threads share, with the clock reading it takes. *)

From Stdlib Require Import ZArith Ascii String List Lia.
From stdpp Require Import base tactics list option strings.
From S2P Require Import Prelude Rounds Utf8 Bytes TelemetryRing ShmRing ShmClient SimdPricing PricingProps Percentile StrategyNative.

Definition kWarmup : nat := Z.to_nat 10000.
#[global] Opaque kWarmup.
Definition kCapacity : Z := 4096.

(** Where the threads are in their loops. *)
Inductive MainAt :=
| MReady                       (* spins on [ready] *)
| MWarm (i : nat)              (* top of the warm-up loop *)
| MWarmWait (i : nat)
| MRun (i : nat)               (* top of the measured loop *)
| MPush (i : nat) (t0 : Z)
| MWait (i : nat) (t0 : Z)
| MGot (i : nat) (t0 : Z)      (* before the reading of t1 *)
| MJoin
| MDone.
Inductive EngineAt :=
| EStart
| EPoll                        (* top of the loop *)
| ESend
| EStopped.

Record Rtt := mkRtt {
  req_ring : Segment;
  resp_ring : Segment;
  running : bool;
  ready : bool;
  main : MainAt;
  req : ShmNewOrder;
  resp : ShmSlot;
  engine : EngineAt;
  out_slot : ShmOrderAck;
  latencies_ns : list Z;
}.

Definition set_req_ring (g : Segment) (s : Rtt) : Rtt :=
  mkRtt g (resp_ring s) (running s) (ready s) (main s) (req s) (resp s) (engine s) (out_slot s) (latencies_ns s).
Definition set_resp_ring (g : Segment) (s : Rtt) : Rtt :=
  mkRtt (req_ring s) g (running s) (ready s) (main s) (req s) (resp s) (engine s) (out_slot s) (latencies_ns s).
Definition set_running (b : bool) (s : Rtt) : Rtt :=
  mkRtt (req_ring s) (resp_ring s) b (ready s) (main s) (req s) (resp s) (engine s) (out_slot s) (latencies_ns s).
Definition set_ready (b : bool) (s : Rtt) : Rtt :=
  mkRtt (req_ring s) (resp_ring s) (running s) b (main s) (req s) (resp s) (engine s) (out_slot s) (latencies_ns s).
Definition go (m : MainAt) (s : Rtt) : Rtt :=
  mkRtt (req_ring s) (resp_ring s) (running s) (ready s) m (req s) (resp s) (engine s) (out_slot s) (latencies_ns s).
Definition set_req (m : ShmNewOrder) (s : Rtt) : Rtt :=
  mkRtt (req_ring s) (resp_ring s) (running s) (ready s) (main s) m (resp s) (engine s) (out_slot s) (latencies_ns s).
Definition set_resp (slot : ShmSlot) (s : Rtt) : Rtt :=
  mkRtt (req_ring s) (resp_ring s) (running s) (ready s) (main s) (req s) slot (engine s) (out_slot s) (latencies_ns s).
Definition set_engine (e : EngineAt) (s : Rtt) : Rtt :=
  mkRtt (req_ring s) (resp_ring s) (running s) (ready s) (main s) (req s) (resp s) e (out_slot s) (latencies_ns s).
Definition set_out_slot (a : ShmOrderAck) (s : Rtt) : Rtt :=
  mkRtt (req_ring s) (resp_ring s) (running s) (ready s) (main s) (req s) (resp s) (engine s) a (latencies_ns s).
Definition push_latency (z : Z) (s : Rtt) : Rtt :=
  mkRtt (req_ring s) (resp_ring s) (running s) (ready s) (main s) (req s) (resp s) (engine s) (out_slot s)
    (latencies_ns s ++ [z]).

(** ** The main thread *)

(** The fields of an order the thread sets. *)
Definition tagged (m : ShmNewOrder) : ShmNewOrder :=
  mkShmNew (type_code NewOrder) (sn_side m) (sn_post_only m) (sn_seq m) (sn_epoch m) (sn_md_seq m) (sn_cl_id m) (sn_px m)
    (sn_qty m) (sn_send_ts_ns m) (sn_reserved m).
Definition with_seq (n : Z) (m : ShmNewOrder) : ShmNewOrder :=
  mkShmNew (sn_tag m) (sn_side m) (sn_post_only m) (u32 n) (sn_epoch m) (sn_md_seq m) (sn_cl_id m) (sn_px m) (sn_qty m)
    (sn_send_ts_ns m) (sn_reserved m).
Definition with_cl_id (n : Z) (m : ShmNewOrder) : ShmNewOrder :=
  mkShmNew (sn_tag m) (sn_side m) (sn_post_only m) (sn_seq m) (sn_epoch m) (sn_md_seq m) (u64 n) (sn_px m) (sn_qty m)
    (sn_send_ts_ns m) (sn_reserved m).

(** The verdict of the push is not looked at. *)
Definition push_req : M Rtt unit :=
  s ← get; ok ← within req_ring set_req_ring (try_push (slot_bytes (MsgNew (req s))) false); mret tt.

Definition pop_resp : M Rtt bool :=
  slot ← within resp_ring set_resp_ring try_pop;
  match slot with Some x => modify (set_resp x);; mret true | None => mret false end.

(** The difference of two readings; signed, so its overflow is undefined. *)
Definition elapsed (t0 t1 : Z) : M Rtt Z := if bool_decide (is_i64 (t1 - t0)) then mret (t1 - t0) else ub.

(** [warm_req] and [req] before their tags are set: the members no one initialises
    hold anything. *)
Section Main.
Context (warm0 req0 : ShmNewOrder) (iterations : nat).

Definition main_step (now : Z) : M Rtt unit :=
  s ← get;
  match main s with
  | MReady => if ready s then modify (set_req (tagged warm0));; modify (go (MWarm 0)) else mret tt
  | MWarm i =>
      if (i <? kWarmup)%nat then
        modify (fun s => set_req (with_seq (Z.of_nat i) (req s)) s);;
        push_req;;
        modify (go (MWarmWait i))
      else modify (set_req (tagged req0));; modify (go (MRun 0))
  | MWarmWait i => got ← pop_resp; if got : bool then modify (go (MWarm (S i))) else mret tt
  | MRun i =>
      if (i <? iterations)%nat then
        modify (fun s => set_req (with_cl_id (100000 + Z.of_nat i) (with_seq (Z.of_nat i) (req s))) s);;
        modify (go (MPush i now))
      else modify (set_running false);; modify (go MJoin)
  | MPush i t0 => push_req;; modify (go (MWait i t0))
  | MWait i t0 => got ← pop_resp; if got : bool then modify (go (MGot i t0)) else mret tt
  | MGot i t0 => rtt_ns ← elapsed t0 now; modify (push_latency rtt_ns);; modify (go (MRun (S i)))
  | MJoin => match engine s with EStopped => modify (go MDone) | _ => mret tt end
  | MDone => mret tt
  end.
End Main.

(** ** The engine thread *)

(** The fields of the answer the loop sets. *)
Definition answer (m : ShmNewOrder) (a : ShmOrderAck) : ShmOrderAck :=
  mkShmAck (sa_tag a) (sa_pad a) (sn_seq m) (sa_epoch a) (sn_cl_id m) (sa_svc_ns a) (sn_send_ts_ns m) (sa_reserved a).

Definition engine_step : M Rtt unit :=
  s ← get;
  match engine s with
  | EStart => modify (set_ready true);; modify (set_engine EPoll)
  | EPoll =>
      if running s then
        slot ← within req_ring set_req_ring try_pop;
        match slot with
        | Some x => modify (fun s => set_out_slot (answer (as_new_order x) (out_slot s)) s);; modify (set_engine ESend)
        | None => mret tt
        end
      else modify (set_engine EStopped)
  | ESend =>
      pushed ← within resp_ring set_resp_ring (try_push (slot_bytes (MsgAck (out_slot s))) false);
      if pushed : bool then modify (set_engine EPoll) else mret tt
  | EStopped => mret tt
  end.

Inductive Thread := MainThread | EngineThread.
#[export] Instance Thread_eq_dec : EqDecision Thread. Proof. solve_decision. Defined.

Section Probe.
Context (warm0 req0 : ShmNewOrder) (ack0 : ShmOrderAck) (iterations : nat).

Definition rtt_step (turn : Thread * Z) : M Rtt unit :=
  match turn.1 with MainThread => main_step warm0 req0 iterations turn.2 | EngineThread => engine_step end.

Definition rtt_run : list (Thread * Z) -> M Rtt unit := run_turns rtt_step.

(** Both threads before their loops; [resp] is written before it is read. *)
Definition start (req_seg resp_seg : Segment) : Rtt :=
  mkRtt req_seg resp_seg true false MReady warm0 zero_slot EStart
    (mkShmAck (type_code OrderAck) (sa_pad ack0) (sa_seq ack0) (sa_epoch ack0) (sa_cl_id ack0) (sa_svc_ns ack0)
       (sa_engine_ts_ns ack0) (sa_reserved ack0)) [].
End Probe.

(** What [main] prints of the samples: the least, five ranks and the greatest; the
    front of no samples is undefined. *)
Definition print_rtt (s : Rtt) : outcome (list Z) :=
  let data := merge_sort Z.le (latencies_ns s) in
  match data with
  | [] => UB
  | front :: _ =>
      match pct p50 data, pct p90 data, pct p99 data, pct p999 data, pct f1 data with
      | Ret a, Ret b, Ret c, Ret d, Ret e => Ret [front; a; b; c; d; List.last data front; e]
      | _, _, _, _, _ => UB
      end
  end.

(** ** The invariant: one message in flight *)

(** Where the message of the current turn of the loop is. *)
Inductive Leg := Home | Sent | Taken | Back.
#[export] Instance Leg_eq_dec : EqDecision Leg. Proof. solve_decision. Defined.
#[export] Instance EngineAt_eq_dec : EqDecision EngineAt. Proof. solve_decision. Defined.

(** The answer names the order. *)
Definition echoes (a : ShmOrderAck) (m : ShmNewOrder) : Prop := sa_cl_id a = sn_cl_id m /\ sa_seq a = sn_seq m.

Definition carried (l : Leg) (s : Rtt) (qo qr : list ShmSlot) : Prop :=
  match l with
  | Home => qo = [] /\ qr = [] /\ engine s <> ESend
  | Sent => qo = [slot_bytes (MsgNew (req s))] /\ qr = [] /\ engine s = EPoll
  | Taken => qo = [] /\ qr = [] /\ engine s = ESend /\ echoes (out_slot s) (req s)
  | Back => qo = [] /\ qr = [slot_bytes (MsgAck (out_slot s))] /\ engine s = EPoll /\ echoes (out_slot s) (req s)
  end.

Definition sent_at (m : MainAt) : Z := match m with MPush _ t0 | MWait _ t0 | MGot _ t0 => t0 | _ => 0 end.
Definition waits (m : MainAt) : bool := match m with MWarmWait _ | MWait _ _ => true | _ => false end.
Definition over (m : MainAt) : bool := match m with MJoin | MDone => true | _ => false end.

Section Invariant.
Context (cap : nat) (Hcap : (1 <= cap)%nat) (warm0 req0 : ShmNewOrder) (ack0 : ShmOrderAck) (iterations : nat).
Context (Hwarm : fits (MsgNew warm0)) (Hreq : fits (MsgNew req0)).

(** The number of samples taken, and the bound of the loop's counter. *)
Definition taken (m : MainAt) : nat :=
  match m with
  | MReady | MWarm _ | MWarmWait _ => 0
  | MRun i | MPush i _ | MWait i _ | MGot i _ => i
  | MJoin | MDone => iterations
  end.
Definition counted (m : MainAt) : Prop :=
  match m with
  | MWarm i => (i <= kWarmup)%nat
  | MWarmWait i => (i < kWarmup)%nat
  | MRun i => (i <= iterations)%nat
  | MPush i _ | MWait i _ | MGot i _ => (i < iterations)%nat
  | _ => True
  end.

Record rtt_inv (now : Z) (l : Leg) (s : Rtt) : Prop := {
  ri_now : 0 <= now < two63;
  ri_rings : exists ho qo no hr qr nr, holds cap ho qo no (req_ring s) /\ holds cap hr qr nr (resp_ring s) /\ carried l s qo qr;
  ri_home : l = Home <-> waits (main s) = false;
  ri_start : engine s = EStart <-> ready s = false;
  ri_ready : ready s = false -> main s = MReady;
  ri_running : running s = negb (over (main s));
  ri_stop : engine s = EStopped -> running s = false;
  ri_done : main s = MDone -> engine s = EStopped;
  ri_sent : 0 <= sent_at (main s) <= now;
  ri_count : counted (main s);
  ri_req : fits (MsgNew (req s));
  ri_ack : fits (MsgAck (out_slot s));
  ri_got : forall i t0, main s = MGot i t0 ->
    exists a, resp s = slot_bytes (MsgAck a) /\ fits (MsgAck a) /\ echoes a (req s);
  ri_some : Forall (fun x => 0 <= x) (latencies_ns s);
  ri_taken : length (latencies_ns s) = taken (main s);
}.

(** *** Turns left: six for a round trip *)

Definition advance (l : Leg) : nat := match l with Home | Sent => 0 | Taken => 1 | Back => 2 end.
Definition left (l : Leg) (s : Rtt) : nat :=
  match main s with
  | MReady => 6 * kWarmup + 6 * iterations + 5 + (if bool_decide (engine s = EStart) then 1 else 0)
  | MWarm i => 6 * (kWarmup - i) + 6 * iterations + 4
  | MWarmWait i => 6 * (kWarmup - i) + 6 * iterations + 3 - advance l
  | MRun i => 6 * (iterations - i) + 3
  | MPush i _ => 6 * (iterations - i) + 2
  | MWait i _ => 6 * (iterations - i) + 1 - advance l
  | MGot i _ => 6 * (iterations - i) - 2
  | MJoin => if bool_decide (engine s = EStopped) then 1 else 2
  | MDone => 0
  end.

(** Whose turn moves the system on. *)
Definition mover (l : Leg) (s : Rtt) : Thread :=
  match main s with
  | MReady => if bool_decide (engine s = EStart) then EngineThread else MainThread
  | MJoin => if bool_decide (engine s = EStopped) then MainThread else EngineThread
  | _ => match l with Sent | Taken => EngineThread | _ => MainThread end
  end.

(** A later reading spoils nothing. *)
Lemma rtt_inv_later now now' l s : rtt_inv now l s -> now <= now' < two63 -> rtt_inv now' l s.
Proof. intros [] Hle. constructor; try done; lia. Qed.

Lemma fits_tagged m : fits (MsgNew m) -> fits (MsgNew (tagged m)).
Proof. unfold fits. destruct m. cbn. rewrite !Forall2_cons. naive_solver lia. Qed.
Lemma fits_seq n m : fits (MsgNew m) -> fits (MsgNew (with_seq n m)).
Proof.
  unfold fits. destruct m. cbn. rewrite !Forall2_cons. assert (in_width (U 4) (u32 n)) by (cbn; apply Z.mod_pos_bound; lia). naive_solver.
Qed.
Lemma fits_cl_id n m : fits (MsgNew m) -> fits (MsgNew (with_cl_id n m)).
Proof.
  unfold fits. destruct m. cbn. rewrite !Forall2_cons. assert (in_width (U 8) (u64 n)) by (cbn; apply Z.mod_pos_bound; done). naive_solver.
Qed.
Lemma rtt_fits_answer m a : fits (MsgNew m) -> fits (MsgAck a) -> fits (MsgAck (answer m a)).
Proof. unfold fits. destruct m, a. cbn. rewrite !Forall2_cons. naive_solver. Qed.

(** *** The rings, from the outside *)

Lemma push_req_ok s o ho no : holds cap ho [] no (req_ring s) ->
  exists g, push_req s o = (Ret tt, set_req_ring g s, o) /\ holds cap ho [slot_bytes (MsgNew (req s))] no g.
Proof.
  intros Hr. destruct (push_room Hr (slot_bytes (MsgNew (req s))) false o ltac:(cbn; lia)) as (g & E & Hg).
  exists g. split; [|exact Hg]. unfold push_req, mbind, M_bind, get. by rewrite (within_ret _ _ _ _ _ _ _ E).
Qed.

Lemma pop_resp_ok s o hr slot nr : holds cap hr [slot] nr (resp_ring s) ->
  exists g, pop_resp s o = (Ret true, set_resp slot (set_resp_ring g s), o) /\ holds cap (hr + 1) [] nr g.
Proof.
  intros Hr. destruct (pop_first _ _ _ _ _ _ o Hr) as (g & E & Hg). exists g. split; [|exact Hg].
  unfold pop_resp, mbind, M_bind. by rewrite (within_ret _ _ _ _ _ _ _ E).
Qed.

Lemma pop_resp_none s o hr nr : holds cap hr [] nr (resp_ring s) -> pop_resp s o = (Ret false, s, o).
Proof.
  intros Hr. unfold pop_resp, mbind, M_bind. rewrite (within_ret _ _ _ _ _ _ _ (pop_none Hr o eq_refl)). cbn. by destruct s.
Qed.

(** At home and in the loops, the rings are empty and the engine polls. *)
Lemma rtt_at_home now s : rtt_inv now Home s -> main s <> MReady -> over (main s) = false ->
  exists ho no hr nr, holds cap ho [] no (req_ring s) /\ holds cap hr [] nr (resp_ring s) /\ engine s = EPoll.
Proof.
  intros I Hm Ho. destruct (ri_rings _ _ _ I) as (ho & qo & no & hr & qr & nr & Hq & Hr & -> & -> & He).
  exists ho, no, hr, nr. split; [done|split; [done|]]. destruct (engine s) eqn:E; try done.
  - apply (ri_start _ _ _ I) in E. by apply (ri_ready _ _ _ I) in E.
  - apply (ri_stop _ _ _ I) in E. rewrite (ri_running _ _ _ I), Ho in E. done.
Qed.
(** What a turn leaves to check of each field. *)
Ltac fields I E :=
  destruct I; try rewrite E in *; constructor; cbn in *; try done; try lia; try tauto;
  try (by let Hf := fresh in intros Hf; match goal with H : ready _ = false -> _ |- _ => specialize (H Hf) end);
  try (by apply fits_seq); try (by apply fits_tagged); try (by apply fits_cl_id, fits_seq).

(** *** The main thread's turns *)

Definition moves_on (now : Z) (l : Leg) (s : Rtt) (s' : Rtt) : Prop :=
  exists l', rtt_inv now l' s' /\ (left l' s' < left l s)%nat.

Lemma warm_turn now s i o : rtt_inv now Home s -> main s = MWarm i ->
  exists s', main_step warm0 req0 iterations now s o = (Ret tt, s', o) /\ moves_on now Home s s'.
Proof.
  intros I Em. destruct (rtt_at_home _ _ I) as (ho & no & hr & nr & Ho & Hr & He); [congruence|by rewrite Em|].
  unfold main_step, mbind, M_bind, get. rewrite Em. destruct (Nat.ltb_spec i kWarmup) as [Hi|Hi].
  - change (modify ?f s o) with (Ret tt, f s, o). cbv iota beta. set (s1 := set_req _ s).
    destruct (push_req_ok s1 o ho no Ho) as (g & -> & Hg). eexists. split; [reflexivity|]. exists Sent. split.
    + fields I Em. by exists ho, [slot_bytes (MsgNew (req s1))], no, hr, [], nr.
    + unfold left. rewrite Em. cbn [main go]. cbn. lia.
  - eexists. split; [reflexivity|]. pose proof (ri_count _ _ _ I) as Hn. rewrite Em in Hn. cbn in Hn.
    exists Home. split; [fields I Em|unfold left; rewrite Em; cbn; lia].
Qed.

Lemma run_turn now s i o : rtt_inv now Home s -> main s = MRun i ->
  exists s', main_step warm0 req0 iterations now s o = (Ret tt, s', o) /\ moves_on now Home s s'.
Proof.
  intros I Em. destruct (rtt_at_home _ _ I) as (ho & no & hr & nr & Ho & Hr & He); [congruence|by rewrite Em|].
  pose proof (ri_count _ _ _ I) as Hn. rewrite Em in Hn. cbn in Hn.
  unfold main_step, mbind, M_bind, get. rewrite Em. destruct (Nat.ltb_spec i iterations) as [Hi|Hi];
    (eexists; split; [reflexivity|]; exists Home; split; [fields I Em|unfold left; rewrite Em; cbn]).
  - lia.
  - rewrite He. case_bool_decide; [done|]. lia.
Qed.

Lemma push_turn now s i t0 o : rtt_inv now Home s -> main s = MPush i t0 ->
  exists s', main_step warm0 req0 iterations now s o = (Ret tt, s', o) /\ moves_on now Home s s'.
Proof.
  intros I Em. destruct (rtt_at_home _ _ I) as (ho & no & hr & nr & Ho & Hr & He); [congruence|by rewrite Em|].
  unfold main_step, mbind, M_bind, get. rewrite Em. destruct (push_req_ok s o ho no Ho) as (g & -> & Hg).
  eexists. split; [reflexivity|]. exists Sent. split; [|unfold left; rewrite Em; cbn; lia].
  fields I Em. by exists ho, [slot_bytes (MsgNew (req s))], no, hr, [], nr.
Qed.

Lemma sample_turn now s i t0 o : rtt_inv now Home s -> main s = MGot i t0 ->
  exists s', main_step warm0 req0 iterations now s o = (Ret tt, s', o) /\ moves_on now Home s s'.
Proof.
  intros I Em. pose proof (ri_sent _ _ _ I) as H0. pose proof (ri_now _ _ _ I) as Hn. pose proof (ri_count _ _ _ I) as Hc.
  rewrite Em in H0, Hc. cbn in H0, Hc. unfold main_step, elapsed, mbind, M_bind, get. rewrite Em.
  rewrite bool_decide_eq_true_2 by (unfold is_i64, two63 in *; lia). cbn. eexists. split; [reflexivity|].
  exists Home. split; [|unfold left; rewrite Em; cbn; lia]. fields I Em.
  - apply Forall_app_2; [done|]. apply Forall_singleton. lia.
  - rewrite length_app. cbn. lia.
Qed.

Lemma receive_turn now s o : rtt_inv now Back s ->
  exists s', main_step warm0 req0 iterations now s o = (Ret tt, s', o) /\ moves_on now Back s s'.
Proof.
  intros I. destruct (ri_rings _ _ _ I) as (ho & qo & no & hr & qr & nr & Ho & Hr & -> & -> & He & Ha).
  destruct (pop_resp_ok s o hr _ nr Hr) as (g & Eg & Hg). pose proof (ri_count _ _ _ I) as Hn.
  assert (waits (main s) = true) as Hw.
  { destruct (waits (main s)) eqn:E; [done|]. by apply (ri_home _ _ _ I) in E. }
  unfold main_step, mbind, M_bind, get. destruct (main s) as [|i|i|i|i t0|i t0|i t0| |] eqn:Em; try done; rewrite Eg;
    (eexists; split; [reflexivity|]; exists Home; split; [fields I Em|unfold left; rewrite Em; cbn in *; lia]).
  - exists ho, [], no, (hr + 1), [], nr. by rewrite He.
  - exists ho, [], no, (hr + 1), [], nr. by rewrite He.
  - intros j t [= <- <-]. by exists (out_slot s).
Qed.

Lemma main_turn now l s o : rtt_inv now l s ->
  exists l' s', main_step warm0 req0 iterations now s o = (Ret tt, s', o) /\ rtt_inv now l' s' /\ (left l' s' <= left l s)%nat /\
    (mover l s = MainThread -> left l' s' <= pred (left l s))%nat /\ (mover l s <> MainThread -> l' = l /\ s' = s).
Proof.
  intros I. assert (forall s', main_step warm0 req0 iterations now s o = (Ret tt, s', o) -> moves_on now l s s' -> mover l s = MainThread ->
    exists l' s', main_step warm0 req0 iterations now s o = (Ret tt, s', o) /\ rtt_inv now l' s' /\ (left l' s' <= left l s)%nat /\
    (mover l s = MainThread -> left l' s' <= pred (left l s))%nat /\ (mover l s <> MainThread -> l' = l /\ s' = s)) as Hmove.
  { intros s' E (l' & I' & Hl) Hm. exists l', s'. split_and!; try done; lia. }
  assert (main_step warm0 req0 iterations now s o = (Ret tt, s, o) -> (mover l s = MainThread -> left l s = 0%nat) ->
    exists l' s', main_step warm0 req0 iterations now s o = (Ret tt, s', o) /\ rtt_inv now l' s' /\ (left l' s' <= left l s)%nat /\
    (mover l s = MainThread -> left l' s' <= pred (left l s))%nat /\ (mover l s <> MainThread -> l' = l /\ s' = s)) as Hstay.
  { intros E H0. exists l, s. split_and!; try done. intros Hm. rewrite (H0 Hm). lia. }
  destruct (waits (main s)) eqn:Ew.
  - assert (l <> Home) as Hl by (intros E%(ri_home _ _ _ I); congruence). destruct l; [done|..].
    1-2: apply Hstay; [|unfold mover; by destruct (main s)];
      destruct (ri_rings _ _ _ I) as (ho & qo & no & hr & qr & nr & Ho & Hr & _ & -> & _);
      unfold main_step, mbind, M_bind, get; destruct (main s); try done; by rewrite (pop_resp_none s o hr nr Hr).
    destruct (receive_turn now s o I) as (s' & E & Hm). apply (Hmove s'); [done|done|]. unfold mover. by destruct (main s).
  - pose proof Ew as El. apply (ri_home _ _ _ I) in El. subst l. unfold mover in *.
    destruct (main s) as [|i|i|i|i t0|i t0|i t0| |] eqn:Em; try done.
    + destruct (ready s) eqn:Er.
      * eapply Hmove.
        -- unfold main_step, mbind, M_bind, get. rewrite Em, Er. reflexivity.
        -- exists Home. split; [fields I Em; congruence|]. unfold left. rewrite Em. cbn. lia.
        -- case_bool_decide as He; [|done]. apply (ri_start _ _ _ I) in He. congruence.
      * apply Hstay; [unfold main_step, mbind, M_bind, get; by rewrite Em, Er|].
        rewrite bool_decide_eq_true_2; [done|]. by apply (ri_start _ _ _ I).
    + destruct (warm_turn now s i o I Em) as (s' & E & Hm). by apply (Hmove s').
    + destruct (run_turn now s i o I Em) as (s' & E & Hm). by apply (Hmove s').
    + destruct (push_turn now s i t0 o I Em) as (s' & E & Hm). by apply (Hmove s').
    + destruct (sample_turn now s i t0 o I Em) as (s' & E & Hm). by apply (Hmove s').
    + destruct (decide (engine s = EStopped)) as [He|He].
      * eapply Hmove.
        -- unfold main_step, mbind, M_bind, get. rewrite Em, He. reflexivity.
        -- exists Home. split; [fields I Em|]. unfold left. rewrite Em. cbn. case_bool_decide; lia.
        -- by rewrite bool_decide_eq_true_2.
      * apply Hstay; [unfold main_step, mbind, M_bind, get; rewrite Em; by destruct (engine s)|].
        by rewrite bool_decide_eq_false_2.
    + apply Hstay; [unfold main_step, mbind, M_bind, get; by rewrite Em|]. intros _. unfold left. by rewrite Em.
Qed.

(** *** The engine's turns *)

Lemma engine_starts now l s o : rtt_inv now l s -> engine s = EStart ->
  exists s', engine_step s o = (Ret tt, s', o) /\ moves_on now l s s'.
Proof.
  intros I He. pose proof (ri_ready _ _ _ I (proj1 (ri_start _ _ _ I) He)) as Em.
  pose proof (proj2 (ri_home _ _ _ I) ltac:(by rewrite Em)) as ->.
  unfold engine_step, mbind, M_bind, get. rewrite He. eexists. split; [reflexivity|]. exists Home. split.
  - destruct (ri_rings _ _ _ I) as (ho & qo & no & hr & qr & nr & Ho & Hr & Hq & Hq' & _).
    destruct I. constructor; cbn; rewrite ?Em, ?He in *; cbn in *; try done. by exists ho, qo, no, hr, qr, nr.
  - unfold left. cbn. rewrite Em. rewrite bool_decide_eq_false_2, bool_decide_eq_true_2 by done. lia.
Qed.

Lemma rtt_engine_pops now s o : rtt_inv now Sent s ->
  exists s', engine_step s o = (Ret tt, s', o) /\ moves_on now Sent s s'.
Proof.
  intros I. destruct (ri_rings _ _ _ I) as (ho & qo & no & hr & qr & nr & Ho & Hr & -> & -> & He).
  destruct (pop_first _ _ _ _ _ _ o Ho) as (g & E & Hg). unfold engine_step, mbind, M_bind, get. rewrite He.
  assert (waits (main s) = true) as Hw by (destruct (waits (main s)) eqn:Ew; [done|]; by apply (ri_home _ _ _ I) in Ew).
  assert (running s = true) as -> by (rewrite (ri_running _ _ _ I); by destruct (main s)).
  rewrite (within_ret _ _ _ _ _ _ _ E), (as_new_order_slot _ (ri_req _ _ _ I)). eexists. split; [reflexivity|].
  pose proof (ri_count _ _ _ I) as Hn. exists Taken. split.
  - assert (fits (MsgAck (answer (req s) (out_slot s)))) by (apply rtt_fits_answer; apply I).
    destruct (main s) eqn:Em; try done; destruct I; constructor; cbn; rewrite ?Em, ?He in *; cbn in *; try done;
      try (split; [done|let H := fresh in intros H; match goal with R : _ <-> ready _ = false |- _ => by apply R in H end]);
      by exists (ho + 1), [], no, hr, [], nr.
  - unfold left. cbn. destruct (main s); try done; cbn in *; lia.
Qed.

Lemma rtt_engine_sends now s o : rtt_inv now Taken s ->
  exists s', engine_step s o = (Ret tt, s', o) /\ moves_on now Taken s s'.
Proof.
  intros I. destruct (ri_rings _ _ _ I) as (ho & qo & no & hr & qr & nr & Ho & Hr & -> & -> & He & Ha).
  destruct (push_room Hr (slot_bytes (MsgAck (out_slot s))) false o ltac:(cbn; lia)) as (g & E & Hg).
  assert (waits (main s) = true) as Hw by (destruct (waits (main s)) eqn:Ew; [done|]; by apply (ri_home _ _ _ I) in Ew).
  unfold engine_step, mbind, M_bind, get. rewrite He, (within_ret _ _ _ _ _ _ _ E). eexists. split; [reflexivity|].
  pose proof (ri_count _ _ _ I) as Hn. exists Back. split.
  - destruct (main s) eqn:Em; try done; destruct I; constructor; cbn; rewrite ?Em, ?He in *; cbn in *; try done;
      try (split; [done|let H := fresh in intros H; match goal with R : _ <-> ready _ = false |- _ => by apply R in H end]);
      by exists ho, [], no, hr, [slot_bytes (MsgAck (out_slot s))], nr.
  - unfold left. cbn. destruct (main s); try done; cbn in *; lia.
Qed.

(** Told to stop, the engine stops; the main thread is then waiting to join it. *)
Lemma engine_stops now l s o : rtt_inv now l s -> engine s = EPoll -> running s = false ->
  exists s', engine_step s o = (Ret tt, s', o) /\ moves_on now l s s' /\ mover l s = EngineThread.
Proof.
  intros I He Hr. assert (main s = MJoin) as Em.
  { pose proof (ri_running _ _ _ I) as H. rewrite Hr in H. destruct (main s) eqn:E; try done.
    apply (ri_done _ _ _ I) in E. congruence. }
  pose proof (proj2 (ri_home _ _ _ I) ltac:(by rewrite Em)) as ->.
  unfold engine_step, mbind, M_bind, get. rewrite He, Hr. eexists. split; [reflexivity|]. split; [exists Home; split|].
  - destruct (ri_rings _ _ _ I) as (ho & qo & no & hr & qr & nr & Ho & Hr' & Hq & Hq' & _).
    destruct I. constructor; cbn; rewrite ?Em, ?He in *; cbn in *; try done.
    + by exists ho, qo, no, hr, qr, nr.
    + split; [done|]. intros H. by apply ri_start0 in H.
  - unfold left. cbn. rewrite Em. rewrite bool_decide_eq_true_2, bool_decide_eq_false_2 by congruence. lia.
  - unfold mover. rewrite Em, bool_decide_eq_false_2 by congruence. done.
Qed.

Lemma rtt_engine_turn now l s o : rtt_inv now l s ->
  exists l' s', engine_step s o = (Ret tt, s', o) /\ rtt_inv now l' s' /\ (left l' s' <= left l s)%nat /\
    (mover l s = EngineThread -> left l' s' <= pred (left l s))%nat /\ (mover l s <> EngineThread -> l' = l /\ s' = s).
Proof.
  intros I. assert (forall s', engine_step s o = (Ret tt, s', o) -> moves_on now l s s' -> mover l s = EngineThread ->
    exists l' s', engine_step s o = (Ret tt, s', o) /\ rtt_inv now l' s' /\ (left l' s' <= left l s)%nat /\
    (mover l s = EngineThread -> left l' s' <= pred (left l s))%nat /\ (mover l s <> EngineThread -> l' = l /\ s' = s)) as Hmove.
  { intros s' E (l' & I' & Hl) Hm. exists l', s'. split_and!; try done; lia. }
  assert (engine_step s o = (Ret tt, s, o) -> mover l s <> EngineThread ->
    exists l' s', engine_step s o = (Ret tt, s', o) /\ rtt_inv now l' s' /\ (left l' s' <= left l s)%nat /\
    (mover l s = EngineThread -> left l' s' <= pred (left l s))%nat /\ (mover l s <> EngineThread -> l' = l /\ s' = s)) as Hstay.
  { intros E Hm. by exists l, s. }
  destruct (ri_rings _ _ _ I) as (ho & qo & no & hr & qr & nr & Ho & Hr & Hc). destruct (engine s) eqn:He.
  - destruct (engine_starts now l s o I He) as (s' & E & Hm). apply (Hmove s'); [done|done|].
    unfold mover. rewrite (ri_ready _ _ _ I (proj1 (ri_start _ _ _ I) He)). by rewrite bool_decide_eq_true_2.
  - destruct (running s) eqn:Er.
    2: { destruct (engine_stops now l s o I He Er) as (s' & E & Hm & Hv). by apply (Hmove s'). }
    assert (over (main s) = false) as Hov by (rewrite (ri_running _ _ _ I) in Er; by destruct (over (main s))).
    destruct (decide (l = Sent)) as [->|Hl].
    + destruct (rtt_engine_pops now s o I) as (s' & E & Hm). apply (Hmove s'); [done|done|].
      assert (main s <> MReady) by (intros Em; pose proof (proj2 (ri_home _ _ _ I) ltac:(by rewrite Em)); done).
      unfold mover. by destruct (main s).
    + assert (qo = [] /\ l <> Taken) as [-> Hl'] by (destruct l; cbn in Hc; rewrite ?He in Hc; naive_solver).
      apply Hstay.
      * unfold engine_step, mbind, M_bind, get. rewrite He, Er, (within_ret _ _ _ _ _ _ _ (pop_none Ho o eq_refl)). cbn. by destruct s.
      * unfold mover. destruct (main s); try done; try (by destruct l). by rewrite bool_decide_eq_false_2 by congruence.
  - assert (l = Taken) as -> by (destruct l; cbn in Hc; rewrite ?He in Hc; naive_solver).
    destruct (rtt_engine_sends now s o I) as (s' & E & Hm). apply (Hmove s'); [done|done|].
    assert (waits (main s) = true) as Hw by (destruct (waits (main s)) eqn:Ew; [done|]; by apply (ri_home _ _ _ I) in Ew).
    unfold mover. by destruct (main s).
  - apply Hstay; [unfold engine_step, mbind, M_bind, get; by rewrite He|]. pose proof (ri_stop _ _ _ I He) as Er.
    rewrite (ri_running _ _ _ I) in Er. unfold mover. destruct (main s) eqn:Em; try done.
    + by rewrite bool_decide_eq_true_2.
    + by rewrite (proj2 (ri_home _ _ _ I)) by (by rewrite Em).
Qed.

Lemma rtt_turn_ok now l s t o : rtt_inv now l s -> now <= t.2 < two63 ->
  exists l' s', rtt_step warm0 req0 iterations t s o = (Ret tt, s', o) /\ rtt_inv t.2 l' s' /\ (left l' s' <= left l s)%nat /\
    (t.1 = mover l s -> left l' s' <= pred (left l s))%nat /\ (t.1 <> mover l s -> mover l' s' = mover l s).
Proof.
  intros I Ht. pose proof (rtt_inv_later _ _ _ _ I Ht) as I'. unfold rtt_step. destruct t as [[] n]; cbn [fst snd] in *.
  - destruct (main_turn n l s o I') as (l' & s' & E & I2 & Hle & Hm & Hs). exists l', s'. split_and!; auto.
    intros Hne. destruct Hs as [-> ->]; [congruence|done].
  - destruct (rtt_engine_turn n l s o I') as (l' & s' & E & I2 & Hle & Hm & Hs). exists l', s'. split_and!; auto.
    intros Hne. destruct Hs as [-> ->]; [congruence|done].
Qed.

Lemma rtt_left_none now l s : rtt_inv now l s -> left l s = 0%nat -> main s = MDone.
Proof using Type.
  clear Hcap Hwarm Hreq. intros I. pose proof (ri_count _ _ _ I) as Hc. unfold left. assert (advance l <= 2)%nat by (destruct l; cbn; lia).
  destruct (main s); cbn [counted] in Hc; try done; try lia; case_bool_decide; lia.
Qed.
End Invariant.

Lemma rtt_mover_plays l s : mover l s ∈ [MainThread; EngineThread].
Proof. destruct (mover l s); set_solver. Qed.

(** ** What it prints *)

Lemma print_rtt_ok s : latencies_ns s <> [] -> Z.of_nat (length (latencies_ns s)) <= 2 ^ 53 ->
  exists lo a b c d hi, print_rtt s = Ret [lo; a; b; c; d; hi; hi] /\
    lo ∈ latencies_ns s /\ Forall (fun x => lo <= x <= hi) (latencies_ns s) /\ lo <= a /\ a <= b /\ b <= c /\ c <= d /\ d <= hi.
Proof.
  intros Hne Hlen. destruct (print_leg_ok _ Hne Hlen) as (lo & a & b & c & d & E & Hlo & Hin & Hab & Hbc & Hcd & Hdd).
  unfold print_leg in E. unfold print_rtt. pose proof (merge_sort_Permutation Z.le (latencies_ns s)) as Hperm.
  pose proof (StronglySorted_merge_sort Z.le (latencies_ns s)) as Hs. set (data := merge_sort Z.le _) in *.
  assert (data <> []) as Hd by (intros E0; rewrite E0 in Hperm; by apply Permutation_nil_l in Hperm).
  assert (length data = length (latencies_ns s)) as El by (by rewrite Hperm).
  destruct (exists_last Hd) as (front & hi & Ed). assert (data !! length front = Some hi) as Hhi by (rewrite Ed; by apply list_lookup_middle).
  assert (pct f1 data = Ret hi) as Ep.
  { unfold pct. rewrite pct_index_one by (rewrite El; split; [destruct data; cbn in *; [done|lia]|done]).
    replace (Z.to_nat _) with (length front) by (rewrite Ed, length_app; cbn; lia). by rewrite Hhi. }
  assert (Forall (fun x => x <= hi) (latencies_ns s)) as Hmax.
  { rewrite <- Hperm. apply Forall_forall. intros y (j & Hj)%list_elem_of_lookup_1. apply (sorted_le data j (length front)); try done.
    apply lookup_lt_Some in Hj. rewrite Ed, length_app in Hj. cbn in Hj. lia. }
  exists lo, a, b, c, d, hi. rewrite Ep. assert (List.last data (hd 0 data) = hi) as Elast by (rewrite Ed; apply List.last_last).
  pose proof Hin as Hin'. rewrite Forall_cons in Hin'. split; [|split; [tauto|split; [|split_and!; try done]]].
  - destruct data as [|x rest]; [done|]. cbn [hd] in Elast. revert E. repeat case_match; intros [= -> -> -> -> ->] || done. by rewrite Elast.
  - rewrite Forall_forall in *. intros x Hx. specialize (Hlo x Hx). specialize (Hmax x Hx). lia.
  - rewrite !Forall_cons in Hin. destruct Hin as (_ & _ & _ & _ & Hdin & _). by apply (proj1 (Forall_forall _ _) Hmax).
Qed.

(** ** The probe *)

Section Claims.
Context `{Shm} (req_name resp_name : string) (req_seg resp_seg : Segment) (warm0 req0 : ShmNewOrder) (ack0 : ShmOrderAck).
Context (Hreq_seg : create req_name kCapacity = Ret req_seg) (Hresp_seg : create resp_name kCapacity = Ret resp_seg).
Context (Hwarm : fits (MsgNew warm0)) (Hreq : fits (MsgNew req0)) (Hack : fits (MsgAck ack0)) (iterations : nat).

Definition ring_cap : nat := Z.to_nat (bit_ceil kCapacity).

Lemma rtt_ring_cap_pos : (1 <= ring_cap)%nat.
Proof. unfold ring_cap. assert (bit_ceil kCapacity = 4096) as -> by done. lia. Qed.

Lemma rtt_start_inv : rtt_inv ring_cap iterations 0 Home (start warm0 ack0 req_seg resp_seg).
Proof.
  constructor; cbn; try done.
  - exists 0, [], 0%nat, 0, [], 0%nat. split; [by eapply create_holds; [|exact Hreq_seg]|].
    split; [by eapply create_holds; [|exact Hresp_seg]|]. auto.
  - revert Hack. unfold fits. destruct ack0. cbn. rewrite !Forall2_cons. intros (?&?&?&?&?&?&?&?&?). by split_and!.
Qed.

(** Under every schedule nothing is undefined, no latency is negative, and a
    response taken from the ring answers the request just sent. *)
Theorem rtt_answers_match turns :
  clocked 0 turns ->
  exists s, run (rtt_run warm0 req0 iterations turns) (start warm0 ack0 req_seg resp_seg) = (Ret tt, s) /\
    Forall (fun x => 0 <= x) (latencies_ns s) /\ (length (latencies_ns s) <= iterations)%nat /\
    forall i t0, main s = MGot i t0 -> sa_cl_id (as_ack (resp s)) = sn_cl_id (req s) /\ sa_seq (as_ack (resp s)) = sn_seq (req s).
Proof.
  intros Hc. destruct (turns_ok _ _ (left iterations) mover (rtt_turn_ok ring_cap rtt_ring_cap_pos warm0 req0 iterations Hwarm Hreq)
    turns 0 Home _ [] rtt_start_inv Hc) as (now & l & s & E & I & _).
  exists s. unfold run, rtt_run. rewrite E. split_and!; [done|apply I| |].
  - rewrite (ri_taken _ _ _ _ _ I). pose proof (ri_count _ _ _ _ _ I) as Hn. destruct (main s); cbn in *; lia.
  - intros i t0 Em. destruct (ri_got _ _ _ _ _ I i t0 Em) as (a & -> & Hf & Ha). by rewrite as_ack_slot.
Qed.

(** The probe ends after six fair rounds for each round trip and six more, with a
    sample for every iteration; what it then prints is in order, unless it was
    asked for no iteration, when it reads the front of an empty vector. *)
Theorem rtt_terminates blocks :
  Forall (fair [MainThread; EngineThread]) blocks -> clocked 0 (concat blocks) ->
  (6 * kWarmup + 6 * iterations + 6 <= length blocks)%nat ->
  exists s, run (rtt_run warm0 req0 iterations (concat blocks)) (start warm0 ack0 req_seg resp_seg) = (Ret tt, s) /\
    main s = MDone /\ engine s = EStopped /\ length (latencies_ns s) = iterations /\
    (iterations = 0%nat -> print_rtt s = UB) /\
    (0 < Z.of_nat iterations <= 2 ^ 53 -> exists lo a b c d hi, print_rtt s = Ret [lo; a; b; c; d; hi; hi] /\
       0 <= lo /\ lo <= a /\ a <= b /\ b <= c /\ c <= d /\ d <= hi).
Proof.
  intros Hf Hc Hlen. destruct (rounds_finish _ _ (left iterations) mover [MainThread; EngineThread] rtt_mover_plays
    (rtt_turn_ok ring_cap rtt_ring_cap_pos warm0 req0 iterations Hwarm Hreq) blocks 0 Home _ [] rtt_start_inv Hc Hf) as (now & l & s & E & I & Hl & _).
  { unfold left. cbn [start main engine]. rewrite bool_decide_eq_true_2 by done. lia. }
  pose proof (rtt_left_none _ _ _ _ _ I Hl) as Em. pose proof (ri_taken _ _ _ _ _ I) as Ht. rewrite Em in Ht. cbn in Ht.
  exists s. unfold run, rtt_run. rewrite E. split_and!; [done|done|by apply (ri_done _ _ _ _ _ I)|done|..].
  - intros E0. unfold print_rtt. destruct (latencies_ns s); [done|]. cbn in Ht. lia.
  - intros Hit. destruct (print_rtt_ok s) as (lo & a & b & c & d & hi & Ep & Hlo & _ & ?).
    + intros E0. rewrite E0 in Ht. cbn in Ht. lia.
    + rewrite Ht. apply Hit.
    + exists lo, a, b, c, d, hi. split_and!; try tauto. pose proof (ri_some _ _ _ _ _ I) as Hpos.
      by apply (proj1 (Forall_forall _ _) Hpos).
Qed.
End Claims.

(** ** Runs *)

Definition rtt_segment : Segment := match @create demo_shm "rtt" kCapacity with Ret g => g | _ => mkSegment 0 0 0 0 0 0 0 [] end.
Lemma rtt_created : @create demo_shm "rtt" kCapacity = Ret rtt_segment.
Proof.
  unfold rtt_segment. destruct (@create demo_shm "rtt" kCapacity) as [g|e|] eqn:E; [done|exfalso..]; unfold create in E; cbn in E; done.
Qed.

Definition rtt_order : ShmNewOrder := default_new_order.
Definition rtt_ack : ShmOrderAck := mkShmAck 4 0 0 0 0 0 0 0.
Lemma rtt_fits : fits (MsgNew rtt_order) /\ fits (MsgAck rtt_ack).
Proof. split; unfold fits; cbn; rewrite !Forall2_cons; by split_and!. Qed.

Definition rtt_rounds : list (list (Thread * Z)) := repeat [(EngineThread, 5); (MainThread, 5)] (6 * kWarmup + 6 * 1 + 6).

Lemma rtt_terminates_witness :
  exists s, run (rtt_run rtt_order rtt_order 1 (concat rtt_rounds)) (start rtt_order rtt_ack rtt_segment rtt_segment) = (Ret tt, s) /\
    main s = MDone /\ length (latencies_ns s) = 1%nat.
Proof.
  destruct (@rtt_terminates demo_shm "rtt" "rtt" rtt_segment rtt_segment rtt_order rtt_order rtt_ack rtt_created rtt_created
    (proj1 rtt_fits) (proj1 rtt_fits) (proj2 rtt_fits) 1%nat rtt_rounds) as (s & E & Hm & _ & Hl & _).
  - apply Forall_forall. intros b Hb%list_elem_of_In%repeat_spec. subst b. repeat constructor; cbn; set_solver.
  - apply clockedb_ok. vm_compute. reflexivity.
  - unfold rtt_rounds. by rewrite repeat_length.
  - exact (ex_intro _ s (conj E (conj Hm Hl))).
Defined.
