(* ===== verification/NativeProbe.v ===== *)
(** * The native strategy over shared memory ([bench/probes/native_mm_probe.cpp])

    Three rings and three threads: the main thread feeds ticks, the strategy
    thread answers a tick with its bid and counts the acknowledgements, the
    engine thread acknowledges the orders.  A step is one turn of a thread up to
    its next access to what the threads share, with the clock reading it takes.
    [sent] and [acked] are logs of the model, and [hb] keeps what happens before
    what between the main thread and the strategy, which alone decides whether
    their accesses to the two sample vectors race; a race is undefined. *)

From Stdlib Require Import ZArith Ascii String List Lia.
From stdpp Require Import base tactics list option strings.
From S2P Require Import Prelude Utf8 Bytes TelemetryRing ShmRing ShmClient SimdPricing PricingProps Percentile StrategyNative.

Definition kWarmTicks : nat := 1000.
Definition kRing : Z := 4096.
Definition kPaceNs : Z := 5000.

(** Where the threads are in their loops. *)
Inductive FeederAt :=
| FWarm (i : nat)
| FClear | FClearRtt              (* the two vectors are emptied *)
| FRun (i : nat)                  (* before the reading of [venue_ns] *)
| FPush (i : nat) (tob : ShmTopOfBook)
| FPaced (i : nat)                (* before the reading of the target *)
| FPace (i : nat) (target : Z)
| FDrain | FStop | FJoin | FDone.
Inductive StratAt :=
| SPoll                           (* top of the loop: poll market data *)
| SBid (bid : ShmNewOrder)        (* before the reading of [t_order] *)
| SPush (order : ShmNewOrder)
| SReports                        (* poll execution reports *)
| SAcked                          (* before the reading of [now_ns] *)
| SStopped.
Inductive EngineAt := EPoll | ESend | EStopped.

(** The order the tick ring establishes.  Its two indices are the only things the
    main and the strategy thread release to each other before the joins ([running]
    is read relaxed).  A turn of a ring loads the newest index; an older one would
    order less, and leave more races. *)
Record HappensBefore := mkHb {
  released : nat * nat;   (* the vectors' sizes when the strategy last released a slot *)
  acquired : nat * nat;   (* [released], when the main thread last loaded that index *)
  told : bool;            (* the main thread released a tick since it emptied the vectors *)
  knows : bool;           (* the strategy loaded that index since *)
}.

Record Native := mkNative {
  md : Segment; oe : Segment; rep : Segment;
  running : bool;
  feeder : FeederAt; strat : StratAt; engine : EngineAt;
  mm : Strategy;
  in_slot : ShmSlot;
  out_ack : ShmOrderAck;
  tick_to_order : list Z;
  rtt : list Z;
  sent : list ShmNewOrder;
  acked : list ShmOrderAck;
  hb : HappensBefore;
}.

Definition set_md g s := mkNative g (oe s) (rep s) (running s) (feeder s) (strat s) (engine s) (mm s) (in_slot s)
  (out_ack s) (tick_to_order s) (rtt s) (sent s) (acked s) (hb s).
Definition set_oe g s := mkNative (md s) g (rep s) (running s) (feeder s) (strat s) (engine s) (mm s) (in_slot s)
  (out_ack s) (tick_to_order s) (rtt s) (sent s) (acked s) (hb s).
Definition set_rep g s := mkNative (md s) (oe s) g (running s) (feeder s) (strat s) (engine s) (mm s) (in_slot s)
  (out_ack s) (tick_to_order s) (rtt s) (sent s) (acked s) (hb s).
Definition set_running b s := mkNative (md s) (oe s) (rep s) b (feeder s) (strat s) (engine s) (mm s) (in_slot s)
  (out_ack s) (tick_to_order s) (rtt s) (sent s) (acked s) (hb s).
Definition feed f s := mkNative (md s) (oe s) (rep s) (running s) f (strat s) (engine s) (mm s) (in_slot s)
  (out_ack s) (tick_to_order s) (rtt s) (sent s) (acked s) (hb s).
Definition go p s := mkNative (md s) (oe s) (rep s) (running s) (feeder s) p (engine s) (mm s) (in_slot s)
  (out_ack s) (tick_to_order s) (rtt s) (sent s) (acked s) (hb s).
Definition set_engine e s := mkNative (md s) (oe s) (rep s) (running s) (feeder s) (strat s) e (mm s) (in_slot s)
  (out_ack s) (tick_to_order s) (rtt s) (sent s) (acked s) (hb s).
Definition set_mm m s := mkNative (md s) (oe s) (rep s) (running s) (feeder s) (strat s) (engine s) m (in_slot s)
  (out_ack s) (tick_to_order s) (rtt s) (sent s) (acked s) (hb s).
Definition set_in_slot x s := mkNative (md s) (oe s) (rep s) (running s) (feeder s) (strat s) (engine s) (mm s) x
  (out_ack s) (tick_to_order s) (rtt s) (sent s) (acked s) (hb s).
Definition set_out_ack a s := mkNative (md s) (oe s) (rep s) (running s) (feeder s) (strat s) (engine s) (mm s) (in_slot s)
  a (tick_to_order s) (rtt s) (sent s) (acked s) (hb s).
Definition set_ticks (f : list Z -> list Z) s := mkNative (md s) (oe s) (rep s) (running s) (feeder s) (strat s) (engine s) (mm s)
  (in_slot s) (out_ack s) (f (tick_to_order s)) (rtt s) (sent s) (acked s) (hb s).
Definition set_rtt (f : list Z -> list Z) s := mkNative (md s) (oe s) (rep s) (running s) (feeder s) (strat s) (engine s) (mm s)
  (in_slot s) (out_ack s) (tick_to_order s) (f (rtt s)) (sent s) (acked s) (hb s).
Definition log_sent m s := mkNative (md s) (oe s) (rep s) (running s) (feeder s) (strat s) (engine s) (mm s)
  (in_slot s) (out_ack s) (tick_to_order s) (rtt s) (sent s ++ [m]) (acked s) (hb s).
Definition log_acked a s := mkNative (md s) (oe s) (rep s) (running s) (feeder s) (strat s) (engine s) (mm s)
  (in_slot s) (out_ack s) (tick_to_order s) (rtt s) (sent s) (acked s ++ [a]) (hb s).
Definition set_hb (f : Native -> HappensBefore) s := mkNative (md s) (oe s) (rep s) (running s) (feeder s) (strat s) (engine s) (mm s)
  (in_slot s) (out_ack s) (tick_to_order s) (rtt s) (sent s) (acked s) (f s).

(** Signed arithmetic, undefined when it overflows. *)
Definition minus (x y : Z) : M Native Z := if bool_decide (is_i64 (x - y)) then mret (x - y) else ub.
Definition plus (x y : Z) : M Native Z := if bool_decide (is_i64 (x + y)) then mret (x + y) else ub.

(** ** Accesses to the sample vectors *)

(** The main thread loads the index the strategy releases. *)
Definition acquire_slots s := mkHb (released (hb s)) (released (hb s)) (told (hb s)) (knows (hb s)).
(** It releases a tick of the run. *)
Definition tell s := mkHb (released (hb s)) (acquired (hb s)) true (knows (hb s)).
(** The strategy loads the index the main thread releases. *)
Definition learn s := mkHb (released (hb s)) (acquired (hb s)) (told (hb s)) (told (hb s)).
(** It releases a slot. *)
Definition release_slot s := mkHb (length (tick_to_order s), length (rtt s)) (acquired (hb s)) (told (hb s)) (knows (hb s)).

(** Whether the main thread has emptied a vector. *)
Definition ticks_emptied (f : FeederAt) : bool := match f with FWarm _ | FClear => false | _ => true end.
Definition rtt_emptied (f : FeederAt) : bool := match f with FWarm _ | FClear | FClearRtt => false | _ => true end.

(** An access that another thread's is not ordered with is a data race. *)
Definition if_ordered (ordered : bool) (m : M Native unit) : M Native unit := if ordered then m else ub.

(** [clear()] on the main thread: every sample of the strategy's must come before. *)
Definition clear_ticks : M Native unit :=
  s ← get; if_ordered (fst (acquired (hb s)) =? length (tick_to_order s))%nat (modify (set_ticks (fun _ => []))).
Definition clear_rtt : M Native unit :=
  s ← get; if_ordered (snd (acquired (hb s)) =? length (rtt s))%nat (modify (set_rtt (fun _ => []))).

(** [push_back] on the strategy thread: the emptying must come after, or before. *)
Definition add_tick (d : Z) : M Native unit :=
  s ← get; if_ordered (negb (ticks_emptied (feeder s)) || knows (hb s)) (modify (set_ticks (fun l => l ++ [d]))).
Definition add_rtt (d : Z) : M Native unit :=
  s ← get; if_ordered (negb (rtt_emptied (feeder s)) || knows (hb s)) (modify (set_rtt (fun l => l ++ [d]))).

(** ** The main thread *)

(** The members of the slot the loops set; the rest holds anything. *)
Definition tick (tob0 : ShmTopOfBook) (seq n venue : Z) : ShmTopOfBook :=
  mkShmTob (type_code TopOfBook) (st_flags tob0) (st_seq tob0) (st_epoch tob0) (u64 seq) (500000 + n) (st_bid_qty tob0)
    (500020 + n) (st_ask_qty tob0) venue.

Definition push_tick (tob : ShmTopOfBook) : M Native bool :=
  modify (set_hb acquire_slots);; within md set_md (try_push (slot_bytes (MsgTob tob)) false).

Definition feeder_step (tob0 : ShmTopOfBook) (iterations : nat) (now : Z) : M Native unit :=
  s ← get;
  match feeder s with
  | FWarm i =>
      if (i <? kWarmTicks)%nat then
        pushed ← push_tick (tick tob0 (Z.of_nat i + 1) (Z.of_nat i mod 10) 0);   (* the verdict is not looked at *)
        modify (feed (FWarm (S i)))
      else modify (feed FClear)
  | FClear => clear_ticks;; modify (feed FClearRtt)
  | FClearRtt => clear_rtt;; modify (feed (FRun 0))
  | FRun i =>
      if (i <? iterations)%nat then modify (feed (FPush i (tick tob0 (Z.of_nat i + 1000) (Z.of_nat i mod 20) now)))
      else modify (feed FDrain)
  | FPush i tob => pushed ← push_tick tob; if pushed : bool then modify (set_hb tell);; modify (feed (FPaced i)) else mret tt
  | FPaced i => target ← plus now kPaceNs; modify (feed (FPace i target))
  | FPace i target => if now <? target then mret tt else modify (feed (FRun (S i)))
  | FDrain => modify (feed FStop)
  | FStop => modify (set_running false);; modify (feed FJoin)
  | FJoin => match engine s, strat s with EStopped, SStopped => modify (feed FDone) | _, _ => mret tt end
  | FDone => mret tt
  end.

(** ** The engine thread *)

Definition answer (m : ShmNewOrder) (a : ShmOrderAck) : ShmOrderAck :=
  mkShmAck (sa_tag a) (sa_pad a) (sn_seq m) (sa_epoch a) (sn_cl_id m) (sa_svc_ns a) (sn_send_ts_ns m) (sa_reserved a).

Definition engine_step : M Native unit :=
  s ← get;
  match engine s with
  | EPoll =>
      if running s then
        slot ← within oe set_oe try_pop;
        match slot with
        | Some x =>
            if slot_tag x =? type_code NewOrder then
              modify (set_out_ack (answer (as_new_order x) (out_ack s)));;
              modify (set_engine ESend)
            else mret tt
        | None => mret tt
        end
      else modify (set_engine EStopped)
  | ESend =>
      pushed ← within rep set_rep (try_push (slot_bytes (MsgAck (out_ack s))) false);
      if pushed : bool then modify (set_engine EPoll) else mret tt
  | EStopped => mret tt
  end.

(** ** The strategy thread *)

Definition stamp_order (ts : Z) (m : ShmNewOrder) : ShmNewOrder :=
  mkShmNew (sn_tag m) (sn_side m) (sn_post_only m) (sn_seq m) (sn_epoch m) (sn_md_seq m) (sn_cl_id m) (sn_px m) (sn_qty m)
    ts (sn_reserved m).

Definition strat_turn (now : Z) : M Native unit :=
  s ← get;
  match strat s with
  | SPoll =>
      if running s then
        modify (set_hb learn);;
        slot ← within md set_md try_pop;
        match slot with
        | Some x =>
            modify (set_hb release_slot);;
            modify (set_in_slot x);;
            if slot_tag x =? type_code TopOfBook then
              decision ← within mm set_mm (on_tob (as_tob x) 0);
              modify (go (match new_bid decision with Some bid => SBid bid | None => SReports end))
            else modify (go SReports)
        | None => modify (go SReports)
        end
      else modify (go SStopped)
  | SBid bid =>
      let t_tick := st_venue_ns (as_tob (in_slot s)) in
      (if 0 <? t_tick then d ← minus now t_tick; add_tick d else mret tt);;
      modify (go (SPush (stamp_order now bid)))
  | SPush order =>
      pushed ← within oe set_oe (try_push (slot_bytes (MsgNew order)) false);
      if pushed : bool then modify (log_sent order);; modify (go SReports) else mret tt
  | SReports =>
      slot ← within rep set_rep try_pop;
      match slot with
      | Some x =>
          modify (set_in_slot x);;
          modify (go (if slot_tag x =? type_code OrderAck then SAcked else SPoll))
      | None => modify (go SPoll)
      end
  | SAcked =>
      let ack := as_ack (in_slot s) in
      (if 0 <? sa_engine_ts_ns ack then d ← minus now (sa_engine_ts_ns ack); add_rtt d else mret tt);;
      within mm set_mm (on_ack ack);;
      modify (log_acked ack);;
      modify (go SPoll)
  | SStopped => mret tt
  end.

Inductive Thread := MainThread | StratThread | EngineThread.

Definition native_step (tob0 : ShmTopOfBook) (iterations : nat) (turn : Thread * Z) : M Native unit :=
  match turn.1 with
  | MainThread => feeder_step tob0 iterations turn.2
  | StratThread => strat_turn turn.2
  | EngineThread => engine_step
  end.

Fixpoint native_run (tob0 : ShmTopOfBook) (iterations : nat) (turns : list (Thread * Z)) : M Native unit :=
  match turns with [] => mret tt | t :: ts => native_step tob0 iterations t;; native_run tob0 iterations ts end.

Definition start (md_ring oe_ring rep_ring : Segment) (ack0 : ShmOrderAck) : Native :=
  mkNative md_ring oe_ring rep_ring true (FWarm 0) SPoll EPoll (new_strategy default_strategy) zero_slot
    (mkShmAck (type_code OrderAck) (sa_pad ack0) (sa_seq ack0) (sa_epoch ack0) (sa_cl_id ack0) (sa_svc_ns ack0)
       (sa_engine_ts_ns ack0) (sa_reserved ack0)) [] [] [] [] (mkHb (0, 0) (0, 0) false false)%nat.

(** ** What the strategy sends fits its slot *)

Record sound (s : Strategy) : Prop := {
  so_bounded : bounded 0 s;
  so_seq : in_width (U 4) (seq_ s);
  so_id : in_width (U 8) (next_cl_id_ s);
  so_size : is_i64 (order_size (config_ s));
  so_tob : is_i64 (last_tob_ns_ s);
}.

(** An order the strategy posts, before it is stamped. *)
Definition posted (m : ShmNewOrder) : Prop := fits (MsgNew m) /\ sn_tag m = type_code NewOrder.

Lemma in_u32 n : in_width (U 4) (u32 n).
Proof. cbn. by apply Z.mod_pos_bound. Qed.
Lemma in_u64 n : in_width (U 8) (u64 n).
Proof. cbn. by apply Z.mod_pos_bound. Qed.

Lemma sound_ids s seq id b a bp ap :
  sound s -> in_width (U 4) seq -> in_width (U 8) id ->
  sound (mkStrategy (config_ s) id seq (position_ s) (realized_pnl_ s) b a bp ap (last_md_seq_ s) (last_tob_ns_ s)
           (fill_count_ s) (ack_count_ s) (reject_count_ s)).
Proof. by intros []. Qed.

Lemma cancel_sends side s o : sound s ->
  exists c s', cancel_quote side s o = (Ret c, s', o) /\ sound s' /\ money s' = money s.
Proof.
  intros Hs. do 2 eexists. split; [reflexivity|]. destruct side; (split; [|done]); apply (sound_ids s); try done;
    solve [apply in_u32|apply Hs].
Qed.

Lemma post_sends side md px s o : sound s -> in_width (U 8) md -> is_i64 px ->
  exists m s', post_quote side md px s o = (Ret m, s', o) /\ sound s' /\ money s' = money s /\ posted m.
Proof.
  intros Hs Hmd Hpx. do 2 eexists. split; [reflexivity|].
  split; [destruct side; apply (sound_ids s); try done; solve [apply in_u32|apply in_u64]|]. split; [by destruct side|].
  split; [|done]. unfold fits. cbn. rewrite !Forall2_cons. destruct Hs. by split_and!; try done; destruct side.
Qed.

Lemma manage_sends side b md px s o : sound s -> in_width (U 8) md -> is_i64 px ->
  exists r s', manage side b md px s o = (Ret r, s', o) /\ sound s' /\ money s' = money s /\
    forall m, r.2 = Some m -> posted m.
Proof.
  intros Hs Hmd Hpx. unfold manage, mbind, M_bind, get.
  destruct (cancel_sends side s o Hs) as (c & s1 & E1 & H1 & M1). destruct b.
  - destruct (negb (active_id side s =? 0) && _).
    + rewrite E1. cbn [mret M_ret]. destruct (active_id side s1 =? 0); [|by do 2 eexists].
      destruct (post_sends side md px s1 o H1 Hmd Hpx) as (m & s2 & E2 & H2 & M2 & Hm). rewrite E2. do 2 eexists.
      split; [reflexivity|]. split; [done|]. split; [congruence|]. by intros m' [= <-].
    + cbn [mret M_ret]. destruct (active_id side s =? 0); [|by do 2 eexists].
      destruct (post_sends side md px s o Hs Hmd Hpx) as (m & s2 & E2 & H2 & M2 & Hm). rewrite E2. do 2 eexists.
      split; [reflexivity|]. split; [done|]. split; [done|]. by intros m' [= <-].
  - destruct (negb _); [rewrite E1|]; by do 2 eexists.
Qed.

(** A tick of the feeder's prices. *)
Definition quotable (t : ShmTopOfBook) : Prop :=
  in_width (U 8) (st_md_seq t) /\ is_i64 (st_venue_ns t) /\ Z.abs (st_bid_px t) <= 2 ^ 60 /\ Z.abs (st_ask_px t) <= 2 ^ 60.

Lemma manage_step {B} side b md px (k : _ -> M Strategy B) s o (Q : outcome B * Strategy * oracle -> Prop) :
  sound s -> in_width (U 8) md -> is_i64 px ->
  (forall r s', sound s' -> money s' = money s -> (forall m, r.2 = Some m -> posted m) -> Q (k r s' o)) ->
  Q ((manage side b md px ≫= k) s o).
Proof.
  intros Hs Hmd Hpx HQ. destruct (manage_sends side b md px s o Hs Hmd Hpx) as (r & s' & E & Hs' & Hm & Hp).
  unfold mbind, M_bind. rewrite E. by apply HQ.
Qed.

Definition decided (r : outcome StrategyDecision * Strategy * oracle) (o : oracle) : Prop :=
  exists d s', r = (Ret d, s', o) /\ sound s' /\ forall m, new_bid d = Some m -> posted m.

Lemma on_tob_decides t s o : sound s -> quotable t -> decided (on_tob t 0 s o) o.
Proof.
  intros Hs (Hmd & Hv & Hbid & Hask). unfold on_tob, modify. unfold mbind at 1, M_bind at 1. set (s1 := set_tick _ _ s).
  assert (sound s1) as Hs1 by (by destruct Hs). destruct (_ || _).
  - unfold cancel_all. apply manage_step; [done..|]. intros r s2 H2 _ _. apply manage_step; [done..|]. intros r' s3 H3 _ _. by do 2 eexists.
  - unfold mbind at 1, M_bind at 1. cbn [get]. destruct (so_bounded _ Hs1) as ([Hhs Hmax] & Hpos & _).
    change (position_ s1) with (position_ s) in *. change (config_ s1) with (config_ s) in *.
    assert (position_ s = 0) as -> by lia. assert (Z.quot (0 * 2) 10 = 0) as Hq by done.
    pose proof (Z.quot_rem' (st_bid_px t + st_ask_px t) 2). pose proof (Z.rem_bound_abs (st_bid_px t + st_ask_px t) 2 ltac:(lia)).
    change (2 ^ 60) with 1152921504606846976 in *. change (2 ^ 63) with 9223372036854775808 in *.
    do 6 (rewrite i64_returns; [|unfold is_i64, two63; lia]).
    apply manage_step; [done|done|unfold is_i64, two63; lia|]. intros r s2 H2 M2 Hp. rewrite i64_returns by (unfold is_i64, two63; lia).
    apply manage_step; [done|done|unfold is_i64, two63; lia|]. intros r' s3 H3 _ _. by do 2 eexists.
Qed.

(** ** The invariant of the pipeline *)

Abbreviation order_slot m := (slot_bytes (MsgNew m)).
Abbreviation ack_slot a := (slot_bytes (MsgAck a)).

Definition tick_slot (now : Z) (x : ShmSlot) : Prop :=
  exists t, x = slot_bytes (MsgTob t) /\ fits (MsgTob t) /\ quotable t /\ st_tag t = type_code TopOfBook /\ 0 <= st_venue_ns t <= now.
Definition order_ok (now : Z) (m : ShmNewOrder) : Prop :=
  fits (MsgNew m) /\ sn_tag m = type_code NewOrder /\ 0 <= sn_send_ts_ns m <= now.
Definition ack_ok (now : Z) (a : ShmOrderAck) : Prop :=
  fits (MsgAck a) /\ sa_tag a = type_code OrderAck /\ 0 <= sa_engine_ts_ns a <= now.

(** What an acknowledgement echoes of its order. *)
Definition order_key (m : ShmNewOrder) : Z * Z * Z := (sn_cl_id m, sn_seq m, sn_send_ts_ns m).
Definition ack_key (a : ShmOrderAck) : Z * Z * Z := (sa_cl_id a, sa_seq a, sa_engine_ts_ns a).

(** The acknowledgement a thread has in hand. *)
Definition at_engine (s : Native) : list ShmOrderAck := match engine s with ESend => [out_ack s] | _ => [] end.
Definition at_strat (s : Native) : list ShmOrderAck := match strat s with SAcked => [as_ack (in_slot s)] | _ => [] end.
(** The order it has pushed since its last look at the reports. *)
Definition slack (p : StratAt) : nat := match p with SReports => 1 | _ => 0 end.

(** *** The order of the accesses *)

(** A tick of the warm-up, for which the strategy takes no sample. *)
Definition silent (x : ShmSlot) : Prop := st_venue_ns (as_tob x) = 0.
Definition warming (f : FeederAt) : bool := match f with FWarm _ | FClear | FClearRtt => true | _ => false end.
Definition in_hand (s : Native) : option ShmSlot := match strat s with SBid _ => Some (in_slot s) | _ => None end.

(** Until the strategy knows of the run it has taken no tick sample, and is about to
    take none. *)
Definition quiet_of (w : bool) (x : option ShmSlot) (h : HappensBefore) (ticks : list Z) : Prop :=
  (w = true -> told h = false) /\ (told h = false -> knows h = false) /\
  (knows h = false -> ticks = [] /\ fst (released h) = 0%nat /\ fst (acquired h) = 0%nat /\ from_option silent True x).
Definition quiet (s : Native) : Prop := quiet_of (warming (feeder s)) (in_hand s) (hb s) (tick_to_order s).

(** The round-trip vector is raced: the main thread is about to empty it, and some
    sample in it is not ordered before; or the strategy is about to append to it,
    and its emptying is not. *)
Definition rtt_race (s : Native) : Prop :=
  (feeder s = FClearRtt /\ snd (acquired (hb s)) <> length (rtt s)) \/
  (strat s = SAcked /\ 0 < sa_engine_ts_ns (as_ack (in_slot s)) /\ rtt_emptied (feeder s) = true /\ knows (hb s) = false).

(** Readings of the clock up to the last pause before it overflows. *)
Definition in_time (now : Z) : Prop := 0 <= now /\ now + kPaceNs < two63.

Section Pipeline.
Context (cap : nat).

Record flows (now : Z) (s : Native) (qm : list ShmSlot) (os : list ShmNewOrder) (acks : list ShmOrderAck) : Prop := {
  fl_md : exists h n, holds cap h qm n (md s);
  fl_oe : exists h n, holds cap h (map (fun m => order_slot m) os) n (oe s);
  fl_rep : exists h n, holds cap h (map (fun a => ack_slot a) acks) n (rep s);
  fl_ticks : Forall (tick_slot now) qm;
  fl_orders : Forall (order_ok now) os;
  fl_acks : Forall (ack_ok now) acks;
  fl_keys : map order_key (sent s) = map ack_key (acked s ++ at_strat s ++ acks ++ at_engine s) ++ map order_key os;
  fl_quiet : told (hb s) = false -> Forall silent qm;
  fl_out : (length os + length acks + length (at_engine s) <= cap + 1 + slack (strat s))%nat;
}.

Definition at_ok (now : Z) (s : Native) : Prop :=
  match strat s with
  | SBid m => posted m /\ tick_slot now (in_slot s)
  | SPush m => order_ok now m
  | SAcked => exists a, in_slot s = ack_slot a /\ ack_ok now a
  | _ => True
  end.
Definition feeds_ok (now : Z) (s : Native) : Prop :=
  match feeder s with FPush _ t => tick_slot now (slot_bytes (MsgTob t)) | _ => True end.

Record native_inv (now : Z) (s : Native) : Prop := {
  ni_now : in_time now;
  ni_flows : exists qm os acks, flows now s qm os acks;
  ni_mm : sound (mm s);
  ni_out : fits (MsgAck (out_ack s)) /\ sa_tag (out_ack s) = type_code OrderAck;
  ni_send : engine s = ESend -> 0 <= sa_engine_ts_ns (out_ack s) <= now;
  ni_strat : at_ok now s;
  ni_feeder : feeds_ok now s;
  ni_samples : Forall (fun d => 0 <= d) (tick_to_order s) /\ Forall (fun d => 0 <= d) (rtt s);
  ni_quiet : quiet s;
}.

(** A turn that keeps the invariant, or ends in the race. *)
Definition steps (now : Z) (r : outcome unit * Native * oracle) (s : Native) (o : oracle) : Prop :=
  (exists s', r = (Ret tt, s', o) /\ native_inv now s') \/ (r = (UB, s, o) /\ rtt_race s).

Lemma tick_slot_later now now' x : now <= now' -> tick_slot now x -> tick_slot now' x.
Proof. intros Hle (t & -> & ? & ? & ? & ?). exists t. split_and!; try done; lia. Qed.
Lemma order_ok_later now now' m : now <= now' -> order_ok now m -> order_ok now' m.
Proof. intros Hle (? & ? & ?). split_and!; try done; lia. Qed.
Lemma ack_ok_later now now' a : now <= now' -> ack_ok now a -> ack_ok now' a.
Proof. intros Hle (? & ? & ?). split_and!; try done; lia. Qed.

Lemma native_later now now' s : native_inv now s -> now <= now' -> in_time now' -> native_inv now' s.
Proof.
  intros [] Hle Hb. constructor; try done.
  - destruct ni_flows0 as (qm & os & acks & []). exists qm, os, acks. constructor; try done.
    + eapply Forall_impl; [exact fl_ticks0|intros x; by apply tick_slot_later].
    + eapply Forall_impl; [exact fl_orders0|intros x; by apply order_ok_later].
    + eapply Forall_impl; [exact fl_acks0|intros x; by apply ack_ok_later].
  - intros E. specialize (ni_send0 E). lia.
  - unfold at_ok in *. destruct (strat s); try done; [|by eapply order_ok_later|].
    + destruct ni_strat0 as [? ?]. split; [done|by eapply tick_slot_later].
    + destruct ni_strat0 as (a & ? & ?). exists a. split; [done|by eapply ack_ok_later].
  - unfold feeds_ok in *. destruct (feeder s); try done. by eapply tick_slot_later.
Qed.

Lemma tag_tob t : fits (MsgTob t) -> slot_tag (slot_bytes (MsgTob t)) = st_tag t.
Proof. intros Hf. rewrite slot_tag_slot by done. by destruct t. Qed.
Lemma tag_new m : fits (MsgNew m) -> slot_tag (order_slot m) = sn_tag m.
Proof. intros Hf. rewrite slot_tag_slot by done. by destruct m. Qed.
Lemma tag_ack a : fits (MsgAck a) -> slot_tag (ack_slot a) = sa_tag a.
Proof. intros Hf. rewrite slot_tag_slot by done. by destruct a. Qed.

(** A turn that leaves the rings alone. *)
Lemma flows_same now s s' qm os acks :
  flows now s qm os acks -> md s' = md s -> oe s' = oe s -> rep s' = rep s -> sent s' = sent s -> told (hb s') = told (hb s) ->
  acked s' ++ at_strat s' = acked s ++ at_strat s -> at_engine s' = at_engine s -> (slack (strat s) <= slack (strat s'))%nat ->
  flows now s' qm os acks.
Proof.
  intros [] E1 E2 E3 E4 Eh E5 E6 Hs. constructor; rewrite ?E1, ?E2, ?E3, ?E4, ?Eh; try done; [|rewrite E6; lia].
  rewrite app_assoc, E5, E6, <- app_assoc. done.
Qed.

Ltac keep_flows :=
  match goal with H : exists qm os acks, flows _ _ qm os acks |- _ =>
    let qm := fresh "qm" in let os := fresh "os" in let acks := fresh "acks" in let F := fresh "F" in
    destruct H as (qm & os & acks & F); exists qm, os, acks; eapply flows_same; [exact F|try done..] end.

(** *** Turns of the main thread *)

Lemma push_any h q n r slot o : holds cap h q n r ->
  exists b r', try_push slot false r o = (Ret b, r', o) /\
    (b = true /\ holds cap h (q ++ [slot]) n r' \/ b = false /\ r' = r /\ (cap <= length q)%nat).
Proof.
  intros Hr. destruct (Nat.lt_ge_cases (length q) cap) as [Hlt|Hge].
  - destruct (push_room Hr slot false o Hlt) as (r' & E & Hr'). exists true, r'. auto.
  - exists false, r. split; [by apply (push_full Hr)|]. auto.
Qed.

Lemma tick_fits tob0 seq n venue :
  fits (MsgTob tob0) -> 0 <= n < 20 -> is_i64 venue -> fits (MsgTob (tick tob0 seq n venue)).
Proof.
  intros Hf Hn Hv. pose proof (in_u64 seq) as Hs.
  assert (is_i64 (500000 + n) /\ is_i64 (500020 + n)) as [? ?] by (unfold is_i64, two63 in *; lia).
  revert Hf. unfold fits. destruct tob0. cbn. rewrite !Forall2_cons. intros (?&?&?&?&?&?&?&?&?&?&?). by split_and!.
Qed.

Lemma tick_ok tob0 seq n venue now :
  fits (MsgTob tob0) -> 0 <= n < 20 -> 0 <= venue <= now -> in_time now -> tick_slot now (slot_bytes (MsgTob (tick tob0 seq n venue))).
Proof.
  intros Hf Hn Hv [Ht1 Ht2]. unfold kPaceNs in Ht2. assert (is_i64 venue) as Hi by (unfold is_i64, two63 in *; lia).
  eexists. split; [reflexivity|]. split; [by apply tick_fits|]. split; [|done]. pose proof (in_u64 seq) as Hs.
  unfold quotable. cbn [tick st_md_seq st_venue_ns st_bid_px st_ask_px]. change (2 ^ 60) with 1152921504606846976.
  split_and!; try done; lia.
Qed.

(** After a push of the main thread's, which leaves [told] at [b]. *)
Definition fed (f : FeederAt) (g : Segment) (b : bool) (s : Native) : Native :=
  feed f (set_hb (fun s => mkHb (released (hb s)) (released (hb s)) b (knows (hb s))) (set_md g s)).

(** Pushing a tick, from anywhere in the feeder's loops. *)
Lemma feed_tick now s t o :
  native_inv now s -> tick_slot now (slot_bytes (MsgTob t)) ->
  exists b g, push_tick t s o = (Ret b, set_md g (set_hb acquire_slots s), o) /\
    forall f b', feeds_ok now (feed f s) -> (warming f = true -> b' = false) ->
      (b' = false -> told (hb s) = false /\ (b = true -> silent (slot_bytes (MsgTob t)))) ->
      native_inv now (fed f g b' s).
Proof.
  intros I Ht. destruct (ni_flows _ _ I) as (qm & os & acks & F). destruct (fl_md _ _ _ _ _ F) as (h & n & Hr).
  destruct (push_any h qm n (md s) (slot_bytes (MsgTob t)) o Hr) as (b & g & E & Hb). exists b, g.
  split; [exact (within_ret md set_md _ (set_hb acquire_slots s) b g o E)|].
  intros f b' Hf Hw Hq. destruct I. constructor; try done.
  - destruct Hb as [[-> Hr']|(-> & -> & _)]; [exists (qm ++ [slot_bytes (MsgTob t)])|exists qm]; exists os, acks; destruct F; constructor; try done.
    + by exists h, n.
    + apply Forall_app_2; [done|by apply Forall_singleton].
    + intros Hb'. destruct (Hq Hb') as [Hq1 Hq2]. apply Forall_app_2; [by apply fl_quiet0|apply Forall_singleton; by apply Hq2].
    + intros Hb'. by apply fl_quiet0, Hq.
  - destruct ni_quiet0 as (_ & Q2 & Q3). split; [done|]. split; [intros [? _]%Hq; by apply Q2|].
    intros Hk. by destruct (Q3 Hk) as (? & ? & _ & ?).
Qed.

(** Moving the feeder. *)
Lemma feed_to now s f :
  native_inv now s -> feeds_ok now (feed f s) -> (warming f = true -> warming (feeder s) = true) -> native_inv now (feed f s).
Proof.
  intros [] Hf Hw. constructor; try done; [keep_flows|]. destruct ni_quiet0 as (Q1 & Q2). split; [intros ?%Hw; by apply Q1|done].
Qed.

(** Nothing that is emptied before the run was filled before it. *)
Lemma quiet_warming s : quiet s -> warming (feeder s) = true -> tick_to_order s = [] /\ fst (acquired (hb s)) = 0%nat.
Proof. intros (Q1 & Q2 & Q3) Hw. by destruct (Q3 (Q2 (Q1 Hw))) as (? & _ & ? & _). Qed.

Lemma silent_tick tob0 seq n : fits (MsgTob (tick tob0 seq n 0)) -> silent (slot_bytes (MsgTob (tick tob0 seq n 0))).
Proof. intros Hf. unfold silent. by rewrite (as_tob_slot _ Hf). Qed.

Lemma steps_to now s s' o r : r = (Ret tt, s', o) -> native_inv now s' -> steps now r s o.
Proof. left. eauto. Qed.

Lemma clear_ok now s o :
  native_inv now s -> feeder s = FClear \/ feeder s = FClearRtt -> forall tob0 iterations, steps now (feeder_step tob0 iterations now s o) s o.
Proof.
  intros I Hf tob0 iterations. unfold feeder_step, mbind, M_bind, get. destruct Hf as [Ef|Ef]; rewrite Ef.
  - assert (warming (feeder s) = true) as Hw by by rewrite Ef.
    unfold clear_ticks, mbind, M_bind, get. destruct (quiet_warming s (ni_quiet _ _ I) Hw) as [-> ->]. cbn [Nat.eqb length if_ordered].
    eapply steps_to; [reflexivity|]. destruct I. constructor; try done; [keep_flows|by split; [|apply ni_samples0]|].
    destruct ni_quiet0 as (Q1 & Q2 & Q3). split; [intros _; by apply Q1|]. split; [done|]. intros Hk. by destruct (Q3 Hk) as (_ & ?).
  - unfold clear_rtt, mbind, M_bind, get. destruct (Nat.eqb_spec (snd (acquired (hb s))) (length (rtt s))) as [E|E]; cbn [if_ordered].
    + eapply steps_to; [reflexivity|]. destruct I. constructor; try done; [keep_flows|by split; [apply ni_samples0|]|].
      destruct ni_quiet0 as (Q1 & Q2 & Q3). by split.
    + right. split; [done|]. by left.
Qed.

Lemma feeder_ok tob0 iterations now s o :
  fits (MsgTob tob0) -> native_inv now s -> steps now (feeder_step tob0 iterations now s o) s o.
Proof.
  intros Hf I. pose proof (ni_now _ _ I) as [Hn1 Hn2]. destruct (feeder s) as [i| | |i|i t|i|i target| | | |] eqn:Ef;
    [|by apply clear_ok; auto|by apply clear_ok; auto|..]; unfold feeder_step, mbind, M_bind, get; rewrite Ef.
  - destruct (i <? kWarmTicks)%nat; [|by eapply steps_to; [reflexivity|]; apply feed_to; [| |rewrite Ef]].
    assert (tick_slot now (slot_bytes (MsgTob (tick tob0 (Z.of_nat i + 1) (Z.of_nat i mod 10) 0)))) as Ht.
    { pose proof (Z.mod_pos_bound (Z.of_nat i) 10). apply tick_ok; [done|lia|lia|done]. }
    destruct (feed_tick now s _ o I Ht) as (b & g & E & Hn). rewrite E. eapply steps_to; [reflexivity|].
    destruct (ni_quiet _ _ I) as (Q1 & _). rewrite Ef in Q1. specialize (Q1 eq_refl).
    apply (Hn (FWarm (S i)) (told (hb s))); [done|done|]. intros _. split; [done|]. intros _.
    pose proof (Z.mod_pos_bound (Z.of_nat i) 10). apply silent_tick, tick_fits; [done|lia|done].
  - destruct (i <? iterations)%nat; [|by eapply steps_to; [reflexivity|]; apply feed_to].
    eapply steps_to; [reflexivity|]. apply feed_to; [done| |done]. cbn. pose proof (Z.mod_pos_bound (Z.of_nat i) 20).
    apply tick_ok; [done|lia|lia|done].
  - pose proof (ni_feeder _ _ I) as Ht. unfold feeds_ok in Ht. rewrite Ef in Ht.
    destruct (feed_tick now s t o I Ht) as (b & g & E & Hn). rewrite E. destruct b; eapply steps_to; try reflexivity.
    + by apply (Hn (FPaced i) true).
    + assert (set_md g (set_hb acquire_slots s) = fed (feeder s) g (told (hb s)) s) as -> by by destruct s.
      apply Hn; [by rewrite Ef|by rewrite Ef|done].
  - unfold plus. rewrite bool_decide_eq_true_2 by (unfold is_i64, kPaceNs, two63 in *; lia). eapply steps_to; [reflexivity|]. by apply feed_to.
  - destruct (now <? target); [by eapply steps_to|]. eapply steps_to; [reflexivity|]. by apply feed_to.
  - eapply steps_to; [reflexivity|]. by apply feed_to.
  - eapply steps_to; [reflexivity|]. destruct I. constructor; try done; [keep_flows|]. by destruct ni_quiet0 as (_ & ?).
  - destruct (engine s); try by eapply steps_to. destruct (strat s); try by eapply steps_to. eapply steps_to; [reflexivity|]. by apply feed_to.
  - by eapply steps_to.
Qed.

(** *** Turns of the engine *)

Lemma fits_echo m a : fits (MsgNew m) -> fits (MsgAck a) -> fits (MsgAck (answer m a)).
Proof. unfold fits. destruct m, a. cbn. rewrite !Forall2_cons. naive_solver. Qed.

Lemma engine_ok now s o :
  native_inv now s -> exists s', engine_step s o = (Ret tt, s', o) /\ native_inv now s'.
Proof.
  intros I. destruct (ni_flows _ _ I) as (qm & os & acks & F). unfold engine_step, mbind, M_bind, get.
  destruct (engine s) eqn:Ee; [destruct (running s)| |by exists s].
  - destruct (fl_oe _ _ _ _ _ F) as (h & n & Hr). destruct os as [|m os].
    + rewrite (within_ret _ _ _ _ _ _ _ (pop_none Hr o eq_refl)). exists s. split; [|done]. by destruct s.
    + destruct (pop_first _ _ _ _ _ _ o Hr) as (g & E & Hg). rewrite (within_ret _ _ _ _ _ _ _ E).
      pose proof (fl_orders _ _ _ _ _ F) as [(Hf & Htag & Hts) Hos]%Forall_cons.
      rewrite (tag_new m Hf), Htag, Z.eqb_refl, (as_new_order_slot m Hf). eexists. split; [reflexivity|].
      destruct I. destruct ni_out0 as [Ho Ht]. constructor; try done; [|by split; [apply fits_echo|]].
      exists qm, os, acks. destruct F. constructor; cbn in *; try done; [by exists (h + 1), n| |].
      * rewrite fl_keys0. unfold at_engine. rewrite Ee. cbn. rewrite !map_app, <- ?app_assoc. cbn. done.
      * unfold at_engine in *. rewrite Ee in fl_out0. cbn in *. lia.
  - eexists. split; [reflexivity|]. destruct I. constructor; try done. keep_flows. unfold at_engine. cbn. by rewrite Ee.
  - destruct (fl_rep _ _ _ _ _ F) as (h & n & Hr). destruct (push_any h _ n (rep s) (ack_slot (out_ack s)) o Hr) as (b & g & E & Hb).
    rewrite (within_ret _ _ _ _ _ _ _ E). destruct Hb as [[-> Hg]|(-> & -> & _)]; [|exists s; split; [by destruct s|done]].
    eexists. split; [reflexivity|]. destruct I. constructor; try done.
    exists qm, os, (acks ++ [out_ack s]). destruct F. constructor; cbn in *; try done.
    + exists h, n. by rewrite map_app.
    + apply Forall_app_2; [done|]. apply Forall_singleton. split; [apply ni_out0|]. split; [apply ni_out0|by apply ni_send0].
    + rewrite fl_keys0. unfold at_engine. rewrite Ee. cbn. by rewrite app_nil_r.
    + unfold at_engine in *. rewrite Ee in fl_out0. cbn in *. rewrite length_app. cbn. lia.
Qed.

(** *** Turns of the strategy *)

Lemma quiet_free s s' :
  quiet s -> feeder s' = feeder s -> hb s' = hb s -> tick_to_order s' = tick_to_order s -> in_hand s' = None -> quiet s'.
Proof.
  unfold quiet. intros (Q1 & Q2 & Q3) -> -> -> ->. split; [done|]. split; [done|]. intros Hk. by destruct (Q3 Hk) as (? & ? & ? & _).
Qed.

(** A poll of the ticks teaches the strategy what the main thread released. *)
Lemma learn_quiet s : quiet s -> told (hb s) = false -> tick_to_order s = [] /\ fst (released (hb s)) = 0%nat /\ fst (acquired (hb s)) = 0%nat.
Proof. intros (_ & Q2 & Q3) Ht. by destruct (Q3 (Q2 Ht)) as (? & ? & ? & _). Qed.

Lemma poll_none now s :
  native_inv now s -> strat s = SPoll -> native_inv now (go SReports (set_md (md s) (set_hb learn s))).
Proof.
  intros I Es. destruct (ni_flows _ _ I) as (qm & os & acks & F). pose proof (learn_quiet _ (ni_quiet _ _ I)) as Hl.
  destruct I. constructor; try done.
  - exists qm, os, acks. eapply flows_same; [exact F|try done..|rewrite Es; cbn; lia]. cbn. unfold at_strat. by rewrite Es.
  - destruct ni_quiet0 as (Q1 & _). split; [done|]. split; [done|]. intros Ht. by destruct (Hl Ht) as (? & ? & ?).
Qed.

Lemma poll_some now s h x qm n g os acks m' p :
  native_inv now s -> strat s = SPoll -> flows now s (x :: qm) os acks -> holds cap (h + 1) qm n g -> sound m' ->
  (p = SReports \/ exists m, p = SBid m /\ posted m) ->
  native_inv now (go p (set_mm m' (set_in_slot x (set_hb release_slot (set_md g (set_hb learn s)))))).
Proof.
  intros I Es F Hg Hm Hp. pose proof (learn_quiet _ (ni_quiet _ _ I)) as Hl. destruct I.
  pose proof (fl_ticks _ _ _ _ _ F) as [Hx Hqm]%Forall_cons. constructor; try done.
  - exists qm, os, acks. destruct F. constructor; cbn in *; try done; [by exists (h + 1), n| |by intros [? ?]%fl_quiet0%Forall_cons|].
    + rewrite fl_keys0. unfold at_strat. rewrite Es. cbn. by destruct Hp as [->|(m & -> & _)].
    + rewrite Es in fl_out0. unfold at_engine in *. cbn in *. lia.
  - unfold at_ok. cbn. by destruct Hp as [->|(m & -> & ?)].
  - destruct ni_quiet0 as (Q1 & _). split; [done|]. split; [done|]. intros Ht. destruct (Hl Ht) as (E & ? & ?).
    cbn. rewrite E. split_and!; try done. apply (fl_quiet _ _ _ _ _ F) in Ht as [Hs _]%Forall_cons.
    by destruct Hp as [->|(m & -> & _)].
Qed.

Lemma poll_ok now s o :
  native_inv now s -> strat s = SPoll -> exists s', strat_turn now s o = (Ret tt, s', o) /\ native_inv now s'.
Proof.
  intros I Es. destruct (ni_flows _ _ I) as (qm & os & acks & F). unfold strat_turn, mbind, M_bind, get. rewrite Es.
  destruct (running s).
  - unfold modify at 1. destruct (fl_md _ _ _ _ _ F) as (h & n & Hr). destruct qm as [|x qm].
    + rewrite (within_ret md set_md try_pop (set_hb learn s) None (md s) o (pop_none Hr o eq_refl)).
      eexists. split; [reflexivity|]. by apply poll_none.
    + destruct (pop_first _ _ _ _ _ _ o Hr) as (g & E & Hg). rewrite (within_ret md set_md try_pop (set_hb learn s) _ g o E).
      pose proof (fl_ticks _ _ _ _ _ F) as [(t & -> & Hf & Hq & Htag & Hv) _]%Forall_cons.
      rewrite (tag_tob t Hf), Htag, Z.eqb_refl, (as_tob_slot t Hf).
      destruct (on_tob_decides t (mm s) o (ni_mm _ _ I) Hq) as (d & m' & Ed & Hm & Hp).
      unfold modify at 1, modify at 1.
      rewrite (within_ret mm set_mm (on_tob t 0) (set_in_slot (slot_bytes (MsgTob t)) (set_hb release_slot (set_md g (set_hb learn s)))) d m' o Ed).
      eexists. split; [reflexivity|]. eapply poll_some; try done. destruct (new_bid d) as [m|]; [|by left]. right. exists m. auto.
  - eexists. split; [reflexivity|]. destruct I. constructor; try done.
    + exists qm, os, acks. eapply flows_same; [exact F|try done..|rewrite Es; cbn; lia]. cbn. unfold at_strat. by rewrite Es.
    + by apply (quiet_free s).
Qed.

(** A difference of two readings. *)
Lemma minus_ok now t s o : in_time now -> 0 <= t <= now -> minus now t s o = (Ret (now - t), s, o) /\ 0 <= now - t.
Proof.
  intros [? Hn] Ht. unfold minus. rewrite bool_decide_eq_true_2; [split; [done|lia]|]. unfold is_i64, kPaceNs, two63 in *. lia.
Qed.

Lemma bid_ok now s m o :
  native_inv now s -> strat s = SBid m -> exists s', strat_turn now s o = (Ret tt, s', o) /\ native_inv now s'.
Proof.
  intros I Es. pose proof (ni_now _ _ I) as Hn. pose proof (ni_strat _ _ I) as Hat. unfold at_ok in Hat. rewrite Es in Hat.
  destruct Hat as [[Hf Htag] (t & Ex & Hft & _ & _ & Hv)]. unfold strat_turn, mbind, M_bind, get. rewrite Es, Ex, (as_tob_slot t Hft).
  destruct (minus_ok now (st_venue_ns t) s o Hn Hv) as [Em Hd].
  assert (order_ok now (stamp_order now m)) as Hm.
  { split; [|split; [done|cbn; destruct Hn; lia]]. destruct Hn as [? Hn2]. unfold kPaceNs in Hn2.
    assert (is_i64 now) by (unfold is_i64, two63 in *; lia). revert Hf. unfold fits. destruct m. cbn. rewrite !Forall2_cons. naive_solver. }
  destruct (ni_quiet _ _ I) as (Q1 & Q2 & Q3). destruct (Z.ltb_spec 0 (st_venue_ns t)) as [Hpos|_].
  - assert (knows (hb s) = true) as Hk.
    { destruct (knows (hb s)); [done|]. destruct (Q3 eq_refl) as (_ & _ & _ & Hs). unfold in_hand in Hs. rewrite Es, Ex in Hs.
      cbn in Hs. unfold silent in Hs. rewrite (as_tob_slot t Hft) in Hs. lia. }
    rewrite Em. unfold add_tick, mbind, M_bind, get. rewrite Hk, orb_true_r. cbn [if_ordered].
    eexists. split; [reflexivity|]. destruct I. constructor; try done; [keep_flows; cbn; unfold at_strat; by rewrite Es| |].
    + destruct ni_samples0 as [Ht Hrtt]. split; [|exact Hrtt]. cbn. apply Forall_app_2; [done|by apply Forall_singleton].
    + split; [done|]. split; [done|]. cbn. by rewrite Hk.
  - eexists. split; [reflexivity|]. destruct I. constructor; try done; [keep_flows; cbn; unfold at_strat; by rewrite Es|].
    by apply (quiet_free s).
Qed.

Lemma push_ok now s m o :
  native_inv now s -> strat s = SPush m -> exists s', strat_turn now s o = (Ret tt, s', o) /\ native_inv now s'.
Proof.
  intros I Es. pose proof (ni_strat _ _ I) as Hm. unfold at_ok in Hm. rewrite Es in Hm. destruct (ni_flows _ _ I) as (qm & os & acks & F).
  destruct (fl_oe _ _ _ _ _ F) as (h & n & Hr). unfold strat_turn, mbind, M_bind, get. rewrite Es.
  destruct (push_any h _ n (oe s) (order_slot m) o Hr) as (b & g & E & Hb). rewrite (within_ret _ _ _ _ _ _ _ E).
  destruct Hb as [[-> Hg]|(-> & -> & _)]; [|exists s; split; [by destruct s|done]]. eexists. split; [reflexivity|].
  destruct I. constructor; try done; [|by apply (quiet_free s)]. exists qm, (os ++ [m]), acks. destruct F. constructor; cbn in *; try done.
  - exists h, n. by rewrite map_app.
  - apply Forall_app_2; [done|by apply Forall_singleton].
  - rewrite !map_app, fl_keys0. unfold at_strat. rewrite Es. cbn. rewrite !map_app, <- !app_assoc. done.
  - rewrite length_app. rewrite Es in fl_out0. unfold at_engine in *. cbn in *. lia.
Qed.

Lemma reports_ok now s o :
  native_inv now s -> strat s = SReports -> exists s', strat_turn now s o = (Ret tt, s', o) /\ native_inv now s'.
Proof.
  intros I Es. destruct (ni_flows _ _ I) as (qm & os & acks & F). destruct (fl_rep _ _ _ _ _ F) as (h & n & Hr).
  destruct (fl_oe _ _ _ _ _ F) as (ho & no & Ho). pose proof (ho_fits _ _ _ _ _ Ho) as Hfit. rewrite length_map in Hfit.
  unfold strat_turn, mbind, M_bind, get. rewrite Es. destruct acks as [|a acks].
  - rewrite (within_ret _ _ _ _ _ _ _ (pop_none Hr o eq_refl)). eexists. split; [reflexivity|].
    destruct I. constructor; try done; [|by apply (quiet_free s)]. exists qm, os, []. destruct F. constructor; cbn in *; try done.
    + rewrite fl_keys0. unfold at_strat. by rewrite Es.
    + unfold at_engine in *. cbn. destruct (engine s); cbn; lia.
  - destruct (pop_first _ _ _ _ _ _ o Hr) as (g & E & Hg). rewrite (within_ret _ _ _ _ _ _ _ E).
    pose proof (fl_acks _ _ _ _ _ F) as [Ha Hacks]%Forall_cons. destruct Ha as (Hf & Htag & Hts).
    rewrite (tag_ack a Hf), Htag, Z.eqb_refl. eexists. split; [reflexivity|].
    destruct I. constructor; try done; [|by exists a|by apply (quiet_free s)]. exists qm, os, acks. destruct F. constructor; cbn in *; try done; [by exists (h + 1), n| |].
    + rewrite fl_keys0. unfold at_strat. rewrite Es. cbn. by rewrite (as_ack_slot a Hf).
    + rewrite Es in fl_out0. unfold at_engine in *. cbn in *. lia.
Qed.

Lemma acked_ok now s o : native_inv now s -> strat s = SAcked -> steps now (strat_turn now s o) s o.
Proof.
  intros I Es. pose proof (ni_now _ _ I) as Hn. pose proof (ni_strat _ _ I) as Hat. unfold at_ok in Hat. rewrite Es in Hat.
  destruct Hat as (a & Ex & Hf & _ & Hts). unfold strat_turn, mbind, M_bind, get. rewrite Es, Ex, (as_ack_slot a Hf).
  destruct (minus_ok now (sa_engine_ts_ns a) s o Hn Hts) as [Em Hd].
  destruct (0 <? sa_engine_ts_ns a) eqn:Ep.
  - rewrite Em. unfold add_rtt, mbind, M_bind, get. destruct (negb (rtt_emptied (feeder s)) || knows (hb s)) eqn:Eo; cbn [if_ordered].
    + eapply steps_to; [reflexivity|]. destruct I. constructor; try done.
      * keep_flows; cbn; unfold at_strat; cbn; rewrite Es; [by rewrite Ex, (as_ack_slot a Hf), app_nil_r|done].
      * by destruct ni_mm0.
      * destruct ni_samples0 as [Ht Hrtt]. split; [exact Ht|]. cbn. apply Forall_app_2; [done|by apply Forall_singleton].
      * by apply (quiet_free s).
    + apply orb_false_iff in Eo as [Ee%negb_false_iff Ek]. right. split; [done|]. right. rewrite Ex, (as_ack_slot a Hf).
      split_and!; [done|by apply Z.ltb_lt|done|done].
  - eapply steps_to; [reflexivity|]. destruct I. constructor; try done.
    + keep_flows; cbn; unfold at_strat; cbn; rewrite Es; [by rewrite Ex, (as_ack_slot a Hf), app_nil_r|done].
    + by destruct ni_mm0.
    + by apply (quiet_free s).
Qed.

Lemma strat_ok now s o : native_inv now s -> steps now (strat_turn now s o) s o.
Proof.
  intros I. assert (forall r, (exists s', r = (Ret tt, s', o) /\ native_inv now s') -> steps now r s o) as L by by left.
  destruct (strat s) as [|m|m| | |] eqn:Es.
  - by apply L, poll_ok.
  - by apply L, (bid_ok now s m).
  - by apply L, (push_ok now s m).
  - by apply L, reports_ok.
  - by apply acked_ok.
  - apply L. exists s. unfold strat_turn, mbind, M_bind, get. by rewrite Es.
Qed.

(** *** Runs *)

Fixpoint timed (now : Z) (turns : list (Thread * Z)) : Prop :=
  match turns with [] => True | t :: ts => now <= t.2 /\ in_time t.2 /\ timed t.2 ts end.

(** Every run keeps the invariant, and ends where its turns do or at the race. *)
Lemma native_run_ok tob0 iterations turns now s o :
  fits (MsgTob tob0) -> native_inv now s -> timed now turns ->
  exists now' r s', native_run tob0 iterations turns s o = (r, s', o) /\ native_inv now' s' /\ (r = Ret tt \/ r = UB /\ rtt_race s').
Proof.
  intros Hf. revert now s. induction turns as [|[who r] ts IH]; intros now s I; [exists now, (Ret tt), s; auto|]. intros (Hle & Hr & Hts). cbn in *.
  pose proof (native_later now r s I Hle Hr) as I'.
  assert (steps r (native_step tob0 iterations (who, r) s o) s o) as [(s1 & E1 & I1)|(E1 & Hrace)].
  { destruct who; [by apply feeder_ok|by apply strat_ok|left; by apply engine_ok]. }
  - destruct (IH r s1 I1 Hts) as (now' & r' & s2 & E2 & I2 & Hend). exists now', r', s2. unfold mbind, M_bind. by rewrite E1.
  - exists r, UB, s. unfold mbind, M_bind. rewrite E1. auto.
Qed.
End Pipeline.

(** ** The probe *)

Definition ring_cap : nat := Z.to_nat (bit_ceil kRing).
Lemma ring_cap_val : Z.of_nat ring_cap = 4096.
Proof. unfold ring_cap. assert (bit_ceil kRing = 4096) as -> by done. lia. Qed.

Lemma start_ok `{Shm} n1 n2 n3 md_ring oe_ring rep_ring ack0 :
  create n1 kRing = Ret md_ring -> create n2 kRing = Ret oe_ring -> create n3 kRing = Ret rep_ring -> fits (MsgAck ack0) ->
  native_inv ring_cap 0 (start md_ring oe_ring rep_ring ack0).
Proof.
  intros H1 H2 H3 Hf. constructor; cbn; try done.
  - exists [], [], []. constructor; cbn; try done; [..|lia]; exists 0, 0%nat; by eapply create_holds; [|eassumption].
  - split; [|done]. revert Hf. unfold fits. destruct ack0. cbn. rewrite !Forall2_cons.
    intros (?&?&?&?&?&?&?&?&?). by split_and!.
Qed.

(** C40 The native pipeline: under every interleaving of the feeder, the strategy
    and the engine one thing alone can be undefined, the race of [main] and the
    strategy on the round-trip vector, which [rtt_race] describes and
    [rtt_vector_race] exhibits; the tick vector, emptied at the same place, never
    races.  Up to there, and in runs without the race to the end: the
    acknowledgements the strategy counts are those of the orders it sent, in order,
    none lost or repeated, at most two more than a ring of them outstanding; no
    latency is negative, and what is reported of them is defined; and the two
    threads that spin on full rings never block each other: while the strategy waits
    for room for an order, the engine finds room for its acknowledgement. *)
Theorem native_pipeline `{Shm} n1 n2 n3 md_ring oe_ring rep_ring tob0 ack0 iterations turns :
  create n1 kRing = Ret md_ring -> create n2 kRing = Ret oe_ring -> create n3 kRing = Ret rep_ring ->
  fits (MsgTob tob0) -> fits (MsgAck ack0) -> timed 0 turns ->
  exists r s, run (native_run tob0 iterations turns) (start md_ring oe_ring rep_ring ack0) = (r, s) /\
    (r = Ret tt \/ r = UB /\ rtt_race s) /\
    map ack_key (acked s) `prefix_of` map order_key (sent s) /\
    (length (sent s) <= length (acked s) + ring_cap + 2)%nat /\
    Forall (fun d => 0 <= d) (tick_to_order s) /\ Forall (fun d => 0 <= d) (rtt s) /\
    (forall samples, samples = tick_to_order s \/ samples = rtt s -> Z.of_nat (length samples) <= 2 ^ 53 ->
       exists r, summarize samples = Ret r) /\
    (forall m, strat s = SPush m -> engine s = ESend -> capacity (oe s) <= pending (oe s) -> pending (rep s) < capacity (rep s)).
Proof.
  intros H1 H2 H3 Hft Hfa Ht. pose proof (start_ok n1 n2 n3 _ _ _ _ H1 H2 H3 Hfa) as I0.
  destruct (native_run_ok ring_cap tob0 iterations turns 0 _ [] Hft I0 Ht) as (now & r & s & E & I & Hend). exists r, s. unfold run. rewrite E.
  destruct (ni_flows _ _ _ I) as (qm & os & acks & F). pose proof (fl_keys _ _ _ _ _ _ F) as Hk. pose proof (fl_out _ _ _ _ _ _ F) as Ho.
  split; [done|]. split; [done|]. split; [rewrite Hk, map_app, <- app_assoc; by eexists|]. split; [|split; [apply I|split; [apply I|split]]].
  - apply (f_equal length) in Hk. rewrite length_app, !length_map, !length_app in Hk. unfold at_strat in Hk.
    destruct (strat s); cbn [slack length] in *; lia.
  - intros samples _ Hl. destruct (summarize_ok samples Hl) as (res & Er & _). by exists res.
  - intros m Es Ee Hfull. destruct (fl_oe _ _ _ _ _ _ F) as (h & n & Hr), (fl_rep _ _ _ _ _ _ F) as (h' & n' & Hr').
    pose proof (ho_cap _ _ _ _ _ Hr) as Hc. pose proof (ho_cap _ _ _ _ _ Hr') as Hc'. unfold pending in *.
    rewrite (pending_length Hr), length_map in Hfull. rewrite (pending_length Hr'), length_map. unfold at_engine in Ho.
    rewrite Es, Ee in Ho. cbn [slack length] in Ho. pose proof ring_cap_val. lia.
Qed.

(** ** The shutdown can hang *)

(** Once the engine has stopped, a strategy that waits for room waits for ever. *)
Definition stranded (s : Native) : Prop :=
  engine s = EStopped /\ (exists m, strat s = SPush m) /\ capacity (oe s) <= u64 (tail (oe s) - head (oe s)).

Definition stranded_b (s : Native) : bool :=
  match engine s, strat s with EStopped, SPush _ => capacity (oe s) <=? u64 (tail (oe s) - head (oe s)) | _, _ => false end.

Lemma stranded_ok s : stranded_b s = true -> stranded s.
Proof.
  unfold stranded_b, stranded. destruct (engine s), (strat s); try done. intros Hf%Z.leb_le. split; [done|]. split; [by eexists|done].
Qed.

Lemma stranded_push s slot o : capacity (oe s) <= u64 (tail (oe s) - head (oe s)) ->
  within oe set_oe (try_push slot false) s o = (Ret false, set_oe (oe s) s, o).
Proof. intros Hf. apply within_ret. unfold try_push, mbind, M_bind, get. by rewrite (proj2 (Z.leb_le _ _) Hf). Qed.

Lemma feeder_frame tob0 iterations now s o r s' o' :
  feeder_step tob0 iterations now s o = (r, s', o') -> engine s' = engine s /\ strat s' = strat s /\ oe s' = oe s.
Proof.
  unfold feeder_step, push_tick, clear_ticks, clear_rtt, if_ordered, within, plus, modify, ub, mbind, M_bind, get, mret, M_ret.
  destruct (feeder s); repeat first [case_match|intros [= <- <- <-]; done|progress intros; simplify_eq]; done.
Qed.

Lemma stranded_step tob0 iterations t s o r s' o' :
  stranded s -> native_step tob0 iterations t s o = (r, s', o') -> stranded s'.
Proof.
  intros (He & [m Hm] & Hf). destruct t as [[] now]; unfold native_step; cbn [fst snd].
  - intros E. destruct (feeder_frame _ _ _ _ _ _ _ _ E) as (E1 & E2 & E3). split; [congruence|]. rewrite E2, E3. eauto.
  - unfold strat_turn, mbind, M_bind, get. rewrite Hm, stranded_push by done. intros [= <- <- <-]. destruct s. cbn in *. split; eauto.
  - unfold engine_step, mbind, M_bind, get. rewrite He. intros [= <- <- <-]. split; eauto.
Qed.

Lemma stranded_run tob0 iterations turns s o r s' o' :
  stranded s -> native_run tob0 iterations turns s o = (r, s', o') -> stranded s'.
Proof.
  revert s o. induction turns as [|t ts IH]; intros s o Hs; cbn [native_run]; [by intros [= <- <- <-]|].
  unfold mbind, M_bind. destruct (native_step tob0 iterations t s o) as [[[[]|e|] s1] o1] eqn:E; pose proof (stranded_step _ _ _ _ _ _ _ _ Hs E).
  - by apply IH.
  - by intros [= <- <- <-].
  - by intros [= <- <- <-].
Qed.

Fixpoint timedb (now : Z) (turns : list (Thread * Z)) : bool :=
  match turns with [] => true | t :: ts => (now <=? t.2) && (t.2 + kPaceNs <? two63) && timedb t.2 ts end.

Lemma timedb_ok now turns : 0 <= now -> timedb now turns = true -> timed now turns.
Proof.
  revert now. induction turns as [|t ts IH]; intros now Hn; cbn [timedb timed]; [done|].
  intros [[?%Z.leb_le ?%Z.ltb_lt]%andb_true_iff ?]%andb_true_iff. split; [done|]. split; [split; lia|]. apply IH; [lia|done].
Qed.

Definition demo_tob : ShmTopOfBook := mkShmTob 1 0 0 0 0 0 0 0 0 0.
Definition demo_ack : ShmOrderAck := mkShmAck 4 0 0 0 0 0 0 0.
Lemma native_fits : fits (MsgTob demo_tob) /\ fits (MsgAck demo_ack).
Proof. split; unfold fits; cbn; rewrite !Forall2_cons; by split_and!. Qed.

Definition demo_segment : Segment := match @create demo_shm "native" kRing with Ret g => g | _ => mkSegment 0 0 0 0 0 0 0 [] end.
Lemma native_created : @create demo_shm "native" kRing = Ret demo_segment.
Proof.
  unfold demo_segment. destruct (@create demo_shm "native" kRing) as [g|e|] eqn:E; [done|exfalso..]; unfold create in E; cbn in E; done.
Qed.

Definition demo_start : Native := start demo_segment demo_segment demo_segment demo_ack.
(** Where a schedule leads, and what can be read off it in one evaluation. *)
Definition demo_run (iterations : nat) (turns : list (Thread * Z)) : outcome unit * Native :=
  run (native_run demo_tob iterations turns) demo_start.

Lemma demo_completes (p : Native -> bool) iterations turns :
  match demo_run iterations turns with (Ret _, s) => p s | _ => false end = true ->
  exists s, run (native_run demo_tob iterations turns) demo_start = (Ret tt, s) /\ p s = true.
Proof. unfold demo_run. destruct (run _ _) as [[[]| |] s]; [eauto|done..]. Qed.

Lemma demo_undefined (p : Native -> bool) iterations turns :
  match demo_run iterations turns with (UB, s) => p s | _ => false end = true ->
  exists s, run (native_run demo_tob iterations turns) demo_start = (UB, s) /\ p s = true.
Proof. unfold demo_run. destruct (run _ _) as [[[]| |] s]; [done|done|eauto]. Qed.

Definition by_ (who : Thread) (n : nat) (now : Z) : list (Thread * Z) := repeat (who, now) n.
(** The strategy answers a tick, and finds no report. *)
Definition warm_tick (now : Z) : list (Thread * Z) := by_ MainThread 1 now ++ by_ StratThread 4 now.
Definition run_tick (now : Z) : list (Thread * Z) :=
  by_ MainThread 3 now ++ by_ StratThread 4 now ++ by_ MainThread 1 (now + kPaceNs).

(** A ring's worth of ticks answered while the engine does not run; the feeder
    then stops, and the engine sees it first. *)
Definition hang_turns : list (Thread * Z) :=
  concat (map (fun i => warm_tick (Z.of_nat i)) (seq 1 kWarmTicks)) ++ by_ MainThread 3 2000 ++
  concat (map (fun i => run_tick (kPaceNs * Z.of_nat i)) (seq 1 3097)) ++ by_ MainThread 3 20000000 ++ by_ EngineThread 1 20000000.

(** The probe can fail to end: its spin on a full ring does not look at
    [running], so a strategy still waiting for room when the engine has seen the
    stop waits for ever, and [main] never joins it. *)
Theorem shutdown_can_hang :
  exists s, run (native_run demo_tob 3097 hang_turns) demo_start = (Ret tt, s) /\
    forall turns r s', run (native_run demo_tob 3097 turns) s = (r, s') -> exists m, strat s' = SPush m.
Proof.
  destruct (demo_completes stranded_b 3097 hang_turns) as (s & E & Hs%stranded_ok); [vm_compute; reflexivity|].
  exists s. split; [exact E|]. clear E. intros turns r s'. unfold run.
  destruct (native_run demo_tob 3097 turns s []) as [[r1 s1] o1] eqn:E. intros [= <- <-]. apply (stranded_run _ _ _ _ _ _ _ _ Hs E).
Qed.

(** An acknowledgement of the warm-up is still on its way when the main thread
    empties the round-trip vector: the strategy, which nothing orders before it,
    has just appended to it. *)
Definition race_turns : list (Thread * Z) :=
  by_ MainThread 1 5 ++ by_ StratThread 3 5 ++ by_ EngineThread 2 5 ++ by_ MainThread 1001 5 ++ by_ StratThread 2 5 ++ by_ MainThread 1 5.

Theorem rtt_vector_race : exists s, run (native_run demo_tob 1 race_turns) demo_start = (UB, s) /\ rtt_race s.
Proof.
  destruct (demo_undefined (fun s => match feeder s with FClearRtt => negb (snd (acquired (hb s)) =? length (rtt s))%nat | _ => false end)
    1 race_turns) as (s & E & Hs); [vm_compute; reflexivity|].
  exists s. split; [exact E|]. clear E. left. destruct (feeder s); try done. split; [done|]. by apply Nat.eqb_neq, negb_true_iff.
Qed.

(** The other half of the race: the appending comes after the emptying, and no
    tick of the run has reached the strategy. *)
Definition late_turns : list (Thread * Z) :=
  by_ MainThread 1 5 ++ by_ StratThread 3 5 ++ by_ EngineThread 2 5 ++ by_ MainThread 1002 5 ++ by_ StratThread 2 5.
Example rtt_vector_race_late : (run (native_run demo_tob 1 late_turns) demo_start).1 = UB.
Proof. vm_compute. reflexivity. Qed.

(** A warm-up whose last two orders are acknowledged in the run, as nothing
    prevents, and one tick whose order leaves 200 ns later and is acknowledged
    300 ns after that. *)
Definition demo_turns : list (Thread * Z) :=
  concat (map (fun i => warm_tick (Z.of_nat i) ++ by_ EngineThread 2 (Z.of_nat i) ++ by_ StratThread 3 (Z.of_nat i)) (seq 1 998)) ++
  warm_tick 999 ++ by_ MainThread 1 1000 ++ by_ MainThread 3 2000 ++ by_ MainThread 2 3000 ++
  by_ StratThread 4 3000 ++ by_ StratThread 1 3100 ++ by_ StratThread 3 3200 ++ by_ EngineThread 6 3300 ++ by_ StratThread 8 3400 ++ by_ StratThread 1 3500.

Lemma native_pipeline_witness :
  exists s, run (native_run demo_tob 1 demo_turns) demo_start = (Ret tt, s) /\
    tick_to_order s = [200] /\ rtt s = [2401; 400; 300] /\ Forall (fun d => 0 <= d) (rtt s).
Proof.
  assert (timedb 0 demo_turns = true) as Ht by (vm_compute; reflexivity).
  destruct (@native_pipeline demo_shm "native" "native" "native" demo_segment demo_segment demo_segment demo_tob demo_ack 1%nat demo_turns
    native_created native_created native_created (proj1 native_fits) (proj2 native_fits) (timedb_ok 0 demo_turns ltac:(lia) Ht))
    as (r & s & E & _ & _ & _ & _ & Hrtt & _ & _).
  destruct (demo_completes (fun s => bool_decide (tick_to_order s = [200]) && bool_decide (rtt s = [2401; 400; 300])) 1 demo_turns)
    as (s' & E' & Hs); [vm_compute; reflexivity|].
  assert (s = s') as -> by exact (f_equal snd (eq_trans (eq_sym E) E')).
  apply andb_true_iff in Hs as [H1%bool_decide_eq_true H2%bool_decide_eq_true].
  exists s'. exact (conj E' (conj H1 (conj H2 Hrtt))).
Defined.
