(* ===== verification/TsanProbe.v ===== *)
(** * The sanitizer probe ([bench/probes/tsan_struct_copy_probe.cpp])

    A payload published by a flag, with a release or a relaxed store.  A store to
    the flag is a message that carries, when it released, the writes before it; an
    acquire load that reads it makes them happen before what follows.  A read of the
    payload races when the write does not happen before it.  The probe's announced
    expectation is shown to be the truth of the language: there is a race, in every
    execution, exactly in the modes that announce one. *)

From Stdlib Require Import ZArith Ascii String List Lia.
From stdpp Require Import base tactics list option strings.
From S2P Require Import Prelude Rounds.

(** [argv[1]], when there is one. *)
Definition mode_of (argv1 : option string) : string := default "relaxed-copy"%string argv1.
Definition scalar_mode (mode : string) : bool := String.eqb mode "relaxed-scalar".
Definition release_mode (mode : string) : bool := String.eqb mode "release-copy".

(** Whether a report is announced, and by which tools. *)
Inductive Expectation := ExpectNo | ExpectFromAny | ExpectIfCopiesChecked.
Definition expectation (mode : string) : Expectation :=
  if release_mode mode then ExpectNo else if scalar_mode mode then ExpectFromAny else ExpectIfCopiesChecked.

Inductive TsanProducer := TWrite | TPublish | TEnded.
Inductive TsanMain := TSpin | TRead | TRet.

Record Tsan := mkTsan {
  tprod : TsanProducer;
  tmain : TsanMain;
  payload : option Z;              (* written: the scalar, or the record's first member *)
  flag : list (Z * bool);          (* the messages of the flag, with what each carries *)
  read_from : nat;                 (* the newest message main has read *)
  synced : bool;                   (* the payload's write happens before main's next step *)
  raced : bool;
  shown : option Z;                (* what is printed *)
}.

Definition tsan_start : Tsan := mkTsan TWrite TSpin None [(0, false)] 0 false false None.

(** [main]'s turn names the message its load reads. *)
Inductive TsanTurn := TsanProd | TsanMainReads (k : nat).

Definition tsan_step (mode : string) (t : TsanTurn) (s : Tsan) : Tsan :=
  match t with
  | TsanProd =>
      match tprod s with
      | TWrite => mkTsan TPublish (tmain s) (Some 42) (flag s) (read_from s) (synced s) (raced s) (shown s)
      | TPublish =>
          mkTsan TEnded (tmain s) (payload s) (flag s ++ [(1, release_mode mode)]) (read_from s) (synced s) (raced s) (shown s)
      | TEnded => s
      end
  | TsanMainReads k =>
      match tmain s with
      | TSpin =>
          match (if (k <? read_from s)%nat then None else flag s !! k) with
          | Some (v, carries) =>
              mkTsan (tprod s) (if v =? 1 then TRead else TSpin) (payload s) (flag s) k (synced s || carries) (raced s) (shown s)
          | None => s
          end
      | TRead =>
          mkTsan (tprod s) TRet (payload s) (flag s) (read_from s) (synced s)
            (match payload s with Some _ => negb (synced s) | None => false end) (payload s)
      | TRet => s
      end
  end.

Record tsan_inv (mode : string) (s : Tsan) : Prop := {
  si_payload : payload s = match tprod s with TWrite => None | _ => Some 42 end;
  si_flag : flag s = match tprod s with TEnded => [(0, false); (1, release_mode mode)] | _ => [(0, false)] end;
  si_main : match tmain s with
            | TSpin => synced s = false /\ raced s = false
            | TRead => tprod s = TEnded /\ synced s = release_mode mode /\ raced s = false
            | TRet => raced s = negb (release_mode mode) /\ shown s = Some 42
            end;
}.

Lemma tsan_step_inv mode t s : tsan_inv mode s -> tsan_inv mode (tsan_step mode t s).
Proof.
  intros [Ip If Im]. destruct t as [|k]; cbn [tsan_step].
  - destruct (tprod s) eqn:Ep; constructor; cbn; rewrite ?Ep, ?If, ?Ip; try done; destruct (tmain s); try done; destruct Im; done.
  - destruct (tmain s) eqn:Em; [|constructor; cbn; rewrite ?Ip, ?If; try done; destruct Im as (-> & -> & _); done|by constructor; rewrite ?Em].
    destruct (k <? read_from s)%nat; [by constructor; rewrite ?Em|]. destruct Im as [Es Er].
    destruct (flag s !! k) as [[v c]|] eqn:Ek; [|by constructor; rewrite ?Em]. rewrite If in Ek.
    destruct (tprod s) eqn:Ep; destruct k as [|[|k]]; cbn in Ek; simplify_eq; constructor; cbn; rewrite ?Ep, ?If, ?Ip, ?Es; done.
Qed.

(** Whatever the schedule and whichever messages are read, a run that prints has
    read the payload's value, and has raced exactly when a report is announced. *)
Theorem tsan_expectation argv1 turns :
  let mode := mode_of argv1 in
  let s := drive (tsan_step mode) turns tsan_start in
  tmain s = TRet -> shown s = Some 42 /\ (raced s = false <-> expectation mode = ExpectNo).
Proof.
  intros mode s Em. assert (tsan_inv mode s) as [_ _ Im].
  { apply drive_keeps; [apply tsan_step_inv|by constructor]. }
  rewrite Em in Im. destruct Im as [-> ->]. split; [done|]. unfold expectation. destruct (release_mode mode); [done|].
  by destruct (scalar_mode mode).
Qed.

Example tsan_default_races :
  let s := drive (tsan_step (mode_of None)) [TsanMainReads 0; TsanProd; TsanProd; TsanMainReads 0; TsanMainReads 1; TsanMainReads 1] tsan_start in
  tmain s = TRet /\ raced s = true.
Proof. by vm_compute. Qed.
