(* ===== verification/Affinity.v ===== *)
(** * Thread affinity and page locking ([cpp/include/mm/affinity.hpp])

    The four functions in their three builds.  The system calls and the macros of
    [cpu_set_t] are parameters over a state of the kernel; a call answers its result
    and [errno]. *)

From Stdlib Require Import ZArith List Lia.
From stdpp Require Import base tactics list option.
From S2P Require Import Prelude.

(** [__APPLE__], [__linux__] (with [MCL_CURRENT] and [MCL_FUTURE], or without). *)
Inductive Platform := Apple | Linux (has_mlockall : bool) | OtherPlatform.

Class Kernel (K cpu_set_t : Type) := {
  CPU_ZERO : cpu_set_t;
  CPU_SET : Z -> cpu_set_t -> cpu_set_t;
  pthread_setaffinity_np : cpu_set_t -> K -> Z * K;
  pthread_set_qos_class_self_np : K -> Z * K;      (* user interactive, relative priority 0 *)
  pthread_setschedparam : Z -> K -> Z * K;         (* SCHED_FIFO at a priority *)
  mlockall : K -> (Z * Z) * K;
  munlockall : K -> (Z * Z) * K;
}.

Definition EPERM : Z := 1.
Definition ENOMEM : Z := 12.
Definition EACCES : Z := 13.

(** [static_cast<int>] of a [std::size_t]: modulo 2^32. *)
Definition int_of_size (n : Z) : Z := (n + 2 ^ 31) mod 2 ^ 32 - 2 ^ 31.

Section Affinity.
Context {K cpu_set_t : Type} `{Kernel K cpu_set_t}.

Definition set_thread_affinity (p : Platform) (cpu_core_id : Z) (k : K) : bool * K :=
  match p with
  | Apple => let '(rc, k) := pthread_set_qos_class_self_np k in (rc =? 0, k)
  | Linux _ => let '(rc, k) := pthread_setaffinity_np (CPU_SET (int_of_size cpu_core_id) CPU_ZERO) k in (rc =? 0, k)
  | OtherPlatform => (false, k)
  end.

Definition lock_memory_pages (p : Platform) (k : K) : bool * K :=
  match p with
  | Linux true =>
      let '((rc, errno), k) := mlockall k in
      if rc =? 0 then (true, k) else ((errno =? EPERM) || (errno =? ENOMEM) || (errno =? EACCES), k)
  | Apple => (true, k)
  | _ => (false, k)
  end.

Definition unlock_memory_pages (p : Platform) (k : K) : bool * K :=
  match p with
  | Linux _ =>
      let '((rc, errno), k) := munlockall k in
      if rc =? 0 then (true, k) else ((errno =? EPERM) || (errno =? EACCES), k)
  | Apple => (true, k)
  | OtherPlatform => (false, k)
  end.

Definition set_realtime_priority (p : Platform) (priority : Z) (k : K) : bool * K :=
  match p with
  | Linux _ => let '(rc, k) := pthread_setschedparam priority k in (rc =? 0, k)
  | Apple => let '(rc, k) := pthread_set_qos_class_self_np k in (rc =? 0, k)
  | OtherPlatform => (false, k)
  end.

(** A refusal to lock is reported as success, for want of a privilege or of
    memory; only another error is not. *)
Lemma lock_refused_quietly k rc errno k' :
  mlockall k = ((rc, errno), k') -> rc <> 0 ->
  lock_memory_pages (Linux true) k = (bool_decide (errno ∈ [EPERM; ENOMEM; EACCES]), k').
Proof.
  intros E Hrc. unfold lock_memory_pages. rewrite E. destruct (Z.eqb_spec rc 0); [done|]. f_equal.
  destruct (Z.eqb_spec errno EPERM), (Z.eqb_spec errno ENOMEM), (Z.eqb_spec errno EACCES); cbn [orb]; symmetry;
    first [apply bool_decide_eq_true_2; subst; rewrite !elem_of_cons; tauto
          |apply bool_decide_eq_false_2; rewrite !elem_of_cons, elem_of_nil; tauto].
Qed.

(** A core number is taken modulo 2^32: one past the range of [int] pins another
    core, and is reported as a success. *)
Lemma affinity_wraps p core k : set_thread_affinity p (core + 2 ^ 32) k = set_thread_affinity p core k.
Proof.
  unfold set_thread_affinity, int_of_size. destruct p; [done| |done].
  replace (core + 2 ^ 32 + 2 ^ 31) with (core + 2 ^ 31 + 1 * 2 ^ 32) by lia. by rewrite Z.mod_add.
Qed.
End Affinity.
