(* ===== verification/EngineOwners.v ===== *)
(** * Which sessions own entries of the engine

    The engine as its clients see it: which sessions hold entries before and
    after a command, what kind of report it answers with, and that it cannot
    fail except by running out of memory, in which case nothing has changed. *)

From Stdlib Require Import ZArith String List Lia.
From stdpp Require Import base tactics list option strings gmap.
From S2P Require Import Prelude StdMap Types Protocol Engine EngineInv EngineSpec EngineBook Wp.

(** Session [x] holds an entry, live or terminal. *)
Definition owns (e : OrderEngine) (x : Z) : Prop := x ∈ map (fun en => en.1.1) (orders e).

Lemma owns_elem e x : owns e x <-> exists k o, k.1 = x /\ (k, o) ∈ orders e.
Proof.
  unfold owns. rewrite list_elem_of_In, in_map_iff. split.
  - intros ([k o] & <- & Hin%list_elem_of_In). by exists k, o.
  - intros (k & o & <- & Hin%list_elem_of_In). by exists (k, o).
Qed.

Lemma owns_new e e' s o :
  (spec_new s o (abs e)).2 = abs e' -> forall x, owns e' x -> owns e x \/ x = s.
Proof.
  intros Hs. assert (orders e' = s_orders (spec_new s o (abs e)).2) as Ho by (by rewrite Hs).
  intros x (k & o' & Hk & Hin)%owns_elem. rewrite owns_elem. rewrite Ho in Hin. unfold spec_new in Hin.
  destruct (find _ _); [cbn in Hin; eauto|].
  destruct (spec_verdict _ _ _) as [[]|]; cbn in Hin; apply emplace_keys in Hin as [Hin|Hin]; simplify_eq; eauto.
Qed.

Lemma owns_keys e e' : (orders e').*1 = (orders e).*1 -> forall x, owns e' x <-> owns e x.
Proof.
  intros Hk x. unfold owns.
  assert (forall m : OrdersMap, map (fun en => en.1.1) m = map fst m.*1) as Hm by (intros m; symmetry; apply map_map).
  by rewrite !Hm, Hk.
Qed.

Lemma owns_cancel e e' s c : (spec_cancel s c (abs e)).2 = abs e' -> forall x, owns e' x <-> owns e x.
Proof.
  intros Hs. assert (orders e' = s_orders (spec_cancel s c (abs e)).2) as Ho by (by rewrite Hs).
  apply owns_keys. rewrite Ho. unfold spec_cancel. destruct (find _ _) as [o|]; [|done].
  destruct (st o); try done. apply assign_keys.
Qed.

Lemma owns_book e e' b : (spec_on_book b (abs e)).2 = abs e' -> forall x, owns e' x <-> owns e x.
Proof.
  intros Hs. assert (orders e' = s_orders (spec_on_book b (abs e)).2) as Ho by (by rewrite Hs).
  apply owns_keys. rewrite Ho. unfold spec_on_book. destruct (spec_book_stale _ _); [done|]. apply apply_fills_keys.
Qed.

Lemma owns_ended e e' s :
  (spec_end_session s (abs e)).2 = abs e' -> forall x, owns e' x <-> owns e x /\ x <> s.
Proof.
  intros Hs. assert (orders e' = s_orders (spec_end_session s (abs e)).2) as Ho by (by rewrite Hs).
  intros x. rewrite !owns_elem, Ho. cbn [spec_end_session snd spec_set_orders s_orders abs]. setoid_rewrite filter_elem.
  unfold of_session. cbn [fst]. split.
  - intros (k & o & <- & Hin & Hn%negb_true_iff%Z.eqb_neq). eauto.
  - intros ((k & o & <- & Hin) & Hne). exists k, o. split_and!; [done..|]. by apply negb_true_iff, Z.eqb_neq.
Qed.

(** Reports to the peer's own commands are never ticks or fills. *)
Definition is_answer (ack : bool) (m : OutMsg) : bool :=
  match m with OutAck _ => ack | OutCancelAck _ | OutReject _ => true | _ => false end.

Section Clients.
Context {W : Type} (lens : W -> OrderEngine) (put : OrderEngine -> W -> W).

Context (E : W -> Prop).

Lemma wp_within {A} (m : M OrderEngine A) w a e' Q :
  atomic (lens w) m (lens w) a e' -> E (put (lens w) w) -> Q a (put e' w) -> wp E (within lens put m) Q w.
Proof. intros Hm HE HQ o. unfold within. destruct (Hm o) as [o' [[-> _]|[-> _]]]; done. Qed.

Lemma wp_on_new s order w Q :
  engine_inv (lens w) -> E (put (lens w) w) ->
  (forall out e', engine_inv e' -> (forall x, owns e' x -> owns (lens w) x \/ x = s) ->
     Forall (fun m => is_answer true m = true) out -> Q out (put e' w)) ->
  wp E (within lens put (on_new s order)) Q w.
Proof.
  intros He HE HQ. destruct (on_new_refines _ s order He) as (out & e' & Ha & Hi & Hs).
  eapply wp_within; [exact Ha|done|]. apply HQ; [done|apply (owns_new _ _ s order); by rewrite Hs|].
  assert (out = (spec_new s order (abs (lens w))).1) as -> by (by rewrite Hs).
  unfold spec_new. destruct (find _ _); [by repeat constructor|].
  destruct (spec_verdict _ _ _) as [[]|]; by repeat constructor.
Qed.

Lemma wp_on_cancel s c w Q :
  engine_inv (lens w) -> E (put (lens w) w) ->
  (forall out e', engine_inv e' -> (forall x, owns e' x <-> owns (lens w) x) ->
     Forall (fun m => is_answer false m = true) out -> Q out (put e' w)) ->
  wp E (within lens put (on_cancel s c)) Q w.
Proof.
  intros He HE HQ. destruct (on_cancel_refines _ s c He) as (out & e' & Ha & Hi & Hs).
  eapply wp_within; [exact Ha|done|]. apply HQ; [done|apply (owns_cancel _ _ s c); by rewrite Hs|].
  assert (out = (spec_cancel s c (abs (lens w))).1) as -> by (by rewrite Hs).
  unfold spec_cancel. destruct (find _ _) as [o|]; [|by repeat constructor].
  destruct (st o); by repeat constructor.
Qed.

Lemma wp_on_book b w Q :
  engine_inv (lens w) -> E (put (lens w) w) ->
  (forall out e', engine_inv e' -> (forall x, owns e' x <-> owns (lens w) x) ->
     Forall (fun r => is_fill (r_msg r) = true) out -> Q out (put e' w)) ->
  wp E (within lens put (on_book b)) Q w.
Proof.
  intros He HE HQ. destruct (on_book_refines _ b He) as (out & e' & Ha & Hi & Hs).
  eapply wp_within; [exact Ha|done|]. apply HQ; [done|apply (owns_book _ _ b); by rewrite Hs|].
  assert (out = (spec_on_book b (abs (lens w))).1) as -> by (by rewrite Hs).
  unfold spec_on_book. destruct (spec_book_stale _ _); [done|]. cbn [fst].
  generalize (s_next_exec (abs (lens w))). induction (hits _ _ _) as [|x l IH]; intros n; cbn [number]; constructor; [done|apply IH].
Qed.

Lemma wp_end_session s w Q :
  engine_inv (lens w) -> E (put (lens w) w) ->
  (forall out e', engine_inv e' -> (forall x, owns e' x <-> owns (lens w) x /\ x <> s) -> Q out (put e' w)) ->
  wp E (within lens put (end_session s)) Q w.
Proof.
  intros He HE HQ. destruct (end_session_refines _ s He) as (out & e' & Ha & Hi & Hs).
  eapply wp_within; [exact Ha|done|]. apply HQ; [done|apply (owns_ended _ _ s); by rewrite Hs].
Qed.
End Clients.
