(* ===== verification/World.v ===== *)
(** * The server's state ([cpp/src/server_impl.hpp], [cpp/include/mm/server.hpp])

    One owner thread runs every handler, so the server is a state and a
    computation in [M World] per member function.  The asio and Beast objects are
    modelled by the operations outstanding on them, which the handlers arm and
    the environment completes; the steady clock, the consumer's side of the
    telemetry ring and the fate of the output files are the environment's answers
    ([Env]), the codec is the interface [ICodec]. *)

From Stdlib Require Import ZArith Ascii String List Lia.
From stdpp Require Import base tactics list option strings gmap.
From S2P Require Import Prelude Types Protocol Engine Outbox Utf8 Preflight Feed BenchRecorder TelemetryRing Telemetry.

(** ** Constants *)

Definition kSubprotocol : string := "mm.v1".
Definition kMaxInboundMsgBytes : Z := 64 * 1024.
Definition kTransportMsgBytes : Z := 2 * kMaxInboundMsgBytes.
Definition kCloseGrace : Z := 2000000000.
Definition kAcceptRetryDelay : Z := 50000000.
Definition kFinalSnapshotWait : Z := 250000000.
Definition kFaultPublishWait : Z := 5000000000.
Definition kRejectCoalesceWindow : Z := 1000000000.

(** The WebSocket close codes the server uses. *)
Definition close_none : Z := 0.
Definition close_normal : Z := 1000.
Definition going_away : Z := 1001.
Definition protocol_error : Z := 1002.
Definition abnormal_closure : Z := 1006.
Definition bad_payload : Z := 1007.
Definition policy_error : Z := 1008.
Definition too_big : Z := 1009.
Definition internal_error : Z := 1011.

(** ** Configuration *)

Inductive CodecKind := Naive | Tuned.

Record Config := mkConfig {
  cfg_port : Z;
  cfg_bind_address : string;
  cfg_feed_path : string;
  cfg_codec : CodecKind;
  cfg_feed_interval_ms : Z;
  cfg_loop_feed : bool;
  cfg_report_hwm : Z;
  cfg_bench_out : string;
  cfg_telemetry_out : string;
  cfg_telemetry_verbose : bool;
  cfg_idle_timeout_ms : Z;
  cfg_upgrade_timeout_ms : Z;
  cfg_max_session_entries : Z;
  cfg_so_sndbuf : Z;
  cfg_handle_signals : bool;
  cfg_max_sessions : Z;
}.

(** The default member initialisers. *)
Definition default_config : Config :=
  mkConfig 8765 "127.0.0.1" "" Tuned 100 false kDefaultReportHwm "" "telemetry.jsonl" false 30000 10000
    kDefaultMaxSessionEntries 0 false 4.

(** ** Sessions *)

(** The two completions an [async_close] is given: the read loop sees the peer's
    reply, or the raw drain starts. *)
Inductive CloseThen := ThenRead | ThenDrain.
#[export] Instance CloseThen_eq_dec : EqDecision CloseThen. Proof. solve_decision. Defined.

Record Session := mkSession {
  epoch_ : Z;
  outbox_ : Outbox;
  out_seq_ : Z;
  in_seq_expected_ : Z;
  pending_svc_ : list Z;
  reject_latch_ : Z;
  reject_latch_ns_ : Z;
  retired_acks_ : Z;
  write_inflight_ : bool;
  write_start_ns_ : Z;
  closing_ : bool;
  drain_then_close_ : bool;
  close_frame_sent_ : bool;
  epoch_retired_ : bool;
  torn_down_ : bool;
  close_code_ : Z;
  op_reads : nat;        (* async_read operations outstanding *)
  op_writes : nat;       (* async_write operations outstanding *)
  op_closes : list CloseThen; (* async_close operations, each with its completion *)
  op_drains : nat;       (* raw drain reads outstanding *)
  grace_armed : bool;
  socket_open : bool;
  wire : list (OutMsg * bytes); (* every frame handed to async_write, in order *)
  taken : list InMsg; (* every command whose sequence number was accepted *)
}.
Definition set_epoch (f : Z -> Z) (s : Session) : Session :=
  mkSession (f (epoch_ s)) (outbox_ s) (out_seq_ s) (in_seq_expected_ s) (pending_svc_ s) (reject_latch_ s)
    (reject_latch_ns_ s) (retired_acks_ s) (write_inflight_ s) (write_start_ns_ s) (closing_ s) (drain_then_close_
    s) (close_frame_sent_ s) (epoch_retired_ s) (torn_down_ s) (close_code_ s) (op_reads s) (op_writes s) (op_closes
    s) (op_drains s) (grace_armed s) (socket_open s) (wire s) (taken s).
Definition set_outbox (f : Outbox -> Outbox) (s : Session) : Session :=
  mkSession (epoch_ s) (f (outbox_ s)) (out_seq_ s) (in_seq_expected_ s) (pending_svc_ s) (reject_latch_ s)
    (reject_latch_ns_ s) (retired_acks_ s) (write_inflight_ s) (write_start_ns_ s) (closing_ s) (drain_then_close_
    s) (close_frame_sent_ s) (epoch_retired_ s) (torn_down_ s) (close_code_ s) (op_reads s) (op_writes s) (op_closes
    s) (op_drains s) (grace_armed s) (socket_open s) (wire s) (taken s).
Definition set_out_seq (f : Z -> Z) (s : Session) : Session :=
  mkSession (epoch_ s) (outbox_ s) (f (out_seq_ s)) (in_seq_expected_ s) (pending_svc_ s) (reject_latch_ s)
    (reject_latch_ns_ s) (retired_acks_ s) (write_inflight_ s) (write_start_ns_ s) (closing_ s) (drain_then_close_
    s) (close_frame_sent_ s) (epoch_retired_ s) (torn_down_ s) (close_code_ s) (op_reads s) (op_writes s) (op_closes
    s) (op_drains s) (grace_armed s) (socket_open s) (wire s) (taken s).
Definition set_in_seq_expected (f : Z -> Z) (s : Session) : Session :=
  mkSession (epoch_ s) (outbox_ s) (out_seq_ s) (f (in_seq_expected_ s)) (pending_svc_ s) (reject_latch_ s)
    (reject_latch_ns_ s) (retired_acks_ s) (write_inflight_ s) (write_start_ns_ s) (closing_ s) (drain_then_close_
    s) (close_frame_sent_ s) (epoch_retired_ s) (torn_down_ s) (close_code_ s) (op_reads s) (op_writes s) (op_closes
    s) (op_drains s) (grace_armed s) (socket_open s) (wire s) (taken s).
Definition set_pending_svc (f : list Z -> list Z) (s : Session) : Session :=
  mkSession (epoch_ s) (outbox_ s) (out_seq_ s) (in_seq_expected_ s) (f (pending_svc_ s)) (reject_latch_ s)
    (reject_latch_ns_ s) (retired_acks_ s) (write_inflight_ s) (write_start_ns_ s) (closing_ s) (drain_then_close_
    s) (close_frame_sent_ s) (epoch_retired_ s) (torn_down_ s) (close_code_ s) (op_reads s) (op_writes s) (op_closes
    s) (op_drains s) (grace_armed s) (socket_open s) (wire s) (taken s).
Definition set_reject_latch (f : Z -> Z) (s : Session) : Session :=
  mkSession (epoch_ s) (outbox_ s) (out_seq_ s) (in_seq_expected_ s) (pending_svc_ s) (f (reject_latch_ s))
    (reject_latch_ns_ s) (retired_acks_ s) (write_inflight_ s) (write_start_ns_ s) (closing_ s) (drain_then_close_
    s) (close_frame_sent_ s) (epoch_retired_ s) (torn_down_ s) (close_code_ s) (op_reads s) (op_writes s) (op_closes
    s) (op_drains s) (grace_armed s) (socket_open s) (wire s) (taken s).
Definition set_reject_latch_ns (f : Z -> Z) (s : Session) : Session :=
  mkSession (epoch_ s) (outbox_ s) (out_seq_ s) (in_seq_expected_ s) (pending_svc_ s) (reject_latch_ s) (f
    (reject_latch_ns_ s)) (retired_acks_ s) (write_inflight_ s) (write_start_ns_ s) (closing_ s) (drain_then_close_
    s) (close_frame_sent_ s) (epoch_retired_ s) (torn_down_ s) (close_code_ s) (op_reads s) (op_writes s) (op_closes
    s) (op_drains s) (grace_armed s) (socket_open s) (wire s) (taken s).
Definition set_retired_acks (f : Z -> Z) (s : Session) : Session :=
  mkSession (epoch_ s) (outbox_ s) (out_seq_ s) (in_seq_expected_ s) (pending_svc_ s) (reject_latch_ s)
    (reject_latch_ns_ s) (f (retired_acks_ s)) (write_inflight_ s) (write_start_ns_ s) (closing_ s)
    (drain_then_close_ s) (close_frame_sent_ s) (epoch_retired_ s) (torn_down_ s) (close_code_ s) (op_reads s)
    (op_writes s) (op_closes s) (op_drains s) (grace_armed s) (socket_open s) (wire s) (taken s).
Definition set_write_inflight (f : bool -> bool) (s : Session) : Session :=
  mkSession (epoch_ s) (outbox_ s) (out_seq_ s) (in_seq_expected_ s) (pending_svc_ s) (reject_latch_ s)
    (reject_latch_ns_ s) (retired_acks_ s) (f (write_inflight_ s)) (write_start_ns_ s) (closing_ s)
    (drain_then_close_ s) (close_frame_sent_ s) (epoch_retired_ s) (torn_down_ s) (close_code_ s) (op_reads s)
    (op_writes s) (op_closes s) (op_drains s) (grace_armed s) (socket_open s) (wire s) (taken s).
Definition set_write_start_ns (f : Z -> Z) (s : Session) : Session :=
  mkSession (epoch_ s) (outbox_ s) (out_seq_ s) (in_seq_expected_ s) (pending_svc_ s) (reject_latch_ s)
    (reject_latch_ns_ s) (retired_acks_ s) (write_inflight_ s) (f (write_start_ns_ s)) (closing_ s)
    (drain_then_close_ s) (close_frame_sent_ s) (epoch_retired_ s) (torn_down_ s) (close_code_ s) (op_reads s)
    (op_writes s) (op_closes s) (op_drains s) (grace_armed s) (socket_open s) (wire s) (taken s).
Definition set_closing (f : bool -> bool) (s : Session) : Session :=
  mkSession (epoch_ s) (outbox_ s) (out_seq_ s) (in_seq_expected_ s) (pending_svc_ s) (reject_latch_ s)
    (reject_latch_ns_ s) (retired_acks_ s) (write_inflight_ s) (write_start_ns_ s) (f (closing_ s))
    (drain_then_close_ s) (close_frame_sent_ s) (epoch_retired_ s) (torn_down_ s) (close_code_ s) (op_reads s)
    (op_writes s) (op_closes s) (op_drains s) (grace_armed s) (socket_open s) (wire s) (taken s).
Definition set_drain_then_close (f : bool -> bool) (s : Session) : Session :=
  mkSession (epoch_ s) (outbox_ s) (out_seq_ s) (in_seq_expected_ s) (pending_svc_ s) (reject_latch_ s)
    (reject_latch_ns_ s) (retired_acks_ s) (write_inflight_ s) (write_start_ns_ s) (closing_ s) (f
    (drain_then_close_ s)) (close_frame_sent_ s) (epoch_retired_ s) (torn_down_ s) (close_code_ s) (op_reads s)
    (op_writes s) (op_closes s) (op_drains s) (grace_armed s) (socket_open s) (wire s) (taken s).
Definition set_close_frame_sent (f : bool -> bool) (s : Session) : Session :=
  mkSession (epoch_ s) (outbox_ s) (out_seq_ s) (in_seq_expected_ s) (pending_svc_ s) (reject_latch_ s)
    (reject_latch_ns_ s) (retired_acks_ s) (write_inflight_ s) (write_start_ns_ s) (closing_ s) (drain_then_close_
    s) (f (close_frame_sent_ s)) (epoch_retired_ s) (torn_down_ s) (close_code_ s) (op_reads s) (op_writes s)
    (op_closes s) (op_drains s) (grace_armed s) (socket_open s) (wire s) (taken s).
Definition set_epoch_retired (f : bool -> bool) (s : Session) : Session :=
  mkSession (epoch_ s) (outbox_ s) (out_seq_ s) (in_seq_expected_ s) (pending_svc_ s) (reject_latch_ s)
    (reject_latch_ns_ s) (retired_acks_ s) (write_inflight_ s) (write_start_ns_ s) (closing_ s) (drain_then_close_
    s) (close_frame_sent_ s) (f (epoch_retired_ s)) (torn_down_ s) (close_code_ s) (op_reads s) (op_writes s)
    (op_closes s) (op_drains s) (grace_armed s) (socket_open s) (wire s) (taken s).
Definition set_torn_down (f : bool -> bool) (s : Session) : Session :=
  mkSession (epoch_ s) (outbox_ s) (out_seq_ s) (in_seq_expected_ s) (pending_svc_ s) (reject_latch_ s)
    (reject_latch_ns_ s) (retired_acks_ s) (write_inflight_ s) (write_start_ns_ s) (closing_ s) (drain_then_close_
    s) (close_frame_sent_ s) (epoch_retired_ s) (f (torn_down_ s)) (close_code_ s) (op_reads s) (op_writes s)
    (op_closes s) (op_drains s) (grace_armed s) (socket_open s) (wire s) (taken s).
Definition set_close_code (f : Z -> Z) (s : Session) : Session :=
  mkSession (epoch_ s) (outbox_ s) (out_seq_ s) (in_seq_expected_ s) (pending_svc_ s) (reject_latch_ s)
    (reject_latch_ns_ s) (retired_acks_ s) (write_inflight_ s) (write_start_ns_ s) (closing_ s) (drain_then_close_
    s) (close_frame_sent_ s) (epoch_retired_ s) (torn_down_ s) (f (close_code_ s)) (op_reads s) (op_writes s)
    (op_closes s) (op_drains s) (grace_armed s) (socket_open s) (wire s) (taken s).
Definition set_op_reads (f : nat -> nat) (s : Session) : Session :=
  mkSession (epoch_ s) (outbox_ s) (out_seq_ s) (in_seq_expected_ s) (pending_svc_ s) (reject_latch_ s)
    (reject_latch_ns_ s) (retired_acks_ s) (write_inflight_ s) (write_start_ns_ s) (closing_ s) (drain_then_close_
    s) (close_frame_sent_ s) (epoch_retired_ s) (torn_down_ s) (close_code_ s) (f (op_reads s)) (op_writes s)
    (op_closes s) (op_drains s) (grace_armed s) (socket_open s) (wire s) (taken s).
Definition set_op_writes (f : nat -> nat) (s : Session) : Session :=
  mkSession (epoch_ s) (outbox_ s) (out_seq_ s) (in_seq_expected_ s) (pending_svc_ s) (reject_latch_ s)
    (reject_latch_ns_ s) (retired_acks_ s) (write_inflight_ s) (write_start_ns_ s) (closing_ s) (drain_then_close_
    s) (close_frame_sent_ s) (epoch_retired_ s) (torn_down_ s) (close_code_ s) (op_reads s) (f (op_writes s))
    (op_closes s) (op_drains s) (grace_armed s) (socket_open s) (wire s) (taken s).
Definition set_op_closes (f : list CloseThen -> list CloseThen) (s : Session) : Session :=
  mkSession (epoch_ s) (outbox_ s) (out_seq_ s) (in_seq_expected_ s) (pending_svc_ s) (reject_latch_ s)
    (reject_latch_ns_ s) (retired_acks_ s) (write_inflight_ s) (write_start_ns_ s) (closing_ s) (drain_then_close_
    s) (close_frame_sent_ s) (epoch_retired_ s) (torn_down_ s) (close_code_ s) (op_reads s) (op_writes s) (f
    (op_closes s)) (op_drains s) (grace_armed s) (socket_open s) (wire s) (taken s).
Definition set_op_drains (f : nat -> nat) (s : Session) : Session :=
  mkSession (epoch_ s) (outbox_ s) (out_seq_ s) (in_seq_expected_ s) (pending_svc_ s) (reject_latch_ s)
    (reject_latch_ns_ s) (retired_acks_ s) (write_inflight_ s) (write_start_ns_ s) (closing_ s) (drain_then_close_
    s) (close_frame_sent_ s) (epoch_retired_ s) (torn_down_ s) (close_code_ s) (op_reads s) (op_writes s) (op_closes
    s) (f (op_drains s)) (grace_armed s) (socket_open s) (wire s) (taken s).
Definition set_grace_armed (f : bool -> bool) (s : Session) : Session :=
  mkSession (epoch_ s) (outbox_ s) (out_seq_ s) (in_seq_expected_ s) (pending_svc_ s) (reject_latch_ s)
    (reject_latch_ns_ s) (retired_acks_ s) (write_inflight_ s) (write_start_ns_ s) (closing_ s) (drain_then_close_
    s) (close_frame_sent_ s) (epoch_retired_ s) (torn_down_ s) (close_code_ s) (op_reads s) (op_writes s) (op_closes
    s) (op_drains s) (f (grace_armed s)) (socket_open s) (wire s) (taken s).
Definition set_socket_open (f : bool -> bool) (s : Session) : Session :=
  mkSession (epoch_ s) (outbox_ s) (out_seq_ s) (in_seq_expected_ s) (pending_svc_ s) (reject_latch_ s)
    (reject_latch_ns_ s) (retired_acks_ s) (write_inflight_ s) (write_start_ns_ s) (closing_ s) (drain_then_close_
    s) (close_frame_sent_ s) (epoch_retired_ s) (torn_down_ s) (close_code_ s) (op_reads s) (op_writes s) (op_closes
    s) (op_drains s) (grace_armed s) (f (socket_open s)) (wire s) (taken s).
Definition set_wire (f : list (OutMsg * bytes) -> list (OutMsg * bytes)) (s : Session) : Session :=
  mkSession (epoch_ s) (outbox_ s) (out_seq_ s) (in_seq_expected_ s) (pending_svc_ s) (reject_latch_ s)
    (reject_latch_ns_ s) (retired_acks_ s) (write_inflight_ s) (write_start_ns_ s) (closing_ s) (drain_then_close_
    s) (close_frame_sent_ s) (epoch_retired_ s) (torn_down_ s) (close_code_ s) (op_reads s) (op_writes s) (op_closes
    s) (op_drains s) (grace_armed s) (socket_open s) (f (wire s)) (taken s).
Definition set_taken (f : list InMsg -> list InMsg) (s : Session) : Session :=
  mkSession (epoch_ s) (outbox_ s) (out_seq_ s) (in_seq_expected_ s) (pending_svc_ s) (reject_latch_ s)
    (reject_latch_ns_ s) (retired_acks_ s) (write_inflight_ s) (write_start_ns_ s) (closing_ s) (drain_then_close_
    s) (close_frame_sent_ s) (epoch_retired_ s) (torn_down_ s) (close_code_ s) (op_reads s) (op_writes s) (op_closes
    s) (op_drains s) (grace_armed s) (socket_open s) (wire s) (f (taken s)).

Definition new_session (hwm epoch : Z) : outcome Session :=
  match new_outbox hwm with
  | Ret b => Ret (mkSession epoch b 1 1 [] 0 0 0 false 0 false false false false false close_none 0 0 [] 0 false true [] [])
  | Throw e => Throw e
  | UB => UB
  end.

(** ** The server *)

Inductive Timer := TFeed | TSnapshot | TBackoff | TDeadline.
#[export] Instance Timer_eq_dec : EqDecision Timer. Proof. solve_decision. Defined.

(** What an in-flight upgrade waits for: its request, the refusal's write, or
    the WebSocket handshake of the session it was moved into. *)
Inductive UpgradePhase := UpReading | UpRefusing | UpHandshaking.
#[export] Instance UpgradePhase_eq_dec : EqDecision UpgradePhase. Proof. solve_decision. Defined.

Record World := mkWorld {
  cfg_ : Config;
  engine_ : OrderEngine;
  feed_ : list FeedEvent;
  feed_index_ : nat;
  next_md_seq_ : Z;
  counters_ : Counters;
  conflated_base_ : Z;
  recorder_ : option BenchRecorder;
  pending_fault_ : option TelemetryRecord;
  sessions_ : list Z; (* the keys of the map, in order *)
  heap : gmap Z Session;  (* every Session object, by its epoch *)
  upgrades_ : list Z;  (* weak *)
  upgrades_alive : gmap Z UpgradePhase; (* the PendingUpgrade objects that still exist *)
  handshaking_ : list Z; (* weak *)
  closed_upgrades : list Z; (* upgrades whose socket shutdown closed *)
  next_epoch_ : Z;
  peak_sessions_ : Z;
  stopping_ : bool;
  finalized_ : bool;
  telemetry_ok_ : bool;
  acceptor_open : bool;
  accept_armed : bool;
  timers : list Timer;      (* timers with a pending wait *)
  feed_delay_ : Z; (* the delay the feed timer was last armed with, in ms *)
  clock_reads : nat;       (* readings taken so far of the environment's streams *)
  ring_reads : nat;
  ring_log : list (TelemetryRecord * bool); (* offered to the ring, and whether it was taken *)
  dumps : list bytes;   (* what was written to bench_out *)
}.
Definition set_cfg (f : Config -> Config) (w : World) : World :=
  mkWorld (f (cfg_ w)) (engine_ w) (feed_ w) (feed_index_ w) (next_md_seq_ w) (counters_ w) (conflated_base_ w)
    (recorder_ w) (pending_fault_ w) (sessions_ w) (heap w) (upgrades_ w) (upgrades_alive w) (handshaking_ w)
    (closed_upgrades w) (next_epoch_ w) (peak_sessions_ w) (stopping_ w) (finalized_ w) (telemetry_ok_ w)
    (acceptor_open w) (accept_armed w) (timers w) (feed_delay_ w) (clock_reads w) (ring_reads w) (ring_log w) (dumps
    w).
Definition set_engine (f : OrderEngine -> OrderEngine) (w : World) : World :=
  mkWorld (cfg_ w) (f (engine_ w)) (feed_ w) (feed_index_ w) (next_md_seq_ w) (counters_ w) (conflated_base_ w)
    (recorder_ w) (pending_fault_ w) (sessions_ w) (heap w) (upgrades_ w) (upgrades_alive w) (handshaking_ w)
    (closed_upgrades w) (next_epoch_ w) (peak_sessions_ w) (stopping_ w) (finalized_ w) (telemetry_ok_ w)
    (acceptor_open w) (accept_armed w) (timers w) (feed_delay_ w) (clock_reads w) (ring_reads w) (ring_log w) (dumps
    w).
Definition set_feed (f : list FeedEvent -> list FeedEvent) (w : World) : World :=
  mkWorld (cfg_ w) (engine_ w) (f (feed_ w)) (feed_index_ w) (next_md_seq_ w) (counters_ w) (conflated_base_ w)
    (recorder_ w) (pending_fault_ w) (sessions_ w) (heap w) (upgrades_ w) (upgrades_alive w) (handshaking_ w)
    (closed_upgrades w) (next_epoch_ w) (peak_sessions_ w) (stopping_ w) (finalized_ w) (telemetry_ok_ w)
    (acceptor_open w) (accept_armed w) (timers w) (feed_delay_ w) (clock_reads w) (ring_reads w) (ring_log w) (dumps
    w).
Definition set_feed_index (f : nat -> nat) (w : World) : World :=
  mkWorld (cfg_ w) (engine_ w) (feed_ w) (f (feed_index_ w)) (next_md_seq_ w) (counters_ w) (conflated_base_ w)
    (recorder_ w) (pending_fault_ w) (sessions_ w) (heap w) (upgrades_ w) (upgrades_alive w) (handshaking_ w)
    (closed_upgrades w) (next_epoch_ w) (peak_sessions_ w) (stopping_ w) (finalized_ w) (telemetry_ok_ w)
    (acceptor_open w) (accept_armed w) (timers w) (feed_delay_ w) (clock_reads w) (ring_reads w) (ring_log w) (dumps
    w).
Definition set_next_md_seq (f : Z -> Z) (w : World) : World :=
  mkWorld (cfg_ w) (engine_ w) (feed_ w) (feed_index_ w) (f (next_md_seq_ w)) (counters_ w) (conflated_base_ w)
    (recorder_ w) (pending_fault_ w) (sessions_ w) (heap w) (upgrades_ w) (upgrades_alive w) (handshaking_ w)
    (closed_upgrades w) (next_epoch_ w) (peak_sessions_ w) (stopping_ w) (finalized_ w) (telemetry_ok_ w)
    (acceptor_open w) (accept_armed w) (timers w) (feed_delay_ w) (clock_reads w) (ring_reads w) (ring_log w) (dumps
    w).
Definition set_counters (f : Counters -> Counters) (w : World) : World :=
  mkWorld (cfg_ w) (engine_ w) (feed_ w) (feed_index_ w) (next_md_seq_ w) (f (counters_ w)) (conflated_base_ w)
    (recorder_ w) (pending_fault_ w) (sessions_ w) (heap w) (upgrades_ w) (upgrades_alive w) (handshaking_ w)
    (closed_upgrades w) (next_epoch_ w) (peak_sessions_ w) (stopping_ w) (finalized_ w) (telemetry_ok_ w)
    (acceptor_open w) (accept_armed w) (timers w) (feed_delay_ w) (clock_reads w) (ring_reads w) (ring_log w) (dumps
    w).
Definition set_conflated_base (f : Z -> Z) (w : World) : World :=
  mkWorld (cfg_ w) (engine_ w) (feed_ w) (feed_index_ w) (next_md_seq_ w) (counters_ w) (f (conflated_base_ w))
    (recorder_ w) (pending_fault_ w) (sessions_ w) (heap w) (upgrades_ w) (upgrades_alive w) (handshaking_ w)
    (closed_upgrades w) (next_epoch_ w) (peak_sessions_ w) (stopping_ w) (finalized_ w) (telemetry_ok_ w)
    (acceptor_open w) (accept_armed w) (timers w) (feed_delay_ w) (clock_reads w) (ring_reads w) (ring_log w) (dumps
    w).
Definition set_recorder (f : option BenchRecorder -> option BenchRecorder) (w : World) : World :=
  mkWorld (cfg_ w) (engine_ w) (feed_ w) (feed_index_ w) (next_md_seq_ w) (counters_ w) (conflated_base_ w) (f
    (recorder_ w)) (pending_fault_ w) (sessions_ w) (heap w) (upgrades_ w) (upgrades_alive w) (handshaking_ w)
    (closed_upgrades w) (next_epoch_ w) (peak_sessions_ w) (stopping_ w) (finalized_ w) (telemetry_ok_ w)
    (acceptor_open w) (accept_armed w) (timers w) (feed_delay_ w) (clock_reads w) (ring_reads w) (ring_log w) (dumps
    w).
Definition set_pending_fault (f : option TelemetryRecord -> option TelemetryRecord) (w : World) : World :=
  mkWorld (cfg_ w) (engine_ w) (feed_ w) (feed_index_ w) (next_md_seq_ w) (counters_ w) (conflated_base_ w)
    (recorder_ w) (f (pending_fault_ w)) (sessions_ w) (heap w) (upgrades_ w) (upgrades_alive w) (handshaking_ w)
    (closed_upgrades w) (next_epoch_ w) (peak_sessions_ w) (stopping_ w) (finalized_ w) (telemetry_ok_ w)
    (acceptor_open w) (accept_armed w) (timers w) (feed_delay_ w) (clock_reads w) (ring_reads w) (ring_log w) (dumps
    w).
Definition set_sessions (f : list Z -> list Z) (w : World) : World :=
  mkWorld (cfg_ w) (engine_ w) (feed_ w) (feed_index_ w) (next_md_seq_ w) (counters_ w) (conflated_base_ w)
    (recorder_ w) (pending_fault_ w) (f (sessions_ w)) (heap w) (upgrades_ w) (upgrades_alive w) (handshaking_ w)
    (closed_upgrades w) (next_epoch_ w) (peak_sessions_ w) (stopping_ w) (finalized_ w) (telemetry_ok_ w)
    (acceptor_open w) (accept_armed w) (timers w) (feed_delay_ w) (clock_reads w) (ring_reads w) (ring_log w) (dumps
    w).
Definition set_heap (f : gmap Z Session -> gmap Z Session) (w : World) : World :=
  mkWorld (cfg_ w) (engine_ w) (feed_ w) (feed_index_ w) (next_md_seq_ w) (counters_ w) (conflated_base_ w)
    (recorder_ w) (pending_fault_ w) (sessions_ w) (f (heap w)) (upgrades_ w) (upgrades_alive w) (handshaking_ w)
    (closed_upgrades w) (next_epoch_ w) (peak_sessions_ w) (stopping_ w) (finalized_ w) (telemetry_ok_ w)
    (acceptor_open w) (accept_armed w) (timers w) (feed_delay_ w) (clock_reads w) (ring_reads w) (ring_log w) (dumps
    w).
Definition set_upgrades (f : list Z -> list Z) (w : World) : World :=
  mkWorld (cfg_ w) (engine_ w) (feed_ w) (feed_index_ w) (next_md_seq_ w) (counters_ w) (conflated_base_ w)
    (recorder_ w) (pending_fault_ w) (sessions_ w) (heap w) (f (upgrades_ w)) (upgrades_alive w) (handshaking_ w)
    (closed_upgrades w) (next_epoch_ w) (peak_sessions_ w) (stopping_ w) (finalized_ w) (telemetry_ok_ w)
    (acceptor_open w) (accept_armed w) (timers w) (feed_delay_ w) (clock_reads w) (ring_reads w) (ring_log w) (dumps
    w).
Definition set_upgrades_alive (f : gmap Z UpgradePhase -> gmap Z UpgradePhase) (w : World) : World :=
  mkWorld (cfg_ w) (engine_ w) (feed_ w) (feed_index_ w) (next_md_seq_ w) (counters_ w) (conflated_base_ w)
    (recorder_ w) (pending_fault_ w) (sessions_ w) (heap w) (upgrades_ w) (f (upgrades_alive w)) (handshaking_ w)
    (closed_upgrades w) (next_epoch_ w) (peak_sessions_ w) (stopping_ w) (finalized_ w) (telemetry_ok_ w)
    (acceptor_open w) (accept_armed w) (timers w) (feed_delay_ w) (clock_reads w) (ring_reads w) (ring_log w) (dumps
    w).
Definition set_handshaking (f : list Z -> list Z) (w : World) : World :=
  mkWorld (cfg_ w) (engine_ w) (feed_ w) (feed_index_ w) (next_md_seq_ w) (counters_ w) (conflated_base_ w)
    (recorder_ w) (pending_fault_ w) (sessions_ w) (heap w) (upgrades_ w) (upgrades_alive w) (f (handshaking_ w))
    (closed_upgrades w) (next_epoch_ w) (peak_sessions_ w) (stopping_ w) (finalized_ w) (telemetry_ok_ w)
    (acceptor_open w) (accept_armed w) (timers w) (feed_delay_ w) (clock_reads w) (ring_reads w) (ring_log w) (dumps
    w).
Definition set_closed_upgrades (f : list Z -> list Z) (w : World) : World :=
  mkWorld (cfg_ w) (engine_ w) (feed_ w) (feed_index_ w) (next_md_seq_ w) (counters_ w) (conflated_base_ w)
    (recorder_ w) (pending_fault_ w) (sessions_ w) (heap w) (upgrades_ w) (upgrades_alive w) (handshaking_ w) (f
    (closed_upgrades w)) (next_epoch_ w) (peak_sessions_ w) (stopping_ w) (finalized_ w) (telemetry_ok_ w)
    (acceptor_open w) (accept_armed w) (timers w) (feed_delay_ w) (clock_reads w) (ring_reads w) (ring_log w) (dumps
    w).
Definition set_next_epoch (f : Z -> Z) (w : World) : World :=
  mkWorld (cfg_ w) (engine_ w) (feed_ w) (feed_index_ w) (next_md_seq_ w) (counters_ w) (conflated_base_ w)
    (recorder_ w) (pending_fault_ w) (sessions_ w) (heap w) (upgrades_ w) (upgrades_alive w) (handshaking_ w)
    (closed_upgrades w) (f (next_epoch_ w)) (peak_sessions_ w) (stopping_ w) (finalized_ w) (telemetry_ok_ w)
    (acceptor_open w) (accept_armed w) (timers w) (feed_delay_ w) (clock_reads w) (ring_reads w) (ring_log w) (dumps
    w).
Definition set_peak_sessions (f : Z -> Z) (w : World) : World :=
  mkWorld (cfg_ w) (engine_ w) (feed_ w) (feed_index_ w) (next_md_seq_ w) (counters_ w) (conflated_base_ w)
    (recorder_ w) (pending_fault_ w) (sessions_ w) (heap w) (upgrades_ w) (upgrades_alive w) (handshaking_ w)
    (closed_upgrades w) (next_epoch_ w) (f (peak_sessions_ w)) (stopping_ w) (finalized_ w) (telemetry_ok_ w)
    (acceptor_open w) (accept_armed w) (timers w) (feed_delay_ w) (clock_reads w) (ring_reads w) (ring_log w) (dumps
    w).
Definition set_stopping (f : bool -> bool) (w : World) : World :=
  mkWorld (cfg_ w) (engine_ w) (feed_ w) (feed_index_ w) (next_md_seq_ w) (counters_ w) (conflated_base_ w)
    (recorder_ w) (pending_fault_ w) (sessions_ w) (heap w) (upgrades_ w) (upgrades_alive w) (handshaking_ w)
    (closed_upgrades w) (next_epoch_ w) (peak_sessions_ w) (f (stopping_ w)) (finalized_ w) (telemetry_ok_ w)
    (acceptor_open w) (accept_armed w) (timers w) (feed_delay_ w) (clock_reads w) (ring_reads w) (ring_log w) (dumps
    w).
Definition set_finalized (f : bool -> bool) (w : World) : World :=
  mkWorld (cfg_ w) (engine_ w) (feed_ w) (feed_index_ w) (next_md_seq_ w) (counters_ w) (conflated_base_ w)
    (recorder_ w) (pending_fault_ w) (sessions_ w) (heap w) (upgrades_ w) (upgrades_alive w) (handshaking_ w)
    (closed_upgrades w) (next_epoch_ w) (peak_sessions_ w) (stopping_ w) (f (finalized_ w)) (telemetry_ok_ w)
    (acceptor_open w) (accept_armed w) (timers w) (feed_delay_ w) (clock_reads w) (ring_reads w) (ring_log w) (dumps
    w).
Definition set_telemetry_ok (f : bool -> bool) (w : World) : World :=
  mkWorld (cfg_ w) (engine_ w) (feed_ w) (feed_index_ w) (next_md_seq_ w) (counters_ w) (conflated_base_ w)
    (recorder_ w) (pending_fault_ w) (sessions_ w) (heap w) (upgrades_ w) (upgrades_alive w) (handshaking_ w)
    (closed_upgrades w) (next_epoch_ w) (peak_sessions_ w) (stopping_ w) (finalized_ w) (f (telemetry_ok_ w))
    (acceptor_open w) (accept_armed w) (timers w) (feed_delay_ w) (clock_reads w) (ring_reads w) (ring_log w) (dumps
    w).
Definition set_acceptor_open (f : bool -> bool) (w : World) : World :=
  mkWorld (cfg_ w) (engine_ w) (feed_ w) (feed_index_ w) (next_md_seq_ w) (counters_ w) (conflated_base_ w)
    (recorder_ w) (pending_fault_ w) (sessions_ w) (heap w) (upgrades_ w) (upgrades_alive w) (handshaking_ w)
    (closed_upgrades w) (next_epoch_ w) (peak_sessions_ w) (stopping_ w) (finalized_ w) (telemetry_ok_ w) (f
    (acceptor_open w)) (accept_armed w) (timers w) (feed_delay_ w) (clock_reads w) (ring_reads w) (ring_log w)
    (dumps w).
Definition set_accept_armed (f : bool -> bool) (w : World) : World :=
  mkWorld (cfg_ w) (engine_ w) (feed_ w) (feed_index_ w) (next_md_seq_ w) (counters_ w) (conflated_base_ w)
    (recorder_ w) (pending_fault_ w) (sessions_ w) (heap w) (upgrades_ w) (upgrades_alive w) (handshaking_ w)
    (closed_upgrades w) (next_epoch_ w) (peak_sessions_ w) (stopping_ w) (finalized_ w) (telemetry_ok_ w)
    (acceptor_open w) (f (accept_armed w)) (timers w) (feed_delay_ w) (clock_reads w) (ring_reads w) (ring_log w)
    (dumps w).
Definition set_timers (f : list Timer -> list Timer) (w : World) : World :=
  mkWorld (cfg_ w) (engine_ w) (feed_ w) (feed_index_ w) (next_md_seq_ w) (counters_ w) (conflated_base_ w)
    (recorder_ w) (pending_fault_ w) (sessions_ w) (heap w) (upgrades_ w) (upgrades_alive w) (handshaking_ w)
    (closed_upgrades w) (next_epoch_ w) (peak_sessions_ w) (stopping_ w) (finalized_ w) (telemetry_ok_ w)
    (acceptor_open w) (accept_armed w) (f (timers w)) (feed_delay_ w) (clock_reads w) (ring_reads w) (ring_log w)
    (dumps w).
Definition set_feed_delay (f : Z -> Z) (w : World) : World :=
  mkWorld (cfg_ w) (engine_ w) (feed_ w) (feed_index_ w) (next_md_seq_ w) (counters_ w) (conflated_base_ w)
    (recorder_ w) (pending_fault_ w) (sessions_ w) (heap w) (upgrades_ w) (upgrades_alive w) (handshaking_ w)
    (closed_upgrades w) (next_epoch_ w) (peak_sessions_ w) (stopping_ w) (finalized_ w) (telemetry_ok_ w)
    (acceptor_open w) (accept_armed w) (timers w) (f (feed_delay_ w)) (clock_reads w) (ring_reads w) (ring_log w)
    (dumps w).
Definition set_clock_reads (f : nat -> nat) (w : World) : World :=
  mkWorld (cfg_ w) (engine_ w) (feed_ w) (feed_index_ w) (next_md_seq_ w) (counters_ w) (conflated_base_ w)
    (recorder_ w) (pending_fault_ w) (sessions_ w) (heap w) (upgrades_ w) (upgrades_alive w) (handshaking_ w)
    (closed_upgrades w) (next_epoch_ w) (peak_sessions_ w) (stopping_ w) (finalized_ w) (telemetry_ok_ w)
    (acceptor_open w) (accept_armed w) (timers w) (feed_delay_ w) (f (clock_reads w)) (ring_reads w) (ring_log w)
    (dumps w).
Definition set_ring_reads (f : nat -> nat) (w : World) : World :=
  mkWorld (cfg_ w) (engine_ w) (feed_ w) (feed_index_ w) (next_md_seq_ w) (counters_ w) (conflated_base_ w)
    (recorder_ w) (pending_fault_ w) (sessions_ w) (heap w) (upgrades_ w) (upgrades_alive w) (handshaking_ w)
    (closed_upgrades w) (next_epoch_ w) (peak_sessions_ w) (stopping_ w) (finalized_ w) (telemetry_ok_ w)
    (acceptor_open w) (accept_armed w) (timers w) (feed_delay_ w) (clock_reads w) (f (ring_reads w)) (ring_log w)
    (dumps w).
Definition set_ring_log (f : list (TelemetryRecord * bool) -> list (TelemetryRecord * bool)) (w : World) : World :=
  mkWorld (cfg_ w) (engine_ w) (feed_ w) (feed_index_ w) (next_md_seq_ w) (counters_ w) (conflated_base_ w)
    (recorder_ w) (pending_fault_ w) (sessions_ w) (heap w) (upgrades_ w) (upgrades_alive w) (handshaking_ w)
    (closed_upgrades w) (next_epoch_ w) (peak_sessions_ w) (stopping_ w) (finalized_ w) (telemetry_ok_ w)
    (acceptor_open w) (accept_armed w) (timers w) (feed_delay_ w) (clock_reads w) (ring_reads w) (f (ring_log w))
    (dumps w).
Definition set_dumps (f : list bytes -> list bytes) (w : World) : World :=
  mkWorld (cfg_ w) (engine_ w) (feed_ w) (feed_index_ w) (next_md_seq_ w) (counters_ w) (conflated_base_ w)
    (recorder_ w) (pending_fault_ w) (sessions_ w) (heap w) (upgrades_ w) (upgrades_alive w) (handshaking_ w)
    (closed_upgrades w) (next_epoch_ w) (peak_sessions_ w) (stopping_ w) (finalized_ w) (telemetry_ok_ w)
    (acceptor_open w) (accept_armed w) (timers w) (feed_delay_ w) (clock_reads w) (ring_reads w) (ring_log w) (f
    (dumps w)).
Definition set_ct_orders (f : Z -> Z) (c : Counters) : Counters :=
  mkCounters (f (ct_orders c)) (ct_fills c) (ct_rejects c) (ct_cancels c) (ct_conflated c) (outbox_depth_hw c)
    (send_lag_max_ns c) (ct_sessions c) (telemetry_pending_hw c) (ct_live_orders c) (ct_stale_books_ignored c).
Definition set_ct_fills (f : Z -> Z) (c : Counters) : Counters :=
  mkCounters (ct_orders c) (f (ct_fills c)) (ct_rejects c) (ct_cancels c) (ct_conflated c) (outbox_depth_hw c)
    (send_lag_max_ns c) (ct_sessions c) (telemetry_pending_hw c) (ct_live_orders c) (ct_stale_books_ignored c).
Definition set_ct_rejects (f : Z -> Z) (c : Counters) : Counters :=
  mkCounters (ct_orders c) (ct_fills c) (f (ct_rejects c)) (ct_cancels c) (ct_conflated c) (outbox_depth_hw c)
    (send_lag_max_ns c) (ct_sessions c) (telemetry_pending_hw c) (ct_live_orders c) (ct_stale_books_ignored c).
Definition set_ct_cancels (f : Z -> Z) (c : Counters) : Counters :=
  mkCounters (ct_orders c) (ct_fills c) (ct_rejects c) (f (ct_cancels c)) (ct_conflated c) (outbox_depth_hw c)
    (send_lag_max_ns c) (ct_sessions c) (telemetry_pending_hw c) (ct_live_orders c) (ct_stale_books_ignored c).
Definition set_ct_conflated (f : Z -> Z) (c : Counters) : Counters :=
  mkCounters (ct_orders c) (ct_fills c) (ct_rejects c) (ct_cancels c) (f (ct_conflated c)) (outbox_depth_hw c)
    (send_lag_max_ns c) (ct_sessions c) (telemetry_pending_hw c) (ct_live_orders c) (ct_stale_books_ignored c).
Definition set_outbox_depth_hw (f : Z -> Z) (c : Counters) : Counters :=
  mkCounters (ct_orders c) (ct_fills c) (ct_rejects c) (ct_cancels c) (ct_conflated c) (f (outbox_depth_hw c))
    (send_lag_max_ns c) (ct_sessions c) (telemetry_pending_hw c) (ct_live_orders c) (ct_stale_books_ignored c).
Definition set_send_lag_max_ns (f : Z -> Z) (c : Counters) : Counters :=
  mkCounters (ct_orders c) (ct_fills c) (ct_rejects c) (ct_cancels c) (ct_conflated c) (outbox_depth_hw c) (f
    (send_lag_max_ns c)) (ct_sessions c) (telemetry_pending_hw c) (ct_live_orders c) (ct_stale_books_ignored c).
Definition set_ct_sessions (f : Z -> Z) (c : Counters) : Counters :=
  mkCounters (ct_orders c) (ct_fills c) (ct_rejects c) (ct_cancels c) (ct_conflated c) (outbox_depth_hw c)
    (send_lag_max_ns c) (f (ct_sessions c)) (telemetry_pending_hw c) (ct_live_orders c) (ct_stale_books_ignored c).
Definition set_telemetry_pending_hw (f : Z -> Z) (c : Counters) : Counters :=
  mkCounters (ct_orders c) (ct_fills c) (ct_rejects c) (ct_cancels c) (ct_conflated c) (outbox_depth_hw c)
    (send_lag_max_ns c) (ct_sessions c) (f (telemetry_pending_hw c)) (ct_live_orders c) (ct_stale_books_ignored c).
Definition set_ct_live_orders (f : Z -> Z) (c : Counters) : Counters :=
  mkCounters (ct_orders c) (ct_fills c) (ct_rejects c) (ct_cancels c) (ct_conflated c) (outbox_depth_hw c)
    (send_lag_max_ns c) (ct_sessions c) (telemetry_pending_hw c) (f (ct_live_orders c)) (ct_stale_books_ignored c).
Definition set_ct_stale_books_ignored (f : Z -> Z) (c : Counters) : Counters :=
  mkCounters (ct_orders c) (ct_fills c) (ct_rejects c) (ct_cancels c) (ct_conflated c) (outbox_depth_hw c)
    (send_lag_max_ns c) (ct_sessions c) (telemetry_pending_hw c) (ct_live_orders c) (f (ct_stale_books_ignored c)).

(** ** The environment *)

(** The steady clock never goes back and passes every instant. *)
Class Env := {
  steady_clock : nat -> Z;
  steady_mono : forall n, steady_clock n <= steady_clock (S n);
  readings_until : nat -> Z -> nat;
  steady_progress : forall n t, t <= steady_clock (n + readings_until n t);
  ring_pending : nat -> Z;      (* the producer's n-th [pending()] *)
  ring_room : nat -> bool;      (* whether the n-th [try_push] finds a slot *)
  sink_healthy : bool;          (* the writer after [stop_and_join] *)
  bench_io_ok : bool;           (* the rewind and the writes of the dump *)
  signals_cleared : bool;       (* the fate of [signals_->clear] *)
}.

(** What a codec promises the session: a decoder that answers with a command or
    an error, and an encoder whose empty output is its internal-error signal. *)
Class ICodec := {
  decode : bytes -> DecodeError + InMsg;
  encode : OutMsg -> bytes;
}.

Section Primitives.
Context `{Env}.

Definition steady_ns : M World Z :=
  w ← get; modify (set_clock_reads S);; mret (steady_clock (clock_reads w)).

Definition ring_pending_now : M World Z :=
  w ← get; modify (set_ring_reads S);; mret (ring_pending (ring_reads w)).

Definition try_push (rec : TelemetryRecord) : M World bool :=
  w ← get;
  modify (set_ring_reads S);;
  modify (set_ring_log (fun l => l ++ [(rec, ring_room (ring_reads w))]));;
  mret (ring_room (ring_reads w)).

(** ServerImpl::sample_ring_pending *)
Definition sample_ring_pending : M World unit :=
  p ← ring_pending_now;
  modify (set_counters (set_telemetry_pending_hw (Z.max p))).

(** ServerImpl::emit_event *)
Definition emit_event (event : TelemetryEvent) (a0 a1 : Z) : M World unit :=
  now ← steady_ns;
  try_push (event_record event now a0 a1);;
  sample_ring_pending.
End Primitives.

Definition count_up (f : (Z -> Z) -> Counters -> Counters) : M World unit :=
  modify (set_counters (f (fun n => u64 (n + 1)))).

(** A member function of a session runs on the object its handler keeps alive. *)
Definition this (self : Z) : M World Session := w ← get; deref (heap w !! self).
Definition update (self : Z) (f : Session -> Session) : M World unit := modify (set_heap (alter f self)).

(** The engine and a session's queue inside the server. *)
Definition on_engine {A} (m : M OrderEngine A) : M World A := within engine_ (fun e => set_engine (fun _ => e)) m.
Definition on_outbox {A} (self : Z) (m : M Outbox A) : M World A := fun w o =>
  match heap w !! self with
  | Some s =>
      match m (outbox_ s) o with
      | (r, b, o') => (r, set_heap (<[self := set_outbox (fun _ => b) s]>) w, o')
      end
  | None => (UB, w, o)
  end.

(** [assert]: a violated one is as bad as undefined behaviour. *)
Definition assert_ (b : bool) : M World unit := if b then mret tt else ub.
Definition when (b : bool) (m : M World unit) : M World unit := if b then m else mret tt.
