(* ===== verification/MakeCodec.v ===== *)
(** * Choosing a codec ([make_codec], src/codec_nlohmann.cpp)

    The two arms behind the server's interface.  What the repository takes from
    nlohmann and glaze is one record of operations with its laws; whichever arm
    the configuration names, decoding is the specification's reading and every
    encoded frame reads back. *)

From Stdlib Require Import ZArith Ascii String List Lia.
From stdpp Require Import base tactics list option strings gmap.
From S2P Require Import Prelude Types Protocol Utf8 Preflight JsonGrammar PreflightSound PreflightComplete PreflightProps Codec.
From S2P Require Import JsonTokens CodecProps CodecRoundtrip CodecText CodecTuned World.

(** The third-party operations the codecs call. *)
Record Libraries := {
  json_parse : bytes -> option JVal;
  glz_tag : bytes -> option (option bytes);
  glz_new : bytes -> option NewOrder;
  glz_cancel : bytes -> option CancelOrder;
  glz_write : WriteOpts -> GlzObject -> option bytes;
}.

Record libraries_ok (lib : Libraries) : Prop := {
  lib_nlohmann : nlohmann_ok (json_parse lib);
  lib_glaze : glaze_ok (glz_tag lib) (glz_new lib) (glz_cancel lib);
  lib_writes : glaze_writes (glz_write lib);
}.

(** The preflight always answers ([scan_frame_total]), so [answer] never sees
    [None]. *)
Definition answer (r : option (DecodeError + InMsg)) : DecodeError + InMsg := default (inl (malformed "")) r.

Section Arms.
Context (lib : Libraries).

Definition make_codec_nlohmann : ICodec := {|
  World.decode frame := answer (decode_naive (json_parse lib) frame);
  World.encode := Codec.encode;
|}.

Definition make_codec_glaze : ICodec := {|
  World.decode frame := answer (decode_glaze (glz_tag lib) (glz_new lib) (glz_cancel lib) frame);
  World.encode := encode_glaze (glz_write lib);
|}.

Definition make_codec (kind : CodecKind) : ICodec :=
  match kind with Naive => make_codec_nlohmann | Tuned => make_codec_glaze end.

Context (Hlib : libraries_ok lib).

Lemma make_codec_decode kind frame : @World.decode (make_codec kind) frame = answer (decode_spec frame).
Proof.
  destruct kind; cbn; f_equal; [by apply decode_naive_spec, Hlib|by apply decode_glaze_spec, Hlib].
Qed.

Lemma make_codec_text kind frame : text_result (@World.decode (make_codec kind) frame).
Proof.
  rewrite make_codec_decode. destruct (decode_spec frame) as [r|] eqn:E; cbn; [by eapply decode_spec_text|by exists []].
Qed.

Lemma make_codec_encode kind m :
  wf_out m ->
  exists kvs, frame_preflight (@World.encode (make_codec kind) m) = Some (inr kvs) /\ read_out kvs = Some m.
Proof.
  intros Hm. destruct kind; cbn.
  - exists (out_fields m). split; [by apply encode_accepted|by apply read_out_fields].
  - destruct (encode_glaze_accepted _ m (lib_writes _ Hlib) Hm) as (kvs & Hp & Hs). exists kvs.
    split; [done|]. by rewrite Hs, read_out_fields.
Qed.
End Arms.

(** Concrete libraries that keep the laws. *)
Definition ref_libraries : Libraries := {|
  json_parse := tok_val;
  glz_tag := ref_tag; glz_new := ref_new; glz_cancel := ref_cancel;
  glz_write := ref_write;
|}.

Lemma ref_libraries_ok : libraries_ok ref_libraries.
Proof. split; [exact tok_val_ok|exact ref_ok|exact ref_writes]. Qed.
