(* ===== verification/Shutdown.v ===== *)
(** * Snapshots, the final promise and [finalize] ([cpp/src/server.cpp])

    The part of [ServerImpl] a closing session calls into: the counters
    snapshots, the publication of a record with a bounded wait, [finalize] and
    [session_closed]. *)

From Stdlib Require Import ZArith Ascii String List Lia.
From stdpp Require Import base tactics list option strings gmap.
From S2P Require Import Prelude Types Protocol Engine Outbox Utf8 Preflight Feed BenchRecorder TelemetryRing Telemetry.
From S2P Require Import World.

Section Shutdown.
Context `{Env}.

(** [expires_after] and [async_wait]: a timer has one pending wait; [cancel]. *)
Definition arm (t : Timer) : M World unit :=
  modify (set_timers (fun l => List.filter (fun t' => negb (bool_decide (t' = t))) l ++ [t])).
Definition cancel (t : Timer) : M World unit :=
  modify (set_timers (List.filter (fun t' => negb (bool_decide (t' = t))))).

(** ** Snapshots *)

(** One iteration over the session map. *)
Definition settle_one (acc : Z * Z) (epoch : Z) : M World (Z * Z) :=
  w ← get;
  s ← this epoch;
  mret (u64 (acc.1 + live_count (engine_ w) epoch), u64 (acc.2 + conflated (outbox_ s))).

Definition settle_snapshot_counters : M World unit :=
  w ← get;
  modify (set_counters (set_ct_sessions (fun _ => Z.of_nat (length (sessions_ w)))));;
  sums ← foldM settle_one (0, conflated_base_ w) (sessions_ w);
  modify (set_counters (set_ct_live_orders (fun _ => sums.1)));;
  modify (set_counters (set_ct_conflated (fun _ => sums.2)));;
  modify (fun w => set_counters (set_ct_stale_books_ignored (fun _ => stale_books_ignored (engine_ w))) w).

Definition push_snapshot : M World unit :=
  settle_snapshot_counters;;
  now ← steady_ns;
  w ← get;
  foldM (fun _ rec => try_push rec;; mret tt) tt (snapshot_records (counters_ w) now);;
  sample_ring_pending.

(** ** Publication with a bounded wait *)

(** The polling loop, in as many turns as the clock needs to reach [giveup]. *)
Fixpoint wait_for_room (fuel : nat) (giveup : Z) : M World unit :=
  match fuel with
  | O => ub
  | S fuel =>
      p ← ring_pending_now;
      if p <? TelemetryRing.kDefaultCapacity then mret tt
      else
        now ← steady_ns;
        if now <? giveup then wait_for_room fuel giveup else mret tt
  end.

Definition publish_record (rec : TelemetryRecord) : M World bool :=
  start ← steady_ns;
  let giveup := start + kFinalSnapshotWait in
  w ← get;
  wait_for_room (S (readings_until (clock_reads w) giveup)) giveup;;
  try_push rec.

(** The [do ... while] around [publish_record]. *)
Fixpoint offer_fault (fuel : nat) (giveup : Z) (rec : TelemetryRecord) : M World bool :=
  match fuel with
  | O => ub
  | S fuel =>
      ok ← publish_record rec;
      if ok : bool then modify (set_pending_fault (fun _ => None));; mret true
      else
        now ← steady_ns;
        if now <? giveup then offer_fault fuel giveup rec
        else modify (set_pending_fault (fun _ => None));; mret false
  end.

Definition publish_pending_fault : M World bool :=
  w ← get;
  match pending_fault_ w with
  | None => mret true
  | Some rec =>
      start ← steady_ns;
      let giveup := start + kFaultPublishWait in
      w ← get;
      offer_fault (S (readings_until (clock_reads w) giveup)) giveup rec
  end.

Definition push_final_snapshot : M World bool :=
  publish_pending_fault;;
  settle_snapshot_counters;;
  sample_ring_pending;;
  now ← steady_ns;
  w ← get;
  foldM (fun published rec => ok ← publish_record rec; mret (ok && published)) true
    (snapshot_records (counters_ w) now).

(** ** The end of the run *)

Definition finalize : M World unit :=
  w ← get;
  if finalized_ w then mret tt
  else
    modify (set_finalized (fun _ => true));;
    cancel TDeadline;;
    final_snapshot_ok ← push_final_snapshot;
    modify (set_telemetry_ok (fun ok => final_snapshot_ok && sink_healthy && ok));;
    w ← get;
    match recorder_ w with
    | Some rec =>
        if String.eqb (cfg_bench_out (cfg_ w)) "" || negb bench_io_ok then mret tt
        else modify (set_dumps (fun l => l ++ [serialize (peak_sessions_ w) rec]))
    | None => mret tt
    end.

Definition session_closed (epoch close_code session_conflated : Z) : M World unit :=
  modify (set_conflated_base (fun n => u64 (n + session_conflated)));;
  emit_event SessionClose epoch close_code;;
  modify (set_sessions (List.filter (fun e => negb (e =? epoch))));;
  w ← get;
  when (stopping_ w && bool_decide (sessions_ w = [])) finalize.
End Shutdown.
