(* ===== verification/Keeps.v ===== *)
(** * Stepping through handlers with an invariant

    The tactic [kstep] walks through a handler that keeps an invariant of the
    server, and the lemmas here cover the computations that touch neither the
    engine, the feed nor a session: telemetry, snapshots and the end of a run. *)

From Stdlib Require Import ZArith Ascii String List Lia.
From stdpp Require Import base tactics list option strings gmap.
From S2P Require Import Prelude Types Protocol Engine Outbox Utf8 Preflight Feed BenchRecorder TelemetryRing Telemetry.
From S2P Require Import Wp World Shutdown.

(** An invariant of the engine, the feed, the counters of identity and the
    sessions. *)
Class Stable (I : World -> Prop) : Prop := stable w w' :
  engine_ w' = engine_ w -> feed_ w' = feed_ w -> next_md_seq_ w' = next_md_seq_ w ->
  next_epoch_ w' = next_epoch_ w -> heap w' = heap w -> I w -> I w'.

Abbreviation keep I m := (keeps I m (fun _ => True)).

Lemma keep_other I `{!Stable I} f :
  (forall w, engine_ (f w) = engine_ w /\ feed_ (f w) = feed_ w /\ next_md_seq_ (f w) = next_md_seq_ w /\
     next_epoch_ (f w) = next_epoch_ w /\ heap (f w) = heap w) -> keep I (modify f).
Proof. intros Hf. apply keeps_modify. intros w. destruct (Hf w) as (E1 & E2 & E3 & E4 & E5). by apply stable. Qed.

Create HintDb keeps.
#[export] Hint Extern 1 (Stable _) => apply _ : keeps.

(** One step through a handler: a known computation, or a case.  An invariant
    supplies its lemma about [update] through [keep_session_update]. *)
Ltac keep_session_update := fail.
Ltac kprim :=
  lazymatch goal with
  | |- keeps _ (mret _) _ => apply keeps_ret
  | |- keeps _ get _ => apply keeps_get
  | |- keeps _ (modify _) _ => apply keep_other; [apply _|intros; done]
  | |- keeps _ (throw _) _ => apply keeps_throw
  | |- keeps _ ub _ => apply keeps_ub
  | |- keeps _ may_alloc _ => apply keeps_alloc
  | |- keeps _ (update _ _) _ => keep_session_update
  end.
Ltac known := first [solve [eauto with keeps] | solve [kprim; eauto with keeps] | solve [eapply keeps_any; eauto with keeps]].
Ltac kstep :=
  lazymatch goal with
  | |- keeps _ (mbind _ _) _ =>
      first [eapply keeps_bind; [known|intros ? ?] | apply (keeps_bind _ _ _ (fun _ => True)); [|intros ? _]]
  | |- keeps _ (let _ := _ in _) _ => cbv zeta
  | |- keeps _ (match ?x with _ => _ end) _ => destruct x eqn:?
  | |- keeps _ (when _ _) _ => unfold when
  | |- keeps _ (assert_ _) _ => unfold assert_
  | |- keeps _ (foldM _ _ _) (fun _ => True) => apply keeps_foldM; [exact I|intros]
  | _ => known
  end.

Lemma keep_this Inv self : keep Inv (this self).
Proof. unfold this. eapply keeps_bind; [apply keeps_get|]. intros w _. by apply keeps_deref. Qed.

(** ** Telemetry and the end of a run *)

Section Telemetry.
Context `{Env} (Inv : World -> Prop) `{!Stable Inv}.
#[local] Hint Resolve keep_this : keeps.

Lemma keep_steady_ns : keep Inv steady_ns.
Proof. unfold steady_ns. repeat kstep. Qed.
#[local] Hint Resolve keep_steady_ns : keeps.
Lemma keep_try_push rec : keep Inv (try_push rec).
Proof. unfold try_push. repeat kstep. Qed.
Lemma keep_ring_pending_now : keep Inv ring_pending_now.
Proof. unfold ring_pending_now. repeat kstep. Qed.
#[local] Hint Resolve keep_try_push keep_ring_pending_now : keeps.
Lemma keep_sample_ring_pending : keep Inv sample_ring_pending.
Proof. unfold sample_ring_pending. repeat kstep. Qed.
#[local] Hint Resolve keep_sample_ring_pending : keeps.
Lemma keep_emit_event ev a0 a1 : keep Inv (emit_event ev a0 a1).
Proof. unfold emit_event. repeat kstep. Qed.
Lemma keep_count_up f : keep Inv (count_up f).
Proof. unfold count_up. repeat kstep. Qed.
Lemma keep_arm t : keep Inv (arm t).
Proof. unfold arm. repeat kstep. Qed.
Lemma keep_cancel t : keep Inv (cancel t).
Proof. unfold cancel. repeat kstep. Qed.
#[local] Hint Resolve keep_emit_event keep_count_up keep_arm keep_cancel : keeps.
Lemma keep_settle : keep Inv settle_snapshot_counters.
Proof. unfold settle_snapshot_counters, settle_one. repeat kstep. Qed.
#[local] Hint Resolve keep_settle : keeps.
Lemma keep_push_snapshot : keep Inv push_snapshot.
Proof. unfold push_snapshot. repeat kstep. Qed.
Lemma keep_wait_for_room fuel giveup : keep Inv (wait_for_room fuel giveup).
Proof. induction fuel; cbn [wait_for_room]; repeat kstep. Qed.
#[local] Hint Resolve keep_push_snapshot keep_wait_for_room : keeps.
Lemma keep_publish_record rec : keep Inv (publish_record rec).
Proof. unfold publish_record. repeat kstep. Qed.
#[local] Hint Resolve keep_publish_record : keeps.
Lemma keep_offer_fault fuel giveup rec : keep Inv (offer_fault fuel giveup rec).
Proof. induction fuel; cbn [offer_fault]; repeat kstep. Qed.
#[local] Hint Resolve keep_offer_fault : keeps.
Lemma keep_publish_pending_fault : keep Inv publish_pending_fault.
Proof. unfold publish_pending_fault. repeat kstep. Qed.
#[local] Hint Resolve keep_publish_pending_fault : keeps.
Lemma keep_push_final_snapshot : keep Inv push_final_snapshot.
Proof. unfold push_final_snapshot. repeat kstep. Qed.
#[local] Hint Resolve keep_push_final_snapshot : keeps.
Lemma keep_finalize : keep Inv finalize.
Proof. unfold finalize. repeat kstep. Qed.
#[local] Hint Resolve keep_finalize : keeps.
Lemma keep_session_closed e code n : keep Inv (session_closed e code n).
Proof. unfold session_closed. repeat kstep. Qed.
#[local] Hint Resolve keep_session_closed : keeps.

End Telemetry.

#[export] Hint Resolve keep_steady_ns keep_try_push keep_ring_pending_now keep_sample_ring_pending keep_emit_event
  keep_count_up keep_arm keep_cancel keep_settle keep_push_snapshot keep_publish_record keep_publish_pending_fault
  keep_push_final_snapshot keep_finalize keep_session_closed : keeps.
