(* ===== verification/Session.v ===== *)
(** * One WebSocket session ([cpp/src/session.cpp], [cpp/src/session_close.cpp])

    Every member function of [Session], run on the session of epoch [self].  A
    completion handler is a function of the error code the environment completes
    the operation with. *)

From Stdlib Require Import ZArith Ascii String List Lia.
From stdpp Require Import base tactics list option strings gmap.
From S2P Require Import Prelude Types Protocol Engine Outbox Utf8 Preflight Feed BenchRecorder TelemetryRing Telemetry.
From S2P Require Import World Shutdown.

Definition reject_code_from_wire (wire : string) : option RejectCode :=
  List.find (fun code => String.eqb (to_string code) wire) all_codes.

(** What a read completes with: the peer's close and its code, Beast's timeout,
    a cancelled operation, the transport's message bound, the two kinds of
    protocol violation, any other failure, or a message. *)
Inductive ReadEc :=
| RdClosed (peer : Z)
| RdTimeout
| RdAborted
| RdTooBig
| RdBadPayload
| RdViolation
| RdOther
| RdOk (got_binary : bool) (frame : bytes).

Inductive WriteEc := WrOk | WrTimeout | WrAborted | WrOther.

Section Session.
Context `{Env, ICodec}.

(** ** Leaving *)

Definition retire_epoch (self : Z) : M World unit :=
  s ← this self;
  if epoch_retired_ s then mret tt
  else
    acks ← on_engine (end_session (epoch_ s));
    update self (set_retired_acks (fun _ => Z.of_nat (length acks)));;
    update self (set_epoch_retired (fun _ => true)).

Definition latch_close (self code : Z) (drain : bool) : M World bool :=
  s ← this self;
  if closing_ s || torn_down_ s then mret false
  else
    update self (set_closing (fun _ => true));;
    update self (set_close_code (fun _ => code));;
    update self (set_drain_then_close (fun _ => drain));;
    retire_epoch self;;
    mret true.

Definition async_close (self : Z) (k : CloseThen) : M World unit :=
  update self (set_op_closes (fun l => l ++ [k])).
Definition arm_grace (self : Z) : M World unit := update self (set_grace_armed (fun _ => true)).

Definition send_close_frame (self : Z) : M World unit :=
  s ← this self;
  if close_frame_sent_ s || torn_down_ s || write_inflight_ s then mret tt
  else
    update self (set_close_frame_sent (fun _ => true));;
    async_close self ThenRead;;
    arm_grace self.

Definition teardown (self recorded_code : Z) : M World unit :=
  s ← this self;
  if torn_down_ s then mret tt
  else
    update self (set_torn_down (fun _ => true));;
    when (write_inflight_ s)
      (now ← steady_ns;
       modify (set_counters (set_send_lag_max_ns (Z.max (u64 (now - write_start_ns_ s))))));;
    retire_epoch self;;
    update self (set_grace_armed (fun _ => false));;
    update self (set_socket_open (fun _ => false));;
    s ← this self;
    session_closed (epoch_ s) recorded_code (conflated (outbox_ s)).

Definition drain_read (self : Z) : M World unit := update self (set_op_drains S).

Definition drain_transport (self : Z) : M World unit :=
  s ← this self;
  if torn_down_ s then mret tt
  else arm_grace self;; drain_read self.

(** The completion of a drain read. *)
Definition on_drain_read (self : Z) (failed : bool) : M World unit :=
  if failed then s ← this self; teardown self (close_code_ s) else drain_read self.

(** The completion of an [async_close]. *)
Definition on_close_done (self : Z) (k : CloseThen) (failed : bool) : M World unit :=
  match k with
  | ThenRead => if failed then s ← this self; teardown self (close_code_ s) else mret tt
  | ThenDrain => drain_transport self
  end.

(** The grace timer's expiry severs the transport. *)
Definition on_grace (self : Z) : M World unit :=
  s ← this self;
  if torn_down_ s then mret tt else update self (set_socket_open (fun _ => false)).

(** ** Writing *)

Definition pop_outbox (self : Z) : M World (option OutMsg) :=
  s ← this self;
  let (popped, b) := pop (outbox_ s) in
  update self (set_outbox (fun _ => b));;
  mret popped.

Definition set_svc (ns : Z) (a : OrderAck) : OrderAck :=
  mkOrderAck (oa_v a) (oa_seq a) (oa_epoch a) (oa_cl_id a) (oa_eng_id a) (oa_status a) ns.

(** An ack takes the front of the measured service times. *)
Definition stamp_svc (self : Z) (msg : OutMsg) : M World OutMsg :=
  match msg with
  | OutAck a =>
      s ← this self;
      assert_ (negb (bool_decide (pending_svc_ s = [])));;
      match pending_svc_ s with
      | svc :: rest => update self (set_pending_svc (fun _ => rest));; mret (OutAck (set_svc svc a))
      | [] => mret msg
      end
  | _ => mret msg
  end.

Definition note_tob_out (self now : Z) (msg : OutMsg) : M World unit :=
  match msg with
  | OutTob t =>
      modify (set_recorder (fmap (md_written (tob_md_seq t) now)));;
      w ← get;
      s ← this self;
      when (cfg_telemetry_verbose (cfg_ w)) (emit_event TobOut (epoch_ s) (tob_md_seq t))
  | _ => mret tt
  end.

Definition async_write (self : Z) (msg : OutMsg) (frame : bytes) : M World unit :=
  update self (set_op_writes S);;
  update self (set_wire (fun l => l ++ [(msg, frame)])).

(** The loop body past the pop: stamp, encode, write. *)
Definition write_message (self : Z) (msg : OutMsg) : M World unit :=
  s ← this self;
  update self (set_out_seq (fun n => u64 (n + 1)));;
  msg ← stamp_svc self (stamp (out_seq_ s) (epoch_ s) msg);
  let frame := encode msg in
  if bool_decide (frame = []) then
    latch_close self internal_error false;;
    send_close_frame self
  else
    now ← steady_ns;
    note_tob_out self now msg;;
    update self (set_write_inflight (fun _ => true));;
    update self (set_write_start_ns (fun _ => now));;
    async_write self msg frame.

(** The [while] loop; it goes round again only to discard a tick. *)
Fixpoint pump_loop (fuel : nat) (self : Z) : M World unit :=
  match fuel with
  | O => ub
  | S fuel =>
      popped ← pop_outbox self;
      s ← this self;
      match popped with
      | Some msg => if closing_ s && is_tob msg then pump_loop fuel self else write_message self msg
      | None => when (closing_ s) (send_close_frame self)
      end
  end.

Definition pump (self : Z) : M World unit :=
  s ← this self;
  if write_inflight_ s || torn_down_ s || close_frame_sent_ s then mret tt
  else if closing_ s && negb (drain_then_close_ s) then send_close_frame self
  else pump_loop (S (Z.to_nat (depth (outbox_ s)))) self.

Definition begin_close (self code : Z) : M World unit :=
  latched ← latch_close self code ((code =? policy_error) || (code =? going_away));
  when latched (pump self).

Definition on_write (self : Z) (ec : WriteEc) : M World unit :=
  update self (set_write_inflight (fun _ => false));;
  s ← this self;
  if torn_down_ s then mret tt
  else
    now ← steady_ns;
    modify (set_counters (set_send_lag_max_ns (Z.max (u64 (now - write_start_ns_ s)))));;
    match ec with
    | WrOk => pump self
    | _ =>
        let idle_timeout :=
          match ec with WrTimeout => true | WrAborted => negb (closing_ s) | _ => false end in
        teardown self (if closing_ s then close_code_ s
                       else if idle_timeout then going_away else abnormal_closure)
    end.

(** ** Queueing *)

Definition mark_outbox_depth (self : Z) : M World unit :=
  s ← this self;
  modify (set_counters (set_outbox_depth_hw (Z.max (depth (outbox_ s))))).

Definition emit_reject_event (self : Z) (code : RejectCode) : M World unit :=
  now ← steady_ns;
  s ← this self;
  when (kRejectCoalesceWindow <=? now - reject_latch_ns_ s)
    (update self (set_reject_latch (fun _ => 0));;
     update self (set_reject_latch_ns (fun _ => now)));;
  s ← this self;
  let bit := Z.shiftl 1 (ordinal code) in
  if negb (Z.land (reject_latch_ s) bit =? 0) then mret tt
  else
    update self (set_reject_latch (fun l => Z.lor l bit));;
    emit_event EvReject (epoch_ s) (ordinal code).

Definition check_policy_closes (self : Z) : M World unit :=
  s ← this self;
  w ← get;
  if closing_ s then mret tt
  else if report_hwm_breached (outbox_ s) then
    emit_event HwmClose (epoch_ s) (depth (outbox_ s));;
    begin_close self policy_error
  else if entry_cap_breached (engine_ w) (epoch_ s) then
    emit_event EntryCapClose (epoch_ s) (entry_count (engine_ w) (epoch_ s));;
    begin_close self policy_error
  else mret tt.

Definition enqueue_report (self : Z) (msg : OutMsg) : M World unit :=
  on_outbox self (push_report (Some msg));;
  mark_outbox_depth self;;
  check_policy_closes self.

Definition enqueue_tob (self : Z) (tob : Tob) : M World unit :=
  update self (set_outbox (push_tob tob));;
  mark_outbox_depth self.

Definition push_reject (self : Z) (rej : Reject) (code : RejectCode) : M World unit :=
  count_up set_ct_rejects;;
  emit_reject_event self code;;
  enqueue_report self (OutReject rej).

Definition deliver_report (self : Z) (msg : OutMsg) : M World unit :=
  s ← this self;
  if torn_down_ s then mret tt
  else
    assert_ (negb (is_ack msg));;
    enqueue_report self msg;;
    pump self.

Definition deliver_tob (self : Z) (tob : Tob) : M World unit :=
  s ← this self;
  if torn_down_ s || closing_ s then mret tt
  else enqueue_tob self tob;; pump self.

(** ** Reading *)

(** The engine rejected a command: counted, and narrated by its code. *)
Definition note_reject (self : Z) (r : Reject) : M World unit :=
  count_up set_ct_rejects;;
  match reject_code_from_wire (rj_code r) with
  | Some code => emit_reject_event self code
  | None => mret tt
  end.

(** The report loop of a new order. *)
Definition new_report (self svc : Z) (_ : unit) (report : OutMsg) : M World unit :=
  match report with
  | OutAck _ =>
      count_up set_ct_orders;;
      may_alloc;;
      update self (set_pending_svc (fun q => q ++ [svc]))
  | OutReject r => note_reject self r
  | _ => mret tt
  end;;
  enqueue_report self report.

(** The report loop of a cancel. *)
Definition cancel_report (self : Z) (_ : unit) (report : OutMsg) : M World unit :=
  match report with
  | OutCancelAck _ => count_up set_ct_cancels
  | OutReject r => note_reject self r
  | _ => mret tt
  end;;
  enqueue_report self report.

Definition note_cmd_in (self svc : Z) : M World unit :=
  w ← get;
  s ← this self;
  when (cfg_telemetry_verbose (cfg_ w)) (emit_event CmdIn (epoch_ s) (u64 svc)).

Definition stale_epoch_reject (msg : InMsg) : Reject :=
  make_reject (in_cl_id msg) StaleEpoch "command epoch does not match this session's epoch".

Definition on_command (self : Z) (msg : InMsg) (arrival_ns e1_ns : Z) : M World unit :=
  s ← this self;
  if negb (in_seq msg =? in_seq_expected_ s) then begin_close self protocol_error
  else
    update self (set_in_seq_expected (fun n => u64 (n + 1)));;
    update self (set_taken (fun l => l ++ [msg]));;
    if negb (in_epoch msg =? epoch_ s) then push_reject self (stale_epoch_reject msg) StaleEpoch
    else
      match msg with
      | InNew order =>
          batch ← on_engine (on_new (epoch_ s) order);
          e2 ← steady_ns;
          let svc := e2 - e1_ns in
          modify (set_recorder (fmap (BenchRecorder.svc svc)));;
          modify (set_recorder (fmap (order_for (no_md_seq order) arrival_ns)));;
          foldM (new_report self svc) tt batch;;
          note_cmd_in self svc
      | InCancel cancel =>
          batch ← on_engine (on_cancel (epoch_ s) cancel);
          e2 ← steady_ns;
          let svc := e2 - e1_ns in
          modify (set_recorder (fmap (BenchRecorder.svc svc)));;
          foldM (cancel_report self) tt batch;;
          note_cmd_in self svc
      end.

Definition on_message (self : Z) (frame : bytes) (arrival_ns : Z) : M World unit :=
  if kMaxInboundMsgBytes <? Z.of_nat (length frame) then
    push_reject self (make_reject "" MsgTooLarge "message exceeds the 65536-byte cap") MsgTooLarge;;
    pump self
  else
    match decode frame with
    | inl err =>
        push_reject self (make_reject "" (de_code err) (de_detail err)) (de_code err);;
        pump self
    | inr msg =>
        e1_ns ← steady_ns;
        on_command self msg arrival_ns e1_ns;;
        pump self
    end.

Definition read_next (self : Z) : M World unit := update self (set_op_reads S).

Definition start (self : Z) : M World unit := read_next self.

Definition on_read (self : Z) (ec : ReadEc) : M World unit :=
  s ← this self;
  if torn_down_ s then mret tt
  else
    match ec with
    | RdClosed peer =>
        teardown self (if closing_ s then close_code_ s
                       else if peer =? close_none then close_normal else peer)
    | RdTimeout => teardown self (if closing_ s then close_code_ s else going_away)
    | RdTooBig =>
        latched ← latch_close self too_big false;
        if negb latched then s ← this self; teardown self (close_code_ s)
        else
          update self (set_close_frame_sent (fun _ => true));;
          async_close self ThenDrain
    | RdAborted | RdBadPayload | RdViolation | RdOther =>
        teardown self
          (if closing_ s then close_code_ s
           else match ec with
                | RdAborted => going_away
                | RdBadPayload => bad_payload
                | RdViolation => protocol_error
                | _ => abnormal_closure
                end)
    | RdOk got_binary frame =>
        arrival ← steady_ns;
        if closing_ s then read_next self
        else if got_binary then begin_close self protocol_error;; read_next self
        else on_message self frame arrival;; read_next self
    end.
End Session.
