(* ===== verification/Server.v ===== *)
(** * The server ([cpp/src/server.cpp], [cpp/src/server_accept.cpp])

    The acceptor and the upgrades, the feed driver, shutdown, and the event loop
    that dispatches completions to the handlers.  A run is a list of events the
    environment chooses among the outstanding operations, each with the
    allocations it makes fail. *)

From Stdlib Require Import ZArith Ascii String List Lia.
From stdpp Require Import base tactics list option strings gmap.
From S2P Require Import Prelude Types Protocol Engine Outbox Utf8 Preflight Feed BenchRecorder TelemetryRing Telemetry.
From S2P Require Import World Shutdown Session.

(** ** The upgrade request *)

Inductive HttpField := SecWebSocketProtocol | Origin | OtherField.
#[export] Instance HttpField_eq_dec : EqDecision HttpField. Proof. solve_decision. Defined.

Record Request := mkRequest { is_upgrade : bool; headers : list (HttpField * bytes) }.

Definition is_blank (c : ascii) : bool := Ascii.eqb c " " || Ascii.eqb c (chr 9).
Definition trim_blanks (s : bytes) : bytes := rev (drop_while is_blank (rev (drop_while is_blank s))).
Definition not_comma (c : ascii) : bool := negb (Ascii.eqb c ",").

(** The inner loop: one header's comma-separated tokens. *)
Fixpoint list_offers (fuel : nat) (l : bytes) : bool :=
  match fuel, l with
  | O, _ | _, [] => false
  | S fuel, _ =>
      if bool_decide (trim_blanks (take_while not_comma l) = list_ascii_of_string kSubprotocol) then true
      else match drop_while not_comma l with [] => false | _ :: rest => list_offers fuel rest end
  end.

Definition offers_mm_v1 (req : Request) : bool :=
  existsb (fun h => bool_decide (h.1 = SecWebSocketProtocol) && list_offers (length h.2) h.2) (headers req).

Definition origin_count (req : Request) : nat :=
  length (List.filter (fun h => bool_decide (h.1 = Origin)) (headers req)).

Inductive RefusalReason := RefSubprotocol | RefOrigin | RefAdmission.
Definition reason_code (r : RefusalReason) : Z :=
  match r with RefSubprotocol => 0 | RefOrigin => 1 | RefAdmission => 2 end.

Section Server.
Context `{Env, ICodec}.

(** ** Accepting *)

Definition refuse_upgrade (id status : Z) (reason : RefusalReason) : M World unit :=
  emit_event UpgradeRefused status (reason_code reason);;
  modify (set_upgrades_alive (<[id := UpRefusing]>)).

(** The last reference to a [PendingUpgrade] goes with its handler. *)
Definition drop_upgrade (id : Z) : M World unit := modify (set_upgrades_alive (delete id)).

Definition accept_next : M World unit := modify (set_accept_armed (fun _ => true)).

(** [std::erase_if] of the expired entries. *)
Definition live_upgrades : M World Z :=
  modify (fun w => set_upgrades (List.filter (fun id => bool_decide (is_Some (upgrades_alive w !! id)))) w);;
  w ← get;
  mret (Z.of_nat (length (upgrades_ w))).

Definition on_upgrade_request (id : Z) : M World unit :=
  modify (set_upgrades_alive (<[id := UpReading]>));;
  live_upgrades;;
  modify (set_upgrades (fun l => l ++ [id])).

(** The completion of an accept; [id] names the new upgrade. *)
Definition on_accept (id : Z) (failed : bool) : M World unit :=
  w ← get;
  if failed then
    if stopping_ w || negb (acceptor_open w) then mret tt else arm TBackoff
  else
    in_flight ← live_upgrades;
    w ← get;
    (if negb (stopping_ w) && (cfg_max_sessions (cfg_ w) <=? in_flight) then
       emit_event AdmissionRefused in_flight 0
     else if negb (stopping_ w) then on_upgrade_request id
     else mret tt);;
    accept_next.

Definition on_backoff : M World unit :=
  w ← get;
  if negb (stopping_ w) && acceptor_open w then accept_next else mret tt.

(** The completion of the pre-upgrade read. *)
Definition on_request (id : Z) (failed : bool) (req : Request) : M World unit :=
  w ← get;
  if failed || stopping_ w then drop_upgrade id
  else if negb (is_upgrade req) || negb (offers_mm_v1 req) then refuse_upgrade id 400 RefSubprotocol
  else if negb (Nat.eqb (origin_count req) 0) then refuse_upgrade id 403 RefOrigin
  else
    in_flight ← live_upgrades;
    w ← get;
    let load := Z.of_nat (length (sessions_ w)) + in_flight in
    if cfg_max_sessions (cfg_ w) <? load then
      emit_event AdmissionRefused load 1;;
      refuse_upgrade id 503 RefAdmission
    else
      modify (set_handshaking (fun l => l ++ [id]));;
      modify (set_upgrades_alive (<[id := UpHandshaking]>)).

(** [std::map::emplace], the keys in order. *)
Fixpoint emplace_key (k : Z) (l : list Z) : list Z :=
  match l with
  | [] => [k]
  | x :: l' => if k <? x then k :: l else if k =? x then l else x :: emplace_key k l'
  end.

Definition note_session_added : M World unit :=
  modify (fun w => set_peak_sessions (Z.max (Z.of_nat (length (sessions_ w)))) w).

(** The completion of the WebSocket handshake. *)
Definition on_handshake (id : Z) (failed : bool) : M World unit :=
  modify (set_handshaking (List.filter (fun i => negb (i =? id))));;
  w ← get;
  (if failed || stopping_ w then mret tt
   else
     modify (set_next_epoch (fun n => u64 (n + 1)));;
     w ← get;
     let epoch := next_epoch_ w in
     match new_session (cfg_report_hwm (cfg_ w)) epoch with
     | Ret s =>
         modify (set_heap (<[epoch := s]>));;
         modify (set_sessions (emplace_key epoch));;
         note_session_added;;
         emit_event SessionOpen epoch 0;;
         start epoch
     | Throw e => throw e
     | UB => ub
     end);;
  drop_upgrade id.

(** ** Shutdown *)

Definition abort_pending_upgrades : M World unit :=
  modify (fun w => set_closed_upgrades
    (fun l => l ++ List.filter (fun id => bool_decide (is_Some (upgrades_alive w !! id))) (upgrades_ w)) w);;
  modify (fun w => set_closed_upgrades (fun l => l ++ handshaking_ w) w).

(** Every session closes 1001, over a copy of the map. *)
Definition close_all : M World unit :=
  w ← get;
  foldM (fun _ epoch => begin_close epoch going_away) tt (sessions_ w).

Definition begin_stop : M World unit :=
  w ← get;
  if stopping_ w then mret tt
  else
    modify (set_stopping (fun _ => true));;
    modify (set_acceptor_open (fun _ => false));;
    cancel TFeed;;
    cancel TSnapshot;;
    cancel TBackoff;;
    when (cfg_handle_signals (cfg_ w) && negb signals_cleared)
      (modify (set_telemetry_ok (fun _ => false)));;
    abort_pending_upgrades;;
    w ← get;
    if bool_decide (sessions_ w = []) then finalize
    else
      close_all;;
      arm TDeadline.

Definition on_deadline : M World unit :=
  w ← get;
  if finalized_ w then mret tt
  else foldM (fun _ epoch => update epoch (set_socket_open (fun _ => false))) tt (sessions_ w).

(** ** The feed driver *)

Definition schedule_feed (delay : Z) : M World unit :=
  modify (set_feed_delay (fun _ => delay));;
  arm TFeed.

Definition route_one (_ : unit) (report : Routed) : M World unit :=
  when (is_fill (r_msg report)) (count_up set_ct_fills);;
  w ← get;
  when (bool_decide (r_session report ∈ sessions_ w)) (deliver_report (r_session report) (r_msg report)).

Definition publish_book (set : FeedSet) : M World unit :=
  modify (set_next_md_seq (fun n => u64 (n + 1)));;
  w ← get;
  let b := mkBook (fs_bid_px set) (fs_bid_qty set) (fs_ask_px set) (fs_ask_qty set) (next_md_seq_ w) in
  m0 ← steady_ns;
  modify (set_recorder (fmap (md_published (Engine.md_seq b) m0)));;
  routed ← on_engine (on_book b);
  foldM route_one tt routed;;
  w ← get;
  let tob := mkTob 1 0 0 (Engine.md_seq b) (symbol (inst (engine_ w))) (fs_bid_px set) (fs_bid_qty set)
               (fs_ask_px set) (fs_ask_qty set) in
  foldM (fun _ epoch => deliver_tob epoch tob) tt (sessions_ w).

Definition next_event : M World (option FeedEvent) :=
  w ← get;
  let wraps := (length (feed_ w) <=? feed_index_ w)%nat in
  if wraps && negb (cfg_loop_feed (cfg_ w) && negb (bool_decide (feed_ w = []))) then mret None
  else
    when wraps (modify (set_feed_index (fun _ => 0%nat)));;
    w ← get;
    modify (set_feed_index S);;
    deref (Some <$> (feed_ w !! feed_index_ w)).

Definition on_feed_event : M World unit :=
  w ← get;
  if stopping_ w then mret tt
  else
    event ← next_event;
    match event with
    | None => begin_stop
    | Some (EvSet set) => publish_book set;; schedule_feed (cfg_feed_interval_ms (cfg_ w))
    | Some (EvHalt ms) => schedule_feed ms
    | Some EvDrop => close_all;; schedule_feed (cfg_feed_interval_ms (cfg_ w))
    | Some EvEnd => begin_stop
    end.

Definition on_snapshot_timer : M World unit :=
  w ← get;
  if stopping_ w then mret tt
  else
    push_snapshot;;
    arm TSnapshot.

(** ** The event loop *)

Inductive Event :=
| EvAccept (id : Z) (failed : bool)
| EvBackoff
| EvRequest (id : Z) (failed : bool) (req : Request)
| EvRefusalSent (id : Z)
| EvHandshake (id : Z) (failed : bool)
| EvRead (epoch : Z) (ec : ReadEc)
| EvWrite (epoch : Z) (ec : WriteEc)
| EvClosed (epoch : Z) (failed : bool)
| EvDrained (epoch : Z) (failed : bool)
| EvGrace (epoch : Z)
| EvFeed
| EvSnapshot
| EvDeadline
| EvStop.

Definition has_session (w : World) (epoch : Z) (p : Session -> bool) : bool :=
  match heap w !! epoch with Some s => p s | None => false end.
Definition upgrade_is (w : World) (id : Z) (ph : UpgradePhase) : bool :=
  bool_decide (upgrades_alive w !! id = Some ph).
Definition timer_armed (w : World) (t : Timer) : bool := bool_decide (t ∈ timers w).

(** A completion can come only of an operation that is outstanding; a stop can
    be posted at any time. *)
Definition enabled (ev : Event) (w : World) : bool :=
  match ev with
  | EvAccept id _ =>
      accept_armed w && bool_decide (upgrades_alive w !! id = None) && bool_decide (id ∉ upgrades_ w)
  | EvBackoff => timer_armed w TBackoff
  | EvRequest id _ _ => upgrade_is w id UpReading
  | EvRefusalSent id => upgrade_is w id UpRefusing
  | EvHandshake id _ => upgrade_is w id UpHandshaking
  | EvRead e _ => has_session w e (fun s => (0 <? op_reads s)%nat)
  | EvWrite e _ => has_session w e (fun s => (0 <? op_writes s)%nat)
  | EvClosed e _ => has_session w e (fun s => negb (bool_decide (op_closes s = [])))
  | EvDrained e _ => has_session w e (fun s => (0 <? op_drains s)%nat)
  | EvGrace e => has_session w e grace_armed
  | EvFeed => timer_armed w TFeed
  | EvSnapshot => timer_armed w TSnapshot
  | EvDeadline => timer_armed w TDeadline
  | EvStop => true
  end.

(** The operation completes, then its handler runs. *)
Definition dispatch (ev : Event) : M World unit :=
  match ev with
  | EvAccept id failed => modify (set_accept_armed (fun _ => false));; on_accept id failed
  | EvBackoff => cancel TBackoff;; on_backoff
  | EvRequest id failed req => on_request id failed req
  | EvRefusalSent id => drop_upgrade id
  | EvHandshake id failed => on_handshake id failed
  | EvRead e ec => update e (set_op_reads pred);; on_read e ec
  | EvWrite e ec => update e (set_op_writes pred);; on_write e ec
  | EvClosed e failed =>
      s ← this e;
      update e (set_op_closes tail);;
      match op_closes s with k :: _ => on_close_done e k failed | [] => mret tt end
  | EvDrained e failed => update e (set_op_drains pred);; on_drain_read e failed
  | EvGrace e => update e (set_grace_armed (fun _ => false));; on_grace e
  | EvFeed => cancel TFeed;; on_feed_event
  | EvSnapshot => cancel TSnapshot;; on_snapshot_timer
  | EvDeadline => cancel TDeadline;; on_deadline
  | EvStop => begin_stop
  end.

(** What [run] does with an exception that escapes a handler. *)
Definition abort_run : M World unit :=
  modify (set_stopping (fun _ => true));;
  now ← steady_ns;
  let fault := event_record EngineFault now 0 0 in
  modify (set_pending_fault (fun _ => Some fault));;
  published ← publish_record fault;
  when published (modify (set_pending_fault (fun _ => None)));;
  modify (set_telemetry_ok (fun _ => false));;
  finalize.

(** The state [run] enters the loop with. *)
Definition start_run : M World unit :=
  push_snapshot;;
  arm TSnapshot;;
  schedule_feed 0;;
  accept_next.

(** A run of the loop: [Looping] while handlers return, [Died] once one threw
    and the abort path ran. *)
Inductive Life := Looping (w : World) | Died (e : exn) (w : World) | Undefined.

Fixpoint io_run (evs : list (Event * oracle)) (w : World) : Life :=
  match evs with
  | [] => Looping w
  | (ev, orc) :: evs' =>
      if enabled ev w then
        match dispatch ev w orc with
        | (Ret _, w', _) => io_run evs' w'
        | (Throw e, w', _) => match abort_run w' [] with (Ret _, w'', _) => Died e w'' | _ => Undefined end
        | (UB, _, _) => Undefined
        end
      else io_run evs' w
  end.
End Server.
