(* ===== verification/Wire.v ===== *)
(** * Everything on its way out is sendable

    One invariant of the whole server, kept by every handler whether it returns
    or throws: the engine's identifiers are text, the feed's numbers are 64-bit,
    every queued message is sendable, and every frame on the wire is the
    encoding of a sendable message. *)

From Stdlib Require Import ZArith Ascii String List Lia.
From stdpp Require Import base tactics list option strings gmap.
From S2P Require Import Prelude Types Protocol Engine EngineInv EngineSpec Outbox Utf8 Preflight Codec JsonTokens CodecRoundtrip CodecText.
From S2P Require Import EngineText Feed FeedProps BenchRecorder TelemetryRing Telemetry Wp World Shutdown Session Server Keeps.

(** ** The feed's numbers *)

Definition set_fits (s : FeedSet) : Prop :=
  is_i64 (fs_bid_px s) /\ is_i64 (fs_bid_qty s) /\ is_i64 (fs_ask_px s) /\ is_i64 (fs_ask_qty s).
Definition event_fits (ev : FeedEvent) : Prop := match ev with EvSet s => set_fits s | _ => True end.

Lemma walk_fields_fits loc names tokens zs : walk_fields loc names tokens = inr zs -> Forall is_i64 zs.
Proof.
  revert tokens zs. induction names as [|name names IH]; intros [|t tokens] zs; cbn [walk_fields];
    try (intros [= <-]; constructor).
  destruct (to_i64 loc t name) as [|z] eqn:Ez; [done|]. case_match; [done|].
  destruct (walk_fields loc names tokens) as [|zs'] eqn:Ew; [done|]. intros [= <-]. constructor; [|by eapply IH].
  unfold to_i64 in Ez. destruct (is_integer_token t) eqn:Et; [|done]. cbn [negb] in Ez.
  rewrite from_chars_i64_spec in Ez by done. destruct (tok_i64 t) as [z'|] eqn:Er; [|done]. injection Ez as <-.
  by eapply tok_i64_range.
Qed.

Lemma nth_fits zs n : Forall is_i64 zs -> is_i64 (nth n zs 0).
Proof.
  intros Hz. destruct (nth_in_or_default n zs 0) as [Hin| ->]; [|done].
  rewrite Forall_forall in Hz. by apply Hz, list_elem_of_In.
Qed.

Lemma parse_line_fits loc txt ev : parse_line loc txt = Some (inr ev) -> event_fits ev.
Proof.
  unfold parse_line. destruct (frame_preflight txt) as [[?|scan]|]; try done.
  destruct scan as [|[key value] [|]]; try done. unfold parse_event.
  repeat (case_bool_decide; [case_match; [done|]; intros; simplify_eq; try done|]); [|done].
  match goal with H : parse_set _ _ = inr _ |- _ => rename H into Hp end. unfold parse_set in Hp. cbv zeta in Hp.
  repeat (case_match; try done). simplify_eq.
  match goal with H : walk_fields _ _ _ = inr _ |- _ => apply walk_fields_fits in H as Hw end.
  cbn. unfold set_fits. cbn [fs_bid_px fs_bid_qty fs_ask_px fs_ask_qty]. by split_and!; apply nth_fits.
Qed.

Lemma load_lines_fits src lines n ended acc evs :
  load_lines src lines n ended acc = Some (inr evs) -> Forall event_fits acc -> Forall event_fits evs.
Proof.
  revert n ended acc. induction lines as [|txt lines IH]; intros n ended acc; cbn [load_lines]; [by intros [= <-]|].
  destruct ended; [done|]. destruct (parse_line _ txt) as [[?|ev]|] eqn:Ep; try done.
  intros Hl Ha. eapply IH; [exact Hl|]. apply Forall_app. split; [done|]. apply Forall_singleton. by eapply parse_line_fits.
Qed.

Lemma load_feed_fits path entry evs : load_feed path entry = Some (inr evs) -> Forall event_fits evs.
Proof.
  destruct entry as [| |contents bad]; try done. cbn [load_feed]. unfold load_feed_stream.
  destruct (load_lines _ _ _ _ _) as [[?|l]|] eqn:El; try done. repeat case_match; intros; simplify_eq.
  eapply load_lines_fits; [exact El|constructor].
Qed.

(** ** The invariant *)

(** What the theorems below ask of a codec's decoder. *)
Class TextCodec `{ICodec} : Prop := decode_text : forall frame, text_result (decode frame).

Section Wire.
Context `{Env, ICodec, !TextCodec}.

Record sess_clean (s : Session) : Prop := {
  sc_epoch : is_u64 (epoch_ s);
  sc_seq : is_u64 (out_seq_ s);
  sc_reports : Forall sendable (reports_ (outbox_ s));
  sc_tob : forall t, tob_ (outbox_ s) = Some t -> sendable (OutTob t);
  sc_wire : Forall (fun x => sendable x.1 /\ x.2 = World.encode x.1) (wire s);
}.

Record clean (w : World) : Prop := {
  cl_engine : engine_text (engine_ w);
  cl_feed : Forall event_fits (feed_ w);
  cl_md : is_u64 (next_md_seq_ w);
  cl_epoch : is_u64 (next_epoch_ w);
  cl_sess : map_Forall (fun _ => sess_clean) (heap w);
}.

#[export] Instance clean_stable : Stable clean.
Proof. intros w w' E1 E2 E3 E4 E5 []. split; by rewrite ?E1, ?E2, ?E3, ?E4, ?E5. Qed.

Lemma keeps_this self : keeps clean (this self) sess_clean.
Proof.
  unfold this. eapply keeps_bind; [apply keeps_get|]. intros w Hw. apply keeps_deref. intros s Hs.
  exact (cl_sess _ Hw self s Hs).
Qed.

Lemma keep_update self f : (forall s, sess_clean s -> sess_clean (f s)) -> keep clean (update self f).
Proof.
  intros Hf. apply keeps_modify. intros w []. split; try done. cbn. intros e s Hs.
  destruct (decide (e = self)) as [->|Hne].
  - rewrite lookup_alter_eq in Hs. apply fmap_Some in Hs as (s0 & Hs0 & ->). apply Hf. by eapply cl_sess0.
  - rewrite lookup_alter_ne in Hs by done. by eapply cl_sess0.
Qed.

Lemma keeps_engine {A} (m : M OrderEngine A) (R : A -> Prop) :
  (forall e, engine_text e -> exists out e', atomic e m e out e' /\ engine_text e' /\ R out) ->
  keeps clean (on_engine m) R.
Proof.
  intros Hm. unfold on_engine. apply keeps_within. intros w Hw.
  destruct (Hm _ (cl_engine _ Hw)) as (out & e' & Ha & He' & HR). exists out, e'.
  split; [done|]. destruct Hw. split; [by split|]. split; [by split|done].
Qed.
#[local] Hint Resolve keeps_this : keeps.
Ltac keep_session_update ::=
  apply keep_update; let s := fresh "s" in let Hs := fresh in intros s Hs; destruct Hs; by split.

(** ** A session *)

Lemma keep_end_session e : keep clean (on_engine (end_session e)).
Proof. apply keeps_engine. intros x Hx. destruct (end_session_text x e Hx) as (out & e' & ? & ?). eauto. Qed.
#[local] Hint Resolve keep_end_session : keeps.
Lemma keep_retire_epoch self : keep clean (retire_epoch self).
Proof. unfold retire_epoch. repeat kstep. Qed.
#[local] Hint Resolve keep_retire_epoch : keeps.
Lemma keep_latch_close self code drain : keep clean (latch_close self code drain).
Proof. unfold latch_close. repeat kstep. Qed.
Lemma keep_send_close_frame self : keep clean (send_close_frame self).
Proof. unfold send_close_frame, async_close, arm_grace. repeat kstep. Qed.
Lemma keep_teardown self code : keep clean (teardown self code).
Proof. unfold teardown. repeat kstep. Qed.
#[local] Hint Resolve keep_latch_close keep_send_close_frame keep_teardown : keeps.
Lemma keep_on_drain_read self failed : keep clean (on_drain_read self failed).
Proof. unfold on_drain_read, drain_read. repeat kstep. Qed.
Lemma keep_on_close_done self k failed : keep clean (on_close_done self k failed).
Proof. unfold on_close_done, drain_transport, arm_grace, drain_read. repeat kstep. Qed.
Lemma keep_on_grace self : keep clean (on_grace self).
Proof. unfold on_grace. repeat kstep. Qed.

(** What leaves the queue may be sent. *)
Lemma keeps_pop_outbox self :
  keeps clean (pop_outbox self) (fun popped => forall m, popped = Some m -> sendable m).
Proof.
  unfold pop_outbox, pop. eapply keeps_bind; [apply keeps_this|]. intros s [_ _ Hr Ht _].
  destruct (reports_ (outbox_ s)) as [|m q] eqn:Er; [destruct (tob_ (outbox_ s)) as [t|] eqn:Et|].
  - eapply keeps_bind; [apply keep_update; intros s' []; split; try done; cbn; constructor|].
    intros _ _. apply keeps_ret. intros m [= <-]. by apply Ht.
  - eapply keeps_bind; [apply keep_update; intros s' []; split; try done; cbn; [by rewrite Er|by rewrite Et]|].
    intros _ _. by apply keeps_ret.
  - inversion_clear Hr. eapply keeps_bind; [apply keep_update; intros s' []; by split|].
    intros _ _. apply keeps_ret. by intros ? [= <-].
Qed.

Lemma keeps_stamp_svc self m : sendable m -> keeps clean (stamp_svc self m) sendable.
Proof.
  intros Hm. destruct m as [t|a|c|r|f]; cbn [stamp_svc]; try by apply keeps_ret.
  eapply keeps_bind; [apply keeps_this|]. intros s _. apply (keeps_bind _ _ _ (fun _ => True)); [repeat kstep|intros _ _].
  case_match; [by apply keeps_ret|]. eapply keeps_bind; [known|]. intros _ _. by apply keeps_ret.
Qed.

Lemma keep_note_tob_out self now m : keep clean (note_tob_out self now m).
Proof. unfold note_tob_out. repeat kstep. Qed.
#[local] Hint Resolve keep_note_tob_out : keeps.

Lemma keep_async_write self m : sendable m -> keep clean (async_write self m (World.encode m)).
Proof.
  intros Hm. unfold async_write. eapply keeps_bind; [known|]. intros _ _. apply keep_update. intros s []. split; try done.
  cbn. apply Forall_app. split; [done|]. by apply Forall_singleton.
Qed.

Lemma keep_write_message self m : sendable m -> keep clean (write_message self m).
Proof.
  intros Hm. unfold write_message. eapply keeps_bind; [apply keeps_this|]. intros s Hs.
  eapply keeps_bind; [apply keep_update; intros s' []; split; try done; apply u64_range|]. intros _ _.
  eapply keeps_bind; [apply keeps_stamp_svc, sendable_stamp; [apply Hs..|done]|]. intros m' Hm'.
  pose proof (keep_async_write self m' Hm'). repeat kstep.
Qed.

Lemma keep_pump_loop fuel self : keep clean (pump_loop fuel self).
Proof.
  induction fuel as [|fuel IH]; cbn [pump_loop]; [kstep|]. eapply keeps_bind; [apply keeps_pop_outbox|]. intros popped Hp.
  eapply keeps_bind; [apply keeps_this|]. intros s _. destruct popped as [m|]; [|repeat kstep].
  case_match; [done|]. by apply keep_write_message, Hp.
Qed.
#[local] Hint Resolve keep_pump_loop : keeps.
Lemma keep_pump self : keep clean (pump self).
Proof. unfold pump. repeat kstep. Qed.
#[local] Hint Resolve keep_pump : keeps.
Lemma keep_begin_close self code : keep clean (begin_close self code).
Proof. unfold begin_close. repeat kstep. Qed.
Lemma keep_on_write self ec : keep clean (on_write self ec).
Proof. unfold on_write. repeat kstep. Qed.
#[local] Hint Resolve keep_begin_close : keeps.

(** ** Queueing *)

Lemma keep_mark_outbox_depth self : keep clean (mark_outbox_depth self).
Proof. unfold mark_outbox_depth. repeat kstep. Qed.
Lemma keep_emit_reject_event self code : keep clean (emit_reject_event self code).
Proof. unfold emit_reject_event. repeat kstep. Qed.
Lemma keep_check_policy_closes self : keep clean (check_policy_closes self).
Proof. unfold check_policy_closes. repeat kstep. Qed.
#[local] Hint Resolve keep_mark_outbox_depth keep_emit_reject_event keep_check_policy_closes : keeps.

Lemma keep_push_report self m : sendable m -> keep clean (on_outbox self (push_report (Some m))).
Proof.
  intros Hm w o Hw. unfold on_outbox. destruct (heap w !! self) as [s|] eqn:Es; [|done].
  pose proof (cl_sess _ Hw self s Es) as Hs.
  assert (forall b, sess_clean (set_outbox (fun _ => b) s) -> clean (set_heap (<[self := set_outbox (fun _ => b) s]>) w)) as Hput.
  { intros b Hb. destruct Hw. split; try done. cbn. by apply map_Forall_insert_2. }
  destruct (push_report_cases (Some m) (outbox_ s) o) as [(x & b & o' & [= <-] & _ & -> & ->)|(e & o' & -> & _)].
  - split; [|done]. apply Hput. destruct Hs. split; try done. cbn. apply Forall_app. split; [done|]. by apply Forall_singleton.
  - apply Hput. by destruct Hs.
Qed.

Lemma keep_enqueue_report self m : sendable m -> keep clean (enqueue_report self m).
Proof. intros Hm. pose proof (keep_push_report self m Hm). unfold enqueue_report. repeat kstep. Qed.

Lemma keep_push_reject self rej code : sendable (OutReject rej) -> keep clean (push_reject self rej code).
Proof. intros Hr. pose proof (keep_enqueue_report self _ Hr). unfold push_reject. repeat kstep. Qed.

Lemma keep_deliver_report self m : sendable m -> keep clean (deliver_report self m).
Proof. intros Hm. pose proof (keep_enqueue_report self m Hm). unfold deliver_report. repeat kstep. Qed.

Lemma keep_deliver_tob self t : sendable (OutTob t) -> keep clean (deliver_tob self t).
Proof.
  intros Ht. unfold deliver_tob, enqueue_tob. eapply keeps_bind; [known|]. intros s _. case_match; [known|].
  assert (keep clean (update self (set_outbox (push_tob t)))).
  { apply keep_update. intros s' []. split; try done. cbn. by intros ? [= <-]. }
  repeat kstep.
Qed.

(** ** Commands *)

Lemma keep_note_reject self r : keep clean (note_reject self r).
Proof. unfold note_reject. repeat kstep. Qed.
#[local] Hint Resolve keep_note_reject : keeps.

Lemma keep_new_report self svc x m : sendable m -> keep clean (new_report self svc x m).
Proof. intros Hm. pose proof (keep_enqueue_report self m Hm). unfold new_report. destruct m; repeat kstep. Qed.
Lemma keep_cancel_report self x m : sendable m -> keep clean (cancel_report self x m).
Proof. intros Hm. pose proof (keep_enqueue_report self m Hm). unfold cancel_report. destruct m; repeat kstep. Qed.

Lemma keep_batch (f : unit -> OutMsg -> M World unit) batch :
  (forall x m, sendable m -> keep clean (f x m)) -> Forall sendable batch -> keep clean (foldM f tt batch).
Proof.
  intros Hf Hb. apply keeps_foldM; [exact I|]. intros x m Hin _. apply Hf. rewrite Forall_forall in Hb. by apply Hb.
Qed.

Lemma keep_note_cmd_in self svc : keep clean (note_cmd_in self svc).
Proof. unfold note_cmd_in. repeat kstep. Qed.
#[local] Hint Resolve keep_note_cmd_in : keeps.

Lemma keep_on_command self msg arrival e1 : utf8_string (in_cl_id msg) -> keep clean (on_command self msg arrival e1).
Proof.
  intros Hc. unfold on_command. eapply keeps_bind; [apply keeps_this|]. intros s _. case_match; [known|].
  repeat (eapply keeps_bind; [known|intros _ _]). case_match.
  { apply keep_push_reject, sendable_reject; [done|]. apply ascii_string_utf8. ascii_literal. }
  destruct msg as [order|cancel]; (eapply keeps_bind; [apply keeps_engine; intros e He; by first [apply on_new_text|apply on_cancel_text]|]);
    intros batch Hb; repeat (eapply keeps_bind; [known|intros ? _]).
  - eapply keeps_bind; [apply keep_batch; [apply keep_new_report|done]|]. intros _ _. known.
  - eapply keeps_bind; [apply keep_batch; [apply keep_cancel_report|done]|]. intros _ _. known.
Qed.

Lemma keep_on_message self frame arrival : keep clean (on_message self frame arrival).
Proof.
  unfold on_message. assert (forall d, utf8_string d -> forall code, keep clean (push_reject self (make_reject "" code d) code)) as Hrej.
  { intros d Hd code. apply keep_push_reject, sendable_reject; [|done]. by exists []. }
  pose proof (decode_text frame) as Hd. case_match.
  - eapply keeps_bind; [apply Hrej, ascii_string_utf8; ascii_literal|]. intros _ _. known.
  - destruct (World.decode frame) as [err|msg]; cbn [text_result] in Hd.
    + eapply keeps_bind; [by apply Hrej|]. intros _ _. known.
    + eapply keeps_bind; [known|]. intros e1 _. eapply keeps_bind; [by apply keep_on_command|]. intros _ _. known.
Qed.
#[local] Hint Resolve keep_on_message : keeps.

Lemma keep_on_read self ec : keep clean (on_read self ec).
Proof. unfold on_read, read_next, async_close. repeat kstep. Qed.

(** ** The server *)

Lemma keep_refuse_upgrade id status reason : keep clean (refuse_upgrade id status reason).
Proof. unfold refuse_upgrade. repeat kstep. Qed.
Lemma keep_live_upgrades : keep clean live_upgrades.
Proof. unfold live_upgrades. repeat kstep. Qed.
#[local] Hint Resolve keep_refuse_upgrade keep_live_upgrades : keeps.
Lemma keep_on_accept id failed : keep clean (on_accept id failed).
Proof. unfold on_accept, on_upgrade_request, accept_next. repeat kstep. Qed.
Lemma keep_on_request id failed req : keep clean (on_request id failed req).
Proof. unfold on_request, drop_upgrade. repeat kstep. Qed.

Lemma new_session_clean hwm epoch s : is_u64 epoch -> new_session hwm epoch = Ret s -> sess_clean s.
Proof.
  intros He. unfold new_session, new_outbox. destruct (hwm =? 0); [done|]. intros [= <-].
  by split.
Qed.

Lemma keep_on_handshake id failed : keep clean (on_handshake id failed).
Proof.
  unfold on_handshake, drop_upgrade, note_session_added, start, read_next. eapply keeps_bind; [known|]. intros _ _.
  eapply keeps_bind; [known|]. intros w0 _. apply (keeps_bind _ _ _ (fun _ => True)); [|intros _ _; known].
  case_match; [known|]. eapply keeps_bind.
  { apply keeps_modify. intros w []. split; try done. apply u64_range. }
  intros _ _. eapply keeps_bind; [known|]. intros w Hw. cbv zeta. destruct (new_session _ _) as [s| |] eqn:Es; [|known..].
  eapply keeps_bind; [|intros _ _; repeat kstep].
  apply keeps_modify. intros w1 []. split; try done. cbn. apply map_Forall_insert_2; [|done].
  eapply new_session_clean; [|exact Es]. apply Hw.
Qed.

Lemma keep_close_all : keep clean close_all.
Proof. unfold close_all. repeat kstep. Qed.
#[local] Hint Resolve keep_close_all : keeps.
Lemma keep_begin_stop : keep clean begin_stop.
Proof. unfold begin_stop, abort_pending_upgrades. repeat kstep. Qed.
#[local] Hint Resolve keep_begin_stop : keeps.
Lemma keep_on_deadline : keep clean on_deadline.
Proof. unfold on_deadline. repeat kstep. Qed.

Lemma keep_publish_book set : set_fits set -> keep clean (publish_book set).
Proof.
  intros (F1 & F2 & F3 & F4). unfold publish_book.
  eapply keeps_bind; [apply keeps_modify; intros w []; split; try done; apply u64_range|]. intros _ _.
  eapply keeps_bind; [known|]. intros w Hw. cbv zeta. do 2 (eapply keeps_bind; [known|intros ? _]).
  eapply keeps_bind; [apply keeps_engine; intros e He; by apply on_book_text|]. intros routed Hr.
  eapply keeps_bind.
  { apply (keeps_foldM _ _ (fun _ => True)); [exact I|]. intros [] r Hin _. rewrite Forall_forall in Hr. apply Hr in Hin.
    pose proof (keep_deliver_report (r_session r) _ Hin). unfold route_one. repeat kstep. }
  intros _ _. eapply keeps_bind; [known|]. intros w1 Hw1. apply keeps_foldM; [exact I|]. intros [] e _ _.
  apply keep_deliver_tob. cbn. split_and!; try done; try by apply small_u64. - apply Hw. - apply (et_inst _ (cl_engine _ Hw1)).
Qed.

Lemma keeps_next_event : keeps clean next_event (fun ev => forall x, ev = Some x -> event_fits x).
Proof.
  unfold next_event. eapply keeps_bind; [known|]. intros w Hw. cbv zeta. case_match; [by apply keeps_ret|].
  apply (keeps_bind _ _ _ (fun _ => True)); [repeat kstep|intros _ _]. eapply keeps_bind; [known|]. intros w1 Hw1.
  eapply keeps_bind; [known|]. intros _ _. apply keeps_deref. intros ev (x & Hx & ->)%fmap_Some y [= <-].
  eapply (Forall_lookup_1 event_fits); [apply Hw1|exact Hx].
Qed.

Lemma keep_on_feed_event : keep clean on_feed_event.
Proof.
  unfold on_feed_event, schedule_feed. eapply keeps_bind; [known|]. intros w _. case_match; [known|].
  eapply keeps_bind; [apply keeps_next_event|]. intros ev Hev. destruct ev as [[fs|ms| |]|]; [|repeat kstep..].
  eapply keeps_bind; [apply keep_publish_book; by apply (Hev (EvSet fs))|]. intros _ _. repeat kstep.
Qed.
#[local] Hint Resolve keep_on_accept keep_on_request keep_on_handshake keep_on_read keep_on_write keep_on_close_done
  keep_on_drain_read keep_on_grace keep_on_feed_event keep_on_deadline : keeps.

Lemma keep_dispatch ev : keep clean (dispatch ev).
Proof.
  destruct ev; cbn [dispatch]; unfold on_backoff, accept_next, drop_upgrade, on_snapshot_timer; repeat kstep.
Qed.

Lemma keep_abort_run : keep clean abort_run.
Proof. unfold abort_run. repeat kstep. Qed.

(** ** Runs *)

Lemma io_run_clean evs w :
  clean w -> match io_run evs w with Looping w' | Died _ w' => clean w' | Undefined => True end.
Proof.
  revert w. induction evs as [|[ev orc] evs IH]; intros w Hw; cbn [io_run]; [done|].
  destruct (enabled ev w); [|by apply IH]. pose proof (keep_dispatch ev w orc Hw) as Hd.
  destruct (dispatch ev w orc) as [[[[]|e|] w'] o]; [by apply IH, Hd| |done].
  pose proof (keep_abort_run w' [] Hd) as Ha. destruct (abort_run w' []) as [[[[]|?|] w''] o']; [apply Ha|done..].
Qed.
End Wire.
