(* ===== verification/SessionInv.v ===== *)
(** * The session invariant and what each session operation preserves

    [core] holds of every session object at every call; [placed] says that an
    operation on one session leaves the rest of the server alone. *)

From Stdlib Require Import ZArith Ascii String List Lia.
From stdpp Require Import base tactics list option strings gmap.
From S2P Require Import Prelude Types Protocol Engine EngineInv Outbox Utf8 Preflight Feed BenchRecorder TelemetryRing.
From S2P Require Import Telemetry Wp EngineOwners World Shutdown Session.

(** Every session of the map exists: all a throwing handler must leave behind. *)
Definition sess_dom (w : World) : Prop := Forall (fun e => is_Some (heap w !! e)) (sessions_ w).

(** What no operation of a session touches. *)
Definition rest (w : World) :=
  (cfg_ w, feed_ w, feed_index_ w, next_md_seq_ w, sessions_ w,
   (upgrades_ w, upgrades_alive w, handshaking_ w, closed_upgrades w),
   (next_epoch_ w, peak_sessions_ w, stopping_ w, finalized_ w),
   (acceptor_open w, accept_armed w, timers w, feed_delay_ w)).

(** Telemetry, clock and recorder steps. *)
Definition quiet (w w' : World) : Prop := heap w' = heap w /\ engine_ w' = engine_ w /\ rest w' = rest w.

#[export] Instance quiet_preorder : PreOrder quiet.
Proof. split; [done|]. unfold quiet. intros x y z (?&?&?) (?&?&?). split_and!; congruence. Qed.

Lemma rest_sessions w w' : rest w' = rest w -> sessions_ w' = sessions_ w.
Proof. unfold rest. congruence. Qed.
Lemma rest_cfg w w' : rest w' = rest w -> cfg_ w' = cfg_ w.
Proof. unfold rest. congruence. Qed.

Lemma sess_dom_ext w w' :
  heap w' = heap w -> sessions_ w' = sessions_ w -> sess_dom w -> sess_dom w'.
Proof. unfold sess_dom. by intros -> ->. Qed.

(** ** Quiet steps *)

Section Quiet.
Context `{Env} (E : World -> Prop).

Lemma wp_steady_ns w (Q : Z -> World -> Prop) :
  (forall now w', quiet w w' -> clock_reads w' = S (clock_reads w) -> now = steady_clock (clock_reads w) -> Q now w') ->
  wp E steady_ns Q w.
Proof. intros HQ. unfold steady_ns. do 5 wstep. by apply HQ. Qed.

Lemma wp_modify_quiet f w (Q : unit -> World -> Prop) :
  quiet w (f w) -> (forall w', quiet w w' -> Q tt w') -> wp E (modify f) Q w.
Proof. intros Hf HQ. wstep. by apply HQ. Qed.

Lemma emit_event_quiet ev a0 a1 w : wp E (emit_event ev a0 a1) (fun _ w' => quiet w w') w.
Proof.
  unfold emit_event. wstep. apply wp_steady_ns. intros now w1 Hq _ _. unfold try_push, sample_ring_pending, ring_pending_now.
  repeat wstep. etrans; [exact Hq|done].
Qed.

Lemma count_up_quiet f w :
  (forall c, quiet w (set_counters c w)) -> wp E (count_up f) (fun _ w' => quiet w w') w.
Proof. intros Hq. unfold count_up. wstep. apply Hq. Qed.
End Quiet.

(** ** The session invariant *)

Definition count_acks (l : list OutMsg) : nat := length (List.filter is_ack l).
Definition drain_closes (s : Session) : list CloseThen :=
  List.filter (fun k => bool_decide (k = ThenDrain)) (op_closes s).

(** The operations whose completion can still end the session. *)
Definition listeners (s : Session) : nat := op_reads s + op_drains s + length (drain_closes s).

(** The codes a close of our own may carry. *)
Definition own_codes : list Z := [going_away; protocol_error; policy_error; too_big; internal_error].

Section Inv.
Context `{Env, ICodec}.

Definition frame_ok (e : Z) (i : nat) (x : OutMsg * bytes) : Prop :=
  out_seq x.1 = u64 (1 + Z.of_nat i) /\ out_epoch x.1 = e /\ x.2 = encode x.1 /\ x.2 <> [].

Record core (e : Z) (s : Session) : Prop := {
  co_epoch : epoch_ s = e;
  co_wire : forall i x, wire s !! i = Some x -> frame_ok e i x;
  co_seq : close_frame_sent_ s = false -> out_seq_ s = u64 (1 + Z.of_nat (length (wire s)));
  co_taken : forall i m, taken s !! i = Some m -> in_seq m = u64 (1 + Z.of_nat i);
  co_expected : in_seq_expected_ s = u64 (1 + Z.of_nat (length (taken s)));
  co_svc : length (pending_svc_ s) = count_acks (reports_ (outbox_ s));
  co_tob : Forall (fun m => is_tob m = false) (reports_ (outbox_ s));
  co_write : op_writes s = if write_inflight_ s then 1%nat else 0%nat;
  co_frame : close_frame_sent_ s = true -> closing_ s = true;
  co_closes : (length (op_closes s) <= 1)%nat;
  co_closed : close_frame_sent_ s = false -> op_closes s = [];
  co_code : closing_ s = true -> close_code_ s ∈ own_codes;
  co_retired : epoch_retired_ s = closing_ s || torn_down_ s;
  co_listen : (listeners s <= 1)%nat;
}.

(** What never goes back. *)
Record grows (s s' : Session) : Prop := {
  gr_torn : torn_down_ s = true -> torn_down_ s' = true;
  gr_closing : closing_ s = true -> closing_ s' = true /\ close_code_ s' = close_code_ s;
  gr_frame : close_frame_sent_ s = true -> close_frame_sent_ s' = true /\ wire s' = wire s;
  gr_wire : wire s `prefix_of` wire s';
  gr_taken : taken s `prefix_of` taken s';
  gr_quiet : closing_ s || torn_down_ s = true -> taken s' = taken s;
}.

#[export] Instance grows_preorder : PreOrder grows.
Proof.
  split; [by split|]. intros x y z [A1 A2 A3 A4 A5 A6] [B1 B2 B3 B4 B5 B6]. split; [|intros Hx..| | |intros Hx].
  - auto.
  - destruct (A2 Hx) as [Hy E1]. destruct (B2 Hy) as [Hz E2]. split; [done|congruence].
  - destruct (A3 Hx) as [Hy E1]. destruct (B3 Hy) as [Hz E2]. split; [done|congruence].
  - by etrans.
  - by etrans.
  - rewrite B6; [by apply A6|]. apply orb_true_iff in Hx as [Hx|Hx]; [by rewrite (proj1 (A2 Hx))|].
    by rewrite (A1 Hx), orb_true_r.
Qed.

Definition kept (s : Session) := (torn_down_ s, op_reads s, op_drains s, drain_closes s).

(** An operation on one session that neither ends it nor reads from it. *)
Definition moves (s s' : Session) : Prop := grows s s' /\ kept s' = kept s.

#[export] Instance moves_preorder : PreOrder moves.
Proof.
  split; [by split|]. intros x y z [G1 K1] [G2 K2]. split; [by etrans|congruence].
Qed.

(** No queued message waits without a completion that will take it further. *)
Definition progress (s : Session) : Prop :=
  torn_down_ s = true \/ write_inflight_ s = true \/ close_frame_sent_ s = true \/
  (closing_ s = false /\ reports_ (outbox_ s) = [] /\ tob_ (outbox_ s) = None).

Record placed (self : Z) (w0 : World) (s : Session) (w : World) : Prop := {
  pl_heap : heap w !! self = Some s;
  pl_others : forall e, e <> self -> heap w !! e = heap w0 !! e;
  pl_rest : rest w = rest w0;
  pl_engine : engine_inv (engine_ w);
  pl_owns : forall e, e <> self -> owns (engine_ w) e -> owns (engine_ w0) e;
  pl_dom : sess_dom w0;
}.

Definition own (self : Z) (s : Session) (w : World) : Prop :=
  owns (engine_ w) self -> epoch_retired_ s = false.

Definition mid (self : Z) (w0 : World) (s : Session) (w : World) : Prop :=
  placed self w0 s w /\ core self s /\ own self s w.

Lemma placed_dom self w0 s w : placed self w0 s w -> sess_dom w.
Proof.
  intros [Hh Ho Hr _ _ Hd]. unfold sess_dom in *. rewrite (rest_sessions _ _ Hr).
  eapply Forall_impl; [exact Hd|]. cbv beta. intros e He.
  destruct (decide (e = self)) as [->|Hne]; [by eexists|]. by rewrite Ho.
Qed.

Lemma placed_quiet self w0 s w w' : quiet w w' -> placed self w0 s w -> placed self w0 s w'.
Proof.
  intros (Hh & He & Hr) []. split; rewrite ?Hh, ?He; try done. by rewrite Hr.
Qed.

Lemma mid_quiet self w0 s w w' : quiet w w' -> mid self w0 s w -> mid self w0 s w'.
Proof.
  intros Hq (Hp & Hc & Ho). split; [by eapply placed_quiet|]. split; [done|].
  destruct Hq as (_ & He & _). unfold own. by rewrite He.
Qed.

Lemma wp_this E self w0 s w (Q : Session -> World -> Prop) :
  placed self w0 s w -> Q s w -> wp E (this self) Q w.
Proof. intros Hp HQ. unfold this. do 2 wstep. eapply wp_deref; [apply Hp|done]. Qed.

Lemma wp_update E self w0 s w f (Q : unit -> World -> Prop) :
  placed self w0 s w ->
  (forall w', placed self w0 (f s) w' -> engine_ w' = engine_ w -> Q tt w') ->
  wp E (update self f) Q w.
Proof.
  intros [] HQ. unfold update. wstep. apply HQ; [|done]. split; try done.
  - cbn. by rewrite lookup_alter_eq, pl_heap0.
  - intros e Hne. cbn. rewrite lookup_alter_ne by done. by apply pl_others0.
Qed.

(** The same with the invariant, for an update that keeps it. *)
Lemma wp_update_mid E self w0 s w f (Q : unit -> World -> Prop) :
  mid self w0 s w -> core self (f s) -> (epoch_retired_ (f s) = epoch_retired_ s) ->
  (forall w', mid self w0 (f s) w' -> Q tt w') -> wp E (update self f) Q w.
Proof.
  intros (Hp & Hc & Ho) Hf Hr HQ. eapply wp_update; [exact Hp|]. intros w' Hp' He. apply HQ.
  split; [done|]. split; [done|]. unfold own. rewrite He, Hr. exact Ho.
Qed.

Lemma mid_start w e s :
  heap w !! e = Some s -> core e s -> engine_inv (engine_ w) -> sess_dom w ->
  (owns (engine_ w) e -> epoch_retired_ s = false) -> mid e w s w.
Proof. intros. split; [by split|]. by split. Qed.
End Inv.

(** Compute the fields of an updated session. *)
Ltac sproj :=
  cbn [
       epoch_ outbox_ out_seq_ in_seq_expected_ pending_svc_ reject_latch_ reject_latch_ns_
       retired_acks_ write_inflight_ write_start_ns_ closing_ drain_then_close_ close_frame_sent_
       epoch_retired_ torn_down_ close_code_ op_reads op_writes op_closes op_drains grace_armed
       socket_open wire taken set_epoch set_outbox set_out_seq set_in_seq_expected set_pending_svc
       set_reject_latch set_reject_latch_ns set_retired_acks set_write_inflight set_write_start_ns
       set_closing set_drain_then_close set_close_frame_sent set_epoch_retired set_torn_down
       set_close_code set_op_reads set_op_writes set_op_closes set_op_drains set_grace_armed
       set_socket_open set_wire set_taken
  ] in *.

(** Close a [core] goal from the old session's facts, after an update that
    touches only fields its clauses survive. *)
Ltac core_tac :=
  match goal with
  | Hc : core ?e ?s |- core ?e _ => destruct Hc; split; unfold listeners, drain_closes in *; sproj; try done
  end.
