(* ===== verification/SessionOps.v ===== *)
(** * What each operation of a session preserves *)

From Stdlib Require Import ZArith Ascii String List Lia.
From stdpp Require Import base tactics list option strings gmap.
From S2P Require Import Prelude Types Protocol Engine EngineInv Outbox Utf8 Preflight Feed BenchRecorder TelemetryRing.
From S2P Require Import Telemetry Wp EngineOwners World Shutdown Session SessionInv.

Section Ops.
Context `{Env, ICodec} (self : Z) (w0 : World).
Implicit Types (s : Session) (w : World).

(** ** Leaving *)

Definition retired (n : Z) s : Session := set_epoch_retired (fun _ => true) (set_retired_acks (fun _ => n) s).

Lemma placed_engine s w e :
  placed self w0 s w -> engine_inv e -> (forall x, x <> self -> owns e x -> owns (engine_ w) x) ->
  placed self w0 s (set_engine (fun _ => e) w).
Proof. intros [] He Ho. split; try done. intros x Hx Hox. apply pl_owns; [done|]. by apply Ho. Qed.

Lemma retire_spec s w (Q : unit -> World -> Prop) :
  placed self w0 s w -> epoch_ s = self -> (epoch_retired_ s = true -> ~ owns (engine_ w) self) ->
  (forall n w', placed self w0 (retired n s) w' -> ~ owns (engine_ w') self -> Q tt w') ->
  wp sess_dom (retire_epoch self) Q w.
Proof.
  intros Hp He Hown HQ. unfold retire_epoch. wstep. eapply wp_this; [exact Hp|]. apply wp_if; intros Hr.
  - wstep. apply (HQ (retired_acks_ s)); [|by apply Hown]. replace (retired _ s) with s; [done|].
    destruct s; cbn in *. by subst.
  - rewrite He. wstep. unfold on_engine. apply wp_end_session; [apply Hp|exact (placed_dom self w0 s w Hp)|].
    intros out e' He' Ho. assert (placed self w0 s (set_engine (fun _ => e') w)) as Hp1.
    { apply placed_engine; [done..|]. intros x _ Hx. by apply Ho. }
    assert (~ owns e' self) as Hn by (intros Hx%Ho; naive_solver). wstep.
    eapply wp_update; [exact Hp1|]. intros w1 Hp2 E1. eapply wp_update; [exact Hp2|]. intros w2 Hp3 E2.
    eapply HQ; [exact Hp3|]. by rewrite E2, E1.
Qed.

Definition latched (code : Z) (drain : bool) (n : Z) s : Session :=
  retired n (set_drain_then_close (fun _ => drain) (set_close_code (fun _ => code) (set_closing (fun _ => true) s))).

Lemma latch_raw code drain s w (Q : bool -> World -> Prop) :
  placed self w0 s w -> epoch_ s = self -> epoch_retired_ s = closing_ s || torn_down_ s ->
  (closing_ s || torn_down_ s = true -> Q false w) ->
  (forall n w', closing_ s = false -> torn_down_ s = false -> placed self w0 (latched code drain n s) w' ->
     ~ owns (engine_ w') self -> Q true w') ->
  wp sess_dom (latch_close self code drain) Q w.
Proof.
  intros Hp He Hr HF HT. unfold latch_close. wstep. eapply wp_this; [exact Hp|]. apply wp_if; intros Hb.
  - wstep. by apply HF.
  - apply orb_false_iff in Hb as Hb'. destruct Hb' as [Hb1 Hb2]. wstep.
    eapply wp_update; [exact Hp|]. intros w1 Hp1 E1. wstep. eapply wp_update; [exact Hp1|]. intros w2 Hp2 E2.
    wstep. eapply wp_update; [exact Hp2|]. intros w3 Hp3 E3. wstep.
    eapply retire_spec; [exact Hp3|done| |].
    { intros Hr'. sproj. rewrite Hr, Hb in Hr'. done. }
    intros n w4 Hp4 Hn. wstep. by apply (HT n w4 Hb1 Hb2).
Qed.

Lemma latched_core code drain n s : core self s -> code ∈ own_codes -> core self (latched code drain n s).
Proof. intros Hc Hcode. unfold latched, retired. core_tac. Qed.

Lemma latch_spec code drain s w (Q : bool -> World -> Prop) :
  mid self w0 s w -> code ∈ own_codes ->
  (closing_ s || torn_down_ s = true -> Q false w) ->
  (forall n w', closing_ s = false -> torn_down_ s = false -> mid self w0 (latched code drain n s) w' -> Q true w') ->
  wp sess_dom (latch_close self code drain) Q w.
Proof.
  intros (Hp & Hc & Ho) Hcode HF HT. eapply latch_raw; [exact Hp|apply Hc|apply Hc|exact HF|].
  intros n w' Hb1 Hb2 Hp' Hn. apply (HT n); try done. split; [done|]. split; [by apply latched_core|]. by intros ?.
Qed.

Lemma latched_moves code drain n s : closing_ s = false -> moves s (latched code drain n s).
Proof. intros Hc. split; [|done]. split; try done. by rewrite Hc. Qed.

Definition framed s : Session :=
  set_grace_armed (fun _ => true) (set_op_closes (fun l => l ++ [ThenRead]) (set_close_frame_sent (fun _ => true) s)).

Lemma framed_moves s : op_closes s = [] -> close_frame_sent_ s = false -> moves s (framed s).
Proof.
  intros Ho Hf. split; [split; try done; cbn; by rewrite Hf|]. unfold kept, framed, drain_closes. sproj. by rewrite Ho.
Qed.

Lemma send_raw s w (Q : unit -> World -> Prop) :
  placed self w0 s w ->
  (close_frame_sent_ s || torn_down_ s || write_inflight_ s = true -> Q tt w) ->
  (forall w', close_frame_sent_ s = false -> torn_down_ s = false -> write_inflight_ s = false ->
     placed self w0 (framed s) w' -> engine_ w' = engine_ w -> Q tt w') ->
  wp sess_dom (send_close_frame self) Q w.
Proof.
  intros Hp HF HT. unfold send_close_frame, async_close, arm_grace. wstep. eapply wp_this; [exact Hp|].
  apply wp_if; intros Hb; [wstep; by apply HF|].
  apply orb_false_iff in Hb as [[Hf Ht]%orb_false_iff Hw]. wstep.
  eapply wp_update; [exact Hp|]. intros w1 Hp1 E1. wstep. eapply wp_update; [exact Hp1|]. intros w2 Hp2 E2.
  eapply wp_update; [exact Hp2|]. intros w3 Hp3 E3. apply HT; try done. congruence.
Qed.

(** Only the next sequence number may have been spent. *)
Lemma framed_core s n :
  core self s -> closing_ s = true -> close_frame_sent_ s = false -> core self (framed (set_out_seq (fun _ => n) s)).
Proof.
  intros Hc Hcl Hf. unfold framed. core_tac; rewrite co_closed by done; cbn; [lia|].
  rewrite co_closed in co_listen by done. cbn in co_listen. rewrite bool_decide_false by done. cbn. lia.
Qed.

Lemma set_out_seq_same s : set_out_seq (fun _ => out_seq_ s) s = s.
Proof. by destruct s. Qed.

Lemma send_close_frame_spec s w (Q : unit -> World -> Prop) :
  mid self w0 s w -> closing_ s = true ->
  (close_frame_sent_ s || torn_down_ s || write_inflight_ s = true -> Q tt w) ->
  (forall w', close_frame_sent_ s = false -> torn_down_ s = false -> write_inflight_ s = false ->
     mid self w0 (framed s) w' -> Q tt w') ->
  wp sess_dom (send_close_frame self) Q w.
Proof.
  intros (Hp & Hc & Ho) Hcl HF HT. eapply send_raw; [exact Hp|exact HF|]. intros w' Hf Ht Hw Hp' E.
  apply HT; try done. split; [done|]. split; [|unfold own; by rewrite E].
  pose proof (framed_core s (out_seq_ s) Hc Hcl Hf) as H1. by rewrite set_out_seq_same in H1.
Qed.

(** ** Writing *)

Definition After (P : Session -> Prop) (w : World) : Prop := exists s, mid self w0 s w /\ P s.

Lemma note_tob_quiet now msg s w (Q : unit -> World -> Prop) :
  placed self w0 s w -> (forall w', quiet w w' -> Q tt w') -> wp sess_dom (note_tob_out self now msg) Q w.
Proof.
  intros Hp HQ. destruct msg; cbn [note_tob_out]; try by (wstep; apply HQ).
  wstep. apply wp_modify_quiet; [done|]. intros w1 Hq. do 2 wstep. wstep.
  eapply wp_this; [by eapply placed_quiet|]. unfold when. apply wp_if; intros _.
  - eapply wp_mono; [apply emit_event_quiet|]. intros [] w2 Hq2. apply HQ. by etrans.
  - wstep. by apply HQ.
Qed.

(** The session that wrote [msg]. *)
Definition wrote (now : Z) (msg : OutMsg) s : Session :=
  set_wire (fun l => l ++ [(msg, encode msg)]) (set_op_writes S (set_write_start_ns (fun _ => now)
    (set_write_inflight (fun _ => true) s))).

(** What a pop leaves: the message is out of the queue, its service time not
    yet out of [pending_svc_]. *)
Record popped (msg : OutMsg) (s : Session) : Prop := {
  po_svc : length (pending_svc_ s) = ((if is_ack msg then 1 else 0) + count_acks (reports_ (outbox_ s)))%nat;
  po_core : core self (set_pending_svc (fun _ => replicate (count_acks (reports_ (outbox_ s))) 0) s);
}.

Lemma core_svc s l :
  core self s -> length l = length (pending_svc_ s) -> core self (set_pending_svc (fun _ => l) s).
Proof. intros Hc Hl. core_tac. by rewrite Hl. Qed.

(** The service time leaves with its ack. *)
Definition served (msg : OutMsg) s : Session := if is_ack msg then set_pending_svc tail s else s.

Lemma served_core msg s : popped msg s -> core self (served msg s).
Proof.
  intros [Hl Hc]. unfold served. destruct (is_ack msg); [pose proof (core_svc _ (tail (pending_svc_ s)) Hc) as H1|
    pose proof (core_svc _ (pending_svc_ s) Hc) as H1]; sproj; rewrite length_replicate in H1;
    destruct s; cbn in *; apply H1; [|done]. destruct pending_svc_; cbn in *; lia.
Qed.

Definition numbered s : Session := set_out_seq (fun n => u64 (n + 1)) s.

Lemma stamp_svc_spec msg s w (Q : OutMsg -> World -> Prop) :
  placed self w0 (numbered s) w -> popped msg s ->
  (forall msg' w', placed self w0 (numbered (served msg s)) w' -> engine_ w' = engine_ w ->
     out_seq msg' = out_seq_ s -> out_epoch msg' = epoch_ s -> Q msg' w') ->
  wp sess_dom (stamp_svc self (stamp (out_seq_ s) (epoch_ s) msg)) Q w.
Proof.
  intros Hp Hpop HQ. unfold served in HQ. destruct Hpop as [Hl _].
  destruct msg as [[]|[]|[]|[]|[]]; cbn [stamp stamp_svc is_ack] in *; try by (wstep; apply HQ).
  wstep. eapply wp_this; [exact Hp|]. wstep. change (pending_svc_ (numbered s)) with (pending_svc_ s).
  destruct (pending_svc_ s) as [|svc l] eqn:El; [done|]. cbn [assert_ bool_decide]. rewrite bool_decide_false by done.
  cbn [negb assert_]. wstep. wstep. eapply wp_update; [exact Hp|]. intros w1 Hp1 E1. wstep.
  apply HQ; try done. replace (set_pending_svc tail s) with (set_pending_svc (fun _ => l) s) by
    (destruct s; cbn in *; by subst). exact Hp1.
Qed.
End Ops.
