(* ===== verification/SessionWrite.v ===== *)
(** * The write path preserves the session invariant *)

From Stdlib Require Import ZArith Ascii String List Lia.
From stdpp Require Import base tactics list option strings gmap.
From S2P Require Import Prelude Types Protocol Engine EngineInv Outbox Utf8 Preflight Feed BenchRecorder TelemetryRing.
From S2P Require Import Telemetry Wp EngineOwners World Shutdown Session SessionInv SessionOps.

Section Write.
Context `{Env, ICodec} (self : Z) (w0 : World).
Implicit Types (s : Session) (w : World).

Lemma wrote_core now msg s :
  core self s -> close_frame_sent_ s = false -> write_inflight_ s = false ->
  out_seq msg = out_seq_ s -> out_epoch msg = epoch_ s -> encode msg <> [] ->
  core self (wrote now msg (numbered s)).
Proof.
  intros Hc Hf Hw Hseq Hep Henc. unfold wrote, numbered. core_tac.
  - intros i x [Hi|[Hi Hx]]%lookup_app_Some; [by apply co_wire|].
    apply list_lookup_singleton_Some in Hx as [Hi0 <-]. unfold frame_ok. cbn [fst snd].
    rewrite Hseq, Hep, co_epoch, co_seq by done. split_and!; try done. f_equal. lia.
  - intros _. rewrite co_seq, u64_add_l, length_app by done. f_equal. cbn. lia.
  - by rewrite co_write, Hw.
Qed.

Lemma wrote_moves now msg s : close_frame_sent_ s = false -> moves s (wrote now msg (numbered s)).
Proof.
  intros Hf. split; [|done]. split; try done; cbn; [by rewrite Hf|]. by apply prefix_app_r.
Qed.

Lemma served_fields msg s :
  moves s (served msg s) /\ close_frame_sent_ (served msg s) = close_frame_sent_ s /\
  closing_ (served msg s) = closing_ s /\ write_inflight_ (served msg s) = write_inflight_ s /\
  epoch_retired_ (served msg s) = epoch_retired_ s /\ out_seq_ (served msg s) = out_seq_ s /\
  epoch_ (served msg s) = epoch_ s /\ torn_down_ (served msg s) = torn_down_ s.
Proof. unfold served. destruct (is_ack msg); split_and!; try done; by split. Qed.

(** Framing a session whose next number is spent. *)
Lemma framed_moves' n s :
  core self s -> close_frame_sent_ s = false -> moves s (framed (set_out_seq n s)).
Proof.
  intros Hc Hf. trans (set_out_seq n s); [by split; [split|]|]. by apply framed_moves; [apply Hc|].
Qed.

Definition moved (s0 : Session) (s' : Session) : Prop := moves s0 s' /\ progress s'.

Lemma write_failed_spec s w :
  placed self w0 (numbered s) w -> core self s -> own self s w ->
  torn_down_ s = false -> write_inflight_ s = false -> close_frame_sent_ s = false ->
  wp sess_dom (latch_close self internal_error false;; send_close_frame self) (fun _ => After self w0 (moved s)) w.
Proof.
  intros Hp Hc Ho Ht Hw Hf. wstep. eapply latch_raw; [exact Hp|apply Hc|apply Hc| |].
  - intros Hcl. change (closing_ s || torn_down_ s = true) in Hcl. rewrite Ht, orb_false_r in Hcl.
    eapply send_raw; [exact Hp|cbn; by rewrite Hf, Ht, Hw|]. intros w1 _ _ _ Hp1 E1.
    eexists. split; [split; [exact Hp1|split; [by apply framed_core|unfold own; by rewrite E1]]|].
    split; [by apply framed_moves'|]. by right; right; left.
  - intros n w1 Hcl _ Hp1 Hn. eapply send_raw; [exact Hp1|cbn; by rewrite Hf, Ht, Hw|]. intros w2 _ _ _ Hp2 E2.
    change (closing_ s = false) in Hcl.
    assert (core self (latched internal_error false n s)) as Hl by (apply latched_core; [done|unfold own_codes; set_solver]).
    eexists. split; [split; [exact Hp2|split]|].
    + exact (framed_core _ _ (u64 (out_seq_ s + 1)) Hl eq_refl Hf).
    + intros Hx. rewrite E2 in Hx. done.
    + split; [|by right; right; left]. trans (latched internal_error false n s); [by apply latched_moves|].
      exact (framed_moves' (fun n => u64 (n + 1)) _ Hl Hf).
Qed.

Lemma write_message_spec msg s w :
  placed self w0 s w -> popped self msg s -> own self s w ->
  torn_down_ s = false -> write_inflight_ s = false -> close_frame_sent_ s = false ->
  wp sess_dom (write_message self msg) (fun _ => After self w0 (moved s)) w.
Proof.
  intros Hp Hpop Ho Ht Hw Hf. unfold write_message. wstep. eapply wp_this; [exact Hp|]. wstep.
  eapply wp_update; [exact Hp|]. intros w1 Hp1 E1. wstep.
  eapply stamp_svc_spec; [exact Hp1|exact Hpop|]. intros msg' w2 Hp2 E2 Hseq Hep.
  pose proof (served_core _ _ _ Hpop) as Hc. destruct (served_fields msg s) as (Hm & F1 & F2 & F3 & F4 & F5 & F6 & F7).
  set (s1 := served msg s) in *. clearbody s1.
  assert (own self s1 w2) as Ho2 by (unfold own; rewrite E2, E1, F4; exact Ho).
  apply wp_if; [intros _|intros Henc%bool_decide_eq_false].
  - eapply wp_mono; [apply write_failed_spec; [exact Hp2|done|done|congruence..]|].
    intros [] w3 (s3 & Hmid & Hm3 & Hpr). exists s3. split; [done|]. split; [by trans s1|done].
  - wstep. apply wp_steady_ns. intros now w3 Hq _ _. wstep.
    eapply note_tob_quiet; [eapply placed_quiet; [exact Hq|exact Hp2]|]. intros w4 Hq4. wstep.
    assert (quiet w2 w4) as Hq' by (by etrans).
    eapply wp_update; [eapply placed_quiet; [exact Hq'|exact Hp2]|]. intros w5 Hp5 E5. wstep.
    eapply wp_update; [exact Hp5|]. intros w6 Hp6 E6. unfold async_write. wstep.
    eapply wp_update; [exact Hp6|]. intros w7 Hp7 E7. eapply wp_update; [exact Hp7|]. intros w8 Hp8 E8.
    exists (wrote now msg' (numbered s1)). split; [split; [exact Hp8|split]|].
    + apply wrote_core; congruence.
    + unfold own. rewrite E8, E7, E6, E5. destruct Hq' as (_ & -> & _). exact Ho2.
    + split; [trans s1; [done|]; apply wrote_moves; congruence|by right; left].
Qed.

(** ** The loop *)

Lemma popped_intro msg b s :
  core self s -> count_acks (reports_ (outbox_ s)) = ((if is_ack msg then 1 else 0) + count_acks (reports_ b))%nat ->
  Forall (fun m => is_tob m = false) (reports_ b) ->
  popped self msg (set_outbox (fun _ => b) s).
Proof.
  intros Hc Hl Hb. split; [sproj; by rewrite (co_svc _ _ Hc)|]. core_tac. by rewrite length_replicate.
Qed.

Lemma pump_loop_spec fuel s w :
  mid self w0 s w -> torn_down_ s = false -> write_inflight_ s = false -> close_frame_sent_ s = false ->
  (Z.to_nat (depth (outbox_ s)) < fuel)%nat ->
  wp sess_dom (pump_loop fuel self) (fun _ => After self w0 (moved s)) w.
Proof.
  revert s w. induction fuel as [|fuel IH]; intros s w Hmid Ht Hw Hf Hd; [lia|]. cbn [pump_loop].
  pose proof Hmid as (Hp & Hc & Ho). unfold pop_outbox, pop. do 2 wstep. eapply wp_this; [exact Hp|].
  assert (forall b, moves s (set_outbox (fun _ => b) s)) as Hset by (by intros b; split; [split|]).
  assert (forall b w', core self (set_outbox (fun _ => b) s) -> placed self w0 (set_outbox (fun _ => b) s) w' ->
    engine_ w' = engine_ w -> mid self w0 (set_outbox (fun _ => b) s) w') as Hmid'.
  { intros b w' Hcb Hp' E'. split; [done|]. split; [done|]. unfold own. by rewrite E'. }
  pose proof (co_tob _ _ Hc) as Hnt. pose proof (co_svc _ _ Hc) as Hsvc. unfold depth in Hd.
  destruct (reports_ (outbox_ s)) as [|msg q] eqn:Er; [destruct (tob_ (outbox_ s)) as [t|] eqn:Etob|]; wstep;
    (eapply wp_update; [exact Hp|]; intros w1 Hp1 E1; wstep; wstep; eapply wp_this; [exact Hp1|]; cbn [is_tob]).
  - destruct (closing_ s) eqn:Hcl; cbn [set_outbox closing_ andb]; rewrite Hcl; cbn [andb].
    + eapply wp_mono; [eapply (IH _ w1); [eapply Hmid'; [|exact Hp1|exact E1]|done..|]|].
      * core_tac.
      * unfold depth. cbn. cbn in Hd. lia.
      * intros [] w2 (s2 & Hm2 & Hmv & Hpr). exists s2. split; [done|]. split; [etrans; [apply Hset|exact Hmv]|done].
    + eapply wp_mono; [apply (write_message_spec _ _ w1 Hp1); [|unfold own; rewrite E1; exact Ho|done..]|].
      * apply popped_intro; [done|by rewrite Er|constructor].
      * intros [] w2 (s2 & Hm2 & Hmv & Hpr). exists s2. split; [done|]. split; [etrans; [apply Hset|exact Hmv]|done].
  - assert (core self (set_outbox (fun _ => outbox_ s) s)) as Hcb by (by destruct s).
    unfold when. cbn [set_outbox closing_]. apply wp_if; intros Hcl.
    + eapply send_close_frame_spec; [by apply Hmid'|done|cbn; by rewrite Hf, Ht, Hw|].
      intros w2 _ _ _ Hm2. eexists. split; [exact Hm2|]. split; [|by right; right; left].
      etrans; [apply Hset|]. apply framed_moves; [by apply Hc|done].
    + wstep. eexists. split; [apply Hmid'; done|]. split; [apply Hset|]. right; right; right. cbn. by rewrite Er, Etob.
  - inversion Hnt as [|? ? Hm Hq]; subst. rewrite Hm, andb_false_r.
    eapply wp_mono; [apply (write_message_spec _ _ w1 Hp1); [|unfold own; rewrite E1; exact Ho|done..]|].
    + apply popped_intro; [done| |done]. rewrite Er. unfold count_acks. cbn. by destruct (is_ack msg).
    + intros [] w2 (s2 & Hm2 & Hmv & Hpr). exists s2. split; [done|]. split; [etrans; [apply Hset|exact Hmv]|done].
Qed.

Lemma pump_spec s w : mid self w0 s w -> wp sess_dom (pump self) (fun _ => After self w0 (moved s)) w.
Proof.
  intros Hmid. pose proof Hmid as (Hp & Hc & Ho). unfold pump. wstep. eapply wp_this; [exact Hp|].
  apply wp_if; [intros Hb|intros [[Hw Ht]%orb_false_iff Hf]%orb_false_iff].
  - wstep. exists s. split; [done|]. split; [done|]. unfold progress.
    apply orb_true_iff in Hb as [[?|?]%orb_true_iff|?]; tauto.
  - apply wp_if; [intros [Hcl _]%andb_true_iff|intros _; apply pump_loop_spec; auto; lia].
    eapply send_close_frame_spec; [exact Hmid|done|by rewrite Hf, Ht, Hw|].
    intros w1 _ _ _ Hm. eexists. split; [exact Hm|]. split; [|by right; right; left].
    apply framed_moves; [by apply Hc|done].
Qed.

(** What [begin_close] leaves: a latched session that is moving. *)
Lemma begin_close_spec code s w :
  mid self w0 s w -> code ∈ own_codes ->
  wp sess_dom (begin_close self code)
    (fun _ => After self w0 (fun s' => moves s s' /\ (progress s -> progress s') /\ (torn_down_ s = false -> closing_ s' = true)))
    w.
Proof.
  intros Hmid Hcode. unfold begin_close. wstep. eapply latch_spec; [exact Hmid|done| |].
  - intros Hb. unfold when. wstep. exists s. split; [done|]. split; [done|]. split; [done|]. intros Ht. by rewrite Ht, orb_false_r in Hb.
  - intros n w1 Hcl Ht Hmid1. unfold when. eapply wp_mono; [by apply pump_spec|].
    intros [] w2 (s2 & Hm2 & Hmv & Hpr). exists s2. split; [done|]. split_and!; [|done|].
    + etrans; [by apply latched_moves|exact Hmv].
    + intros _. by apply (gr_closing _ _ (proj1 Hmv)).
Qed.
End Write.
