(* ===== verification/SessionRead.v ===== *)
(** * The read path preserves the session invariant *)

From Stdlib Require Import ZArith Ascii String List Lia.
From stdpp Require Import base tactics list option strings gmap.
From S2P Require Import Prelude Types Protocol Engine EngineInv Outbox Utf8 Preflight Feed BenchRecorder TelemetryRing.
From S2P Require Import Telemetry Wp EngineOwners World Shutdown Session SessionInv SessionOps SessionWrite.

Section Read.
Context `{Env, ICodec} (self : Z) (w0 : World).
Implicit Types (s : Session) (w : World).

(** ** Queueing *)

Lemma After_mono (P P' : Session -> Prop) w : After self w0 P w -> (forall s, P s -> P' s) -> After self w0 P' w.
Proof. intros (s & Hm & HP) Himp. exists s. auto. Qed.

Lemma After_moves s s1 w : moves s s1 -> After self w0 (moves s1) w -> After self w0 (moves s) w.
Proof. intros Hm Ha. eapply After_mono; [exact Ha|]. intros s2 Hm2. by trans s1. Qed.

Lemma mark_outbox_depth_quiet s w :
  placed self w0 s w -> wp sess_dom (mark_outbox_depth self) (fun _ w' => quiet w w') w.
Proof. intros Hp. unfold mark_outbox_depth. wstep. eapply wp_this; [exact Hp|]. by wstep. Qed.

Lemma check_policy_closes_spec s w :
  mid self w0 s w -> wp sess_dom (check_policy_closes self) (fun _ => After self w0 (moves s)) w.
Proof.
  intros Hmid. unfold check_policy_closes. wstep. eapply wp_this; [apply Hmid|]. do 2 wstep.
  assert (forall ev a, wp sess_dom (emit_event ev (epoch_ s) a;; begin_close self policy_error)
            (fun _ => After self w0 (moves s)) w) as Hclose.
  { intros ev a. eapply wp_seq; [apply emit_event_quiet|]. intros ? w1 Hq.
    eapply wp_mono; [apply begin_close_spec; [eapply mid_quiet; [exact Hq|exact Hmid]|unfold own_codes; set_solver]|].
    intros ? w2 Ha. eapply After_mono; [exact Ha|]. naive_solver. }
  repeat (apply wp_if; intros _); try apply Hclose; wstep; by exists s.
Qed.

Definition pushed (msg : OutMsg) (b : Outbox) : Outbox :=
  let q := reports_ b ++ [msg] in
  mkOutbox (report_hwm b) (if report_hwm b <? Z.of_nat (length q) then true else report_hwm_breached b)
    (conflated b) q (tob_ b).

Lemma placed_insert s s' w : placed self w0 s w -> placed self w0 s' (set_heap (<[self := s']>) w).
Proof.
  intros []. split; try done; cbn; [by rewrite lookup_insert_eq|].
  intros e Hne. rewrite lookup_insert_ne by done. by apply pl_others.
Qed.

(** Queueing restores the pairing of acks and service times. *)
Lemma enqueue_report_spec msg s w :
  placed self w0 s w -> own self s w -> is_tob msg = false ->
  core self (set_outbox (pushed msg) s) ->
  wp sess_dom (enqueue_report self msg) (fun _ => After self w0 (moves s)) w.
Proof.
  intros Hp Ho Ht Hc. unfold enqueue_report. wstep.
  assert (wp sess_dom (on_outbox self (push_report (Some msg)))
    (fun _ w' => mid self w0 (set_outbox (pushed msg) s) w') w) as Hpush.
  { assert (sess_dom (set_heap (<[self := set_outbox (fun _ => outbox_ s) s]>) w)) as Hd.
    { eapply placed_dom. by apply placed_insert with s. }
    assert (mid self w0 (set_outbox (pushed msg) s) (set_heap (<[self := set_outbox (pushed msg) s]>) w)) as Hm.
    { split; [by apply placed_insert with s|]. by split. }
    intros o. unfold on_outbox. rewrite (pl_heap _ _ _ _ Hp).
    destruct msg; [done|..]; destruct o as [|[] o]; cbn; first [exact Hm|exact Hd]. }
  eapply wp_mono; [exact Hpush|]. intros [] w1 Hm1. wstep.
  eapply wp_mono; [apply mark_outbox_depth_quiet with (set_outbox (pushed msg) s); apply Hm1|].
  intros [] w2 Hq. eapply wp_mono; [apply check_policy_closes_spec; eapply mid_quiet; [exact Hq|exact Hm1]|].
  intros [] w3 Ha. eapply After_moves; [|exact Ha]. by split; [split|].
Qed.

Lemma pushed_core msg s :
  core self s -> is_tob msg = false -> is_ack msg = false -> core self (set_outbox (pushed msg) s).
Proof.
  intros Hc Ht Ha. core_tac; cbn [pushed reports_].
  - rewrite co_svc. unfold count_acks. rewrite List.filter_app, length_app. cbn. rewrite Ha. cbn. lia.
  - by apply Forall_app_2; [|constructor].
Qed.

Lemma pushed_ack_core msg svc s :
  core self s -> is_ack msg = true ->
  core self (set_outbox (pushed msg) (set_pending_svc (fun q => q ++ [svc]) s)).
Proof.
  intros Hc Ha. core_tac; cbn [pushed reports_].
  - rewrite length_app, co_svc. unfold count_acks. rewrite List.filter_app, length_app. cbn. rewrite Ha. done.
  - apply Forall_app_2; [done|]. constructor; [|done]. by destruct msg.
Qed.

Lemma enqueue_mid msg s w :
  mid self w0 s w -> is_tob msg = false -> is_ack msg = false ->
  wp sess_dom (enqueue_report self msg) (fun _ => After self w0 (moves s)) w.
Proof. intros (Hp & Hc & Ho) Ht Ha. apply enqueue_report_spec; auto. by apply pushed_core. Qed.

Lemma emit_reject_event_spec code s w :
  mid self w0 s w -> wp sess_dom (emit_reject_event self code) (fun _ => After self w0 (moves s)) w.
Proof.
  intros Hmid. unfold emit_reject_event. wstep. apply wp_steady_ns. intros now w1 Hq _ _.
  pose proof (mid_quiet _ _ _ _ _ Hq Hmid) as Hm1. wstep. eapply wp_this; [apply Hm1|]. wstep.
  assert (wp sess_dom
    (when (kRejectCoalesceWindow <=? now - reject_latch_ns_ s)
       (update self (set_reject_latch (fun _ => 0));; update self (set_reject_latch_ns (fun _ => now))))
    (fun _ => After self w0 (moves s)) w1) as Hwin.
  { unfold when. apply wp_if; intros _; [|wstep; by exists s]. wstep.
    eapply wp_update_mid; [exact Hm1|destruct Hm1 as (_ & Hc & _); core_tac|done|]. intros w2 Hm2.
    eapply wp_update_mid; [exact Hm2|destruct Hm2 as (_ & Hc & _); core_tac|done|]. intros w3 Hm3.
    eexists. split; [exact Hm3|]. by split; [split|]. }
  eapply wp_mono; [exact Hwin|]. intros [] w2 (s2 & Hm2 & Hmv2). wstep. eapply wp_this; [apply Hm2|].
  apply wp_if; intros _; [wstep; by exists s2|]. wstep.
  eapply wp_update_mid; [exact Hm2|destruct Hm2 as (_ & Hc & _); core_tac|done|]. intros w3 Hm3.
  eapply wp_mono; [apply emit_event_quiet|]. intros [] w4 Hq4. eexists. split; [eapply mid_quiet; [exact Hq4|exact Hm3]|].
  etrans; [exact Hmv2|]. by split; [split|].
Qed.

Lemma push_reject_spec rej code s w :
  mid self w0 s w -> wp sess_dom (push_reject self rej code) (fun _ => After self w0 (moves s)) w.
Proof.
  intros Hmid. unfold push_reject. eapply wp_seq; [by apply count_up_quiet|]. intros ? w1 Hq.
  eapply wp_seq; [apply emit_reject_event_spec; eapply mid_quiet; [exact Hq|exact Hmid]|]. intros ? w2 (s2 & Hm2 & Hmv2).
  eapply wp_mono; [by apply enqueue_mid|]. intros ? w3 Ha. by eapply After_moves.
Qed.

(** ** Deliveries *)

Lemma deliver_report_spec msg s w :
  mid self w0 s w -> is_fill msg = true ->
  wp sess_dom (deliver_report self msg) (fun _ => After self w0 (fun s' => moves s s' /\ (progress s -> progress s'))) w.
Proof.
  intros Hmid Hf. assert (is_ack msg = false /\ is_tob msg = false) as [Ha Ht] by (by destruct msg).
  unfold deliver_report. wstep. eapply wp_this; [apply Hmid|]. apply wp_if; intros Htorn; [wstep; by exists s|].
  rewrite Ha. cbn [negb assert_]. do 2 wstep. wstep. eapply wp_mono; [by apply enqueue_mid|].
  intros ? w1 (s1 & Hm1 & Hmv1). eapply wp_mono; [by apply pump_spec|]. intros ? w2 Ha2.
  eapply After_mono; [exact Ha2|]. intros s2 [Hmv2 Hpr]. split; [by trans s1|done].
Qed.

Lemma deliver_tob_spec tob s w :
  mid self w0 s w ->
  wp sess_dom (deliver_tob self tob) (fun _ => After self w0 (fun s' => moves s s' /\ (progress s -> progress s'))) w.
Proof.
  intros Hmid. unfold deliver_tob. wstep. eapply wp_this; [apply Hmid|]. apply wp_if; intros _; [wstep; by exists s|].
  unfold enqueue_tob. do 2 wstep. pose proof Hmid as (_ & Hc & _).
  eapply wp_update_mid; [exact Hmid|core_tac|done|]. intros w1 Hm1.
  eapply wp_mono; [eapply mark_outbox_depth_quiet, Hm1|]. intros ? w2 Hq.
  eapply wp_mono; [apply pump_spec; eapply mid_quiet; [exact Hq|exact Hm1]|]. intros ? w3 Ha.
  eapply After_mono; [exact Ha|]. intros s2 [Hmv2 Hpr]. split; [|done]. etrans; [|exact Hmv2]. by split; [split|].
Qed.

(** ** Commands *)

Lemma note_reject_spec r s w :
  mid self w0 s w -> wp sess_dom (note_reject self r) (fun _ => After self w0 (moves s)) w.
Proof.
  intros Hmid. unfold note_reject. eapply wp_seq; [by apply count_up_quiet|]. intros ? w1 Hq.
  pose proof (mid_quiet _ _ _ _ _ Hq Hmid). destruct (reject_code_from_wire _); [by apply emit_reject_event_spec|].
  wstep. by exists s.
Qed.

Lemma new_report_spec svc msg s w :
  mid self w0 s w -> is_answer true msg = true ->
  wp sess_dom (new_report self svc tt msg) (fun _ => After self w0 (moves s)) w.
Proof.
  intros Hmid Hans. unfold new_report. destruct msg as [|a|c|r|]; try done.
  - wstep. eapply wp_seq; [by apply count_up_quiet|]. intros ? w1 Hq.
    pose proof (mid_quiet _ _ _ _ _ Hq Hmid) as (Hp & Hc & Ho). wstep. apply wp_alloc; [by eapply placed_dom|].
    eapply wp_update; [exact Hp|]. intros w2 Hp2 E2.
    eapply wp_mono; [apply enqueue_report_spec; [exact Hp2|unfold own; by rewrite E2|done|by apply pushed_ack_core]|].
    intros ? w3 Ha. eapply After_moves; [|exact Ha]. by split; [split|].
  - do 2 wstep. by apply enqueue_mid.
  - eapply wp_seq; [by apply note_reject_spec|]. intros ? w1 (s1 & Hm1 & Hmv1).
    eapply wp_mono; [by apply enqueue_mid|]. intros ? w2 Ha. by eapply After_moves.
Qed.

Lemma cancel_report_spec msg s w :
  mid self w0 s w -> is_answer false msg = true ->
  wp sess_dom (cancel_report self tt msg) (fun _ => After self w0 (moves s)) w.
Proof.
  intros Hmid Hans. unfold cancel_report. destruct msg as [|a|c|r|]; try done.
  - eapply wp_seq; [by apply count_up_quiet|]. intros ? w1 Hq.
    apply enqueue_mid; [by eapply (mid_quiet _ _ _ _ _ Hq)|done..].
  - eapply wp_seq; [by apply note_reject_spec|]. intros ? w1 (s1 & Hm1 & Hmv1).
    eapply wp_mono; [by apply enqueue_mid|]. intros ? w2 Ha. by eapply After_moves.
Qed.

Lemma note_cmd_in_spec svc s w :
  mid self w0 s w -> wp sess_dom (note_cmd_in self svc) (fun _ => After self w0 (moves s)) w.
Proof.
  intros Hmid. unfold note_cmd_in. do 2 wstep. wstep. eapply wp_this; [apply Hmid|]. unfold when.
  apply wp_if; intros _; [|wstep; by exists s]. eapply wp_mono; [apply emit_event_quiet|].
  intros ? w1 Hq. exists s. split; [eapply mid_quiet; [exact Hq|exact Hmid]|done].
Qed.

(** The reports of a batch, then the narration. *)
Lemma batch_spec (f : unit -> OutMsg -> M World unit) ok svc batch s w :
  (forall msg s w, mid self w0 s w -> is_answer ok msg = true ->
     wp sess_dom (f tt msg) (fun _ => After self w0 (moves s)) w) ->
  mid self w0 s w -> Forall (fun m => is_answer ok m = true) batch ->
  wp sess_dom (foldM f tt batch;; note_cmd_in self svc) (fun _ => After self w0 (moves s)) w.
Proof.
  intros Hf Hmid Hall. wstep. eapply wp_mono; [apply (wp_foldM _ _ (fun _ => After self w0 (moves s)))|].
  - by exists s.
  - intros [] msg w1 Hin (s1 & Hm1 & Hmv1). eapply wp_mono.
    + apply Hf; [exact Hm1|]. by eapply (proj1 (Forall_forall _ _) Hall).
    + intros ? w2 Ha. by eapply After_moves.
  - intros ? w1 (s1 & Hm1 & Hmv1). eapply wp_mono; [by apply note_cmd_in_spec|]. intros ? w2 Ha. by eapply After_moves.
Qed.

Definition took (msg : InMsg) s : Session :=
  set_taken (fun l => l ++ [msg]) (set_in_seq_expected (fun n => u64 (n + 1)) s).

Lemma took_core msg s : core self s -> in_seq msg = in_seq_expected_ s -> core self (took msg s).
Proof.
  intros Hc Hs. unfold took. core_tac.
  - intros i m [Hi|[Hi Hx]]%lookup_app_Some; [by apply co_taken|].
    apply list_lookup_singleton_Some in Hx as [Hi0 <-]. rewrite Hs, co_expected. f_equal. lia.
  - rewrite co_expected, u64_add_l, length_app. f_equal. cbn. lia.
Qed.

Lemma took_moves msg s : torn_down_ s = false -> closing_ s = false -> moves s (took msg s).
Proof. intros Ht Hc. split; [|done]. split; try done; cbn; [by apply prefix_app_r|by rewrite Ht, Hc]. Qed.

Lemma on_command_spec msg arrival e1 s w :
  mid self w0 s w -> torn_down_ s = false -> closing_ s = false ->
  wp sess_dom (on_command self msg arrival e1) (fun _ => After self w0 (moves s)) w.
Proof.
  intros Hmid Ht Hcl. unfold on_command. wstep. eapply wp_this; [apply Hmid|]. pose proof Hmid as (Hp & Hc & Ho).
  apply wp_if; [intros _|intros Hseq%negb_false_iff%Z.eqb_eq].
  { eapply wp_mono; [apply begin_close_spec; [done|unfold own_codes; set_solver]|]. intros ? w1 Ha.
    eapply After_mono; [exact Ha|]. naive_solver. }
  wstep. eapply wp_update; [exact Hp|]. intros w1 Hp1 E1. wstep. eapply wp_update; [exact Hp1|]. intros w2 Hp2 E2.
  assert (mid self w0 (took msg s) w2) as Hm2.
  { split; [exact Hp2|]. split; [by apply took_core|]. unfold own. rewrite E2, E1. exact Ho. }
  pose proof (took_moves msg s Ht Hcl) as Hmv. pose proof (co_epoch _ _ Hc) as Hep.
  assert (epoch_retired_ s = false) as Hret by (by rewrite (co_retired _ _ Hc), Ht, Hcl).
  apply wp_if; intros _.
  { eapply wp_mono; [by apply push_reject_spec|]. intros ? w3 Ha. by eapply After_moves. }
  clear Hp1 E1. destruct Hm2 as (Hp3 & Hc3 & _). destruct msg as [order|cancel]; rewrite Hep; wstep; unfold on_engine.
  - apply wp_on_new; [apply Hp3|exact (placed_dom _ _ _ _ Hp3)|]. intros batch e' He' Howns Hall.
    wstep. apply wp_steady_ns. intros e2 w4 Hq4 _ _. do 2 wstep. do 2 wstep.
    eapply wp_mono; [eapply (batch_spec _ true); [intros; by apply new_report_spec| |exact Hall]|].
    + apply (mid_quiet self w0 (took (InNew order) s) (set_engine (fun _ => e') w2)).
      { etrans; [exact Hq4|done]. }
      split; [apply placed_engine; [done..|]; intros x Hne Hx; by destruct (Howns _ Hx)|]. split; [done|]. by intros _.
    + intros ? w5 Ha. by eapply After_moves.
  - apply wp_on_cancel; [apply Hp3|exact (placed_dom _ _ _ _ Hp3)|]. intros batch e' He' Howns Hall.
    wstep. apply wp_steady_ns. intros e2 w4 Hq4 _ _. do 2 wstep.
    eapply wp_mono; [eapply (batch_spec _ false); [intros; by apply cancel_report_spec| |exact Hall]|].
    + apply (mid_quiet self w0 (took (InCancel cancel) s) (set_engine (fun _ => e') w2)).
      { etrans; [exact Hq4|done]. }
      split; [apply placed_engine; [done..|]; intros x Hne Hx; by apply Howns|]. split; [done|]. by intros _.
    + intros ? w5 Ha. by eapply After_moves.
Qed.

Lemma on_message_spec frame arrival s w :
  mid self w0 s w -> torn_down_ s = false -> closing_ s = false ->
  wp sess_dom (on_message self frame arrival) (fun _ => After self w0 (moved s)) w.
Proof.
  intros Hmid Ht Hcl. unfold on_message.
  assert (forall s1 w1, moves s s1 -> mid self w0 s1 w1 -> wp sess_dom (pump self) (fun _ => After self w0 (moved s)) w1) as Hpump.
  { intros s1 w1 Hmv Hm1. eapply wp_mono; [by apply pump_spec|]. intros ? w2 Ha. eapply After_mono; [exact Ha|].
    intros s2 [? ?]. split; [by trans s1|done]. }
  assert (forall rej code, wp sess_dom (push_reject self rej code;; pump self) (fun _ => After self w0 (moved s)) w) as Hrej.
  { intros rej code. eapply wp_seq; [by apply push_reject_spec|]. intros ? w1 (s1 & Hm1 & Hmv1). by eapply Hpump. }
  apply wp_if; intros _; [apply Hrej|]. destruct (decode frame) as [err|msg]; [apply Hrej|].
  wstep. apply wp_steady_ns. intros e1 w1 Hq _ _.
  eapply wp_seq; [by apply on_command_spec; [eapply mid_quiet; [exact Hq|exact Hmid]|..]|].
  intros ? w2 (s2 & Hm2 & Hmv2). by eapply Hpump.
Qed.
End Read.
