(* ===== verification/ShutdownInv.v ===== *)
(** * Snapshots, publication and [finalize] terminate and disturb nothing *)

From Stdlib Require Import ZArith Ascii String List Lia.
From stdpp Require Import base tactics list option strings gmap.
From S2P Require Import Prelude Types Protocol Engine EngineInv Outbox Utf8 Preflight Feed BenchRecorder TelemetryRing.
From S2P Require Import Telemetry Wp EngineOwners World Shutdown Session SessionInv SessionOps.

Lemma rest_facts (w w' : World) :
  rest w' = rest w ->
  sessions_ w' = sessions_ w /\ stopping_ w' = stopping_ w /\ finalized_ w' = finalized_ w /\ timers w' = timers w /\
  next_epoch_ w' = next_epoch_ w /\ peak_sessions_ w' = peak_sessions_ w /\ cfg_ w' = cfg_ w.
Proof. unfold rest. intros [=]. done. Qed.

Section Shut.
Context `{Env} {E : World -> Prop}.
Implicit Types (w : World).

Lemma steady_le n m : (n <= m)%nat -> steady_clock n <= steady_clock m.
Proof. induction 1 as [|m _ IH]; [lia|]. pose proof (steady_mono m). lia. Qed.

(** Quiet, and the clock was read at least [n] times. *)
Definition ticked (n : nat) w w' : Prop := quiet w w' /\ (clock_reads w + n <= clock_reads w')%nat.

Lemma ticked_trans n m w1 w2 w3 : ticked n w1 w2 -> ticked m w2 w3 -> ticked (n + m) w1 w3.
Proof. intros [Q1 N1] [Q2 N2]. split; [by etrans|lia]. Qed.

Lemma ticked_quiet n w w' : ticked n w w' -> quiet w w'.
Proof. by intros []. Qed.

Lemma quiet_dom w w' : quiet w w' -> sess_dom w -> sess_dom w'.
Proof. intros (Hh & _ & Hr). apply sess_dom_ext; [done|by apply rest_sessions]. Qed.

Lemma wait_for_room_spec fuel k giveup w :
  giveup <= steady_clock (clock_reads w + k) -> (k < fuel)%nat ->
  wp E (wait_for_room fuel giveup) (fun _ => ticked 0 w) w.
Proof.
  revert k w. induction fuel as [|fuel IH]; intros k w Hg Hk; [lia|]. cbn [wait_for_room]. wstep.
  unfold ring_pending_now. do 5 wstep. set (w1 := set_ring_reads S w).
  assert (ticked 0 w w1) as Ht1 by (split; [done|cbn; lia]).
  apply wp_if; intros _; [by wstep|]. wstep. apply wp_steady_ns. intros now w2 Hq Hr ->.
  assert (ticked 1 w1 w2) as Ht2 by (split; [done|lia]).
  apply wp_if; intros Hlt; [apply Z.ltb_lt in Hlt|wstep; split; [etrans; [apply Ht1|apply Ht2]|destruct Ht1, Ht2; lia]].
  destruct k as [|k]; [cbn [clock_reads w1 set_ring_reads] in Hlt; rewrite Nat.add_0_r in Hg; lia|].
  eapply wp_mono; [apply (IH k w2); [|lia]|].
  - replace (clock_reads w2 + k)%nat with (clock_reads w + S k)%nat; [done|]. rewrite Hr. cbn. lia.
  - intros ? w3 [Q3 N3]. split; [etrans; [apply Ht1|]; etrans; [exact Hq|exact Q3]|]. rewrite Hr in N3. cbn in N3. lia.
Qed.

Lemma publish_record_spec rec w : wp E (publish_record rec) (fun _ => ticked 1 w) w.
Proof.
  unfold publish_record. wstep. apply wp_steady_ns. intros now w1 Hq Hr _. do 2 wstep. wstep.
  eapply wp_mono; [apply (wait_for_room_spec _ (readings_until (clock_reads w1) (now + kFinalSnapshotWait))); [apply steady_progress|lia]|].
  intros ? w2 [Q2 N2]. unfold try_push. repeat wstep. split; [etrans; [exact Hq|]; etrans; [exact Q2|done]|]. cbn. lia.
Qed.

Lemma offer_fault_spec fuel k giveup rec w :
  giveup <= steady_clock (clock_reads w + k) -> (k < fuel)%nat ->
  wp E (offer_fault fuel giveup rec) (fun _ => quiet w) w.
Proof.
  revert k w. induction fuel as [|fuel IH]; intros k w Hg Hk; [lia|]. cbn [offer_fault].
  eapply wp_seq; [apply publish_record_spec|]. intros ok w1 [Q1 N1].
  apply wp_if; intros _; [do 3 wstep; by etrans; [exact Q1|]|].
  wstep. apply wp_steady_ns. intros now w2 Q2 Hr ->. assert (quiet w w2) as Q12 by (by etrans).
  apply wp_if; intros Hlt; [apply Z.ltb_lt in Hlt|do 3 wstep; by etrans; [exact Q12|]].
  destruct (decide (clock_reads w + k <= clock_reads w1)%nat) as [Hle|Hgt].
  { apply steady_le in Hle. lia. }
  eapply wp_mono; [apply (IH (clock_reads w + k - clock_reads w2)%nat w2); [|lia]|].
  - replace (clock_reads w2 + _)%nat with (clock_reads w + k)%nat by lia. done.
  - intros ? w3 Q3. by etrans.
Qed.

Lemma publish_pending_fault_spec w : wp E publish_pending_fault (fun _ => quiet w) w.
Proof.
  unfold publish_pending_fault. do 2 wstep. destruct (pending_fault_ w) as [rec|]; [|by wstep].
  wstep. apply wp_steady_ns. intros now w1 Hq _ _. do 2 wstep.
  eapply wp_mono; [apply (offer_fault_spec _ (readings_until (clock_reads w1) (now + kFaultPublishWait))); [apply steady_progress|lia]|].
  intros ? w2 Q2. by etrans.
Qed.

Lemma settle_spec w : sess_dom w -> wp E settle_snapshot_counters (fun _ => quiet w) w.
Proof.
  intros Hd. unfold settle_snapshot_counters. do 5 wstep.
  set (w1 := set_counters _ _). assert (quiet w w1) as Hq by done. clearbody w1.
  eapply wp_mono; [apply (wp_foldM _ _ (fun _ => quiet w)); [exact Hq|]|].
  - intros acc e w2 Hin Q2. unfold settle_one. do 3 wstep. unfold this. do 2 wstep.
    destruct (proj1 (Forall_forall _ _) (quiet_dom _ _ Q2 Hd) e) as [s Hs].
    { destruct Q2 as (_ & _ & Hr). rewrite (rest_sessions _ _ Hr). exact Hin. }
    eapply wp_deref; [exact Hs|]. by wstep.
  - intros sums w2 Q2. do 5 wstep. by etrans; [exact Q2|].
Qed.

Lemma foldM_quiet {A B} (f : B -> A -> M World B) b l w :
  (forall b x w, wp E (f b x) (fun _ => quiet w) w) -> wp E (foldM f b l) (fun _ => quiet w) w.
Proof.
  intros Hf. apply wp_foldM; [done|]. intros b' x w' _ Hq. eapply wp_mono; [apply Hf|]. intros ? w2 Q2. by etrans.
Qed.

Lemma push_snapshot_spec w : sess_dom w -> wp E push_snapshot (fun _ => quiet w) w.
Proof.
  intros Hd. unfold push_snapshot. eapply wp_seq; [by apply settle_spec|]. intros ? w1 Q1.
  wstep. apply wp_steady_ns. intros now w2 Q2 _ _. do 2 wstep.
  eapply wp_seq; [apply foldM_quiet|].
  - intros ? rec w3. unfold try_push. by repeat wstep.
  - intros ? w3 Q3. unfold sample_ring_pending, ring_pending_now. repeat wstep.
    etrans; [exact Q1|]. etrans; [exact Q2|]. by etrans; [exact Q3|].
Qed.

Lemma push_final_snapshot_spec w : sess_dom w -> wp E push_final_snapshot (fun _ => quiet w) w.
Proof.
  intros Hd. unfold push_final_snapshot. eapply wp_seq; [apply publish_pending_fault_spec|]. intros ? w1 Q1.
  eapply wp_seq; [apply settle_spec; eapply quiet_dom; [exact Q1|exact Hd]|]. intros ? w2 Q2.
  unfold sample_ring_pending, ring_pending_now. repeat wstep. apply wp_steady_ns. intros now w3 Q3 _ _. do 2 wstep.
  eapply wp_mono; [apply foldM_quiet|].
  - intros b rec w4. eapply wp_seq; [apply publish_record_spec|]. intros ok w5 [Q5 _]. by wstep.
  - intros ? w4 Q4. etrans; [exact Q1|]. etrans; [exact Q2|]. etrans; [|exact Q4]. exact Q3.
Qed.

(** The state a run ends in: [finalized_] set, the deadline cancelled. *)
Definition final w : World :=
  set_timers (List.filter (fun t' => negb (bool_decide (t' = TDeadline)))) (set_finalized (fun _ => true) w).

Lemma finalize_spec w :
  sess_dom w -> wp E finalize (fun _ => quiet (if finalized_ w then w else final w)) w.
Proof.
  intros Hd. unfold finalize. do 2 wstep. destruct (finalized_ w); [by wstep|]. unfold cancel. do 4 wstep.
  eapply wp_seq; [apply push_final_snapshot_spec, Hd|]. intros ok w1 Q1. do 4 wstep.
  assert (quiet (final w) (set_telemetry_ok (fun ok0 => ok && sink_healthy && ok0) w1)) as Q2 by exact Q1.
  set (w2 := set_telemetry_ok _ w1) in *. clearbody w2.
  destruct (recorder_ w2); [|by wstep]. apply wp_if; intros _; wstep; [exact Q2|]. by etrans; [exact Q2|].
Qed.

(** [session_closed]: the session leaves the map, and the last one to leave a
    stopping server finalizes it. *)
Definition left (epoch : Z) w : World := set_sessions (List.filter (fun e => negb (e =? epoch))) w.
Definition closed (epoch : Z) w : World :=
  let w' := left epoch w in
  if stopping_ w && bool_decide (sessions_ w' = []) && negb (finalized_ w) then final w' else w'.

Lemma left_dom e w : sess_dom w -> sess_dom (left e w).
Proof.
  unfold sess_dom, left. cbn. rewrite !Forall_forall. intros Hd x [Hx _]%list_elem_of_In%filter_In. apply Hd.
  by apply list_elem_of_In.
Qed.

Lemma session_closed_spec e code n w :
  sess_dom w -> wp E (session_closed e code n) (fun _ => quiet (closed e w)) w.
Proof.
  intros Hd. unfold session_closed. do 2 wstep. wstep. eapply wp_mono; [apply emit_event_quiet|]. intros ? w1 Q1.
  assert (quiet (left e w) (left e w1)) as Q2.
  { destruct Q1 as (Hh & He & Hr). split; [done|]. split; [done|].
    assert (rest w1 = rest w) as Hr' by exact Hr. clear Hr. unfold rest in *. cbn. congruence. }
  do 4 wstep. change (set_sessions _ w1) with (left e w1). set (w2 := left e w1) in *.
  assert (sess_dom w2) as Hd2 by (eapply quiet_dom; [exact Q2|by apply left_dom]).
  assert (stopping_ w2 = stopping_ w /\ sessions_ w2 = sessions_ (left e w) /\ finalized_ w2 = finalized_ w) as (E1 & E2 & E3).
  { destruct Q2 as (_ & _ & Hr). apply rest_facts in Hr as (Hs & Hst & Hf & _). done. }
  clearbody w2. unfold closed. rewrite E1, E2. unfold when.
  destruct (stopping_ w && bool_decide (sessions_ (left e w) = [])); cbn [andb]; [|wstep; exact Q2].
  eapply wp_mono; [by apply finalize_spec|]. intros ? w3 Q3. rewrite E3 in Q3.
  destruct (finalized_ w); cbn [negb]; [by etrans|]. etrans; [|exact Q3].
  destruct Q2 as (Hh & He & Hr). split; [done|]. split; [done|]. unfold rest in *. cbn in *. congruence.
Qed.
End Shut.
