(* ===== verification/ServerInv.v ===== *)
(** * The server invariant: sessions

    [base] ties the map, the session objects and the engine together; it holds
    whenever no handler is inside a session. *)

From Stdlib Require Import ZArith Ascii String List Lia.
From stdpp Require Import base tactics list option strings gmap sorting.
From S2P Require Import Prelude Types Protocol Engine EngineInv Outbox Utf8 Preflight Feed BenchRecorder TelemetryRing.
From S2P Require Import Telemetry Wp EngineOwners World Shutdown Session SessionInv SessionOps SessionWrite SessionRead.
From S2P Require Import ShutdownInv.

Section Inv.
Context `{Env, ICodec}.
Implicit Types (w : World) (s : Session).

Record sess_ok (e : Z) s : Prop := {
  so_core : core e s;
  so_progress : progress s;
  so_listen : torn_down_ s = false -> listeners s = 1%nat;
}.

Record base w : Prop := {
  b_engine : engine_inv (engine_ w);
  b_next : 0 <= next_epoch_ w;
  b_keys : forall e s, heap w !! e = Some s -> 1 <= e <= next_epoch_ w;
  b_map : forall e, e ∈ sessions_ w <-> exists s, heap w !! e = Some s /\ torn_down_ s = false;
  b_sorted : StronglySorted Z.lt (sessions_ w);
  b_sess : forall e s, heap w !! e = Some s -> sess_ok e s;
  b_owns : forall e, owns (engine_ w) e -> exists s, heap w !! e = Some s /\ epoch_retired_ s = false;
  b_peak : Z.of_nat (length (sessions_ w)) <= peak_sessions_ w;
  b_final : finalized_ w = true -> stopping_ w = true /\ sessions_ w = [];
}.

Lemma base_dom w : base w -> sess_dom w.
Proof.
  intros Hb. apply Forall_forall. intros e He. apply (b_map _ Hb) in He as (s & Hs & _). by exists s.
Qed.

Lemma base_quiet w w' : quiet w w' -> base w -> base w'.
Proof.
  intros (Hh & He & Hr) []. apply rest_facts in Hr as (E1 & E2 & E3 & _ & E5 & E6 & _).
  split; rewrite ?Hh, ?He, ?E1, ?E2, ?E3, ?E5, ?E6; done.
Qed.

(** Every session only moves forward. *)
Definition all_grow w w' : Prop :=
  forall e s, heap w !! e = Some s -> exists s', heap w' !! e = Some s' /\ grows s s'.

#[export] Instance all_grow_preorder : PreOrder all_grow.
Proof.
  split; [intros w e s Hs; by exists s|]. intros x y z H1 H2 e s Hs.
  destruct (H1 e s Hs) as (s1 & Hs1 & G1). destruct (H2 e s1 Hs1) as (s2 & Hs2 & G2). exists s2. split; [done|by etrans].
Qed.

Lemma all_grow_heap w w' : heap w' = heap w -> all_grow w w'.
Proof. intros Hh e s Hs. exists s. by rewrite Hh. Qed.

Definition kept_rest w w' : Prop := base w' /\ rest w' = rest w /\ all_grow w w'.

Lemma base_mid e s w : base w -> heap w !! e = Some s -> mid e w s w.
Proof.
  intros Hb Hs. apply mid_start; [done|apply (b_sess _ Hb e s Hs)|apply Hb|by apply base_dom|].
  intros Ho. destruct (b_owns _ Hb e Ho) as (s' & Hs' & Hr). congruence.
Qed.

(** An operation on session [e] that leaves it alive and well. *)
Lemma close_op e s s' w w' :
  base w -> heap w !! e = Some s -> mid e w s' w' -> sess_ok e s' -> torn_down_ s' = torn_down_ s -> grows s s' ->
  kept_rest w w'.
Proof.
  intros Hb Hs ([Hh Hoth Hr He Hown _] & Hc & Ho) Hok Ht Hg.
  apply rest_facts in Hr as Hf. destruct Hf as (E1 & E2 & E3 & _ & E5 & E6 & _).
  assert (forall x sx, heap w' !! x = Some sx -> (x = e /\ sx = s') \/ (x <> e /\ heap w !! x = Some sx)) as Hcase.
  { intros x sx Hx. destruct (decide (x = e)) as [->|Hne]; [left; split; congruence|right]. by rewrite <- Hoth. }
  split; [split|split; [exact Hr|]].
  - done.
  - rewrite E5. apply Hb.
  - rewrite E5. intros x sx [[-> ->]|[_ Hx]]%Hcase; by eapply b_keys.
  - intros x. rewrite E1, (b_map _ Hb). destruct (decide (x = e)) as [->|Hne].
    + rewrite Hh, Hs. split; intros (sx & [= <-] & Hx); eexists; (split; [done|congruence]).
    + by rewrite Hoth.
  - rewrite E1. apply Hb.
  - intros x sx [[-> ->]|[_ Hx]]%Hcase; [done|by eapply b_sess].
  - intros x Hx. destruct (decide (x = e)) as [->|Hne]; [exists s'; auto|]. rewrite Hoth by done. by apply (b_owns _ Hb), Hown.
  - rewrite E1, E6. apply Hb.
  - rewrite E1, E2, E3. apply Hb.
  - intros x sx Hx. destruct (decide (x = e)) as [->|Hne]; [|exists sx; by rewrite Hoth].
    exists s'. split; [done|]. congruence.
Qed.

Lemma moves_ok e s s' : sess_ok e s -> core e s' -> moves s s' -> progress s' -> sess_ok e s'.
Proof.
  intros [_ _ Hl] Hc [_ Hk] Hp. split; [done..|]. unfold kept in Hk. injection Hk as E1 E2 E3 E4.
  unfold listeners in *. rewrite E1, E2, E3, E4. exact Hl.
Qed.

Lemma lift_op e s (m : M World unit) w :
  base w -> heap w !! e = Some s ->
  wp sess_dom m (fun _ => After e w (fun s' => moves s s' /\ (progress s -> progress s'))) w ->
  wp sess_dom m (fun _ => kept_rest w) w.
Proof.
  intros Hb Hs Hm. eapply wp_mono; [exact Hm|]. intros ? w' (s' & Hmid & Hmv & Hpr).
  pose proof (b_sess _ Hb _ _ Hs) as Hok.
  eapply close_op; [done|exact Hs|exact Hmid|eapply moves_ok; [exact Hok|apply Hmid|exact Hmv|apply Hpr, Hok]| |apply Hmv].
  destruct Hmv as [_ Hk]. unfold kept in Hk. congruence.
Qed.

Lemma kept_rest_trans w1 w2 w3 : kept_rest w1 w2 -> kept_rest w2 w3 -> kept_rest w1 w3.
Proof. intros (_ & R1 & G1) (B2 & R2 & G2). split; [done|]. split; [congruence|by etrans]. Qed.

(** A pass over the map. *)
Lemma over_sessions (f : unit -> Z -> M World unit) l w :
  base w -> (forall e, e ∈ l -> e ∈ sessions_ w) ->
  (forall e s w1, base w1 -> heap w1 !! e = Some s -> e ∈ sessions_ w1 -> wp sess_dom (f tt e) (fun _ => kept_rest w1) w1) ->
  wp sess_dom (foldM f tt l) (fun _ => kept_rest w) w.
Proof.
  intros Hb Hl Hf. apply wp_foldM; [by split|]. intros [] e w1 Hin (B1 & R1 & G1).
  assert (e ∈ sessions_ w1) as He by (rewrite (rest_sessions _ _ R1); auto).
  destruct (proj1 (b_map _ B1 e) He) as (s & Hs & _).
  eapply wp_mono; [by eapply Hf|]. intros ? w2 K2. eapply kept_rest_trans; [|exact K2]. done.
Qed.

Lemma begin_close_kept code e s w :
  code ∈ own_codes -> base w -> heap w !! e = Some s -> wp sess_dom (begin_close e code) (fun _ => kept_rest w) w.
Proof.
  intros Hcode Hb Hs. eapply lift_op; [done|exact Hs|].
  eapply wp_mono; [by apply begin_close_spec; [apply base_mid|]|].
  intros ? w' Ha. eapply After_mono; [exact Ha|]. naive_solver.
Qed.

(** ** Leaving the map *)

(** The last step of a session that is torn down. *)
Lemma teardown_spec e code s w0 w :
  mid e w0 s w -> torn_down_ s = false ->
  wp sess_dom (teardown e code)
    (fun _ w' => exists s' w1, placed e w0 s' w1 /\ core e s' /\ torn_down_ s' = true /\ grows s s' /\
       epoch_retired_ s' = true /\ ~ owns (engine_ w1) e /\ quiet (closed e w1) w') w.
Proof.
  intros (Hp & Hc & Ho) Ht. unfold teardown. wstep. eapply wp_this; [exact Hp|]. rewrite Ht. wstep.
  eapply wp_update; [exact Hp|]. intros w1 Hp1 E1. wstep.
  assert (wp sess_dom (when (write_inflight_ s)
    (now ← steady_ns; modify (set_counters (set_send_lag_max_ns (Z.max (u64 (now - write_start_ns_ s)))))))
    (fun _ => quiet w1) w1) as Hlag.
  { unfold when. apply wp_if; intros _; [|by wstep]. wstep. apply wp_steady_ns. intros now w2 Q2 _ _. wstep. etrans; [exact Q2|done]. }
  eapply wp_mono; [exact Hlag|]. intros ? w2 Q2. wstep.
  eapply retire_spec; [eapply placed_quiet; [exact Q2|exact Hp1]|apply Hc| |].
  { intros Hr. cbn in Hr. destruct Q2 as (_ & -> & _). rewrite E1. intros Hx%Ho. congruence. }
  intros n w3 Hp3 Hn. wstep. eapply wp_update; [exact Hp3|]. intros w4 Hp4 E4. wstep.
  eapply wp_update; [exact Hp4|]. intros w5 Hp5 E5. wstep. eapply wp_this; [exact Hp5|].
  set (s' := set_socket_open _ _) in *. assert (core e s') as Hc'.
  { unfold s', retired. core_tac. by rewrite orb_true_r. }
  rewrite (co_epoch _ _ Hc'). eapply wp_mono; [eapply session_closed_spec, placed_dom, Hp5|]. intros ? w6 Q6.
  exists s', w5. split; [exact Hp5|]. split; [exact Hc'|]. split; [done|].
  split; [split; try done; cbn; by rewrite Ht|]. split; [done|]. split; [by rewrite E5, E4|exact Q6].
Qed.

(** The map and the flags after a session left. *)
Definition gone e w w' : Prop := base w' /\ rest w' = rest (closed e w) /\ all_grow w w'.

Lemma filter_ne_elem e (l : list Z) x : x ∈ List.filter (fun y => negb (y =? e)) l <-> x ∈ l /\ x <> e.
Proof. rewrite !list_elem_of_In, filter_In, negb_true_iff, Z.eqb_neq. done. Qed.

Lemma filter_ne_sorted e (l : list Z) :
  StronglySorted Z.lt l -> StronglySorted Z.lt (List.filter (fun y => negb (y =? e)) l).
Proof.
  induction 1 as [|x l Hs IH Hx]; cbn; [constructor|]. destruct (negb (x =? e)); [|done]. constructor; [done|].
  rewrite Forall_forall in *. intros y [Hy _]%filter_ne_elem. auto.
Qed.

Lemma filter_length_le' {A} (p : A -> bool) (l : list A) : (length (List.filter p l) <= length l)%nat.
Proof. induction l as [|x l IH]; cbn; [lia|]. destruct (p x); cbn; lia. Qed.

Lemma closed_facts e w w' :
  rest w' = rest (closed e w) ->
  sessions_ w' = List.filter (fun y => negb (y =? e)) (sessions_ w) /\ stopping_ w' = stopping_ w /\
  finalized_ w' = (stopping_ w && bool_decide (sessions_ w' = []) || finalized_ w) /\
  next_epoch_ w' = next_epoch_ w /\ peak_sessions_ w' = peak_sessions_ w.
Proof.
  intros Hr. apply rest_facts in Hr as (E1 & E2 & E3 & _ & E5 & E6 & _). unfold closed in *.
  assert (sessions_ w' = List.filter (fun y => negb (y =? e)) (sessions_ w)) as Es.
  { rewrite E1. by destruct (_ && _ && _). }
  split; [done|]. rewrite Es, E2, E3, E5, E6. cbn [left set_sessions sessions_].
  destruct (stopping_ w) eqn:A, (bool_decide (List.filter _ _ = [])), (finalized_ w) eqn:C; cbn; rewrite ?A, ?C; done.
Qed.

Lemma teardown_gone e code s s1 w w1 :
  base w -> heap w !! e = Some s -> mid e w s1 w1 -> torn_down_ s = false -> torn_down_ s1 = false -> grows s s1 ->
  wp sess_dom (teardown e code) (fun _ => gone e w) w1.
Proof.
  intros Hb Hs Hmid Ht Ht1 Hg. eapply wp_mono; [by apply teardown_spec|].
  intros ? w' (s' & w2 & [Hh Hoth Hr He Hown _] & Hc & Ht' & Hg' & Hret & Hno & (Qh & Qe & Qr)).
  assert (rest w' = rest (closed e w)) as Hr'.
  { rewrite Qr. apply rest_facts in Hr as Hf. destruct Hf as (E1 & E2 & E3 & _). unfold closed. cbn [left set_sessions sessions_].
    rewrite E1, E2, E3. destruct (_ && _ && _); unfold rest, final, left in *; cbn; congruence. }
  assert (heap w' = heap w2) as Hh' by (rewrite Qh; unfold closed; by destruct (_ && _)).
  assert (engine_ w' = engine_ w2) as He' by (rewrite Qe; unfold closed; by destruct (_ && _)).
  destruct (closed_facts _ _ _ Hr') as (F1 & F2 & F3 & F4 & F5). clear Qh Qe Qr.
  assert (forall x sx, heap w' !! x = Some sx -> (x = e /\ sx = s') \/ (x <> e /\ heap w !! x = Some sx)) as Hcase.
  { rewrite Hh'. intros x sx Hx. destruct (decide (x = e)) as [->|Hne]; [left; split; congruence|right]. by rewrite <- Hoth. }
  split; [split|split; [exact Hr'|]].
  - by rewrite He'.
  - rewrite F4. apply Hb.
  - rewrite F4. intros x sx [[-> ->]|[_ Hx]]%Hcase; by eapply b_keys.
  - intros x. rewrite F1, filter_ne_elem, (b_map _ Hb). split.
    + intros [(sx & Hx & Htx) Hne]. exists sx. by rewrite Hh', Hoth.
    + intros (sx & [[-> ->]|[Hne Hx]]%Hcase & Htx); [congruence|]. split; [by exists sx|done].
  - rewrite F1. by apply filter_ne_sorted, Hb.
  - intros x sx [[-> ->]|[_ Hx]]%Hcase; [|by eapply b_sess]. split; [done|by left|congruence].
  - intros x Hx. rewrite He' in Hx. destruct (decide (x = e)) as [->|Hne]; [done|]. rewrite Hh', Hoth by done.
    by apply (b_owns _ Hb), Hown.
  - rewrite F1, F5. pose proof (b_peak _ Hb). pose proof (filter_length_le' (fun y => negb (y =? e)) (sessions_ w)). lia.
  - rewrite F2, F3. intros [[? ?%bool_decide_eq_true]%andb_true_iff|Hf]%orb_true_iff; [done|].
    destruct (b_final _ Hb Hf) as [? E]. split; [done|]. by rewrite F1, E.
  - intros x sx Hx. rewrite Hh'. destruct (decide (x = e)) as [->|Hne]; [|exists sx; by rewrite Hoth].
    exists s'. split; [done|]. assert (sx = s) as -> by congruence. by etrans.
Qed.
End Inv.
