(* ===== verification/ServerSteps.v ===== *)
(** * The completions of a session's operations preserve the invariant *)

From Stdlib Require Import ZArith Ascii String List Lia.
From stdpp Require Import base tactics list option strings gmap sorting.
From S2P Require Import Prelude Types Protocol Engine EngineInv Outbox Utf8 Preflight Feed BenchRecorder TelemetryRing.
From S2P Require Import Telemetry Wp EngineOwners World Shutdown Session SessionInv SessionOps SessionWrite SessionRead.
From S2P Require Import ShutdownInv ServerInv.

Section Steps.
Context `{Env, ICodec}.
Implicit Types (w : World) (s : Session).

(** A handler of one session: it may at most take that session out of the map. *)
Definition stepped w w' : Prop :=
  base w' /\ all_grow w w' /\ (rest w' = rest w \/ exists e, rest w' = rest (closed e w)).

Lemma kept_stepped w w' : kept_rest w w' -> stepped w w'.
Proof. intros (Hb & Hr & Hg). split; [done|]. split; [done|by left]. Qed.
Lemma gone_stepped e w w' : gone e w w' -> stepped w w'.
Proof. intros (Hb & Hr & Hg). split; [done|]. split; [done|]. right. by exists e. Qed.

Lemma wp_teardown e code s s1 w w1 :
  base w -> heap w !! e = Some s -> mid e w s1 w1 -> torn_down_ s = false -> torn_down_ s1 = false -> grows s s1 ->
  wp sess_dom (teardown e code) (fun _ => stepped w) w1.
Proof.
  intros Hb Hs Hm Ht Ht1 Hg. eapply wp_mono; [by eapply teardown_gone|]. intros ? w' Hx. exact (gone_stepped _ _ _ Hx).
Qed.

(** A state the session can be left in. *)
Lemma wp_leave e s s1 w w1 :
  base w -> heap w !! e = Some s -> mid e w s1 w1 -> grows s s1 -> torn_down_ s1 = torn_down_ s ->
  progress s1 -> (torn_down_ s1 = false -> listeners s1 = 1%nat) -> stepped w w1.
Proof.
  intros Hb Hs Hm Hg Ht Hp Hl. apply kept_stepped. eapply close_op; [done|exact Hs|exact Hm| |done|done].
  split; [apply Hm|done|done].
Qed.

(** Setting the operation counts of a session. *)
Lemma grows_same s s1 :
  torn_down_ s1 = torn_down_ s -> closing_ s1 = closing_ s -> close_code_ s1 = close_code_ s ->
  close_frame_sent_ s1 = close_frame_sent_ s -> wire s1 = wire s -> taken s1 = taken s -> grows s s1.
Proof.
  intros E1 E2 E3 E4 E5 E6. split; rewrite ?E1, ?E2, ?E3, ?E4, ?E5, ?E6; done.
Qed.

Lemma rearm_read e s s2 w w2 (Q : unit -> World -> Prop) :
  base w -> heap w !! e = Some s -> mid e w s2 w2 -> grows s s2 -> torn_down_ s = false -> torn_down_ s2 = false ->
  progress s2 -> listeners s2 = 0%nat -> (forall w3, stepped w w3 -> Q tt w3) -> wp sess_dom (read_next e) Q w2.
Proof.
  intros Hb Hs Hm Hg Ht Ht2 Hp Hl HQ. unfold read_next.
  assert (listeners (set_op_reads S s2) = 1%nat) as Hl' by (unfold listeners, drain_closes in *; cbn in *; lia).
  eapply wp_update_mid; [exact Hm| |done|].
  { destruct Hm as (_ & Hc & _). destruct Hc. split; try done. by rewrite Hl'. }
  intros w3 Hm3. apply HQ. eapply wp_leave; [done|exact Hs|exact Hm3| |cbn; congruence|exact Hp|done].
  etrans; [exact Hg|]. by apply grows_same.
Qed.

Lemma kept_facts s s2 :
  moves s s2 -> torn_down_ s2 = torn_down_ s /\ listeners s2 = listeners s.
Proof. intros [_ Hk]. unfold kept in Hk. injection Hk as E1 E2 E3 E4. unfold listeners. by rewrite E1, E2, E3, E4. Qed.

(** ** Reads *)

Lemma too_big_core n s :
  core (epoch_ s) s -> closing_ s = false -> listeners s = 0%nat ->
  core (epoch_ s) (set_op_closes (fun l => l ++ [ThenDrain])
    (set_close_frame_sent (fun _ => true) (latched too_big false n s))).
Proof.
  intros Hc Hcl Hl. assert (op_closes s = []) as Ho.
  { apply (co_closed _ _ Hc). destruct (close_frame_sent_ s) eqn:E; [|done]. apply (co_frame _ _ Hc) in E. congruence. }
  unfold latched, retired, listeners, drain_closes in *. core_tac; rewrite Ho in *; cbn in *.
  - lia.
  - intros _. unfold own_codes. set_solver.
  - rewrite bool_decide_true by done. cbn. lia.
Qed.

Lemma too_big_listens n s :
  core (epoch_ s) s -> closing_ s = false -> listeners s = 0%nat ->
  listeners (set_op_closes (fun l => l ++ [ThenDrain])
    (set_close_frame_sent (fun _ => true) (latched too_big false n s))) = 1%nat.
Proof.
  intros Hc Hcl Hl. pose proof (co_listen _ _ (too_big_core n s Hc Hcl Hl)) as Hle.
  unfold listeners, drain_closes in *. cbn in *. rewrite List.filter_app, length_app in *. cbn in *.
  rewrite bool_decide_true in * by done. cbn in *. lia.
Qed.

Lemma read_step e ec s w :
  base w -> heap w !! e = Some s -> (0 < op_reads s)%nat ->
  wp sess_dom (update e (set_op_reads pred);; on_read e ec) (fun _ => stepped w) w.
Proof.
  intros Hb Hs Hr. pose proof (base_mid e s w Hb Hs) as Hm0. pose proof (b_sess _ Hb _ _ Hs) as Hok.
  wstep. eapply wp_update_mid; [exact Hm0| |done|].
  { pose proof (so_core _ _ Hok) as Hc. core_tac. lia. }
  intros w1 Hm. set (s1 := set_op_reads pred s) in *.
  assert (grows s s1) as Hg by (by apply grows_same). assert (progress s1) as Hp by exact (so_progress _ _ Hok).
  unfold on_read. wstep. eapply wp_this; [apply Hm|]. apply wp_if; intros Ht.
  { wstep. eapply wp_leave; [done|exact Hs|exact Hm|done|done|done|]. intros. congruence. }
  assert (listeners s1 = 0%nat) as Hl.
  { pose proof (so_listen _ _ Hok Ht) as Hl. unfold listeners, s1, drain_closes in *. cbn in *. lia. }
  assert (forall code, wp sess_dom (teardown e code) (fun _ => stepped w) w1) as Htd by (intros code; by eapply wp_teardown).
  destruct ec as [peer| | | | | | |bin frame]; try apply Htd.
  - wstep. eapply latch_spec; [exact Hm|unfold own_codes; set_solver| |].
    + intros _. cbn [negb]. wstep. eapply wp_this; [apply Hm|]. apply Htd.
    + intros n w2 Hcl _ (Hp2 & Hc2 & Ho2). cbn [negb]. wstep. eapply wp_update; [exact Hp2|]. intros w3 Hp3 E3.
      unfold async_close. eapply wp_update; [exact Hp3|]. intros w4 Hp4 E4.
      pose proof Hm as (_ & Hc & _). pose proof (co_epoch _ _ Hc) as He.
      assert (core e (set_op_closes (fun l => l ++ [ThenDrain]) (set_close_frame_sent (fun _ => true) (latched too_big false n s1)))) as Hc4.
      { rewrite <- He in Hc |- *. apply too_big_core; done. }
      eapply wp_leave; [done|exact Hs|split; [exact Hp4|split; [exact Hc4|unfold own; rewrite E4, E3; exact Ho2]]| |done| |].
      * etrans; [exact Hg|]. split; try done; cbn; intros Hx. change (closing_ s = false) in Hcl. congruence.
      * by right; right; left.
      * intros _. rewrite <- He in Hc. by apply too_big_listens.
  - wstep. apply wp_steady_ns. intros now w2 Q2 _ _. pose proof (mid_quiet _ _ _ _ _ Q2 Hm) as Hm2.
    assert (forall m : M World unit, wp sess_dom m (fun _ => After e w (moved s1)) w2 ->
      wp sess_dom (m;; read_next e) (fun _ => stepped w) w2) as Hthen.
    { intros m Hm'. eapply wp_seq; [exact Hm'|]. intros ? w3 (s3 & Hm3 & Hmv & Hp3).
      destruct (kept_facts _ _ Hmv) as [Ht3 Hl3]. eapply rearm_read; [done|exact Hs|exact Hm3| |done|congruence|done|congruence|done].
      etrans; [exact Hg|apply Hmv]. }
    apply wp_if; intros Hcl; [by eapply rearm_read|]. apply wp_if; intros _; apply Hthen.
    + eapply wp_mono; [apply begin_close_spec; [done|unfold own_codes; set_solver]|]. intros ? w3 Ha.
      eapply After_mono; [exact Ha|]. intros s3 (Hmv & Hpr & _). split; auto.
    + by apply on_message_spec.
Qed.

(** ** Writes *)

Lemma write_step e ec s w :
  base w -> heap w !! e = Some s -> (0 < op_writes s)%nat ->
  wp sess_dom (update e (set_op_writes pred);; on_write e ec) (fun _ => stepped w) w.
Proof.
  intros Hb Hs Hw. pose proof (base_mid e s w Hb Hs) as (Hp0 & Hc0 & Ho0). pose proof (b_sess _ Hb _ _ Hs) as Hok.
  wstep. eapply wp_update; [exact Hp0|]. intros w1 Hp1 E1. unfold on_write. wstep.
  eapply wp_update; [exact Hp1|]. intros w2 Hp2 E2. set (s1 := set_write_inflight _ _) in *.
  assert (op_writes s = 1%nat) as Hw1 by (pose proof (co_write _ _ Hc0); destruct (write_inflight_ s); lia).
  assert (mid e w s1 w2) as Hm.
  { split; [done|]. split; [|unfold own; rewrite E2, E1; exact Ho0]. unfold s1. core_tac. by rewrite Hw1. }
  assert (grows s s1) as Hg by (by apply grows_same). assert (listeners s1 = listeners s) as Hl by done.
  wstep. eapply wp_this; [exact Hp2|]. apply wp_if; intros Ht.
  { wstep. eapply wp_leave; [done|exact Hs|exact Hm|done|done|by left|]. intros. congruence. }
  wstep. apply wp_steady_ns. intros now w3 Q3 _ _. do 2 wstep.
  assert (mid e w s1 (set_counters (set_send_lag_max_ns (Z.max (u64 (now - write_start_ns_ s1)))) w3)) as Hm3.
  { eapply mid_quiet; [|exact Hm]. etrans; [exact Q3|done]. }
  destruct ec; [|by eapply wp_teardown..].
  eapply wp_mono; [by apply pump_spec|]. intros ? w4 (s4 & Hm4 & Hmv & Hpr). destruct (kept_facts _ _ Hmv) as [Ht4 Hl4].
  eapply wp_leave; [done|exact Hs|exact Hm4|etrans; [exact Hg|apply Hmv]|exact Ht4|done|].
  intros _. rewrite Hl4, Hl. by apply (so_listen _ _ Hok).
Qed.

(** ** Closes, drains and the grace timer *)

Lemma drain_read_leave e s s1 w w1 :
  base w -> heap w !! e = Some s -> mid e w s1 w1 -> grows s s1 -> torn_down_ s1 = torn_down_ s -> progress s1 ->
  listeners s1 = 0%nat -> wp sess_dom (drain_read e) (fun _ => stepped w) w1.
Proof.
  intros Hb Hs Hm Hg Ht Hp Hl. unfold drain_read.
  assert (listeners (set_op_drains S s1) = 1%nat) as Hl' by (unfold listeners, drain_closes in *; cbn in *; lia).
  eapply wp_update_mid; [exact Hm| |done|].
  { destruct Hm as (_ & Hc & _). destruct Hc. split; try done. by rewrite Hl'. }
  intros w3 Hm3. eapply wp_leave; [done|exact Hs|exact Hm3| |done|exact Hp|done]. etrans; [exact Hg|]. by apply grows_same.
Qed.

Lemma close_step e failed s w :
  base w -> heap w !! e = Some s -> op_closes s <> [] ->
  wp sess_dom (s ← this e; update e (set_op_closes tail);;
    match op_closes s with k :: _ => on_close_done e k failed | [] => mret tt end) (fun _ => stepped w) w.
Proof.
  intros Hb Hs Hne. pose proof (base_mid e s w Hb Hs) as Hm0. pose proof (b_sess _ Hb _ _ Hs) as Hok.
  pose proof (so_core _ _ Hok) as Hc. pose proof (co_closes _ _ Hc) as Hlen.
  destruct (op_closes s) as [|k [|]] eqn:Eo; [done| |cbn in Hlen; lia].
  assert (close_frame_sent_ s = true) as Hf.
  { destruct (close_frame_sent_ s) eqn:E; [done|]. by rewrite (co_closed _ _ Hc E) in Eo. }
  wstep. eapply wp_this; [apply Hm0|]. rewrite Eo. wstep. set (f := set_op_closes tail).
  assert (forall n, listeners (f s) = n -> listeners s = (n + if bool_decide (k = ThenDrain) then 1 else 0)%nat) as Hl.
  { intros n <-. unfold listeners, drain_closes, f. cbn. rewrite Eo. cbn. case_bool_decide; cbn; lia. }
  eapply wp_update_mid; [exact Hm0| |done|].
  { unfold f. core_tac; rewrite Eo in *; cbn in *; try done; try lia; destruct (bool_decide (k = ThenDrain)); cbn in *; lia. }
  intros w1 Hm. assert (grows s (f s)) as Hg by (by apply grows_same).
  assert (progress (f s)) as Hp by exact (so_progress _ _ Hok).
  destruct k; cbn [on_close_done].
  - assert (torn_down_ s = false -> listeners (f s) = 1%nat) as Hl1.
    { intros Ht. pose proof (so_listen _ _ Hok Ht) as H1. rewrite (Hl _ eq_refl), bool_decide_false in H1 by done. lia. }
    destruct failed; [|by wstep; eapply wp_leave]. wstep. eapply wp_this; [apply Hm|].
    destruct (torn_down_ s) eqn:Ht; [|by eapply wp_teardown].
    unfold teardown. wstep. eapply wp_this; [apply Hm|]. cbn. rewrite Ht. wstep. eapply wp_leave; try done.
    intros Ht'. cbn in Ht'. congruence.
  - assert (listeners s = 1%nat /\ listeners (f s) = 0%nat) as [_ Hl0].
    { pose proof (Hl _ eq_refl) as H1. rewrite bool_decide_true in H1 by done. pose proof (co_listen _ _ Hc). lia. }
    unfold drain_transport. wstep. eapply wp_this; [apply Hm|]. apply wp_if; intros Ht.
    { wstep. eapply wp_leave; try done. intros. congruence. }
    unfold arm_grace. wstep. eapply wp_update_mid; [exact Hm|destruct Hm as (_ & Hc1 & _); core_tac|done|]. intros w2 Hm2.
    eapply drain_read_leave; [done|exact Hs|exact Hm2| |done|exact Hp|exact Hl0]. etrans; [exact Hg|]. by apply grows_same.
Qed.

Lemma drain_step e failed s w :
  base w -> heap w !! e = Some s -> (0 < op_drains s)%nat ->
  wp sess_dom (update e (set_op_drains pred);; on_drain_read e failed) (fun _ => stepped w) w.
Proof.
  intros Hb Hs Hd. pose proof (base_mid e s w Hb Hs) as Hm0. pose proof (b_sess _ Hb _ _ Hs) as Hok.
  pose proof (so_core _ _ Hok) as Hc. set (f := set_op_drains pred).
  assert (listeners (f s) = 0%nat) as Hl.
  { pose proof (co_listen _ _ Hc). unfold listeners, drain_closes, f in *. cbn in *. lia. }
  wstep. eapply wp_update_mid; [exact Hm0| |done|].
  { destruct Hc. split; try done. rewrite Hl. lia. }
  intros w1 Hm. assert (grows s (f s)) as Hg by (by apply grows_same).
  assert (progress (f s)) as Hp by exact (so_progress _ _ Hok). unfold on_drain_read. destruct failed.
  - wstep. eapply wp_this; [apply Hm|]. destruct (torn_down_ s) eqn:Ht; [|by eapply wp_teardown].
    unfold teardown. wstep. eapply wp_this; [apply Hm|]. cbn. rewrite Ht. wstep. eapply wp_leave; try done.
    intros Ht'. cbn in Ht'. congruence.
  - by eapply drain_read_leave.
Qed.

Lemma grace_step e s w :
  base w -> heap w !! e = Some s ->
  wp sess_dom (update e (set_grace_armed (fun _ => false));; on_grace e) (fun _ => stepped w) w.
Proof.
  intros Hb Hs. pose proof (base_mid e s w Hb Hs) as Hm0. pose proof (b_sess _ Hb _ _ Hs) as Hok.
  pose proof (so_core _ _ Hok) as Hc. pose proof (so_progress _ _ Hok) as Hp. pose proof (so_listen _ _ Hok) as Hl.
  wstep. eapply wp_update_mid; [exact Hm0|core_tac|done|]. intros w1 Hm. unfold on_grace. wstep.
  eapply wp_this; [apply Hm|]. apply wp_if; intros Ht.
  - wstep. eapply wp_leave; [done|exact Hs|exact Hm|by apply grows_same|done|exact Hp|exact Hl].
  - eapply wp_update_mid; [exact Hm|destruct Hm as (_ & Hc1 & _); core_tac|done|]. intros w2 Hm2.
    eapply wp_leave; [done|exact Hs|exact Hm2|by apply grows_same|done|exact Hp|exact Hl].
Qed.
End Steps.
