(* ===== verification/ServerLoop.v ===== *)
(** * The server invariant: the feed, shutdown and the acceptor *)

From Stdlib Require Import ZArith Ascii String List Lia.
From stdpp Require Import base tactics list option strings gmap sorting.
From S2P Require Import Prelude Types Protocol Engine EngineInv Outbox Utf8 Preflight Feed BenchRecorder TelemetryRing.
From S2P Require Import Telemetry Wp EngineOwners World Shutdown Session SessionInv SessionOps SessionWrite SessionRead.
From S2P Require Import ShutdownInv ServerInv ServerSteps Server.

Section Loop.
Context `{Env, ICodec}.
Implicit Types (w : World) (s : Session).

(** Fields no clause of [base] reads. *)
Lemma base_same w w' :
  heap w' = heap w -> engine_ w' = engine_ w -> sessions_ w' = sessions_ w -> next_epoch_ w' = next_epoch_ w ->
  peak_sessions_ w' = peak_sessions_ w -> finalized_ w' = finalized_ w -> (stopping_ w = true -> stopping_ w' = true) ->
  base w -> base w'.
Proof.
  intros E1 E2 E3 E4 E5 E6 E7 []. split; rewrite ?E1, ?E2, ?E3, ?E4, ?E5, ?E6; try done.
  intros Hf. destruct (b_final Hf). auto.
Qed.

Lemma kept_refl w : base w -> kept_rest w w.
Proof. by intros. Qed.

Lemma kept_quiet w w' : base w -> quiet w w' -> kept_rest w w'.
Proof. intros Hb Hq. split; [by eapply base_quiet|]. split; [apply Hq|]. apply all_grow_heap, Hq. Qed.

(** ** Publishing a book *)

Lemma route_one_kept r w : base w -> is_fill (r_msg r) = true -> wp sess_dom (route_one tt r) (fun _ => kept_rest w) w.
Proof.
  intros Hb Hf. unfold route_one. rewrite Hf. cbn [when]. eapply wp_seq; [by apply count_up_quiet|]. intros ? w1 Q1.
  pose proof (base_quiet _ _ Q1 Hb) as Hb1. do 2 wstep. unfold when. apply wp_if; [intros Hin%bool_decide_eq_true|intros _].
  - destruct (proj1 (b_map _ Hb1 _) Hin) as (s & Hs & _). eapply wp_mono.
    + eapply lift_op; [done|exact Hs|]. by apply deliver_report_spec; [apply base_mid|].
    + intros ? w2 K2. eapply kept_rest_trans; [|exact K2]. by apply kept_quiet.
  - wstep. by apply kept_quiet.
Qed.

Lemma base_engine w e :
  base w -> engine_inv e -> (forall x, owns e x -> owns (engine_ w) x) -> base (set_engine (fun _ => e) w).
Proof. intros [] He Ho. split; try done. intros x Hx. by apply b_owns, Ho. Qed.

Lemma publish_book_kept set w :
  base w ->
  wp sess_dom (publish_book set)
    (fun _ w' => base w' /\ all_grow w w' /\ rest w' = rest (set_next_md_seq (fun n => u64 (n + 1)) w)) w.
Proof.
  intros Hb. unfold publish_book. do 2 wstep. set (w1 := set_next_md_seq _ w).
  assert (base w1) as Hb1 by (by apply (base_same w)). do 2 wstep. wstep.
  apply wp_steady_ns. intros m0 w2 Q2 _ _. do 2 wstep. wstep. set (w3 := set_recorder _ w2).
  assert (quiet w1 w3) as Q3 by exact Q2. assert (base w3) as Hb3 by (by apply (base_quiet _ _ Q3)).
  unfold on_engine. apply wp_on_book; [apply Hb3|exact (base_dom _ Hb3)|]. intros routed e' He' Ho Hall.
  set (w4 := set_engine _ w3). assert (kept_rest w1 w4) as K4.
  { split; [apply base_engine; [done..|]; intros x; by apply Ho|]. split; [apply Q3|]. apply all_grow_heap, Q3. }
  clearbody w4. clear Q2 Q3 Hb3 He' Ho w3.
  eapply (wp_seq _ _ _ (fun _ => kept_rest w1)).
  { apply (wp_foldM _ _ (fun _ => kept_rest w1)); [exact K4|]. intros [] r w5 Hin K5.
    eapply wp_mono; [apply route_one_kept; [apply K5|by eapply (proj1 (Forall_forall _ _) Hall)]|].
    intros ? w6 K6. by eapply kept_rest_trans. }
  intros ? w5 K5. do 2 wstep. eapply wp_mono.
  - apply (over_sessions (fun _ e => deliver_tob e _) (sessions_ w5)); [apply K5|done|].
    intros e s w6 Hb6 Hs _. eapply lift_op; [done|exact Hs|]. by apply deliver_tob_spec, base_mid.
  - intros ? w6 K6. destruct (kept_rest_trans _ _ _ K5 K6) as (B6 & R6 & G6). split; [done|]. by split.
Qed.

(** ** Closing everybody *)

Lemma close_all_kept w : base w -> wp sess_dom close_all (fun _ => kept_rest w) w.
Proof.
  intros Hb. unfold close_all. do 2 wstep. apply (over_sessions (fun _ e => begin_close e going_away)); [done..|].
  intros e s w1 Hb1 Hs _. apply begin_close_kept with s; [unfold own_codes; set_solver|done..].
Qed.

(** The admission state is as it was, and no session was added. *)
Record door_same w w' : Prop := {
  ds_up : upgrades_ w' = upgrades_ w;
  ds_alive : upgrades_alive w' = upgrades_alive w;
  ds_shake : handshaking_ w' = handshaking_ w;
  ds_cfg : cfg_ w' = cfg_ w;
  ds_len : (length (sessions_ w') <= length (sessions_ w))%nat;
}.

Lemma rest_door w w' : rest w' = rest w -> door_same w w'.
Proof. unfold rest. intros [=]. split; try congruence. by replace (sessions_ w') with (sessions_ w). Qed.

(** What a stop leaves behind. *)
Definition halted w w' : Prop :=
  base w' /\ all_grow w w' /\ door_same w w' /\ stopping_ w' = true /\
  (sessions_ w' = [] -> finalized_ w' = true) /\ next_epoch_ w' = next_epoch_ w.

Lemma begin_stop_halted w :
  base w -> (stopping_ w = true -> sessions_ w = [] -> finalized_ w = true) ->
  wp sess_dom begin_stop (fun _ => halted w) w.
Proof.
  intros Hb Hfin. unfold begin_stop. do 2 wstep. destruct (stopping_ w) eqn:Hst.
  { wstep. split; [done|]. split; [done|]. split; [by apply rest_door|]. split; [done|]. split; [auto|done]. }
  unfold cancel. do 10 wstep. eapply (wp_seq _ _ _ (fun _ w' => base w' /\ heap w' = heap w /\ sessions_ w' = sessions_ w /\
    upgrades_ w' = upgrades_ w /\ upgrades_alive w' = upgrades_alive w /\ handshaking_ w' = handshaking_ w /\
    cfg_ w' = cfg_ w /\ stopping_ w' = true /\ next_epoch_ w' = next_epoch_ w /\ finalized_ w' = finalized_ w)).
  { unfold when. apply wp_if; intros _; wstep; (split; [by apply (base_same w)|]); done. }
  intros ? w1 (Hb1 & E1 & E2 & E3 & E4 & E5 & E6 & E7 & E8 & E9). unfold abort_pending_upgrades. do 6 wstep.
  set (w2 := set_closed_upgrades _ _). assert (base w2) as Hb2 by (by apply (base_same w1)).
  assert (finalized_ w = false) as Hf.
  { destruct (finalized_ w) eqn:Hf; [|done]. apply (b_final _ Hb) in Hf as [? _]. congruence. }
  apply wp_if; [intros Hnil%bool_decide_eq_true|intros Hne%bool_decide_eq_false].
  - eapply wp_mono; [apply finalize_spec; by apply base_dom|]. intros ? w3 (Qh & Qe & Qr).
    change (finalized_ w2) with (finalized_ w1) in *. rewrite E9, Hf in *.
    apply rest_facts in Qr as F. destruct F as (F1 & F2 & F3 & _ & F5 & F6 & F7). cbn in F1, F2, F3, F5, F6, F7, Qh, Qe.
    split; [|split; [apply all_grow_heap; congruence|split; [|split_and!; try congruence; by intros _]]].
    + destruct Hb2. cbn in *. split; rewrite ?Qh, ?Qe, ?F1, ?F5, ?F6; try done. intros _. split; congruence.
    + apply rest_door in Qr as []. cbn in *. split; congruence || (rewrite F1; cbn; rewrite E2; lia).
  - eapply wp_seq; [by apply close_all_kept|]. intros ? w3 (B3 & R3 & G3). unfold arm. wstep.
    apply rest_facts in R3 as F. destruct F as (F1 & F2 & F3 & _ & F5 & F6 & F7). cbn in F1, F2, F3, F5, F6, F7.
    split; [by apply (base_same w3)|]. split; [|split; [|split_and!]].
    + etrans; [|exact G3]. by apply all_grow_heap.
    + apply rest_door in R3 as []. cbn in *. split; cbn; congruence || (rewrite F1, E2; lia).
    + cbn. congruence.
    + cbn. intros Hnil. rewrite F1 in Hnil. done.
    + cbn. congruence.
Qed.
End Loop.
