(* ===== verification/ServerDoor.v ===== *)
(** * The server invariant: admission *)

From Stdlib Require Import ZArith Ascii String List Lia.
From stdpp Require Import base tactics list option strings gmap sorting.
From S2P Require Import Prelude Types Protocol Engine EngineInv Outbox Utf8 Preflight Feed BenchRecorder TelemetryRing.
From S2P Require Import Telemetry Wp EngineOwners World Shutdown Session SessionInv SessionOps SessionWrite SessionRead.
From S2P Require Import ShutdownInv ServerInv ServerSteps Server ServerLoop.

(** A duplicate-free list of keys is as long as the map it enumerates. *)
Lemma nodup_size {A} (l : list Z) (m : gmap Z A) :
  NoDup l -> (forall x, x ∈ l <-> is_Some (m !! x)) -> length l = size m.
Proof.
  intros Hn Hl. rewrite <- size_dom, <- (size_list_to_set (C := gset Z) l Hn). f_equal. apply set_eq. intros x.
  by rewrite elem_of_list_to_set, Hl, elem_of_dom.
Qed.

Lemma nodup_size_le {A} (l : list Z) (m : gmap Z A) :
  NoDup l -> (forall x, x ∈ l -> is_Some (m !! x)) -> (length l <= size m)%nat.
Proof.
  intros Hn Hl. rewrite <- size_dom, <- (size_list_to_set (C := gset Z) l Hn). apply subseteq_size. intros x.
  rewrite elem_of_list_to_set, elem_of_dom. apply Hl.
Qed.

Lemma nodup_filter (p : Z -> bool) (l : list Z) : NoDup l -> NoDup (List.filter p l).
Proof. rewrite !NoDup_ListNoDup. apply List.NoDup_filter. Qed.

Lemma elem_filter (p : Z -> bool) (l : list Z) x : x ∈ List.filter p l <-> x ∈ l /\ p x = true.
Proof. by rewrite !list_elem_of_In, filter_In. Qed.

Section Door.
Context `{Env, ICodec}.
Implicit Types (w : World) (s : Session).

(** The weak lists name what is alive, and what was admitted fits. *)
Record door w : Prop := {
  d_alive : forall id, is_Some (upgrades_alive w !! id) -> id ∈ upgrades_ w;
  d_nodup : NoDup (upgrades_ w);
  d_shake_nodup : NoDup (handshaking_ w);
  d_shake : forall id, id ∈ handshaking_ w <-> upgrades_alive w !! id = Some UpHandshaking;
  d_max : Z.of_nat (size (upgrades_alive w)) <= cfg_max_sessions (cfg_ w);
  d_load : Z.of_nat (length (sessions_ w)) + Z.of_nat (length (handshaking_ w)) <= cfg_max_sessions (cfg_ w);
}.

Lemma door_same_door w w' : door_same w w' -> door w -> door w'.
Proof. intros [E1 E2 E3 E4 El] []. split; rewrite ?E1, ?E2, ?E3, ?E4; try done. lia. Qed.

(** Until it is told to stop the server keeps listening, feeding and narrating. *)
Definition ticking w : Prop :=
  stopping_ w = false ->
  acceptor_open w = true /\ TSnapshot ∈ timers w /\ TFeed ∈ timers w /\ (accept_armed w = true \/ TBackoff ∈ timers w).
Definition finals w : Prop := stopping_ w = true -> sessions_ w = [] -> finalized_ w = true.

Record inv w : Prop := {
  in_base : base w;
  in_door : door w;
  in_ticking : ticking w;
  in_finals : finals w;
}.

(** What one event may do to the server as a whole. *)
Record advance w w' : Prop := {
  ad_inv : inv w';
  ad_grow : all_grow w w';
  ad_stop : stopping_ w = true -> stopping_ w' = true;
  ad_epoch : next_epoch_ w <= next_epoch_ w' <= next_epoch_ w + 1;
  ad_cfg : cfg_ w' = cfg_ w;
}.

Lemma ticking_rest w w' : rest w' = rest w -> ticking w -> ticking w'.
Proof. unfold rest, ticking. intros [=]. by repeat match goal with E : _ w' = _ w |- _ => rewrite E; clear E end. Qed.
Lemma finals_rest w w' : rest w' = rest w -> finals w -> finals w'.
Proof. unfold rest, finals. intros [=]. by repeat match goal with E : _ w' = _ w |- _ => rewrite E; clear E end. Qed.

Lemma inv_quiet w w' : quiet w w' -> inv w -> inv w'.
Proof.
  intros Hq []. pose proof Hq as (_ & _ & Hr). split.
  - by eapply base_quiet.
  - eapply door_same_door; [by apply rest_door|done].
  - by eapply ticking_rest.
  - by eapply finals_rest.
Qed.

Lemma advance_same w w' :
  inv w' -> heap w' = heap w -> stopping_ w' = stopping_ w -> next_epoch_ w' = next_epoch_ w -> cfg_ w' = cfg_ w -> advance w w'.
Proof. intros Hi E1 E2 E3 E4. split; [done|by apply all_grow_heap|by rewrite E2|lia|done]. Qed.

(** A handler of one session. *)
Lemma stepped_advance w w' : inv w -> stepped w w' -> advance w w'.
Proof.
  intros [Hb Hd Ht Hf] (Hb' & Hg & [Hr|[e Hr]]).
  - apply rest_facts in Hr as F. destruct F as (F1 & F2 & F3 & _ & F5 & _ & F7). split; [|done|by rewrite F2|lia|done]. split.
    + done.
    + eapply door_same_door; [by apply rest_door|done].
    + by eapply ticking_rest.
    + by eapply finals_rest.
  - destruct (closed_facts _ _ _ Hr) as (F1 & F2 & F3 & F4 & _).
    assert (cfg_ w' = cfg_ w /\ upgrades_ w' = upgrades_ w /\ upgrades_alive w' = upgrades_alive w /\
      handshaking_ w' = handshaking_ w /\ (stopping_ w = false -> timers w' = timers w) /\ acceptor_open w' = acceptor_open w /\
      accept_armed w' = accept_armed w) as (G1 & G2 & G3 & G4 & G5 & G6 & G7).
    { unfold closed in Hr. destruct (stopping_ w); cbn [andb] in Hr; [|by injection Hr; auto 10].
      destruct (_ && _); by injection Hr; auto 10. }
    split; [|done|by rewrite F2|lia|done]. split; [done| | |].
    + eapply door_same_door; [split; try done|done]. rewrite F1. apply filter_length_le'.
    + intros Hs. rewrite F2 in Hs. rewrite G5, G6, G7 by done. by apply Ht.
    + intros Hs Hnil. rewrite F3, Hnil. rewrite F2 in Hs. by rewrite Hs.
Qed.

(** ** Upgrades *)

Definition compacted w : World :=
  set_upgrades (List.filter (fun id => bool_decide (is_Some (upgrades_alive w !! id)))) w.

Lemma elem_compacted w id : door w -> id ∈ upgrades_ (compacted w) <-> is_Some (upgrades_alive w !! id).
Proof.
  intros Hd. cbn. rewrite elem_filter, bool_decide_eq_true. split; [by intros []|]. intros Hx. split; [by apply (d_alive _ Hd)|done].
Qed.

Lemma live_upgrades_spec w (Q : Z -> World -> Prop) :
  door w -> Q (Z.of_nat (size (upgrades_alive w))) (compacted w) -> wp sess_dom live_upgrades Q w.
Proof.
  intros Hd HQ. unfold live_upgrades. do 5 wstep. change (set_upgrades _ w) with (compacted w).
  rewrite (nodup_size (upgrades_ (compacted w)) (upgrades_alive w)); [done|by apply nodup_filter, Hd|].
  intros x. by apply elem_compacted.
Qed.

Lemma compacted_inv w : inv w -> inv (compacted w).
Proof.
  intros [Hb Hd Ht Hf]. split; [by apply (base_same w)| |exact Ht|exact Hf]. split; try apply Hd.
  - intros id Hid. by apply elem_compacted.
  - by apply nodup_filter, Hd.
Qed.

Lemma door_set_phase id ph w :
  inv w -> is_Some (upgrades_alive w !! id) -> upgrades_alive w !! id <> Some UpHandshaking -> ph <> UpHandshaking ->
  inv (set_upgrades_alive (<[id := ph]>) w).
Proof.
  intros [Hb Hd Ht Hf] Hs Hn Hp. split; [by apply (base_same w)| |exact Ht|exact Hf]. destruct Hd. split; cbn; try done.
  - intros x. destruct (decide (x = id)) as [->|Hne]; [by auto|]. rewrite lookup_insert_ne by done. auto.
  - intros x. rewrite d_shake0. destruct (decide (x = id)) as [->|Hne]; [|by rewrite lookup_insert_ne].
    rewrite lookup_insert_eq. split; [done|congruence].
  - by rewrite map_size_insert_Some.
Qed.

Lemma drop_inv id w :
  inv w -> upgrades_alive w !! id <> Some UpHandshaking -> inv (set_upgrades_alive (delete id) w).
Proof.
  intros [Hb Hd Ht Hf] Hn. split; [by apply (base_same w)| |exact Ht|exact Hf]. destruct Hd. split; cbn; try done.
  - intros x [ph Hx]. apply lookup_delete_Some in Hx as [_ Hx]. by apply d_alive0.
  - intros x. rewrite d_shake0. split; [|intros Hx; by apply lookup_delete_Some in Hx as [_ Hx]].
    intros Hx. apply lookup_delete_Some. split; [|done]. intros ->. done.
  - assert (size (delete id (upgrades_alive w)) <= size (upgrades_alive w))%nat as Hle; [|lia].
    rewrite map_size_delete. by destruct (upgrades_alive w !! id); cbn; lia.
Qed.

Lemma on_accept_advance id failed w :
  inv w -> upgrades_alive w !! id = None -> id ∉ upgrades_ w ->
  wp sess_dom (dispatch (EvAccept id failed)) (fun _ => advance w) w.
Proof.
  intros Hinv Hid Hup. pose proof Hinv as [Hb Hd Ht Hf]. cbn [dispatch]. do 2 wstep. set (w1 := set_accept_armed _ w).
  assert (base w1) as Hb1 by (by apply (base_same w)). assert (door w1) as Hd1 by (destruct Hd; by split).
  unfold on_accept. do 2 wstep. destruct failed.
  { cbn [w1 set_accept_armed stopping_ acceptor_open]. apply wp_if; [intros Hor|intros Hor].
    - wstep. apply advance_same; try done. split; [done|done| |exact Hf]. intros Hs. cbn in Hs. destruct (Ht Hs) as (Ho & _).
      by rewrite Hs, Ho in Hor.
    - unfold arm. wstep. apply advance_same; try done. split; [by apply (base_same w1)|destruct Hd; by split| |exact Hf].
      intros Hs. cbn in Hs. destruct (Ht Hs) as (Ho & T1 & T2 & _). cbn.
      split_and!; [done| | |right; set_solver]; apply elem_of_app; left; rewrite list_elem_of_In, filter_In, <- list_elem_of_In; done. }
  wstep. apply live_upgrades_spec; [done|]. do 2 wstep. set (w2 := compacted w1).
  assert (inv (set_accept_armed (fun _ => true) w2)) as Hinv2.
  { assert (inv (compacted w)) as [B2 D2 T2 F2] by (by apply compacted_inv). split; [by apply (base_same (compacted w))|destruct D2; by split| |exact F2].
    intros Hs. cbn in Hs. destruct (Ht Hs) as (Ho & ? & ? & _). cbn. auto. }
  wstep. assert (forall w3, quiet w2 w3 -> wp sess_dom accept_next (fun _ => advance w) w3) as Hfin.
  { intros w3 Q3. unfold accept_next. wstep.
    assert (quiet (set_accept_armed (fun _ => true) w2) (set_accept_armed (fun _ => true) w3)) as Q4.
    { destruct Q3 as (Qh & Qe & Qr). split; [done|]. split; [done|]. unfold rest in *. cbn in *. congruence. }
    pose proof (inv_quiet _ _ Q4 Hinv2) as Hinv4. destruct Q4 as (Qh & _ & Qr).
    apply rest_facts in Qr as (F1 & F2 & F3 & _ & F5 & _ & F7). apply advance_same; try done. }
  apply wp_if; [intros _|intros Hfull]; [eapply wp_mono; [apply emit_event_quiet|intros ? w3 Q3; by apply Hfin]|].
  apply wp_if; [intros Hs%negb_true_iff|intros _; wstep; by apply Hfin].
  change (stopping_ w2) with (stopping_ w) in Hs, Hfull. change (cfg_ w2) with (cfg_ w) in Hfull.
  change (upgrades_alive w1) with (upgrades_alive w) in Hfull. rewrite Hs in Hfull. cbn [negb andb] in Hfull. apply Z.leb_gt in Hfull.
  unfold on_upgrade_request, live_upgrades, accept_next. do 10 wstep.
  apply advance_same; try done. split; [by apply (base_same w)| | |exact Hf]; [split; cbn|].
  - intros x Hx. apply elem_of_app. destruct (decide (x = id)) as [->|Hne]; [right; set_solver|left].
    rewrite elem_filter, bool_decide_eq_true. split; [|done]. rewrite lookup_insert_ne in Hx by done.
    rewrite elem_filter, bool_decide_eq_true. split; [by apply (d_alive _ Hd)|done].
  - apply NoDup_app. split; [by do 2 apply nodup_filter; apply Hd|]. split; [|apply NoDup_singleton].
    intros x Hx ->%list_elem_of_singleton. apply elem_filter in Hx as [[Hx _]%elem_filter _]. done.
  - apply Hd.
  - intros x. rewrite (d_shake _ Hd). destruct (decide (x = id)) as [->|Hne]; [|by rewrite lookup_insert_ne].
    rewrite lookup_insert_eq, Hid. done.
  - rewrite map_size_insert_None by done. lia.
  - apply Hd.
  - intros Hs'. destruct (Ht Hs) as (Ho & T1 & T2 & _). cbn. auto.
Qed.
End Door.
