(* ===== verification/ServerRun.v ===== *)
(** * The server invariant: requests, handshakes, dispatch and whole runs *)

From Stdlib Require Import ZArith Ascii String List Lia.
From stdpp Require Import base tactics list option strings gmap sorting.
From S2P Require Import Prelude Types Protocol Engine EngineInv Outbox Utf8 Preflight Feed BenchRecorder TelemetryRing.
From S2P Require Import Telemetry Wp EngineOwners World Shutdown Session SessionInv SessionOps SessionWrite SessionRead.
From S2P Require Import ShutdownInv ServerInv ServerSteps Server ServerLoop ServerDoor.

Section Run.
Context `{Env, ICodec}.
Implicit Types (w : World) (s : Session).

(** ** Requests *)

Lemma refuse_advance id status reason w w0 :
  inv w -> heap w = heap w0 -> stopping_ w = stopping_ w0 -> next_epoch_ w = next_epoch_ w0 -> cfg_ w = cfg_ w0 ->
  upgrades_alive w !! id = Some UpReading ->
  wp sess_dom (refuse_upgrade id status reason) (fun _ => advance w0) w.
Proof.
  intros Hinv E1 E2 E3 E4 Hid. unfold refuse_upgrade. eapply wp_seq; [apply emit_event_quiet|]. intros ? w1 Q1.
  pose proof (inv_quiet _ _ Q1 Hinv) as Hinv1. destruct Q1 as (Qh & _ & Qr).
  assert (upgrades_alive w1 = upgrades_alive w) as Ea by (unfold rest in Qr; congruence).
  apply rest_facts in Qr as (F1 & F2 & F3 & _ & F5 & _ & F7). wstep.
  apply advance_same; cbn; try congruence. apply door_set_phase; rewrite ?Ea, ?Hid; try done.
Qed.

Lemma on_request_advance id failed req w :
  inv w -> upgrades_alive w !! id = Some UpReading ->
  wp sess_dom (dispatch (EvRequest id failed req)) (fun _ => advance w) w.
Proof.
  intros Hinv Hid. pose proof Hinv as [Hb Hd Ht Hf]. cbn [dispatch]. unfold on_request. do 2 wstep.
  apply wp_if; intros _.
  { unfold drop_upgrade. wstep. apply advance_same; try done. apply drop_inv; [done|by rewrite Hid]. }
  apply wp_if; intros _; [by apply refuse_advance|]. apply wp_if; intros _; [by apply refuse_advance|].
  wstep. apply live_upgrades_spec; [done|]. do 2 wstep. pose proof (compacted_inv _ Hinv) as Hinv2. set (w2 := compacted w) in *.
  apply wp_if; intros Hload.
  { eapply wp_seq; [apply emit_event_quiet|]. intros ? w3 Q3. pose proof (inv_quiet _ _ Q3 Hinv2) as Hinv3.
    destruct Q3 as (Qh & _ & Qr).
    assert (upgrades_alive w3 = upgrades_alive w) as Ea by (unfold rest in Qr; injection Qr; congruence).
    apply rest_facts in Qr as (F1 & F2 & F3 & _ & F5 & _ & F7). apply refuse_advance; try done. by rewrite Ea. }
  apply Z.ltb_ge in Hload. do 3 wstep. apply advance_same; try done.
  assert (id ∉ handshaking_ w) as Hns by (rewrite (d_shake _ Hd), Hid; done).
  assert (NoDup (handshaking_ w ++ [id])) as Hnd.
  { apply NoDup_app. split; [apply Hd|]. split; [|apply NoDup_singleton]. by intros x Hx ->%list_elem_of_singleton. }
  assert (S (length (handshaking_ w)) <= size (upgrades_alive w))%nat as Hsz.
  { pose proof (nodup_size_le (handshaking_ w ++ [id]) (upgrades_alive w) Hnd) as Hle. rewrite length_app in Hle. cbn in Hle.
    rewrite <- Nat.add_1_r. apply Hle. intros x [Hx|Hx]%elem_of_app; [|apply list_elem_of_singleton in Hx as ->; by exists UpReading].
    apply (d_shake _ Hd) in Hx. by exists UpHandshaking. }
  split; [by apply (base_same w)| |exact Ht|exact Hf]. destruct (in_door _ Hinv2). split; cbn.
  - intros x [ph Hx]. destruct (decide (x = id)) as [->|Hne]; [apply d_alive; by exists UpReading|].
    rewrite lookup_insert_ne in Hx by done. apply d_alive. by exists ph.
  - done.
  - done.
  - intros x. rewrite elem_of_app, list_elem_of_singleton. destruct (decide (x = id)) as [->|Hne].
    + rewrite lookup_insert_eq. naive_solver.
    + rewrite lookup_insert_ne by done. pose proof (d_shake x : x ∈ handshaking_ w <-> upgrades_alive w !! x = Some UpHandshaking) as Hx. rewrite <- Hx. naive_solver.
  - rewrite map_size_insert_Some by (by exists UpReading). done.
  - rewrite length_app. cbn in *. lia.
Qed.

(** ** Handshakes *)

Lemma emplace_last k (l : list Z) : Forall (fun x => x < k) l -> emplace_key k l = l ++ [k].
Proof.
  induction 1 as [|x l Hx _ IH]; [done|]. cbn. rewrite (proj2 (Z.ltb_ge k x)) by lia. rewrite (proj2 (Z.eqb_neq k x)) by lia. by rewrite IH.
Qed.

Definition fresh (hwm epoch : Z) : Session :=
  mkSession epoch (mkOutbox hwm false 0 [] None) 1 1 [] 0 0 0 false 0 false false false false false close_none 1 0 [] 0 false true [] [].

Lemma fresh_ok hwm epoch : sess_ok epoch (fresh hwm epoch).
Proof. split; [split; try done; cbn; try lia|by right; right; right|done]. Qed.

(** The world with a new session in it. *)
Definition joined (e hwm : Z) w : World :=
  set_peak_sessions (Z.max (Z.of_nat (S (length (sessions_ w))))) (set_sessions (fun l => l ++ [e])
    (set_heap (<[e := fresh hwm e]>) (set_next_epoch (fun _ => e) w))).

Lemma sorted_snoc (l : list Z) e : StronglySorted Z.lt l -> Forall (fun x => x < e) l -> StronglySorted Z.lt (l ++ [e]).
Proof.
  induction 1 as [|x l Hs IH Hx]; intros Hall; cbn; [repeat constructor|]. inversion_clear Hall as [|? ? Hxe Hl].
  constructor; [by apply IH|]. apply Forall_app. split; [done|]. by constructor.
Qed.

Lemma joined_base e hwm w :
  base w -> stopping_ w = false -> e = next_epoch_ w + 1 -> base (joined e hwm w).
Proof.
  intros Hb Hst ->. set (e := next_epoch_ w + 1). pose proof (b_next _ Hb).
  assert (heap w !! e = None) as Hn.
  { destruct (heap w !! e) as [s|] eqn:E; [|done]. apply (b_keys _ Hb) in E. unfold e in E. lia. }
  assert (forall x sx, <[e := fresh hwm e]> (heap w) !! x = Some sx -> (x = e /\ sx = fresh hwm e) \/ (x <> e /\ heap w !! x = Some sx)) as Hcase.
  { intros x sx Hx. destruct (decide (x = e)) as [->|Hne]; [rewrite lookup_insert_eq in Hx; left; split; congruence|right].
    by rewrite lookup_insert_ne in Hx. }
  assert (Forall (fun x => x < e) (sessions_ w)) as Hlt.
  { apply Forall_forall. intros x Hx. apply (b_map _ Hb) in Hx as (s & Hs & _). apply (b_keys _ Hb) in Hs. unfold e. lia. }
  split; cbn [joined set_peak_sessions set_sessions set_heap set_next_epoch engine_ heap sessions_ next_epoch_ peak_sessions_ finalized_ stopping_].
  - apply Hb.
  - unfold e. lia.
  - intros x sx [[-> ->]|[_ Hx]]%Hcase; [unfold e; lia|]. apply (b_keys _ Hb) in Hx. unfold e. lia.
  - intros x. rewrite elem_of_app, list_elem_of_singleton, (b_map _ Hb). split.
    + intros [(s & Hs & Ht)| ->]; [|eexists; by rewrite lookup_insert_eq]. exists s. split; [|done].
      rewrite lookup_insert_ne; [done|congruence].
    + intros (s & Hs & Ht). apply Hcase in Hs as [[-> ->]|[Hne Hs]]; [by right|left; by exists s].
  - apply sorted_snoc; [apply Hb|done].
  - intros x sx [[-> ->]|[_ Hx]]%Hcase; [apply fresh_ok|by eapply b_sess].
  - intros x Hx. destruct (b_owns _ Hb x Hx) as (s & Hs & Hr). exists s. split; [|done]. rewrite lookup_insert_ne; [done|congruence].
  - rewrite length_app. cbn. lia.
  - intros Hf. destruct (b_final _ Hb Hf). congruence.
Qed.

Lemma shaken_door id w :
  door w -> upgrades_alive w !! id = Some UpHandshaking ->
  forall w', cfg_ w' = cfg_ w -> upgrades_ w' = upgrades_ w -> upgrades_alive w' = delete id (upgrades_alive w) ->
    handshaking_ w' = List.filter (fun i => negb (i =? id)) (handshaking_ w) ->
    (length (sessions_ w') <= S (length (sessions_ w)))%nat -> door w'.
Proof.
  intros Hd Hid w' E1 E2 E3 E4 Hl.
  assert (id ∈ handshaking_ w) as Hin by (by apply (d_shake _ Hd)).
  assert (S (length (handshaking_ w')) <= length (handshaking_ w))%nat as Hlen.
  { rewrite E4. clear -Hin. induction (handshaking_ w) as [|x l IH]; [by apply not_elem_of_nil in Hin|]. cbn.
    apply elem_of_cons in Hin as [->|Hin]; [rewrite Z.eqb_refl; cbn; pose proof (filter_length_le' (fun i => negb (i =? x)) l); lia|].
    specialize (IH Hin). destruct (negb (x =? id)); cbn; lia. }
  destruct Hd. split; rewrite ?E1, ?E2, ?E3.
  - intros x [ph Hx]. apply lookup_delete_Some in Hx as [_ Hx]. by apply d_alive.
  - done.
  - rewrite E4. by apply nodup_filter.
  - intros x. rewrite E4, elem_filter, d_shake, negb_true_iff, Z.eqb_neq. rewrite lookup_delete_Some. naive_solver.
  - assert (size (delete id (upgrades_alive w)) <= size (upgrades_alive w))%nat as Hle; [|lia].
    rewrite map_size_delete. by destruct (upgrades_alive w !! id); cbn; lia.
  - lia.
Qed.

Lemma on_handshake_advance id failed w :
  inv w -> upgrades_alive w !! id = Some UpHandshaking -> next_epoch_ w + 1 < two64 ->
  wp sess_dom (dispatch (EvHandshake id failed)) (fun _ => advance w) w.
Proof.
  intros [Hb Hd Ht Hf] Hid Hlim. cbn [dispatch]. unfold on_handshake. do 4 wstep. set (w1 := set_handshaking _ w).
  assert (base w1) as Hb1 by (by apply (base_same w)). wstep. change (stopping_ w1) with (stopping_ w).
  apply wp_if; [intros _|intros [_ Hst]%orb_false_iff].
  { wstep. unfold drop_upgrade. wstep. apply advance_same; try done. split; [by apply (base_same w)| |exact Ht|exact Hf].
    eapply shaken_door; try done. cbn. lia. }
  do 4 wstep. set (w2 := set_next_epoch _ w1). pose proof (b_next _ Hb).
  assert (next_epoch_ w2 = next_epoch_ w + 1) as Ee by (cbn; apply u64_small; unfold is_u64; lia).
  set (e := next_epoch_ w2) in *. unfold new_session, new_outbox.
  destruct (cfg_report_hwm (cfg_ w2) =? 0); cbn [mbind]; [apply wp_throw; exact (base_dom _ Hb)|].
  unfold note_session_added, start, read_next. do 6 wstep. wstep.
  set (s0 := mkSession _ _ _ _ _ _ _ _ _ _ _ _ _ _ _ _ _ _ _ _ _ _ _ _).
  set (w3 := set_peak_sessions _ _). eapply wp_mono; [apply emit_event_quiet|]. intros ? w4 (Qh & Qe & Qr).
  unfold update. wstep. unfold drop_upgrade. wstep.
  assert (emplace_key e (sessions_ w) = sessions_ w ++ [e]) as Es.
  { apply emplace_last, Forall_forall. intros x Hx. apply (b_map _ Hb) in Hx as (s & Hs & _). apply (b_keys _ Hb) in Hs. lia. }
  set (w5 := set_upgrades_alive _ _). unfold rest in Qr. injection Qr as F0 F1 F2 F3 F4 F5 F6 F7 F8 F9 F10 F11 F12 F13 F14 F15 F16.
  assert (heap w5 = heap (joined e (cfg_report_hwm (cfg_ w2)) w)) as Eh.
  { cbn. rewrite Qh. cbn. by rewrite alter_insert_eq. }
  assert (base w5) as Hb5.
  { apply (base_same (joined e (cfg_report_hwm (cfg_ w2)) w)); try done; cbn; try congruence.
    - rewrite F4. exact Es.
    - rewrite F10, Es, length_app. cbn. f_equal. lia.
    - by apply joined_base. }
  split; [split; [done| | |]| | | |]; cbn.
  - eapply shaken_door; try done; cbn; try congruence. rewrite F4, Es, length_app. cbn. lia.
  - intros Hs'. cbn in *. rewrite F13, F14, F15. by apply Ht.
  - intros Hs'. cbn in Hs'. congruence.
  - intros x sx Hx. change (heap _) with (heap w5). rewrite Eh. exists sx. split; [|done]. cbn. rewrite lookup_insert_ne; [done|].
    change (e <> x). apply (b_keys _ Hb) in Hx. lia.
  - congruence.
  - rewrite F9. change (next_epoch_ w <= e <= next_epoch_ w + 1). lia.
  - congruence.
Qed.
End Run.
