(* ===== verification/ServerDispatch.v ===== *)
(** * Every event preserves the server invariant *)

From Stdlib Require Import ZArith Ascii String List Lia.
From stdpp Require Import base tactics list option strings gmap sorting.
From S2P Require Import Prelude Types Protocol Engine EngineInv Outbox Utf8 Preflight Feed BenchRecorder TelemetryRing.
From S2P Require Import Telemetry Wp EngineOwners World Shutdown Session SessionInv SessionOps SessionWrite SessionRead.
From S2P Require Import ShutdownInv ServerInv ServerSteps Server ServerLoop ServerDoor ServerRun.

Section Dispatch.
Context `{Env, ICodec}.
Implicit Types (w : World) (s : Session).

(** ** Timers *)

Definition without (t : Timer) w : World :=
  set_timers (List.filter (fun t' => negb (bool_decide (t' = t)))) w.

Lemma elem_without t t' w : t' ∈ timers (without t w) <-> t' ∈ timers w /\ t' <> t.
Proof. cbn. by rewrite list_elem_of_In, filter_In, <- list_elem_of_In, negb_true_iff, bool_decide_eq_false. Qed.

Lemma without_base t w : base w -> base (without t w).
Proof. intros Hb. by apply (base_same w). Qed.

Lemma without_door t w : door_same w (without t w).
Proof. by split. Qed.

(** The rest of the server while the feed's handler runs. *)
Record feeding w w' : Prop := {
  fe_base : base w';
  fe_grow : all_grow w w';
  fe_door : door_same w w';
  fe_stop : stopping_ w' = stopping_ w;
  fe_sessions : sessions_ w' = sessions_ w;
  fe_final : finalized_ w' = finalized_ w;
  fe_open : acceptor_open w' = acceptor_open w /\ accept_armed w' = accept_armed w /\ timers w' = timers w;
  fe_epoch : next_epoch_ w' = next_epoch_ w;
}.

Lemma feeding_rest w w1 w' :
  base w' -> all_grow w w' -> rest w' = rest w1 -> feeding w w1 -> feeding w w'.
Proof.
  intros Hb Hg Hr [_ _ [D1 D2 D3 D4 D5] F2 F3 F4 (F5 & F6 & F7) F8]. unfold rest in Hr. injection Hr.
  intros. split; [done|done|split| | | |split_and!|]; try congruence.
Qed.

Lemma feeding_kept w w1 w' : feeding w w1 -> kept_rest w1 w' -> feeding w w'.
Proof. intros Hf (Hb & Hr & Hg). eapply feeding_rest; [done| |exact Hr|done]. etrans; [apply Hf|done]. Qed.

Lemma feeding_refl w : base w -> feeding w w.
Proof. intros Hb. by split. Qed.

Lemma schedule_feed_advance delay w w1 :
  inv w -> feeding (without TFeed w) w1 -> wp sess_dom (schedule_feed delay) (fun _ => advance w) w1.
Proof.
  intros [Hb Hd Ht Hf] [Fb Fg Fd F2 F3 F4 (F5 & F6 & F7) F8]. unfold schedule_feed, arm. do 3 wstep.
  split; [split| | | |]; cbn.
  - by apply (base_same w1).
  - assert (door w1) as [] by (eapply door_same_door; [exact Fd|by eapply door_same_door; [apply without_door|]]). by split.
  - intros Hs. cbn in Hs. rewrite F2 in Hs. destruct (Ht Hs) as (Ho & T1 & T2 & T3). cbn. rewrite F5, F6, F7.
    split; [done|]. split_and!.
    + apply elem_of_app. left. change (TSnapshot ∈ timers (without TFeed (without TFeed w))). rewrite !elem_without. done.
    + apply elem_of_app. right. by apply list_elem_of_singleton.
    + destruct T3 as [T3|T3]; [by left|right]. apply elem_of_app. left.
      change (TBackoff ∈ timers (without TFeed (without TFeed w))). rewrite !elem_without. done.
  - intros Hs Hn. cbn in *. rewrite F4. apply Hf; congruence.
  - exact Fg.
  - intros Hs. rewrite F2. exact Hs.
  - rewrite F8. cbn. lia.
  - apply Fd.
Qed.

Lemma halted_advance w w1 w' : inv w -> all_grow w w1 -> door_same w w1 -> next_epoch_ w1 = next_epoch_ w -> halted w1 w' -> advance w w'.
Proof.
  intros [Hb Hd Ht Hf] Hg1 Hd1 He1 (Hb' & Hg & Hd' & Hs & Hfin & He). split; [split| | | |].
  - done.
  - eapply door_same_door; [exact Hd'|]. by eapply door_same_door.
  - intros Hx. congruence.
  - by intros _.
  - by etrans.
  - done.
  - lia.
  - destruct Hd1, Hd'. congruence.
Qed.

Lemma begin_stop_advance w w1 :
  inv w -> base w1 -> all_grow w w1 -> door_same w w1 -> next_epoch_ w1 = next_epoch_ w -> finals w1 ->
  wp sess_dom begin_stop (fun _ => advance w) w1.
Proof.
  intros Hi Hb Hg Hd He Hf. eapply wp_mono; [by apply begin_stop_halted|]. intros ? w' Hh. by eapply halted_advance.
Qed.

(** ** The feed *)

Lemma next_event_spec w (Q : option FeedEvent -> World -> Prop) :
  Q None w -> (forall ev i, Q (Some ev) (set_feed_index (fun _ => i) w)) -> wp sess_dom next_event Q w.
Proof.
  intros HN HS. unfold next_event. do 2 wstep. apply wp_if; [intros _; by wstep|intros Hg].
  destruct (length (feed_ w) <=? feed_index_ w)%nat eqn:Hle; cbn [andb when] in *.
  - apply negb_false_iff, andb_true_iff in Hg as [_ Hne%negb_true_iff%bool_decide_eq_false]. do 4 wstep. do 2 wstep.
    destruct (feed_ w) as [|ev l] eqn:Ef; [done|]. cbn [set_feed_index feed_ feed_index_]. rewrite Ef.
    eapply wp_deref; [done|]. apply (HS ev 1%nat).
  - apply Nat.leb_gt in Hle. destruct (lookup_lt_is_Some_2 _ _ Hle) as [ev Hev]. do 4 wstep. do 2 wstep.
    rewrite Hev. eapply wp_deref; [done|]. apply (HS ev (S (feed_index_ w))).
Qed.

Lemma on_feed_advance w : inv w -> wp sess_dom (dispatch EvFeed) (fun _ => advance w) w.
Proof.
  intros Hi. pose proof Hi as [Hb Hd Ht Hf]. cbn [dispatch]. unfold cancel. do 2 wstep. change (set_timers _ w) with (without TFeed w).
  pose proof (without_base TFeed w Hb) as Hb1. unfold on_feed_event. do 2 wstep. apply wp_if; intros Hs.
  { wstep. apply advance_same; try done. split; [done|by eapply door_same_door; [apply without_door|]| |exact Hf].
    intros Hx. change (stopping_ w = false) in Hx. change (stopping_ w = true) in Hs. congruence. }
  wstep. apply next_event_spec; [by apply begin_stop_advance; try done; by apply all_grow_heap|]. intros ev i.
  set (w1 := set_feed_index (fun _ => i) (without TFeed w)). assert (base w1) as Hb2 by (by apply (base_same w)).
  assert (feeding (without TFeed w) w1) as Hf1 by (split; try done; by apply all_grow_heap).
  destruct ev as [fs|ms| |].
  - eapply wp_seq; [by apply publish_book_kept|]. intros ? w2 (B2 & G2 & R2). apply schedule_feed_advance; [done|].
    eapply feeding_rest; [done|exact G2|exact R2|]. split; try done; [by apply (base_same w)|by apply all_grow_heap].
  - by apply schedule_feed_advance.
  - eapply wp_seq; [by apply close_all_kept|]. intros ? w2 K2. apply schedule_feed_advance; [done|]. by eapply feeding_kept.
  - by apply begin_stop_advance; try done; by apply all_grow_heap.
Qed.

(** ** The other timers *)

Lemma on_snapshot_advance w : inv w -> wp sess_dom (dispatch EvSnapshot) (fun _ => advance w) w.
Proof.
  intros [Hb Hd Ht Hf]. cbn [dispatch]. unfold cancel. do 2 wstep. change (set_timers _ w) with (without TSnapshot w).
  pose proof (without_base TSnapshot w Hb) as Hb1. unfold on_snapshot_timer. do 2 wstep.
  pose proof (door_same_door _ _ (without_door TSnapshot w) Hd) as Hd1. apply wp_if; intros Hs; change (stopping_ (without _ w)) with (stopping_ w) in Hs.
  { wstep. apply advance_same; try done. split; [done|done| |exact Hf]. intros Hx. change (stopping_ w = false) in Hx. congruence. }
  eapply wp_seq; [by apply push_snapshot_spec, base_dom|]. intros ? w2 Q2. unfold arm. wstep.
  assert (feeding (without TSnapshot w) w2) as [Fb Fg Fd F2 F3 F4 (F5 & F6 & F7) F8].
  { eapply feeding_rest; [exact (base_quiet _ _ Q2 Hb1)|apply all_grow_heap, Q2|apply Q2|by apply feeding_refl]. }
  destruct (Ht Hs) as (Ho & T1 & T2 & T3).
  split; [split| | | |]; cbn.
  - by apply (base_same w2).
  - assert (door w2) as [] by (by eapply door_same_door). by split.
  - intros _. cbn. rewrite F5, F6, F7. split; [done|]. split_and!.
    + apply elem_of_app. right. by apply list_elem_of_singleton.
    + apply elem_of_app. left. change (TFeed ∈ timers (without TSnapshot (without TSnapshot w))). rewrite !elem_without. done.
    + destruct T3 as [T3|T3]; [by left|right]. apply elem_of_app. left.
      change (TBackoff ∈ timers (without TSnapshot (without TSnapshot w))). rewrite !elem_without. done.
  - intros Hx. cbn in Hx. rewrite F2 in Hx. change (stopping_ w = true) in Hx. congruence.
  - exact Fg.
  - rewrite F2. done.
  - rewrite F8. cbn. lia.
  - apply Fd.
Qed.

Lemma on_backoff_advance w : inv w -> wp sess_dom (dispatch EvBackoff) (fun _ => advance w) w.
Proof.
  intros [Hb Hd Ht Hf]. cbn [dispatch]. unfold cancel. do 2 wstep. change (set_timers _ w) with (without TBackoff w).
  pose proof (door_same_door _ _ (without_door TBackoff w) Hd) as Hd1. unfold on_backoff, accept_next. do 2 wstep.
  apply wp_if; intros Hs; wstep; (apply advance_same; try done); (split; [by apply (base_same w)|destruct Hd1; by split| |exact Hf]).
  - intros Hx. change (stopping_ w = false) in Hx. destruct (Ht Hx) as (Ho & T1 & T2 & _). split; [done|].
    split; [by apply elem_without|]. split; [by apply elem_without|by left].
  - intros Hx. change (stopping_ w = false) in Hx. destruct (Ht Hx) as (Ho & _). cbn in Hs. by rewrite Hx, Ho in Hs.
Qed.

Lemma on_deadline_advance w : inv w -> TDeadline ∈ timers w -> wp sess_dom (dispatch EvDeadline) (fun _ => advance w) w.
Proof.
  intros [Hb Hd Ht Hf] _. cbn [dispatch]. unfold cancel. do 2 wstep. change (set_timers _ w) with (without TDeadline w).
  assert (inv (without TDeadline w)) as Hi1.
  { split; [by apply without_base|by eapply door_same_door; [apply without_door|]| |exact Hf].
    intros Hx. change (stopping_ w = false) in Hx. destruct (Ht Hx) as (Ho & T1 & T2 & T3). split; [done|].
    split; [by apply elem_without|]. split; [by apply elem_without|]. destruct T3; [by left|right; by apply elem_without]. }
  unfold on_deadline. do 2 wstep. apply wp_if; intros _; [wstep; by apply advance_same|].
  eapply wp_mono; [apply (over_sessions (fun _ e => update e (set_socket_open (fun _ => false)))); [apply Hi1|done|]|].
  - intros e s w1 Hb1 Hs _. pose proof (b_sess _ Hb1 _ _ Hs) as [Hc Hp Hl].
    eapply wp_update_mid; [by apply base_mid|core_tac|done|]. intros w2 Hm.
    eapply close_op; [done|exact Hs|exact Hm| |done|by apply grows_same]. split; [apply Hm|exact Hp|exact Hl].
  - intros ? w2 K2. destruct (stepped_advance _ _ Hi1 (kept_stepped _ _ K2)). split; [done|done|done|done|done].
Qed.

(** ** All of them *)

Lemma dispatch_advance ev w :
  inv w -> enabled ev w = true -> next_epoch_ w + 1 < two64 -> wp sess_dom (dispatch ev) (fun _ => advance w) w.
Proof.
  intros Hi He Hlim. pose proof (in_base _ Hi) as Hb.
  assert (forall (m : M World unit), wp sess_dom m (fun _ => stepped w) w -> wp sess_dom m (fun _ => advance w) w) as Hst.
  { intros m Hm. eapply wp_mono; [exact Hm|]. intros ? w' Hx. by apply stepped_advance. }
  assert (forall e p, has_session w e p = true -> exists s, heap w !! e = Some s /\ p s = true) as Hhas.
  { unfold has_session. intros e p Hx. destruct (heap w !! e) as [s|]; [by exists s|done]. }
  destruct ev; cbn [enabled] in He.
  - apply andb_true_iff in He as [[_ H1%bool_decide_eq_true]%andb_true_iff H2%bool_decide_eq_true]. by apply on_accept_advance.
  - by apply on_backoff_advance.
  - apply bool_decide_eq_true in He. by apply on_request_advance.
  - apply bool_decide_eq_true in He. cbn [dispatch]. unfold drop_upgrade. wstep. apply advance_same; try done.
    apply drop_inv; [done|]. by rewrite He.
  - apply bool_decide_eq_true in He. by apply on_handshake_advance.
  - apply Hhas in He as (s & Hs & Hp%Nat.ltb_lt). by apply Hst, read_step with s.
  - apply Hhas in He as (s & Hs & Hp%Nat.ltb_lt). by apply Hst, write_step with s.
  - apply Hhas in He as (s & Hs & Hp%negb_true_iff%bool_decide_eq_false). by apply Hst, close_step with s.
  - apply Hhas in He as (s & Hs & Hp%Nat.ltb_lt). by apply Hst, drain_step with s.
  - apply Hhas in He as (s & Hs & _). by apply Hst, grace_step with s.
  - by apply on_feed_advance.
  - by apply on_snapshot_advance.
  - apply bool_decide_eq_true in He. by apply on_deadline_advance.
  - cbn [dispatch]. by apply begin_stop_advance; try done; apply Hi.
Qed.

(** The abort path of [run] ends the run whatever a handler threw. *)
Lemma abort_run_spec w : sess_dom w -> wp (fun _ => False) abort_run (fun _ w' => finalized_ w' = true /\ stopping_ w' = true) w.
Proof.
  intros Hd. unfold abort_run. do 2 wstep. wstep. apply wp_steady_ns. intros now w1 Q1 _ _. do 2 wstep.
  set (w2 := set_pending_fault _ w1).
  assert (quiet (set_stopping (fun _ => true) w) w2) as Q2 by exact Q1.
  eapply wp_seq; [apply publish_record_spec|]. intros ok w3 [Q3 _].
  assert (forall w4, quiet w2 w4 -> wp (fun _ => False) (modify (set_telemetry_ok (fun _ => false));; finalize)
    (fun _ w' => finalized_ w' = true /\ stopping_ w' = true) w4) as Hfin.
  { intros w4 Q4. do 2 wstep. set (w5 := set_telemetry_ok _ w4).
    assert (quiet (set_stopping (fun _ => true) w) w5) as Q5 by (etrans; [exact Q2|]; exact Q4).
    eapply wp_mono; [apply finalize_spec; eapply quiet_dom; [exact Q5|exact Hd]|]. intros ? w6 (_ & _ & Qr).
    destruct Q5 as (_ & _ & Qr5). apply rest_facts in Qr5 as (_ & S5 & _). apply rest_facts in Qr as (_ & S6 & F6 & _).
    destruct (finalized_ w5) eqn:Ef; rewrite ?Ef in *; split; try done; rewrite S6; exact S5. }
  unfold when. wstep. apply wp_if; intros _; wstep; apply Hfin; [etrans; [exact Q3|done]|exact Q3].
Qed.
End Dispatch.
