(* ===== verification/Startup.v ===== *)
(** * Construction and startup ([ServerImpl::ServerImpl], [ServerImpl::run])

    The validations in their order, the identity checks that keep the sample
    dump off the telemetry file, and the state the event loop starts in.  What
    the operating system answers is [Os]. *)

From Stdlib Require Import ZArith Ascii String List Lia.
From stdpp Require Import base tactics list option strings gmap.
From S2P Require Import Prelude Types Protocol Engine Outbox Utf8 Preflight Feed BenchRecorder TelemetryRing Telemetry.
From S2P Require Import World Shutdown Session Server.

(** A file's identity: device and inode. *)
Abbreviation FileId := (Z * Z)%type.

Class Os := {
  weakly_canonical : string -> option string;   (* [None]: filesystem_error *)
  is_address : string -> bool;                  (* what [make_address] parses *)
  feed_entry : string -> FsEntry;
  listens : Z -> bool;                          (* open, bind and listen on a port *)
  telemetry_opens : bool;
  marker_written : bool;                        (* the open marker's write and flush *)
  telemetry_stat : option FileId;               (* [stat] once the writer has it open *)
  same_file : bool;                             (* [std::filesystem::equivalent] *)
  bench_fstat : option (option FileId);         (* [open] of bench_out, then [fstat] *)
}.

Definition bind_outcome {A B} (x : outcome A) (k : A -> outcome B) : outcome B :=
  match x with Ret a => k a | Throw e => Throw e | UB => UB end.

Definition kDumpClobbers : string :=
  "Config: bench_out must not name telemetry_out (the binary sample dump would truncate the telemetry file)".

Section Startup.
Context `{Os, Env, ICodec}.

Definition names_same_file (a b : string) : bool :=
  String.eqb a b ||
  match weakly_canonical a, weakly_canonical b with
  | Some a', Some b' => String.eqb a' b'
  | _, _ => false
  end.

(** The validations of the constructor, in order: the first failure's message. *)
Definition validate (c : Config) : option string :=
  if cfg_report_hwm c =? 0 then Some "Config: report_hwm must be > 0"%string
  else if cfg_feed_interval_ms c <? 0 then Some "Config: feed_interval_ms must be >= 0"%string
  else if cfg_idle_timeout_ms c <=? 0 then Some "Config: idle_timeout_ms must be > 0"%string
  else if cfg_upgrade_timeout_ms c <=? 0 then Some "Config: upgrade_timeout_ms must be > 0"%string
  else if cfg_so_sndbuf c <? 0 then Some "Config: so_sndbuf must be >= 0"%string
  else if String.eqb (cfg_telemetry_out c) "" then Some "Config: telemetry_out must name a path"%string
  else if negb (String.eqb (cfg_bench_out c) "") && names_same_file (cfg_bench_out c) (cfg_telemetry_out c) then
    Some kDumpClobbers
  else if cfg_max_sessions c =? 0 then Some "Config: max_sessions must be > 0"%string
  else if negb (is_address (cfg_bind_address c)) then
    Some ("Config: bind_address is not an IP address: " ++ cfg_bind_address c)%string
  else None.

Definition measured (c : Config) : bool := negb (String.eqb (cfg_bench_out c) "").

(** Per-message narration is forced off under measurement. *)
Definition effective (c : Config) : Config :=
  if measured c then
    mkConfig (cfg_port c) (cfg_bind_address c) (cfg_feed_path c) (cfg_codec c) (cfg_feed_interval_ms c)
      (cfg_loop_feed c) (cfg_report_hwm c) (cfg_bench_out c) (cfg_telemetry_out c) false (cfg_idle_timeout_ms c)
      (cfg_upgrade_timeout_ms c) (cfg_max_session_entries c) (cfg_so_sndbuf c) (cfg_handle_signals c)
      (cfg_max_sessions c)
  else c.

Definition initial (c : Config) (e : OrderEngine) (feed : list FeedEvent) (rec : option BenchRecorder) : World :=
  mkWorld c e feed 0 0 zero_counters 0 rec None [] ∅ [] ∅ [] [] 0 0 false false true true false [] 0 0 0 [] [].

(** [ServerImpl::ServerImpl]: the engine is a member, so it is checked first. *)
Definition construct (c : Config) (i : Instrument) : outcome World :=
  bind_outcome (new_engine i (cfg_max_session_entries c)) (fun e =>
  match validate c with
  | Some what => Throw (invalid_argument what)
  | None =>
      bind_outcome (if measured c then
                      bind_outcome (new_recorder BenchRecorder.kDefaultCapacity) (fun r => Ret (Some r))
                    else Ret None) (fun rec =>
      match load_feed (cfg_feed_path c) (feed_entry (cfg_feed_path c)) with
      | Some (inr feed) =>
          if listens (cfg_port c) then Ret (initial (effective c) e feed rec)
          else Throw (runtime_error "bind")
      | Some (inl what) => Throw (runtime_error what)
      | None => UB
      end)
  end).

(** The first half of [run]: the writer takes the telemetry file, and bench_out
    is bound to a descriptor known to be another file. *)
Definition open_artifacts (c : Config) : outcome (option FileId) :=
  bind_outcome (new_writer kDefaultPoll (cfg_telemetry_out c) telemetry_opens marker_written [] []) (fun _ =>
  if negb (measured c) then Ret None
  else if same_file then Throw (invalid_argument kDumpClobbers)
  else
    match bench_fstat with
    | None => Throw (invalid_argument ("Config: cannot open bench_out for writing: " ++ cfg_bench_out c))
    | Some bench =>
        match bench, telemetry_stat with
        | Some b, Some t =>
            if bool_decide (b = t) then
              Throw (invalid_argument
                "Config: bench_out resolves to the same file as telemetry_out (the binary sample dump would truncate the telemetry file)")
            else Ret (Some b)
        | _, _ =>
            Throw (invalid_argument
              "Config: cannot establish that bench_out and telemetry_out are different files; refusing to run rather than risk truncating the telemetry artifact")
        end
    end).

(** A server inside its event loop. *)
Definition boot (c : Config) (i : Instrument) : outcome World :=
  bind_outcome (construct c i) (fun w =>
  bind_outcome (open_artifacts (cfg_ w)) (fun _ => let (r, w') := run start_run w in bind_outcome r (fun _ => Ret w'))).
End Startup.
