(* ===== verification/ServerProps.v ===== *)
(** * What the server guarantees *)

From Stdlib Require Import ZArith Ascii String List Lia.
From stdpp Require Import base tactics list option strings gmap sorting.
From S2P Require Import Prelude Types Protocol Engine EngineInv Outbox Utf8 Preflight Feed BenchRecorder TelemetryRing.
From S2P Require Import Telemetry Wp EngineOwners World Shutdown Session SessionInv SessionOps SessionWrite SessionRead.
From S2P Require Import ShutdownInv ServerInv ServerSteps Server ServerLoop ServerDoor ServerRun ServerDispatch Startup.

Section Props.
Context `{Os, Env, ICodec}.
Implicit Types (w : World) (s : Session).

(** ** Reachable states *)

Lemma initial_inv c e feed rec : engine_inv e -> orders e = [] -> 0 <= cfg_max_sessions c -> 
  base (initial c e feed rec) /\ door (initial c e feed rec).
Proof.
  intros He Ho Hm. split; split; cbn; try done.
  - intros x. split; [by intros ?%not_elem_of_nil|]. by intros (s & Hs & _).
  - constructor.
  - intros x Hx. unfold owns in Hx. cbn in Hx. rewrite Ho in Hx. by apply not_elem_of_nil in Hx.
  - by intros id [ph Hid].
  - constructor.
  - constructor.
  - intros id. split; [by intros ?%not_elem_of_nil|done].
Qed.

Lemma boot_inv c i w :
  0 <= cfg_max_sessions c -> boot c i = Ret w -> inv w /\ next_epoch_ w = 0 /\ heap w = ∅.
Proof.
  intros Hm Hboot. unfold boot in Hboot. destruct (construct c i) as [w0|?|] eqn:Ec; [|done..]. cbn [bind_outcome] in Hboot.
  destruct (open_artifacts (cfg_ w0)); [|done..]. cbn [bind_outcome] in Hboot.
  assert (exists c' e feed rec, w0 = initial c' e feed rec /\ engine_inv e /\ orders e = [] /\ cfg_max_sessions c' = cfg_max_sessions c)
    as (c' & e & feed & rec & -> & He & Ho & Hc').
  { unfold construct in Ec. destruct (new_engine i _) as [e|?|] eqn:Ee; [|done..]. cbn [bind_outcome] in Ec.
    destruct (validate c); [done|]. destruct (if measured c then _ else _) as [rec|?|]; [|done..]. cbn [bind_outcome] in Ec.
    destruct (load_feed _ _) as [[?|feed]|]; [done| |done]. destruct (listens _); [|done]. injection Ec as <-.
    exists (effective c), e, feed, rec. split; [done|]. split; [by eapply engine_inv_init|]. split.
    - unfold new_engine in Ee. repeat (case_match; simplify_eq/=; try done).
    - unfold effective. by destruct (measured c). }
  destruct (initial_inv c' e feed rec He Ho) as [Hb Hd]; [lia|]. set (w0 := initial c' e feed rec) in *.
  assert (wp sess_dom start_run (fun _ w' => inv w' /\ next_epoch_ w' = 0 /\ heap w' = ∅) w0) as Hwp.
  { unfold start_run. eapply wp_seq; [by apply push_snapshot_spec, base_dom|]. intros ? w1 Q1.
    unfold schedule_feed, arm, accept_next. repeat wstep. pose proof (base_quiet _ _ Q1 Hb) as Hb1.
    assert (door w1) as [] by (eapply door_same_door; [apply rest_door, Q1|done]). destruct Q1 as (Qh & Qe & Qr).
    unfold rest in Qr. injection Qr as F0 F1 F2 F3 F4 F5 F6 F7 F8 F9 F10 F11 F12 F13 F14 F15 F16.
    split; [split|split; [exact F9|exact Qh]].
    - by apply (base_same w1).
    - by split.
    - intros _. cbn. rewrite F15. cbn. split; [exact F13|]. split_and!; [set_solver|set_solver|by left].
    - intros Hs. cbn in Hs. rewrite F11 in Hs. done. }
  specialize (Hwp []). unfold run in Hboot. destruct (start_run w0 []) as [[[[]|?|] w1] o]; [|done..].
  cbn [bind_outcome] in Hboot. by injection Hboot as <-.
Qed.

(** What any stretch of a run does. *)
Definition runs_to (w : World) (l : Life) : Prop :=
  match l with
  | Looping w' => inv w' /\ all_grow w w' /\ cfg_ w' = cfg_ w
  | Died _ w' => finalized_ w' = true /\ stopping_ w' = true
  | Undefined => False
  end.

Lemma io_run_spec evs w :
  inv w -> next_epoch_ w + Z.of_nat (length evs) < two64 -> runs_to w (io_run evs w).
Proof.
  revert w. induction evs as [|[ev orc] evs IH]; intros w Hi Hlim; cbn [io_run]; [by split|]. cbn [length] in Hlim.
  destruct (enabled ev w) eqn:He; [|apply IH; [done|lia]].
  pose proof (dispatch_advance ev w Hi He ltac:(lia) orc) as Hd. destruct (dispatch ev w orc) as [[[[]|e|] w'] o]; [| |done].
  - destruct Hd as [Hi' Hg Hst Hep Hcfg]. specialize (IH w' Hi' ltac:(lia)). unfold runs_to in *.
    destruct (io_run evs w'); try done. destruct IH as (? & ? & ?). split; [done|]. split; [by etrans|congruence].
  - pose proof (abort_run_spec w' Hd []) as Ha. by destruct (abort_run w' []) as [[[[]|?|] w''] o'].
Qed.

(** A state some run of a booted server reaches. *)
Definition reachable_server (w : World) : Prop :=
  exists c i w0 evs, 0 <= cfg_max_sessions c /\ boot c i = Ret w0 /\ Z.of_nat (length evs) < two64 /\ io_run evs w0 = Looping w.

Lemma server_reachable_inv w : reachable_server w -> inv w.
Proof.
  intros (c & i & w0 & evs & Hm & Hboot & Hlen & Hrun). destruct (boot_inv c i w0 Hm Hboot) as (Hi & He & _).
  pose proof (io_run_spec evs w0 Hi ltac:(lia)) as Hr. rewrite Hrun in Hr. apply Hr.
Qed.
End Props.
