(* ===== verification/ServerLive.v ===== *)
(** * Shutdown converges

    Whatever a stopping server is waiting for, the failure of the operations
    outstanding on its sessions takes every one of them out of the map and ends
    the run. *)

From Stdlib Require Import ZArith Ascii String List Lia.
From stdpp Require Import base tactics list option strings gmap sorting.
From S2P Require Import Prelude Types Protocol Engine EngineInv Outbox Utf8 Preflight Feed BenchRecorder TelemetryRing.
From S2P Require Import Telemetry Wp EngineOwners World Shutdown Session SessionInv SessionOps SessionWrite SessionRead.
From S2P Require Import ShutdownInv ServerInv ServerSteps Server ServerLoop ServerDoor ServerRun ServerDispatch.

Lemma wp_and {S A} (E : S -> Prop) (m : M S A) (P Q : A -> S -> Prop) w :
  wp E m P w -> wp E m Q w -> wp E m (fun a w' => P a w' /\ Q a w') w.
Proof. intros HP HQ o. specialize (HP o). specialize (HQ o). by destruct (m w o) as [[[] ?] ?]. Qed.

Section Live.
Context `{Env, ICodec}.
Implicit Types (w : World) (s : Session).

(** The session is out of the map, or its object satisfies [P]. *)
Definition out_or (e : Z) (P : Session -> Prop) w : Prop :=
  e ∉ sessions_ w \/ exists s, heap w !! e = Some s /\ P s.

Lemma gone_out e w w' P : gone e w w' -> out_or e P w'.
Proof.
  intros (Hb & Hr & _). left. destruct (closed_facts _ _ _ Hr) as (-> & _). rewrite filter_ne_elem. naive_solver.
Qed.

Lemma wp_teardown_out e code s s1 w w1 P :
  base w -> heap w !! e = Some s -> mid e w s1 w1 -> torn_down_ s = false -> torn_down_ s1 = false -> grows s s1 ->
  wp sess_dom (teardown e code) (fun _ => out_or e P) w1.
Proof.
  intros Hb Hs Hm Ht Ht1 Hg. eapply wp_mono; [by eapply teardown_gone|]. intros ? w' Hx. exact (gone_out _ _ _ _ Hx).
Qed.

(** A failed close either ends the session or leaves it to its drain. *)
Lemma close_failed e s w :
  base w -> heap w !! e = Some s -> torn_down_ s = false -> op_closes s <> [] ->
  wp sess_dom (dispatch (EvClosed e true)) (fun _ => out_or e (fun s' => op_closes s' = [])) w.
Proof.
  intros Hb Hs Ht Hne. pose proof (base_mid e s w Hb Hs) as Hm0. pose proof (so_core _ _ (b_sess _ Hb _ _ Hs)) as Hc.
  pose proof (co_closes _ _ Hc) as Hlen. destruct (op_closes s) as [|k [|]] eqn:Eo; [done| |cbn in Hlen; lia].
  cbn [dispatch]. wstep. eapply wp_this; [apply Hm0|]. rewrite Eo. wstep.
  eapply wp_update_mid; [exact Hm0| |done|].
  { core_tac; rewrite Eo in *; cbn in *; try done; try lia; destruct (bool_decide (k = ThenDrain)); cbn in *; lia. }
  intros w1 Hm. destruct k; cbn [on_close_done].
  - wstep. eapply wp_this; [apply Hm|]. eapply wp_teardown_out; [done|exact Hs|exact Hm|done|done|by apply grows_same].
  - unfold drain_transport, arm_grace, drain_read. wstep. eapply wp_this; [apply Hm|]. cbn [set_op_closes torn_down_]. rewrite Ht.
    wstep. destruct Hm as (Hp & _). eapply wp_update; [exact Hp|]. intros w2 Hp2 _.
    eapply wp_update; [exact Hp2|]. intros w3 Hp3 _. right. eexists. split; [apply Hp3|]. cbn. by rewrite Eo.
Qed.

Lemma drain_failed e s w P :
  base w -> heap w !! e = Some s -> torn_down_ s = false -> (0 < op_drains s)%nat ->
  wp sess_dom (dispatch (EvDrained e true)) (fun _ => out_or e P) w.
Proof.
  intros Hb Hs Ht Hd. pose proof (base_mid e s w Hb Hs) as Hm0. pose proof (so_core _ _ (b_sess _ Hb _ _ Hs)) as Hc.
  cbn [dispatch]. wstep. eapply wp_update_mid; [exact Hm0| |done|].
  { destruct Hc. split; try done. unfold listeners, drain_closes in *. cbn in *. lia. }
  intros w1 Hm. unfold on_drain_read. wstep. eapply wp_this; [apply Hm|].
  eapply wp_teardown_out; [done|exact Hs|exact Hm|done|done|by apply grows_same].
Qed.

Lemma read_failed e s w P :
  base w -> heap w !! e = Some s -> torn_down_ s = false -> (0 < op_reads s)%nat ->
  wp sess_dom (dispatch (EvRead e RdOther)) (fun _ => out_or e P) w.
Proof.
  intros Hb Hs Ht Hd. pose proof (base_mid e s w Hb Hs) as Hm0. pose proof (so_core _ _ (b_sess _ Hb _ _ Hs)) as Hc.
  cbn [dispatch]. wstep. eapply wp_update_mid; [exact Hm0| |done|].
  { destruct Hc. split; try done. unfold listeners, drain_closes in *. cbn in *. lia. }
  intros w1 Hm. unfold on_read. wstep. eapply wp_this; [apply Hm|]. cbn [set_op_reads torn_down_]. rewrite Ht.
  eapply wp_teardown_out; [done|exact Hs|exact Hm|done|done|by apply grows_same].
Qed.

(** The failing completions of one session. *)
Definition sever (e : Z) : list (Event * oracle) := [(EvClosed e true, []); (EvDrained e true, []); (EvRead e RdOther, [])].

Definition ends (w : World) (P : World -> Prop) (l : Life) : Prop :=
  match l with
  | Looping w' => inv w' /\ (stopping_ w = true -> stopping_ w' = true) /\ next_epoch_ w' = next_epoch_ w /\
                  (forall e, e ∈ sessions_ w' -> e ∈ sessions_ w) /\ P w'
  | Died _ w' => finalized_ w' = true
  | Undefined => False
  end.

(** Events of sessions alone: nobody joins. *)
Definition of_session_ev (ev : Event) : bool :=
  match ev with EvClosed _ _ | EvDrained _ _ | EvRead _ _ => true | _ => false end.

Lemma session_ev_stepped ev w :
  inv w -> enabled ev w = true -> of_session_ev ev = true -> wp sess_dom (dispatch ev) (fun _ => stepped w) w.
Proof.
  intros Hi He Hk. pose proof (in_base _ Hi) as Hb.
  assert (forall e p, has_session w e p = true -> exists s, heap w !! e = Some s /\ p s = true) as Hhas.
  { unfold has_session. intros e p Hx. destruct (heap w !! e) as [s|]; [by exists s|done]. }
  destruct ev; try done; cbn [enabled] in He; apply Hhas in He as (s & Hs & Hp).
  - apply Nat.ltb_lt in Hp. by apply read_step with s.
  - apply negb_true_iff, bool_decide_eq_false in Hp. by apply close_step with s.
  - apply Nat.ltb_lt in Hp. by apply drain_step with s.
Qed.

Lemma stepped_sessions w w' : stepped w w' -> next_epoch_ w' = next_epoch_ w /\ forall e, e ∈ sessions_ w' -> e ∈ sessions_ w.
Proof.
  intros (_ & _ & [Hr|[e Hr]]).
  - apply rest_facts in Hr as (-> & _ & _ & _ & -> & _). done.
  - destruct (closed_facts _ _ _ Hr) as (-> & _ & _ & -> & _). split; [done|]. by intros x [Hx _]%filter_ne_elem.
Qed.

Definition below w w' : Prop :=
  (stopping_ w = true -> stopping_ w' = true) /\ (forall e, e ∈ sessions_ w' -> e ∈ sessions_ w).

(** One event of a severing, with what it does when it is enabled. *)
Lemma sever_step ev evs w (P Q : World -> Prop) :
  inv w -> of_session_ev ev = true ->
  (enabled ev w = true -> wp sess_dom (dispatch ev) (fun _ => P) w) -> (enabled ev w = false -> P w) ->
  (forall w', inv w' -> below w w' -> P w' -> ends w' Q (io_run evs w')) ->
  ends w Q (io_run ((ev, []) :: evs) w).
Proof.
  intros Hi Hk HP HN Hrest. cbn [io_run]. destruct (enabled ev w) eqn:He; [|by apply Hrest; [|split|auto]].
  pose proof (wp_and _ _ _ _ _ (session_ev_stepped ev w Hi He Hk) (HP eq_refl) []) as Hd.
  destruct (dispatch ev w []) as [[[[]|e|] w'] o]; [| |done].
  - destruct Hd as [Hst HPw]. pose proof (stepped_advance _ _ Hi Hst) as Had. pose proof (stepped_sessions _ _ Hst) as [Hn Hs].
    assert (below w w') as Hbl by (split; [apply Had|done]). specialize (Hrest w' (ad_inv _ _ Had) Hbl HPw). unfold ends in *. destruct (io_run evs w'); try done.
    destruct Hrest as (R1 & R2 & R3 & R4 & R5). split; [done|]. split; [intros Hx; by apply R2, (proj1 Hbl)|]. split; [congruence|]. split; [|done]. intros e He'. by apply Hs, R4.
  - pose proof (abort_run_spec w' Hd []) as Ha. destruct (abort_run w' []) as [[[[]|?|] w''] o']; [|done..]. exact (proj1 Ha).
Qed.

(** A mapped session, or out of the map. *)
Lemma in_or_out e w : inv w ->
  e ∉ sessions_ w \/ exists s, heap w !! e = Some s /\ torn_down_ s = false /\ listeners s = 1%nat.
Proof.
  intros Hi. destruct (decide (e ∈ sessions_ w)) as [Hin|]; [right|by left].
  destruct (proj1 (b_map _ (in_base _ Hi) e) Hin) as (s & Hs & Ht). exists s. split_and!; [done..|].
  by apply (so_listen _ _ (b_sess _ (in_base _ Hi) _ _ Hs)).
Qed.

Lemma stays_out ev e w P : inv w -> enabled ev w = true -> of_session_ev ev = true -> e ∉ sessions_ w ->
  wp sess_dom (dispatch ev) (fun _ => out_or e P) w.
Proof.
  intros Hi He Hk Hn. eapply wp_mono; [by apply session_ev_stepped|]. intros ? w' Hst. left. intros Hx.
  by apply (stepped_sessions _ _ Hst) in Hx.
Qed.

Lemma sever_spec e evs w Q :
  inv w -> (forall w', inv w' -> below w w' -> e ∉ sessions_ w' -> ends w' Q (io_run evs w')) ->
  ends w Q (io_run (sever e ++ evs) w).
Proof.
  intros Hi Hrest. cbn [sever app].
  apply (sever_step _ _ _ (out_or e (fun s => op_closes s = []))); [done|done| | |].
  { intros He. destruct (in_or_out e w Hi) as [Hn|(s & Hs & Ht & Hl)]; [by apply stays_out|].
    apply close_failed with s; try done; [apply Hi|]. cbn [enabled] in He. unfold has_session in He. rewrite Hs in He.
    by apply negb_true_iff, bool_decide_eq_false in He. }
  { intros He. destruct (in_or_out e w Hi) as [Hn|(s & Hs & Ht & Hl)]; [by left|right; exists s; split; [done|]].
    cbn [enabled] in He. unfold has_session in He. rewrite Hs in He. by apply negb_false_iff, bool_decide_eq_true in He. }
  intros w1 Hi1 [B1 S1] H1. apply (sever_step _ _ _ (out_or e (fun s => op_closes s = [] /\ op_drains s = 0%nat))); [done|done| | |].
  { intros He. destruct (in_or_out e w1 Hi1) as [Hn|(s & Hs & Ht & Hl)]; [by apply stays_out|].
    apply drain_failed with s; try done; [apply Hi1|]. cbn [enabled] in He. unfold has_session in He. rewrite Hs in He. by apply Nat.ltb_lt in He. }
  { intros He. destruct H1 as [Hn|(s & Hs & Ho)]; [by left|right; exists s; split_and!; [done..|]].
    cbn [enabled] in He. unfold has_session in He. rewrite Hs in He. apply Nat.ltb_ge in He. lia. }
  intros w2 Hi2 [B2 S2] H2. apply (sever_step _ _ _ (fun w' => e ∉ sessions_ w')); [done|done| | |].
  { intros He. eapply wp_mono; [instantiate (1 := fun _ => out_or e (fun _ => False))|intros ? w' [Hx|(s & _ & [])]; exact Hx].
    destruct (in_or_out e w2 Hi2) as [Hn|(s & Hs & Ht & Hl)]; [by apply stays_out|].
    apply read_failed with s; try done; [apply Hi2|]. cbn [enabled] in He. unfold has_session in He. rewrite Hs in He. by apply Nat.ltb_lt in He. }
  { intros He Hin. destruct (in_or_out e w2 Hi2) as [Hn|(s & Hs & Ht & Hl)]; [done|].
    destruct H2 as [Hn|(s' & Hs' & Ho & Hd)]; [done|]. assert (s' = s) as -> by congruence.
    cbn [enabled] in He. unfold has_session in He. rewrite Hs in He. apply Nat.ltb_ge in He.
    unfold listeners, drain_closes in Hl. rewrite Ho, Hd in Hl. cbn in Hl. lia. }
  intros w3 Hi3 [B3 S3] Hn. apply Hrest; [done|split; auto|done].
Qed.

Lemma sever_all_spec l w :
  inv w -> stopping_ w = true -> (forall e, e ∈ sessions_ w -> e ∈ l) ->
  ends w (fun w' => sessions_ w' = []) (io_run (concat (map sever l)) w).
Proof.
  revert w. induction l as [|e l IH]; intros w Hi Hst Hl; cbn [map concat].
  - cbn. split_and!; try done. destruct (sessions_ w) as [|x q]; [done|]. specialize (Hl x ltac:(left)). by apply not_elem_of_nil in Hl.
  - apply sever_spec; [done|]. intros w' Hi' [Hs' Hsub] Hn. apply IH; [done|auto|]. intros x Hx.
    specialize (Hl x (Hsub x Hx)). apply elem_of_cons in Hl as [->|Hl]; [done|exact Hl].
Qed.
End Live.
