(* ===== verification/ServerDemo.v ===== *)
(** * A concrete server

    The configured codec as the server's [ICodec], a clock that ticks ten
    milliseconds a reading, a healthy file system, and short runs the witnesses
    evaluate. *)

From Stdlib Require Import ZArith Ascii String List Lia.
From stdpp Require Import base tactics list option strings gmap.
From S2P Require Import Prelude Types Protocol Engine EngineInv Outbox Utf8 Preflight PreflightProps Codec JsonTokens CodecProps Feed.
From S2P Require Import BenchRecorder TelemetryRing Telemetry World MakeCodec Shutdown Session Server Startup.

(** The default configuration's codec, over libraries that keep their laws. *)
Definition demo_codec : ICodec := make_codec ref_libraries (cfg_codec default_config).

Definition demo_tick : Z := 10000000.
Definition demo_clock (n : nat) : Z := demo_tick * Z.of_nat n.

Lemma demo_clock_mono n : demo_clock n <= demo_clock (S n).
Proof. unfold demo_clock, demo_tick. lia. Qed.
Definition demo_readings (n : nat) (t : Z) : nat := Z.to_nat (t / demo_tick + 1).
Lemma demo_clock_progress n t : t <= demo_clock (n + demo_readings n t).
Proof.
  unfold demo_clock, demo_readings, demo_tick. pose proof (Z.div_mod t 10000000 ltac:(lia)).
  pose proof (Z.mod_pos_bound t 10000000 ltac:(lia)). lia.
Qed.

Definition demo_env : Env := {|
  steady_clock := demo_clock;
  steady_mono := demo_clock_mono;
  readings_until := demo_readings;
  steady_progress := demo_clock_progress;
  ring_pending _ := 0;
  ring_room _ := true;
  sink_healthy := true;
  bench_io_ok := true;
  signals_cleared := true;
|}.

Definition demo_feed_file : bytes :=
  requote (text "{'set':[99,100,101,100]}") ++ newline :: requote (text "{'set':[99,100,100,40]}") ++
  newline :: requote (text "{'end':true}") ++ [newline].

Definition demo_os : Os := {|
  weakly_canonical p := Some p;
  is_address _ := true;
  feed_entry _ := File demo_feed_file false;
  listens _ := true;
  telemetry_opens := true;
  marker_written := true;
  telemetry_stat := Some (1, 2);
  same_file := false;
  bench_fstat := Some (Some (1, 3));
|}.

#[local] Existing Instances demo_env demo_codec demo_os.

Definition demo_cfg : Config := default_config.
Definition demo_inst : Instrument := default_instrument "ES".
Definition demo_w0 : World :=
  match boot demo_cfg demo_inst with Ret w => w | _ => initial demo_cfg (mkEngine demo_inst empty_book false 1 1 0 0 [] [] [] []) [] None end.

Lemma demo_boots : boot demo_cfg demo_inst = Ret demo_w0.
Proof. vm_compute. reflexivity. Qed.

(** One client: its upgrade, a resting order, the book that fills it, and a
    frame out of sequence, which closes the session. *)
Definition demo_request : Request :=
  mkRequest true [(OtherField, text "websocket"); (SecWebSocketProtocol, text "chat, mm.v1")].
Definition demo_frame (seq : string) (cl_id : string) : bytes := requote (text
  ("{'t':'new_order','v':1,'seq':" ++ seq ++ ",'epoch':1,'md_seq':0,'cl_id':'" ++ cl_id ++
   "','symbol':'ES','side':'B','px':100,'qty':10,'post_only':false}")).

Definition demo_join : list (Event * oracle) :=
  [(EvAccept 7 false, []); (EvRequest 7 false demo_request, []); (EvHandshake 7 false, [])].
Definition demo_trade : list (Event * oracle) :=
  [(EvFeed, []); (EvWrite 1 WrOk, []); (EvRead 1 (RdOk false (demo_frame "1" "a")), []); (EvWrite 1 WrOk, []);
   (EvFeed, []); (EvWrite 1 WrOk, [])].
Definition demo_break : list (Event * oracle) := [(EvRead 1 (RdOk false (demo_frame "7" "b")), [])].

(** What a run reaches, when it neither dies nor goes wrong. *)
Definition reaches (w : World) (l : Life) : bool := match l with Looping _ => true | _ => false end.
Definition world_of (l : Life) : World := match l with Looping w | Died _ w => w | Undefined => demo_w0 end.
