(* ===== verification/ServerClaims.v ===== *)
(** * The server's theorems

    Safety of a run, order of a session's stream, finality of a close, ownership
    of orders, admission, absence of stranded sessions and convergence of
    shutdown, for every state some run of a booted server reaches. *)

From Stdlib Require Import ZArith Ascii String List Lia.
From stdpp Require Import base tactics list option strings gmap sorting.
From S2P Require Import Prelude Types Protocol Engine EngineInv Outbox Utf8 Preflight Feed BenchRecorder TelemetryRing.
From S2P Require Import Telemetry Wp EngineOwners World Shutdown Session SessionInv SessionOps SessionWrite SessionRead.
From S2P Require Import ShutdownInv ServerInv ServerSteps Server ServerLoop ServerDoor ServerRun ServerDispatch Startup ServerProps ServerLive ServerDemo.

Section Claims.
Context `{Os, Env, ICodec}.
Implicit Types (w : World) (s : Session).

(** C9 Whatever a booted server's environment does, with whatever allocations
    failing, no handler reaches undefined behaviour or a violated assertion: the
    loop goes on, finalised exactly when it is stopping and its last session is
    gone, or a handler's exception ends the run through the abort path, which
    finalises it too. *)
Theorem server_run_safe c i w evs :
  0 <= cfg_max_sessions c -> boot c i = Ret w -> Z.of_nat (length evs) < two64 ->
  match io_run evs w with
  | Looping w' => finalized_ w' = stopping_ w' && bool_decide (sessions_ w' = [])
  | Died _ w' => finalized_ w' = true /\ stopping_ w' = true
  | Undefined => False
  end.
Proof.
  intros Hm Hboot Hlen. destruct (boot_inv c i w Hm Hboot) as (Hi & He & _).
  pose proof (io_run_spec evs w Hi ltac:(lia)) as Hr. destruct (io_run evs w) as [w'| |]; [|done..].
  destruct Hr as ([Hb _ _ Hf] & _). pose proof (b_final _ Hb) as Hb'. unfold finals in Hf.
  destruct (finalized_ w'), (stopping_ w'), (bool_decide_reflect (sessions_ w' = [])); naive_solver.
Qed.

(** C14 On every session the frames handed to the socket are numbered 1, 2, 3 ...
    modulo 2^64 under the session's epoch, each the non-empty encoding of its
    message; the commands taken are numbered the same way; and every ack still
    queued has its measured service time waiting. *)
Theorem stream_ordered w e s :
  reachable_server w -> heap w !! e = Some s ->
  (forall i m f, wire s !! i = Some (m, f) ->
     out_seq m = u64 (1 + Z.of_nat i) /\ out_epoch m = e /\ f = encode m /\ f <> []) /\
  (forall i m, taken s !! i = Some m -> in_seq m = u64 (1 + Z.of_nat i)) /\
  length (pending_svc_ s) = length (List.filter is_ack (reports_ (outbox_ s))).
Proof.
  intros Hr%server_reachable_inv Hs. destruct (b_sess _ (in_base _ Hr) e s Hs) as [[] _ _]. split_and!; [|done..].
  intros i m f Hi. exact (co_wire i (m, f) Hi).
Qed.

(** C11 A close is final: the first code a session closes with stays, and is one
    of the five the server closes with; from then on no command is taken; once
    the close frame is sent nothing more is written; and a session torn down
    stays down. *)
Theorem close_is_final w w' evs e s :
  reachable_server w -> next_epoch_ w + Z.of_nat (length evs) < two64 -> io_run evs w = Looping w' ->
  heap w !! e = Some s ->
  exists s', heap w' !! e = Some s' /\
    (closing_ s = true -> closing_ s' = true /\ close_code_ s' = close_code_ s /\
       close_code_ s' ∈ [going_away; protocol_error; policy_error; too_big; internal_error]) /\
    (closing_ s || torn_down_ s = true -> taken s' = taken s) /\
    (close_frame_sent_ s = true -> wire s' = wire s) /\
    (torn_down_ s = true -> torn_down_ s' = true).
Proof.
  intros Hi%server_reachable_inv Hlim Hrun Hs. pose proof (io_run_spec evs w Hi Hlim) as Hr. rewrite Hrun in Hr.
  destruct Hr as (Hi' & Hg & _). destruct (Hg e s Hs) as (s' & Hs' & [G1 G2 G3 _ _ G6]). exists s'.
  split; [exact Hs'|]. split; [|split; [exact G6|split; [|exact G1]]].
  - intros Hc. destruct (G2 Hc) as [Hc' E]. split_and!; [done..|].
    by apply (co_code _ _ (so_core _ _ (b_sess _ (in_base _ Hi') e s' Hs'))).
  - intros Hf. by apply G3.
Qed.

(** C10 No orphan orders: whenever the loop waits, every entry of the engine's
    book of orders belongs to a session of the map that is neither closing nor
    torn down. *)
Theorem no_orphan_orders w k o :
  reachable_server w -> (k, o) ∈ orders (engine_ w) ->
  k.1 ∈ sessions_ w /\ exists s, heap w !! k.1 = Some s /\ closing_ s = false /\ torn_down_ s = false.
Proof.
  intros Hi%server_reachable_inv Hin. assert (owns (engine_ w) k.1) as Ho by (apply owns_elem; eauto).
  destruct (b_owns _ (in_base _ Hi) _ Ho) as (s & Hs & Hret).
  rewrite (co_retired _ _ (so_core _ _ (b_sess _ (in_base _ Hi) _ s Hs))) in Hret. apply orb_false_iff in Hret as [Hc Ht].
  split; [|by exists s]. apply (b_map _ (in_base _ Hi)). by exists s.
Qed.

(** C15 Admission never overshoots: sessions and handshakes together stay within
    [max_sessions], so do the upgrades in flight, no live upgrade is forgotten,
    and the recorded peak covers the sessions present. *)
Theorem admission_bounded w :
  reachable_server w ->
  Z.of_nat (length (sessions_ w)) + Z.of_nat (length (handshaking_ w)) <= cfg_max_sessions (cfg_ w) /\
  Z.of_nat (size (upgrades_alive w)) <= cfg_max_sessions (cfg_ w) /\
  (forall id, is_Some (upgrades_alive w !! id) -> id ∈ upgrades_ w) /\
  Z.of_nat (length (sessions_ w)) <= peak_sessions_ w.
Proof. intros [Hb [] _ _]%server_reachable_inv. split_and!; [done..|apply Hb]. Qed.

(** C13 Nothing waits for nothing: every session of the map has exactly one read,
    drain or draining close outstanding and at most one write; if it has
    messages queued, or is closing, a write is in flight or the close frame is
    out; and until the server stops, the acceptor, the feed and the snapshot
    timer are armed. *)
Theorem no_session_stranded w :
  reachable_server w ->
  (forall e, e ∈ sessions_ w -> exists s, heap w !! e = Some s /\
     (op_reads s + op_drains s + length (List.filter (fun k => bool_decide (k = ThenDrain)) (op_closes s)) = 1)%nat /\
     (op_writes s <= 1)%nat /\
     (closing_ s = true \/ depth (outbox_ s) <> 0 -> op_writes s = 1%nat \/ close_frame_sent_ s = true)) /\
  (stopping_ w = false -> acceptor_open w = true /\ TFeed ∈ timers w /\ TSnapshot ∈ timers w /\
     (accept_armed w = true \/ TBackoff ∈ timers w)).
Proof.
  intros [Hb _ Ht _]%server_reachable_inv. split; [|intros Hs; destruct (Ht Hs) as (? & ? & ? & ?); done].
  intros e He. apply (b_map _ Hb) in He as (s & Hs & Htorn). destruct (b_sess _ Hb e s Hs) as [[] Hp Hl].
  exists s. split; [done|]. split; [by apply Hl|]. rewrite co_write. split; [by destruct (write_inflight_ s); lia|].
  intros Hw. destruct Hp as [Hp|[Hp|[Hp|(Hc & Hq & Htb)]]]; [congruence|rewrite Hp; by left|by right|].
  exfalso. unfold depth in Hw. rewrite Hq, Htb in Hw. cbn in Hw. destruct Hw as [Hw|Hw]; [congruence|by apply Hw].
Qed.

(** C12 Shutdown converges: a server told to stop ends its run, finalised and
    with no session left, once the operations outstanding on its sessions have
    failed, as a severed transport makes them. *)
Theorem shutdown_converges w :
  reachable_server w -> stopping_ w = true ->
  match io_run (concat (map sever (sessions_ w))) w with
  | Looping w' => sessions_ w' = [] /\ finalized_ w' = true
  | Died _ w' => finalized_ w' = true
  | Undefined => False
  end.
Proof.
  intros Hi%server_reachable_inv Hst. pose proof (sever_all_spec (sessions_ w) w Hi Hst ltac:(done)) as He. unfold ends in He.
  destruct (io_run _ w) as [w'| |]; [|done..]. destruct He as ([_ _ _ Hf] & Hs & _ & _ & Hn). split; [done|]. by apply Hf, Hn; auto.
Qed.
End Claims.

(** ** On the concrete server *)

Section Concrete.
#[local] Existing Instances demo_env demo_codec demo_os.

(** The trading client; its session closing; a server told to stop. *)
Definition demo_traded : World := world_of (io_run (demo_join ++ demo_trade) demo_w0).
Definition demo_broken : World := world_of (io_run (demo_join ++ demo_trade ++ demo_break) demo_w0).
Definition demo_stopping : World := world_of (io_run (demo_join ++ demo_trade ++ [(EvStop, [])]) demo_w0).

Lemma demo_reachable_by evs w :
  Z.of_nat (length evs) < two64 -> io_run evs demo_w0 = Looping w -> reachable_server w.
Proof. intros Hl Hr. exists demo_cfg, (ServerDemo.demo_inst), demo_w0, evs. split; [done|]. split; [apply demo_boots|done]. Qed.

Lemma demo_traded_ok : reachable_server demo_traded.
Proof. by apply (demo_reachable_by (demo_join ++ demo_trade)); vm_compute. Qed.
Lemma demo_broken_ok : reachable_server demo_broken.
Proof. by apply (demo_reachable_by (demo_join ++ demo_trade ++ demo_break)); vm_compute. Qed.
Lemma demo_stopping_ok : reachable_server demo_stopping.
Proof. by apply (demo_reachable_by (demo_join ++ demo_trade ++ [(EvStop, [])])); vm_compute. Qed.

Definition session_of (w : World) (e : Z) : Session :=
  default (mkSession 0 (mkOutbox 0 false 0 [] None) 0 0 [] 0 0 0 false 0 false false false false false 0 0 0 [] 0 false false [] []) (heap w !! e).

Lemma server_run_safe_witness :
  boot demo_cfg (ServerDemo.demo_inst) = Ret demo_w0 /\
  match io_run (demo_join ++ demo_trade ++ demo_break ++ [(EvStop, []); (EvWrite 1 WrOther, [])]) demo_w0 with
  | Looping w' => finalized_ w' = stopping_ w' && bool_decide (sessions_ w' = [])
  | Died _ w' => finalized_ w' = true /\ stopping_ w' = true
  | Undefined => False
  end.
Proof.
  split; [exact demo_boots|]. apply (server_run_safe demo_cfg (ServerDemo.demo_inst)); [done|exact demo_boots|done].
Defined.

Lemma stream_ordered_witness :
  length (wire (session_of demo_traded 1)) = 4%nat /\
  (forall i m f, wire (session_of demo_traded 1) !! i = Some (m, f) ->
     out_seq m = u64 (1 + Z.of_nat i) /\ out_epoch m = 1 /\ f = encode m /\ f <> []).
Proof.
  split; [vm_compute; reflexivity|].
  destruct (stream_ordered demo_traded 1 (session_of demo_traded 1) demo_traded_ok) as [Hw _]; [vm_compute; reflexivity|exact Hw].
Defined.

Lemma close_is_final_witness :
  closing_ (session_of demo_broken 1) = true /\
  exists s', heap (world_of (io_run [(EvWrite 1 WrOk, []); (EvRead 1 (RdOk false (demo_frame "2" "c")), [])] demo_broken)) !! 1 = Some s' /\
    close_code_ s' = protocol_error /\ length (taken s') = 1%nat.
Proof.
  split; [vm_compute; reflexivity|].
  destruct (close_is_final demo_broken
    (world_of (io_run [(EvWrite 1 WrOk, []); (EvRead 1 (RdOk false (demo_frame "2" "c")), [])] demo_broken))
    [(EvWrite 1 WrOk, []); (EvRead 1 (RdOk false (demo_frame "2" "c")), [])] 1 (session_of demo_broken 1) demo_broken_ok)
    as (s' & Hs' & Hc & Ht & _); [vm_compute; reflexivity..|].
  exists s'. split; [exact Hs'|]. split.
  - destruct Hc as (_ & -> & _); vm_compute; reflexivity.
  - rewrite Ht; vm_compute; reflexivity.
Defined.

Lemma no_orphan_orders_witness :
  length (orders (engine_ demo_traded)) = 1%nat /\ 1 ∈ sessions_ demo_traded.
Proof.
  split; [vm_compute; reflexivity|].
  destruct (orders (engine_ demo_traded)) as [|[k o] l] eqn:E; [vm_compute in E; discriminate|].
  assert (k.1 = 1) as <- by (vm_compute in E; injection E as <- _ _; reflexivity).
  apply (no_orphan_orders demo_traded k o demo_traded_ok). rewrite E. left.
Defined.

Lemma admission_bounded_witness :
  Z.of_nat (length (sessions_ demo_traded)) = 1 /\
  Z.of_nat (length (sessions_ demo_traded)) + Z.of_nat (length (handshaking_ demo_traded)) <= cfg_max_sessions (cfg_ demo_traded).
Proof. split; [vm_compute; reflexivity|]. apply (admission_bounded demo_traded demo_traded_ok). Defined.

Lemma no_session_stranded_witness :
  closing_ (session_of demo_broken 1) = true /\
  (op_writes (session_of demo_broken 1) = 1%nat \/ close_frame_sent_ (session_of demo_broken 1) = true).
Proof.
  split; [vm_compute; reflexivity|].
  destruct (no_session_stranded demo_broken demo_broken_ok) as [Hs _].
  destruct (Hs 1) as (s & E & _ & _ & Hw); [vm_compute; left|].
  assert (s = session_of demo_broken 1) as <- by (unfold session_of; rewrite E; reflexivity).
  apply Hw. left. vm_compute in E. injection E as <-. reflexivity.
Defined.

Lemma shutdown_converges_witness :
  sessions_ demo_stopping = [1] /\
  match io_run (concat (map sever (sessions_ demo_stopping))) demo_stopping with
  | Looping w' => sessions_ w' = [] /\ finalized_ w' = true
  | Died _ w' => finalized_ w' = true
  | Undefined => False
  end.
Proof.
  split; [vm_compute; reflexivity|].
  apply (shutdown_converges demo_stopping demo_stopping_ok). vm_compute. reflexivity.
Defined.
End Concrete.
