(* ===== verification/WireClaims.v ===== *)
(** * Every frame a server sends can be read

    The composition of the whole server with the codec it is configured with:
    from the bytes of the feed file and the bytes of the peers' frames to the bytes on the wire. *)

From Stdlib Require Import ZArith Ascii String List Lia.
From stdpp Require Import base tactics list option strings gmap.
From S2P Require Import Prelude Types Protocol Engine EngineInv EngineSpec Outbox Utf8 Preflight Codec JsonTokens CodecProps CodecRoundtrip CodecText CodecTuned.
From S2P Require Import EngineText Feed FeedProps BenchRecorder TelemetryRing Telemetry Wp World MakeCodec Shutdown Session Server Keeps Startup Wire ServerDemo ServerClaims.

Section Boot.
Context `{Os, Env, ICodec, !TextCodec}.

Lemma new_engine_text i cap e : inst_wire i -> new_engine i cap = Ret e -> engine_text e.
Proof.
  intros Hi Hn. pose proof (engine_inv_init _ _ _ Hn) as He. revert Hn. unfold new_engine.
  repeat (case_match; [done|]). intros [= <-]. by split.
Qed.

Lemma initial_clean c e feed rec : engine_text e -> Forall event_fits feed -> clean (initial c e feed rec).
Proof. intros He Hf. split; try done; by apply small_u64. Qed.

Lemma construct_clean c i w : inst_wire i -> construct c i = Ret w -> clean w.
Proof.
  intros Hi. unfold construct. destruct (new_engine i _) as [e|?|] eqn:Ee; [|done..]. cbn [bind_outcome].
  destruct (validate c); [done|]. destruct (if measured c then _ else _) as [rec|?|]; [|done..]. cbn [bind_outcome].
  destruct (load_feed _ _) as [[?|feed]|] eqn:El; try done. destruct (listens _); [|done]. intros [= <-].
  apply initial_clean; [by eapply new_engine_text|by eapply load_feed_fits].
Qed.

Lemma keep_start_run : keeps clean start_run (fun _ => True).
Proof. unfold start_run, schedule_feed, accept_next. repeat kstep. Qed.

Lemma boot_clean c i w : inst_wire i -> boot c i = Ret w -> clean w.
Proof.
  intros Hi. unfold boot. destruct (construct c i) as [w0|?|] eqn:Ec; [|done..]. cbn [bind_outcome].
  destruct (open_artifacts _); [|done..]. cbn [bind_outcome]. unfold run.
  pose proof (keep_start_run w0 [] (construct_clean _ _ _ Hi Ec)) as Hs.
  destruct (start_run w0 []) as [[[[]|?|] w1] o]; [|done..]. cbn [bind_outcome]. intros [= <-]. apply Hs.
Qed.

Lemma clean_wire w e s k m f :
  clean w -> heap w !! e = Some s -> wire s !! k = Some (m, f) -> sendable m /\ f = World.encode m.
Proof.
  intros Hw Hs Hk. pose proof (sc_wire _ (cl_sess _ Hw e s Hs)) as Hall. exact (Forall_lookup_1 _ _ _ _ Hall Hk).
Qed.
End Boot.

(** What a run leaves, whether it still loops or an exception ended it. *)
Definition left_in (w : World) (l : Life) : Prop := match l with Looping w' | Died _ w' => w' = w | Undefined => False end.

Section Claims.
Context `{Os, Env} (lib : Libraries) (c : Config).
#[local] Instance configured_codec : ICodec := make_codec lib (cfg_codec c).

(** C16 End to end, on either codec: whatever the feed file and the peers send
    and whatever allocations fail, every frame a server has handed to a socket
    is one strict JSON object the protocol's own preflight accepts, from which a
    reader recovers exactly the message the server meant, provided an ack's
    measured service time fits its 64-bit field. *)
Theorem wire_reads_back i w0 evs w e s k m f :
  libraries_ok lib -> inst_wire i -> boot c i = Ret w0 -> left_in w (io_run evs w0) ->
  heap w !! e = Some s -> wire s !! k = Some (m, f) -> svc_fits m ->
  exists kvs, frame_preflight f = Some (inr kvs) /\ read_out kvs = Some m.
Proof.
  intros Hlib Hi Hb Hr Hs Hk Hm. pose proof (make_codec_text lib Hlib (cfg_codec c) : TextCodec) as Ht.
  pose proof (io_run_clean evs w0 (boot_clean _ _ _ Hi Hb)) as Hc.
  assert (clean w) as Hw by (destruct (io_run evs w0); [..|done]; cbn in Hr; by subst).
  destruct (clean_wire _ _ _ _ _ _ Hw Hs Hk) as [Hsend ->].
  apply make_codec_encode; [done|by apply sendable_wf].
Qed.
End Claims.

Section Concrete.
#[local] Existing Instances demo_env demo_codec demo_os.

(** The ack of the client's order, its measured service time in it. *)
Definition demo_ack : OutMsg := OutAck (mkOrderAck 1 2 1 "a" 1 "live" 10000000).

Lemma wire_reads_back_witness :
  exists kvs, frame_preflight (World.encode demo_ack) = Some (inr kvs) /\ read_out kvs = Some demo_ack.
Proof.
  apply (wire_reads_back ref_libraries demo_cfg (ServerDemo.demo_inst) demo_w0 (demo_join ++ demo_trade) demo_traded 1
    (session_of demo_traded 1) 1%nat demo_ack).
  - exact ref_libraries_ok.
  - unfold inst_wire, two63. cbn. split; [by apply utf8_valid_spec; vm_compute|lia].
  - exact demo_boots.
  - vm_compute. reflexivity.
  - vm_compute. reflexivity.
  - vm_compute. reflexivity.
  - cbn. unfold is_i64, two63. lia.
Defined.
End Concrete.
