(* ===== verification/ServerDrain.v ===== *)
(** * A closing session drains

    Once a session is closing, each write that completes either sends the close
    frame or writes the next report of the queue: the drain ends after as many
    completions as there are reports, plus one, and what was written by then is
    what was queued. *)

From Stdlib Require Import ZArith Ascii String List Lia.
From stdpp Require Import base tactics list option strings gmap sorting.
From S2P Require Import Prelude Types Protocol Engine EngineInv Outbox Utf8 Preflight Feed BenchRecorder TelemetryRing.
From S2P Require Import Telemetry Wp EngineOwners World Shutdown Session SessionInv SessionOps SessionWrite SessionRead.
From S2P Require Import ShutdownInv ServerInv ServerSteps Server ServerLoop ServerDoor ServerRun ServerDispatch Startup ServerProps Keeps ServerDemo ServerClaims.

(** A report without what its delivery stamps on it: the number, the epoch and the
    service time of an ack. *)
Definition body (m : OutMsg) : OutMsg :=
  match stamp 0 0 m with OutAck a => OutAck (set_svc 0 a) | m => m end.

Lemma body_stamp seq epoch m : body (stamp seq epoch m) = body m.
Proof. by destruct m as [[]|[]|[]|[]|[]]. Qed.

Lemma body_svc ns a : body (OutAck (set_svc ns a)) = body (OutAck a).
Proof. by destruct a. Qed.

(** What the frames handed to the socket say. *)
Definition said (s : Session) : list OutMsg := map (fun x => body x.1) (wire s).

(** What a closing session still owes its peer: the queued reports, when its close
    is one that drains and the close frame is not out. *)
Definition owed (s : Session) : list OutMsg :=
  if drain_then_close_ s && negb (close_frame_sent_ s) then map body (reports_ (outbox_ s)) else [].

Section Drain.
Context `{Env, ICodec} (e : Z) (before debt : list OutMsg).
Implicit Types (w : World) (s : Session).

(** The session is [s]. *)
Definition at_session s w : Prop := heap w !! e = Some s.

(** The debt is paid, up to the first report that cannot be encoded. *)
Definition paid s : Prop :=
  exists k, said s = before ++ take k debt /\
    (k = length debt \/ exists m, debt !! k = Some (body m) /\ encode m = []).

(** The session is closing, and its close frame is out or fewer than [n] reports
    stand before it; what was said and what is owed make up the whole. *)
Record draining (n : nat) s : Prop := {
  dr_up : torn_down_ s = false;
  dr_closing : closing_ s = true;
  dr_left : if close_frame_sent_ s then paid s
            else (length (reports_ (outbox_ s)) < n)%nat /\ before `prefix_of` said s /\ said s ++ owed s = before ++ debt;
  dr_reports : Forall (fun m => is_tob m = false) (reports_ (outbox_ s));
}.
Definition drains (n : nat) w : Prop := exists s, heap w !! e = Some s /\ draining n s.

#[local] Instance at_stable s : Stable (at_session s).
Proof. intros w w' _ _ _ _ E. unfold at_session. by rewrite E. Qed.

Lemma at_drains n s w : draining n s -> at_session s w -> drains n w.
Proof. intros Hd Hs. by exists s. Qed.

(** ** Running from a known session *)

Lemma triple_this s (k : Session -> M World unit) Q :
  triple (at_session s) (k s) Q -> triple (at_session s) (this e ≫= k) Q.
Proof.
  intros Hk w o Hs. unfold this, mbind, M_bind, get. red in Hs. rewrite Hs. cbn. by apply Hk.
Qed.

Lemma triple_update s f (k : M World unit) Q :
  triple (at_session (f s)) k Q -> triple (at_session s) (update e f;; k) Q.
Proof. intros Hk w o Hs. apply Hk. unfold at_session in *. cbn. by rewrite lookup_alter_eq, Hs. Qed.

Lemma triple_last s f (Q : unit -> World -> Prop) :
  (forall w, at_session (f s) w -> Q tt w) -> triple (at_session s) (update e f) Q.
Proof. intros Hq w o Hs. apply Hq. unfold at_session in *. cbn. by rewrite lookup_alter_eq, Hs. Qed.

Lemma triple_quiet {A} s (m : M World A) (k : A -> M World unit) Q :
  keep (at_session s) m -> (forall a, triple (at_session s) (k a) Q) -> triple (at_session s) (m ≫= k) Q.
Proof. intros Hm. apply triple_bind. by eapply triple_keeps. Qed.

(** The close frame goes out once the debt is paid. *)
Lemma triple_framed n s :
  torn_down_ s = false -> closing_ s = true -> close_frame_sent_ s = false -> write_inflight_ s = false ->
  Forall (fun m => is_tob m = false) (reports_ (outbox_ s)) -> paid s ->
  triple (at_session s) (send_close_frame e) (fun _ => drains n).
Proof.
  intros Ht Hc Hf Hw Hr Hp. unfold send_close_frame, async_close, arm_grace. apply triple_this. rewrite Hf, Ht, Hw. cbn [orb].
  do 2 apply triple_update. apply triple_last. intros w. apply at_drains. by split.
Qed.

(** An ack is stamped with a service time; nothing else of a message changes. *)
Lemma triple_stamp s m (k : OutMsg -> M World unit) Q :
  (forall m' q, body m' = body m -> is_tob m' = is_tob m -> triple (at_session (set_pending_svc (fun _ => q) s)) (k m') Q) ->
  triple (at_session s) (stamp_svc e m ≫= k) Q.
Proof.
  intros Hk. assert (set_pending_svc (fun _ => pending_svc_ s) s = s) as E by (by destruct s).
  destruct m as [t|a|c|r|f]; cbn [stamp_svc]; try (specialize (Hk _ (pending_svc_ s) eq_refl eq_refl); rewrite E in Hk; exact Hk).
  intros w o Hs. pose proof Hs as Hs0. red in Hs. unfold this, mbind, M_bind, get, assert_. rewrite Hs. cbn.
  destruct (pending_svc_ s) as [|x q] eqn:Eq; cbn; [done|].
  apply (Hk (OutAck (set_svc x a)) q); [apply body_svc|done|]. red. cbn. by rewrite lookup_alter_eq, Hs.
Qed.

(** Writing a report says it, or finds that it cannot be encoded. *)
Lemma triple_write_message s m Q :
  is_tob m = false -> closing_ s = true ->
  (forall m' q n, body m' = body m -> encode m' = [] ->
     triple (at_session (set_pending_svc (fun _ => q) (set_out_seq (fun _ => n) s))) (send_close_frame e) Q) ->
  (forall m' q f g t w, body m' = body m ->
     at_session (set_wire (fun l => l ++ [(m', encode m')]) (set_op_writes g (set_write_start_ns (fun _ => t)
       (set_write_inflight (fun _ => true) (set_pending_svc (fun _ => q) (set_out_seq f s)))))) w -> Q tt w) ->
  triple (at_session s) (write_message e m) Q.
Proof.
  intros Hm Hc Hbad Hgood. unfold write_message. apply triple_this, triple_update, triple_stamp.
  intros m' q Eb Et. rewrite body_stamp in Eb. rewrite is_tob_stamp, Hm in Et. case_bool_decide as Ee.
  - unfold latch_close. intros w o Hs. pose proof Hs as Hs0. red in Hs. unfold this, mbind, M_bind, get. rewrite Hs. cbn. rewrite Hc. cbn.
    exact (Hbad m' q _ Eb Ee w o Hs0).
  - apply triple_quiet; [apply keep_steady_ns; apply _|]. intros now.
    apply triple_quiet; [destruct m'; [done|..]; cbn [note_tob_out]; repeat kstep|]. intros _. unfold async_write.
    do 3 apply triple_update. apply triple_last. intros w Hs. by eapply Hgood.
Qed.

(** Splitting the debt at what was said. *)
Lemma paid_all s : said s ++ owed s = before ++ debt -> owed s = [] -> paid s.
Proof.
  intros E Ho. exists (length debt). rewrite Ho, app_nil_r in E. rewrite firstn_all. auto.
Qed.

Lemma owed_draining s : drain_then_close_ s = true -> close_frame_sent_ s = false -> owed s = map body (reports_ (outbox_ s)).
Proof. intros Hd Hf. unfold owed. by rewrite Hd, Hf. Qed.

(** The next report of the debt cannot be encoded. *)
Lemma paid_upto s m l m' :
  said s ++ body m :: l = before ++ debt -> before `prefix_of` said s -> body m' = body m -> encode m' = [] -> paid s.
Proof.
  intros E [x Hx] Eb Ee. rewrite Hx, <- app_assoc in E. apply app_inv_head in E. exists (length x). rewrite Hx. split.
  - f_equal. by rewrite <- E, take_app_length.
  - right. exists m'. rewrite Eb. split; [|done]. by rewrite <- E, list_lookup_middle.
Qed.

(** The session after a pop. *)
Definition popped_to q t s : Session :=
  set_outbox (fun _ => mkOutbox (report_hwm (outbox_ s)) (report_hwm_breached (outbox_ s)) (conflated (outbox_ s)) q t) s.

Lemma triple_popped s popped q t (Q : unit -> World -> Prop) k :
  pop (outbox_ s) = (popped, outbox_ (popped_to q t s)) ->
  triple (at_session (popped_to q t s)) (k popped (popped_to q t s)) Q ->
  triple (at_session s) (pop_outbox e ≫= fun popped => this e ≫= k popped) Q.
Proof.
  intros Hb Hk w o Hs. red in Hs. unfold pop_outbox, this, mbind, M_bind, get. rewrite Hs. cbn. rewrite Hb.
  cbn. rewrite lookup_alter_eq, Hs. cbn. apply Hk. red. cbn. by rewrite lookup_alter_eq, Hs.
Qed.

(** A report popped is a report said, or the debt stops there. *)
Lemma triple_pay n s m q t :
  torn_down_ s = false -> closing_ s = true -> drain_then_close_ s = true -> close_frame_sent_ s = false ->
  write_inflight_ s = false -> is_tob m = false -> Forall (fun m => is_tob m = false) q ->
  (length q < n)%nat -> before `prefix_of` said s -> said s ++ map body (m :: q) = before ++ debt ->
  triple (at_session (popped_to q t s)) (write_message e m) (fun _ => drains n).
Proof.
  intros Ht Hc Hd Hf Hw Hm Hq Hn Hp E. apply triple_write_message; [done|done|..].
  - intros m' p f Eb Ee. apply triple_framed; [done..|]. exact (paid_upto s m (map body q) m' E Hp Eb Ee).
  - intros m' p f g now w Eb. apply at_drains. split; [done|done| |done].
    change (close_frame_sent_ _) with (close_frame_sent_ s). rewrite Hf. cbn [outbox_ reports_ set_wire set_op_writes].
    assert (forall s', wire s' = wire s ++ [(m', encode m')] -> said s' = said s ++ [body m]) as Hsaid.
    { intros s' Es. unfold said. by rewrite Es, map_app, <- Eb. }
    erewrite Hsaid by done. split_and!; [done|by apply prefix_app_r|].
    rewrite owed_draining by done. rewrite <- app_assoc. exact E.
Qed.

Lemma triple_pump_loop n fuel s :
  draining (S n) s -> drain_then_close_ s = true -> close_frame_sent_ s = false -> write_inflight_ s = false ->
  triple (at_session s) (pump_loop fuel e) (fun _ => drains n).
Proof.
  revert s. induction fuel as [|fuel IH]; intros s Hdr Hd Hf Hw; cbn [pump_loop]; [by intros w o|].
  pose proof Hdr as [Ht Hc Hl Hr]. rewrite Hf, (owed_draining _ Hd Hf) in Hl. destruct Hl as (Hn & Hp & Hdebt).
  destruct (reports_ (outbox_ s)) as [|m q] eqn:Er; [destruct (tob_ (outbox_ s)) as [t|] eqn:Et|].
  - eapply (triple_popped s _ [] None); [unfold pop; by rewrite Er, Et|]. change (closing_ _) with (closing_ s). rewrite Hc. cbn [is_tob andb].
    apply IH; [|done..]. split; [done|done| |by constructor]. change (close_frame_sent_ _) with (close_frame_sent_ s). rewrite Hf.
    split_and!; [cbn; lia|done|]. by rewrite owed_draining.
  - eapply (triple_popped s _ [] None); [unfold pop; rewrite Er, Et; unfold popped_to; cbn; by destruct (outbox_ s); cbn in *; subst|].
    change (closing_ _) with (closing_ s). rewrite Hc. cbn [when].
    apply triple_framed; [done..|by constructor|]. exists (length debt). rewrite firstn_all. cbn in Hdebt. rewrite app_nil_r in Hdebt. auto.
  - apply Forall_cons in Hr as [Hm Hq]. eapply (triple_popped s _ q (tob_ (outbox_ s))); [unfold pop; by rewrite Er|].
    change (closing_ _) with (closing_ s). rewrite Hc, Hm. cbn [andb]. cbn [length] in Hn. apply triple_pay; try done. lia.
Qed.

Lemma triple_write_done n s :
  draining (S n) s -> triple (at_session s) (dispatch (EvWrite e WrOk)) (fun _ => drains n).
Proof.
  intros Hd. pose proof Hd as [Ht Hc Hl Hr]. cbn [dispatch]. unfold on_write. do 2 apply triple_update. apply triple_this. cbn [torn_down_ set_write_inflight set_op_writes].
  rewrite Ht. apply triple_quiet; [apply keep_steady_ns; apply _|]. intros now.
  apply triple_quiet; [apply keep_other; [apply _|done]|]. intros _. unfold pump. apply triple_this.
  cbn [torn_down_ write_inflight_ closing_ close_frame_sent_ drain_then_close_ set_write_inflight set_op_writes]. rewrite Ht, Hc. cbn [orb andb].
  destruct (close_frame_sent_ s) eqn:Hf.
  - apply triple_ret. intros w. apply at_drains. split; [done|done| |done]. cbn. by rewrite Hf.
  - destruct Hl as (Hn & Hp & Hdebt). destruct (drain_then_close_ s) eqn:Hdr; cbn [negb].
    + apply triple_pump_loop; [|done..]. split; [done|done| |done]. cbn. by rewrite Hf.
    + apply triple_framed; [done..|]. apply (paid_all s Hdebt). unfold owed. by rewrite Hdr.
Qed.
(** ** Whole drains *)

(** A closing session with its frame unsent has a write in flight. *)
Lemma draining_enabled n s w : inv w -> heap w !! e = Some s -> draining n s ->
  close_frame_sent_ s = true \/ enabled (EvWrite e WrOk) w = true.
Proof.
  intros Hi Hs [Ht Hc _ _]. destruct (b_sess _ (in_base _ Hi) e s Hs) as [Hcore Hp _].
  destruct Hp as [Hp|[Hp|[Hp|(Hp & _)]]]; [congruence|right|by left|congruence].
  cbn. unfold has_session. rewrite Hs, (co_write _ _ Hcore), Hp. done.
Qed.

(** [k] successful completions of the session's writes. *)
Definition writes_done (orcs : list oracle) : list (Event * oracle) := map (pair (EvWrite e WrOk)) orcs.

Lemma writes_drain orcs w :
  inv w -> next_epoch_ w + Z.of_nat (length orcs) < two64 -> drains (length orcs) w ->
  match io_run (writes_done orcs) w with Looping w' => drains 0 w' | _ => True end.
Proof.
  revert w. induction orcs as [|orc orcs IH]; intros w Hi Hlim Hd; [exact Hd|]. cbn [writes_done map io_run].
  cbn [length] in *. destruct Hd as (s & Hs & Hd). destruct (enabled (EvWrite e WrOk) w) eqn:He.
  - pose proof (triple_write_done (length orcs) s Hd w orc Hs) as Hstep.
    pose proof (dispatch_advance _ w Hi He ltac:(lia) orc) as Hadv.
    destruct (dispatch (EvWrite e WrOk) w orc) as [[[[]|x|] w'] o]; [| |done].
    + destruct Hadv as [Hi' _ _ Hep _]. by apply IH; [|lia|].
    + by destruct (abort_run w' []) as [[[[]|?|] w''] o'].
  - apply IH; [done|lia|]. destruct (draining_enabled _ _ _ Hi Hs Hd) as [Hf|]; [|congruence].
    exists s. split; [done|]. destruct Hd as [? ? Hl ?]. rewrite Hf in Hl. split; [done|done|by rewrite Hf|done].
Qed.
End Drain.

Section Claims.
Context `{Os, Env, ICodec}.
Implicit Types (w : World) (s : Session).

(** C17 Drains end and pay what is owed: from any reachable state, after at most
    one completed write for each queued report and one more, a closing session's
    close frame is out and its close code unchanged, whatever allocations fail on the way.  When its
    close is one that drains (the policy closes and the shutdown), every queued
    report was written before the frame, in order and with the contents the engine gave
    it, up to the first that cannot be encoded; any other close writes none of them.  Unless an
    exception ends the run, which then finalises. *)
Theorem drain_terminates w e s orcs :
  reachable_server w -> next_epoch_ w + Z.of_nat (length orcs) < two64 ->
  heap w !! e = Some s -> closing_ s = true -> torn_down_ s = false ->
  (length (reports_ (outbox_ s)) < length orcs)%nat ->
  match io_run (writes_done e orcs) w with
  | Looping w' => exists s' k, heap w' !! e = Some s' /\ close_frame_sent_ s' = true /\ closing_ s' = true /\
      close_code_ s' = close_code_ s /\ taken s' = taken s /\
      said s' = said s ++ take k (owed s) /\
      (k = length (owed s) \/ exists m, owed s !! k = Some (body m) /\ encode m = [])
  | Died _ w' => finalized_ w' = true /\ stopping_ w' = true
  | Undefined => False
  end.
Proof.
  intros Hr%server_reachable_inv Hlim Hs Hc Ht Hl. pose proof (b_sess _ (in_base _ Hr) e s Hs) as [Hcore _ _].
  assert (drains e (said s) (owed s) (length orcs) w) as Hd.
  { exists s. split; [done|]. split; [done|done| |apply Hcore]. destruct (close_frame_sent_ s) eqn:Hf; [|done].
    exists 0%nat. unfold owed. rewrite Hf, andb_false_r, app_nil_r. auto. }
  pose proof (writes_drain e _ _ orcs w Hr Hlim Hd) as Hdr. pose proof (io_run_spec (writes_done e orcs) w Hr) as Hrun.
  unfold writes_done in Hrun at 1. rewrite length_map in Hrun. specialize (Hrun Hlim).
  destruct (io_run (writes_done e orcs) w) as [w'| |]; [|done..]. destruct Hrun as (_ & Hg & _).
  destruct Hdr as (s' & Hs' & [_ Hc' Hf _]). destruct (close_frame_sent_ s') eqn:Ef; [|lia]. destruct Hf as (k & Hk & Hk').
  destruct (Hg e s Hs) as (s1 & Hs1 & G). assert (s1 = s') as -> by congruence. exists s', k.
  split_and!; [done..|by apply (gr_closing _ _ G)| |done|done]. apply (gr_quiet _ _ G). by rewrite Hc.
Qed.
End Claims.

Section Concrete.
#[local] Existing Instances demo_env demo_codec demo_os.

(** The market moves while the session's peer does not read; then it closes. *)
Definition demo_backlog : list (Event * oracle) :=
  [(EvFeed, []); (EvRead 1 (RdOk false (demo_frame "1" "a")), []); (EvRead 1 (RdOk false (demo_frame "2" "b")), []);
   (EvStop, [])].
Definition demo_draining : World := world_of (io_run (demo_join ++ demo_backlog) demo_w0).

Lemma demo_draining_ok : reachable_server demo_draining.
Proof. by apply (demo_reachable_by (demo_join ++ demo_backlog)); vm_compute. Qed.

Lemma drain_terminates_witness :
  length (reports_ (outbox_ (session_of demo_draining 1))) = 2%nat /\ length (owed (session_of demo_draining 1)) = 2%nat /\
  match io_run (writes_done 1 [[]; []; []]) demo_draining with
  | Looping w' => exists s', heap w' !! 1 = Some s' /\ close_frame_sent_ s' = true /\ close_code_ s' = going_away /\
      exists k, said s' = said (session_of demo_draining 1) ++ take k (owed (session_of demo_draining 1)) /\
        (k = length (owed (session_of demo_draining 1)) \/
         exists m, owed (session_of demo_draining 1) !! k = Some (body m) /\ encode m = [])
  | Died _ w' => finalized_ w' = true
  | Undefined => False
  end.
Proof.
  do 2 (split; [vm_compute; reflexivity|]).
  assert (heap demo_draining !! 1 = Some (session_of demo_draining 1)) as Hs by (vm_compute; reflexivity).
  pose proof (drain_terminates demo_draining 1 (session_of demo_draining 1) [[]; []; []] demo_draining_ok
    ltac:(vm_compute; reflexivity) Hs ltac:(vm_compute; reflexivity) ltac:(vm_compute; reflexivity)
    ltac:(vm_compute; lia)) as Hd.
  destruct (io_run _ _) as [w'| |]; [|exact (proj1 Hd)|exact Hd]. destruct Hd as (s' & k & H1 & H2 & _ & H3 & _ & H4 & H5).
  exists s'. split; [exact H1|]. split; [exact H2|]. split; [rewrite H3; vm_compute; reflexivity|].
  exists k. exact (conj H4 H5).
Defined.
End Concrete.
