(* ===== verification/Main.v ===== *)
(** * The command line ([cpp/src/main.cpp])

    [parse_args] over the arguments past the program's name, and what [main]
    makes of the run: exit status 0 for a run that ended, 2 for a usage error or
    an escaped exception.  The lines it prints are not modelled. *)

From Stdlib Require Import ZArith Ascii String List Lia.
From stdpp Require Import base tactics list option strings gmap.
From S2P Require Import Prelude Types Protocol Engine EngineInv Outbox Utf8 Preflight JsonGrammar Codec JsonTokens Feed.
From S2P Require Import FeedProps BenchRecorder TelemetryRing Telemetry World Shutdown Session Server Startup ServerDemo.

(** ** Integers *)

(** [isspace] in the C locale. *)
Definition is_space (c : ascii) : bool := (ord c =? 32) || ((9 <=? ord c) && (ord c <=? 13)).

(** [std::stoll]: the value and what follows it; [None] when it throws. *)
Definition stoll (s : bytes) : option (Z * bytes) :=
  let s1 := drop_while is_space s in
  let '(negative, s2) :=
    match s1 with
    | "-"%char :: r => (true, r)
    | "+"%char :: r => (false, r)
    | _ => (false, s1)
    end in
  let d := take_while is_dec_digit s2 in
  let z := if negative : bool then - dec_value d else dec_value d in
  if bool_decide (d = []) || negb (bool_decide (is_i64 z)) then None else Some (z, drop_while is_dec_digit s2).

Definition parse_int (flag value : string) (min max : Z) : string + Z :=
  match stoll (text value) with
  | Some (out, []) =>
      if (out <? min) || (max <? out) then inl (flag ++ ": out of range: " ++ value)%string else inr out
  | _ => inl (flag ++ ": not an integer: " ++ value)%string
  end.

(** ** Flags *)

Definition with_port (v : Z) (c : Config) : Config :=
  mkConfig v (cfg_bind_address c) (cfg_feed_path c) (cfg_codec c) (cfg_feed_interval_ms c) (cfg_loop_feed c)
    (cfg_report_hwm c) (cfg_bench_out c) (cfg_telemetry_out c) (cfg_telemetry_verbose c)
    (cfg_idle_timeout_ms c) (cfg_upgrade_timeout_ms c) (cfg_max_session_entries c) (cfg_so_sndbuf c)
    (cfg_handle_signals c) (cfg_max_sessions c).
Definition with_bind_address (v : string) (c : Config) : Config :=
  mkConfig (cfg_port c) v (cfg_feed_path c) (cfg_codec c) (cfg_feed_interval_ms c) (cfg_loop_feed c)
    (cfg_report_hwm c) (cfg_bench_out c) (cfg_telemetry_out c) (cfg_telemetry_verbose c)
    (cfg_idle_timeout_ms c) (cfg_upgrade_timeout_ms c) (cfg_max_session_entries c) (cfg_so_sndbuf c)
    (cfg_handle_signals c) (cfg_max_sessions c).
Definition with_feed_path (v : string) (c : Config) : Config :=
  mkConfig (cfg_port c) (cfg_bind_address c) v (cfg_codec c) (cfg_feed_interval_ms c) (cfg_loop_feed c)
    (cfg_report_hwm c) (cfg_bench_out c) (cfg_telemetry_out c) (cfg_telemetry_verbose c)
    (cfg_idle_timeout_ms c) (cfg_upgrade_timeout_ms c) (cfg_max_session_entries c) (cfg_so_sndbuf c)
    (cfg_handle_signals c) (cfg_max_sessions c).
Definition with_codec (v : CodecKind) (c : Config) : Config :=
  mkConfig (cfg_port c) (cfg_bind_address c) (cfg_feed_path c) v (cfg_feed_interval_ms c) (cfg_loop_feed c)
    (cfg_report_hwm c) (cfg_bench_out c) (cfg_telemetry_out c) (cfg_telemetry_verbose c)
    (cfg_idle_timeout_ms c) (cfg_upgrade_timeout_ms c) (cfg_max_session_entries c) (cfg_so_sndbuf c)
    (cfg_handle_signals c) (cfg_max_sessions c).
Definition with_feed_interval_ms (v : Z) (c : Config) : Config :=
  mkConfig (cfg_port c) (cfg_bind_address c) (cfg_feed_path c) (cfg_codec c) v (cfg_loop_feed c)
    (cfg_report_hwm c) (cfg_bench_out c) (cfg_telemetry_out c) (cfg_telemetry_verbose c)
    (cfg_idle_timeout_ms c) (cfg_upgrade_timeout_ms c) (cfg_max_session_entries c) (cfg_so_sndbuf c)
    (cfg_handle_signals c) (cfg_max_sessions c).
Definition with_loop_feed (v : bool) (c : Config) : Config :=
  mkConfig (cfg_port c) (cfg_bind_address c) (cfg_feed_path c) (cfg_codec c) (cfg_feed_interval_ms c) v
    (cfg_report_hwm c) (cfg_bench_out c) (cfg_telemetry_out c) (cfg_telemetry_verbose c)
    (cfg_idle_timeout_ms c) (cfg_upgrade_timeout_ms c) (cfg_max_session_entries c) (cfg_so_sndbuf c)
    (cfg_handle_signals c) (cfg_max_sessions c).
Definition with_report_hwm (v : Z) (c : Config) : Config :=
  mkConfig (cfg_port c) (cfg_bind_address c) (cfg_feed_path c) (cfg_codec c) (cfg_feed_interval_ms c)
    (cfg_loop_feed c) v (cfg_bench_out c) (cfg_telemetry_out c) (cfg_telemetry_verbose c)
    (cfg_idle_timeout_ms c) (cfg_upgrade_timeout_ms c) (cfg_max_session_entries c) (cfg_so_sndbuf c)
    (cfg_handle_signals c) (cfg_max_sessions c).
Definition with_bench_out (v : string) (c : Config) : Config :=
  mkConfig (cfg_port c) (cfg_bind_address c) (cfg_feed_path c) (cfg_codec c) (cfg_feed_interval_ms c)
    (cfg_loop_feed c) (cfg_report_hwm c) v (cfg_telemetry_out c) (cfg_telemetry_verbose c)
    (cfg_idle_timeout_ms c) (cfg_upgrade_timeout_ms c) (cfg_max_session_entries c) (cfg_so_sndbuf c)
    (cfg_handle_signals c) (cfg_max_sessions c).
Definition with_telemetry_out (v : string) (c : Config) : Config :=
  mkConfig (cfg_port c) (cfg_bind_address c) (cfg_feed_path c) (cfg_codec c) (cfg_feed_interval_ms c)
    (cfg_loop_feed c) (cfg_report_hwm c) (cfg_bench_out c) v (cfg_telemetry_verbose c) (cfg_idle_timeout_ms c)
    (cfg_upgrade_timeout_ms c) (cfg_max_session_entries c) (cfg_so_sndbuf c) (cfg_handle_signals c)
    (cfg_max_sessions c).
Definition with_telemetry_verbose (v : bool) (c : Config) : Config :=
  mkConfig (cfg_port c) (cfg_bind_address c) (cfg_feed_path c) (cfg_codec c) (cfg_feed_interval_ms c)
    (cfg_loop_feed c) (cfg_report_hwm c) (cfg_bench_out c) (cfg_telemetry_out c) v (cfg_idle_timeout_ms c)
    (cfg_upgrade_timeout_ms c) (cfg_max_session_entries c) (cfg_so_sndbuf c) (cfg_handle_signals c)
    (cfg_max_sessions c).
Definition with_upgrade_timeout_ms (v : Z) (c : Config) : Config :=
  mkConfig (cfg_port c) (cfg_bind_address c) (cfg_feed_path c) (cfg_codec c) (cfg_feed_interval_ms c)
    (cfg_loop_feed c) (cfg_report_hwm c) (cfg_bench_out c) (cfg_telemetry_out c) (cfg_telemetry_verbose c)
    (cfg_idle_timeout_ms c) v (cfg_max_session_entries c) (cfg_so_sndbuf c) (cfg_handle_signals c)
    (cfg_max_sessions c).
Definition with_max_session_entries (v : Z) (c : Config) : Config :=
  mkConfig (cfg_port c) (cfg_bind_address c) (cfg_feed_path c) (cfg_codec c) (cfg_feed_interval_ms c)
    (cfg_loop_feed c) (cfg_report_hwm c) (cfg_bench_out c) (cfg_telemetry_out c) (cfg_telemetry_verbose c)
    (cfg_idle_timeout_ms c) (cfg_upgrade_timeout_ms c) v (cfg_so_sndbuf c) (cfg_handle_signals c)
    (cfg_max_sessions c).
Definition with_handle_signals (v : bool) (c : Config) : Config :=
  mkConfig (cfg_port c) (cfg_bind_address c) (cfg_feed_path c) (cfg_codec c) (cfg_feed_interval_ms c)
    (cfg_loop_feed c) (cfg_report_hwm c) (cfg_bench_out c) (cfg_telemetry_out c) (cfg_telemetry_verbose c)
    (cfg_idle_timeout_ms c) (cfg_upgrade_timeout_ms c) (cfg_max_session_entries c) (cfg_so_sndbuf c) v
    (cfg_max_sessions c).
Definition with_max_sessions (v : Z) (c : Config) : Config :=
  mkConfig (cfg_port c) (cfg_bind_address c) (cfg_feed_path c) (cfg_codec c) (cfg_feed_interval_ms c)
    (cfg_loop_feed c) (cfg_report_hwm c) (cfg_bench_out c) (cfg_telemetry_out c) (cfg_telemetry_verbose c)
    (cfg_idle_timeout_ms c) (cfg_upgrade_timeout_ms c) (cfg_max_session_entries c) (cfg_so_sndbuf c)
    (cfg_handle_signals c) v.


Definition int_flag (flag : string) (min max : Z) (set : Z -> Config -> Config) (value : string) (c : Config) : string + Config :=
  match parse_int flag value min max with inl detail => inl detail | inr n => inr (set n c) end.

Definition codec_flag (value : string) (c : Config) : string + Config :=
  if String.eqb value "naive" then inr (with_codec Naive c)
  else if String.eqb value "tuned" then inr (with_codec Tuned c)
  else inl "--codec: expected naive|tuned"%string.

(** The flags that take a value. *)
Definition value_flag (arg : string) : option (string -> Config -> string + Config) :=
  if String.eqb arg "--port" then Some (int_flag arg 0 65535 with_port)
  else if String.eqb arg "--bind" then Some (fun v c => inr (with_bind_address v c))
  else if String.eqb arg "--feed" then Some (fun v c => inr (with_feed_path v c))
  else if String.eqb arg "--codec" then Some codec_flag
  else if String.eqb arg "--interval-ms" then Some (int_flag arg 0 86400000 with_feed_interval_ms)
  else if String.eqb arg "--bench-out" then Some (fun v c => inr (with_bench_out v c))
  else if String.eqb arg "--hwm" then Some (int_flag arg 1 16777216 with_report_hwm)
  else if String.eqb arg "--telemetry-out" then Some (fun v c => inr (with_telemetry_out v c))
  else if String.eqb arg "--max-sessions" then Some (int_flag arg 1 4096 with_max_sessions)
  else if String.eqb arg "--max-session-entries" then Some (int_flag arg 1 16777216 with_max_session_entries)
  else if String.eqb arg "--upgrade-timeout-ms" then Some (int_flag arg 1 86400000 with_upgrade_timeout_ms)
  else None.

(** What parsing comes to: the version text and exit 0, a usage error and exit
    2, or a configuration. *)
Inductive Parsed := Version | Usage (detail : string) | Configured (c : Config).

Definition finish_args (c : Config) (verbose_requested : bool) : Parsed :=
  if String.eqb (cfg_feed_path c) "" then Usage "--feed is required"
  else Configured (with_telemetry_verbose (verbose_requested && String.eqb (cfg_bench_out c) "") c).

Fixpoint parse_loop (args : list string) (c : Config) (verbose_requested : bool) : Parsed :=
  match args with
  | [] => finish_args c verbose_requested
  | arg :: rest =>
      if String.eqb arg "--version" then Version
      else if String.eqb arg "--loop" then parse_loop rest (with_loop_feed true c) verbose_requested
      else if String.eqb arg "--telemetry-verbose" then parse_loop rest c true
      else
        match value_flag arg with
        | None => Usage ("unknown argument: " ++ arg)
        | Some set =>
            match rest with
            | [] => Usage (arg ++ ": missing value")
            | value :: rest' =>
                match set value c with
                | inl detail => Usage detail
                | inr c' => parse_loop rest' c' verbose_requested
                end
            end
        end
  end.

Definition parse_args (args : list string) : Parsed := parse_loop args (with_handle_signals true default_config) false.

(** ** The program *)

Section Program.
Context `{Os, Env, ICodec}.

Definition kInstrument : Instrument := default_instrument "MOCKUSDT".

(** The exit status, for the completions the environment makes of the run;
    [None] for a run still in its loop, or undefined. *)
Definition main_ (args : list string) (evs : list (Event * oracle)) : option Z :=
  match parse_args args with
  | Version => Some 0
  | Usage _ => Some 2
  | Configured c =>
      match boot c kInstrument with
      | Ret w =>
          match io_run evs w with
          | Looping w' => if finalized_ w' then Some 0 else None
          | Died _ _ => Some 2
          | Undefined => None
          end
      | Throw _ => Some 2
      | UB => None
      end
  end.
End Program.

(** ** Integers, as the flags take them *)

Lemma stoll_dec z : is_i64 z -> stoll (dec_bytes z) = Some (z, []).
Proof.
  intros Hz. unfold stoll. assert (forall d, digits1 d -> drop_while is_space d = d /\ take_while is_dec_digit d = d /\
    drop_while is_dec_digit d = [] /\ match d with "-"%char :: r => (true, r) | "+"%char :: r => (false, r) | _ => (false, d) end = (false, d)) as Hd.
  { intros d [Hne Hd]. assert (take_while is_dec_digit d = d /\ drop_while is_dec_digit d = []) as [Ht Hr].
    { clear Hne. induction Hd as [|c d Hc _ [IH1 IH2]]; [done|]. cbn. rewrite Hc. by rewrite IH1. }
    destruct d as [|c d]; [done|]. apply Forall_cons in Hd as [Hc _]. split_and!; [|done|done|].
    - cbn. unfold is_space. apply digit_ord in Hc. by rewrite (proj2 (Z.eqb_neq _ _)), (proj2 (Z.leb_gt (ord c) 13)), andb_false_r by lia.
    - destruct (Ascii.eqb_spec c "-"), (Ascii.eqb_spec c "+"); subst; try done. by repeat (case_match; try done). }
  destruct (Z.le_gt_cases 0 z) as [Hnn|Hneg].
  - destruct (dec_bytes_nonneg z Hnn) as (H1 & Hv & _). destruct (Hd _ H1) as (E1 & E2 & E3 & E4). rewrite E1, E4, E2, E3, Hv.
    rewrite bool_decide_eq_false_2 by apply H1. by rewrite bool_decide_eq_true_2.
  - destruct (dec_bytes_neg z Hneg) as (d & -> & H1 & Hv & _). destruct (Hd _ H1) as (_ & E2 & E3 & _).
    change (drop_while is_space ("-"%char :: d)) with ("-"%char :: d). cbn beta iota zeta. rewrite E2, E3, Hv.
    rewrite bool_decide_eq_false_2 by apply H1. rewrite Z.opp_involutive. by rewrite bool_decide_eq_true_2.
Qed.

Lemma parse_int_dec flag z min max : is_i64 z -> min <= z <= max -> parse_int flag (dec_string z) min max = inr z.
Proof.
  intros Hz Hr. unfold parse_int, dec_string. rewrite list_ascii_of_string_of_list_ascii, (stoll_dec z Hz).
  by rewrite (proj2 (Z.ltb_ge _ _)), (proj2 (Z.ltb_ge _ _)) by lia.
Qed.

Lemma parse_int_range flag v min max n : parse_int flag v min max = inr n -> min <= n <= max.
Proof.
  unfold parse_int. destruct (stoll _) as [[out []]|]; [|done..]. destruct (_ || _) eqn:E; [done|]. intros [= <-]. zbool. lia.
Qed.

(** ** What a command line can configure *)

Record admissible (c : Config) : Prop := {
  adm_port : 0 <= cfg_port c <= 65535;
  adm_interval : 0 <= cfg_feed_interval_ms c <= 86400000;
  adm_hwm : 1 <= cfg_report_hwm c <= 16777216;
  adm_sessions : 1 <= cfg_max_sessions c <= 4096;
  adm_entries : 1 <= cfg_max_session_entries c <= 16777216;
  adm_upgrade : 1 <= cfg_upgrade_timeout_ms c <= 86400000;
  adm_idle : cfg_idle_timeout_ms c = 30000;
  adm_sndbuf : cfg_so_sndbuf c = 0;
  adm_signals : cfg_handle_signals c = true;
  adm_feed : cfg_feed_path c <> EmptyString;
  adm_verbose : cfg_telemetry_verbose c = true -> cfg_bench_out c = EmptyString;
}.

(** What parsing has settled before the closing checks. *)
Record settled (c : Config) : Prop := {
  se_port : 0 <= cfg_port c <= 65535;
  se_interval : 0 <= cfg_feed_interval_ms c <= 86400000;
  se_hwm : 1 <= cfg_report_hwm c <= 16777216;
  se_sessions : 1 <= cfg_max_sessions c <= 4096;
  se_entries : 1 <= cfg_max_session_entries c <= 16777216;
  se_upgrade : 1 <= cfg_upgrade_timeout_ms c <= 86400000;
  se_fixed : cfg_idle_timeout_ms c = 30000 /\ cfg_so_sndbuf c = 0 /\ cfg_handle_signals c = true;
}.

Lemma value_flag_settled arg set v c c' : value_flag arg = Some set -> set v c = inr c' -> settled c -> settled c'.
Proof.
  assert (forall flag lo hi f n, int_flag flag lo hi f v c = inr n -> exists z, n = f z c /\ lo <= z <= hi) as Hint.
  { unfold int_flag. intros flag lo hi f n. destruct (parse_int flag v lo hi) as [|z] eqn:E; [done|]. intros [= <-].
    exists z. split; [done|by eapply parse_int_range]. }
  unfold value_flag, codec_flag. intros Hf Hset []. repeat case_match; simplify_eq/=;
    try (apply Hint in Hset as (z & -> & ?)); repeat case_match; simplify_eq/=; by split.
Qed.

Lemma finish_admissible c v c' : settled c -> finish_args c v = Configured c' -> admissible c'.
Proof.
  intros []. unfold finish_args. destruct (String.eqb_spec (cfg_feed_path c) ""); [done|]. intros [= <-].
  split; try done; try (apply se_fixed0). cbn. intros [_ ?%String.eqb_eq]%andb_true_iff. done.
Qed.

Lemma parse_loop_admissible args c v c' : settled c -> parse_loop args c v = Configured c' -> admissible c'.
Proof.
  remember (length args) as n eqn:En. revert args c v En. induction (lt_wf n) as [n _ IH]. intros args c v -> Hc Hp.
  destruct args as [|arg rest]; cbn [parse_loop] in Hp; [by eapply finish_admissible|]. cbn [length] in IH.
  destruct (String.eqb arg "--version"); [done|].
  destruct (String.eqb arg "--loop"); [eapply IH; [|reflexivity| |exact Hp]; [lia|by destruct Hc]|].
  destruct (String.eqb arg "--telemetry-verbose"); [eapply IH; [|reflexivity|exact Hc|exact Hp]; lia|].
  destruct (value_flag arg) as [set|] eqn:Ev; [|done]. destruct rest as [|value rest']; [done|].
  destruct (set value c) as [|c1] eqn:Es; [done|]. eapply IH; [|reflexivity| |exact Hp]; [cbn; lia|by eapply value_flag_settled].
Qed.

(** *** A command line for every admissible configuration *)

Definition codec_name (k : CodecKind) : string := match k with Naive => "naive" | Tuned => "tuned" end.
Definition command_line (c : Config) : list string :=
  ["--port"; dec_string (cfg_port c); "--bind"; cfg_bind_address c; "--feed"; cfg_feed_path c;
   "--codec"; codec_name (cfg_codec c); "--interval-ms"; dec_string (cfg_feed_interval_ms c);
   "--bench-out"; cfg_bench_out c; "--hwm"; dec_string (cfg_report_hwm c); "--telemetry-out"; cfg_telemetry_out c;
   "--max-sessions"; dec_string (cfg_max_sessions c); "--max-session-entries"; dec_string (cfg_max_session_entries c);
   "--upgrade-timeout-ms"; dec_string (cfg_upgrade_timeout_ms c)]%string ++
  (if cfg_loop_feed c then ["--loop"]%string else []) ++ (if cfg_telemetry_verbose c then ["--telemetry-verbose"]%string else []).

Lemma parse_value arg value rest c v set c' :
  String.eqb arg "--version" = false -> String.eqb arg "--loop" = false -> String.eqb arg "--telemetry-verbose" = false ->
  value_flag arg = Some set -> set value c = inr c' -> parse_loop (arg :: value :: rest) c v = parse_loop rest c' v.
Proof. intros E1 E2 E3 Ev Es. cbn [parse_loop]. by rewrite E1, E2, E3, Ev, Es. Qed.

Lemma int_flag_dec flag z min max set c : is_i64 z -> min <= z <= max -> int_flag flag min max set (dec_string z) c = inr (set z c).
Proof. intros Hz Hr. unfold int_flag. by rewrite parse_int_dec. Qed.

(** Consume a flag and its value. *)
Ltac flag_value := erewrite parse_value; [|reflexivity..|first [apply int_flag_dec; [unfold is_i64, two63; lia|lia]|reflexivity]].

Lemma command_line_parses c : admissible c -> parse_args (command_line c) = Configured c.
Proof.
  intros []. unfold parse_args, command_line. 
  cbn [app]. flag_value. flag_value. flag_value. 
  erewrite parse_value; [|reflexivity..|instantiate (1 := with_codec (cfg_codec c) _); by destruct (cfg_codec c)].
  do 7 flag_value. cbn [app].
  assert (forall c1 vb, parse_loop ((if cfg_loop_feed c then ["--loop"%string] else []) ++
    (if cfg_telemetry_verbose c then ["--telemetry-verbose"%string] else [])) c1 vb =
    finish_args (if cfg_loop_feed c then with_loop_feed true c1 else c1) (vb || cfg_telemetry_verbose c)) as ->.
  { intros c1 vb. destruct (cfg_loop_feed c), (cfg_telemetry_verbose c); cbn; by rewrite ?orb_true_r, ?orb_false_r. }
  unfold finish_args.
  assert (forall c1, cfg_feed_path (if cfg_loop_feed c then with_loop_feed true c1 else c1) = cfg_feed_path c1) as -> by (by destruct (cfg_loop_feed c)).
  destruct c as [p b f k i l h bo to v idle up en snd sig se]. cbn in *. subst.
  destruct (String.eqb_spec f ""); [done|]. f_equal. destruct v; [rewrite (adm_verbose0 eq_refl)|]; by destruct l.
Qed.

(** *** What the constructors make of it *)

Section Constructors.
Context `{Os, Env, ICodec}.

Definition clobbers (c : Config) : Prop :=
  cfg_bench_out c <> ""%string /\ names_same_file (cfg_bench_out c) (cfg_telemetry_out c) = true.

Lemma new_engine_admissible c : admissible c -> exists e, new_engine kInstrument (cfg_max_session_entries c) = Ret e.
Proof.
  intros []. unfold new_engine. cbn [kInstrument default_instrument tick_size lot_size max_live_orders max_order_qty max_price min_price].
  rewrite (proj2 (Z.eqb_neq (cfg_max_session_entries c) 0)) by lia. by eexists.
Qed.

(** The three checks of the constructor an admissible configuration can fail. *)
Lemma validate_admissible c :
  admissible c ->
  match validate c with
  | None => cfg_telemetry_out c <> ""%string /\ ~ clobbers c /\ is_address (cfg_bind_address c) = true
  | Some what =>
      what = "Config: telemetry_out must name a path"%string /\ cfg_telemetry_out c = ""%string \/
      what = kDumpClobbers /\ clobbers c \/
      what = ("Config: bind_address is not an IP address: " ++ cfg_bind_address c)%string /\
        is_address (cfg_bind_address c) = false
  end.
Proof.
  intros []. unfold validate, clobbers.
  rewrite (proj2 (Z.eqb_neq (cfg_report_hwm c) 0)), (proj2 (Z.ltb_ge (cfg_feed_interval_ms c) 0)) by lia.
  rewrite adm_idle0, adm_sndbuf0, (proj2 (Z.leb_gt (cfg_upgrade_timeout_ms c) 0)), (proj2 (Z.eqb_neq (cfg_max_sessions c) 0)) by lia.
  destruct (String.eqb_spec (cfg_telemetry_out c) ""); [by left|].
  destruct (String.eqb_spec (cfg_bench_out c) ""); [|destruct (names_same_file _ _)]; cbn [negb andb];
    [destruct (is_address _); naive_solver| |destruct (is_address _); naive_solver].
  right. by left.
Qed.

Lemma load_feed_total path entry : exists r, load_feed path entry = Some r.
Proof. destruct entry; cbn; [by eexists..|]. apply load_feed_stream_spec. Qed.

(** C38 The command line can configure exactly the admissible configurations -
    every number in its flag's range, the fixed fields at their values, a feed
    named, verbosity only when nothing is measured.  From one of those the
    constructors of the engine and of the server build a server exactly when it
    names a telemetry file, its sample dump is another file, its address parses,
    its feed file loads and its port can be listened on; in every other case they
    throw, each failure its own exception, and nothing is undefined. *)
Theorem parse_args_admissible c :
  ((exists args, parse_args args = Configured c) <-> admissible c) /\
  (admissible c ->
   (exists e, new_engine kInstrument (cfg_max_session_entries c) = Ret e) /\
   let loaded := load_feed (cfg_feed_path c) (feed_entry (cfg_feed_path c)) in
   match construct c kInstrument with
   | Ret w => cfg_telemetry_out c <> ""%string /\ ~ clobbers c /\ is_address (cfg_bind_address c) = true /\
       loaded = Some (inr (feed_ w)) /\ listens (cfg_port c) = true
   | Throw x =>
       x = invalid_argument "Config: telemetry_out must name a path" /\ cfg_telemetry_out c = ""%string \/
       x = invalid_argument kDumpClobbers /\ clobbers c \/
       x = invalid_argument ("Config: bind_address is not an IP address: " ++ cfg_bind_address c) /\
         is_address (cfg_bind_address c) = false \/
       (exists what, x = runtime_error what /\ loaded = Some (inl what)) \/
       x = runtime_error "bind" /\ listens (cfg_port c) = false
   | UB => False
   end).
Proof.
  split; [split|].
  - intros [args Hp]. eapply parse_loop_admissible; [|exact Hp]. by split.
  - intros Ha. exists (command_line c). by apply command_line_parses.
  - intros Ha. destruct (new_engine_admissible c Ha) as [e He]. split; [by exists e|]. cbv zeta. unfold construct.
    rewrite He. cbn [bind_outcome]. pose proof (validate_admissible c Ha) as Hv. destruct (validate c) as [what|].
    { destruct Hv as [[-> ?]|[[-> ?]|[-> ?]]]; [by left|by right; left|by do 2 right; left]. }
    destruct (load_feed_total (cfg_feed_path c) (feed_entry (cfg_feed_path c))) as [r Hl]. rewrite Hl.
    destruct (measured c); cbn [bind_outcome new_recorder Nat.eqb BenchRecorder.kDefaultCapacity];
      (destruct r as [what|feed]; [do 3 right; left; by exists what|]);
      (destruct (listens (cfg_port c)) eqn:E; [by destruct Hv as (? & ? & ?)|by do 4 right]).
Qed.
End Constructors.

Section Concrete.
#[local] Existing Instances demo_env demo_codec.
#[local] Instance bare_os : Os := {|
  weakly_canonical _ := None; is_address _ := true; feed_entry _ := Directory; listens _ := true; telemetry_opens := true;
  marker_written := true; telemetry_stat := None; same_file := false; bench_fstat := None |}.

Lemma parse_args_admissible_witness :
  exists c, parse_args ["--feed"; "demo.feed"; "--port"; " +09000"; "--telemetry-verbose"; "--bench-out"; "b.bin"]%string = Configured c /\
    cfg_port c = 9000 /\ cfg_telemetry_verbose c = false /\ admissible c /\
    construct c kInstrument = Throw (runtime_error "demo.feed is a directory, not a feed file").
Proof.
  eexists. split; [vm_compute; reflexivity|]. match goal with |- context [construct ?c] => set (cfg := c) end.
  split; [reflexivity|]. split; [reflexivity|].
  assert (admissible cfg) as Ha.
  { apply (parse_args_admissible cfg). exists ["--feed"; "demo.feed"; "--port"; " +09000"; "--telemetry-verbose"; "--bench-out"; "b.bin"]%string. vm_compute. reflexivity. }
  split; [exact Ha|]. destruct (proj2 (parse_args_admissible cfg) Ha) as [_ Hc]. cbv zeta in Hc.
  destruct (construct cfg kInstrument) as [w|x|]; [by destruct Hc as (_ & _ & _ & ? & _)| |done].
  destruct Hc as [[_ ?]|[[_ [_ ?]]|[[_ ?]|[(what & -> & [= <-])|[_ ?]]]]]; [done..|reflexivity|done].
Defined.
End Concrete.

Example usage_errors :
  (parse_args ["--feed"; "f"; "--port"; "70000"], parse_args ["--feed"; "f"; "--hwm"; "12x"], parse_args ["--loop"], parse_args ["--feed"])%string =
  (Usage "--port: out of range: 70000", Usage "--hwm: not an integer: 12x", Usage "--feed is required", Usage "--feed: missing value")%string.
Proof. vm_compute. reflexivity. Qed.
